(* ===== verification/_CoqProject ===== *)
-Q . S2P
Prelude.v
Errors.v
GoMonad.v
Pool.v
GoStd.v
Types.v
Hash.v
Names.v
Json.v
JsonProofs.v
Database.v
World.v
Bucket.v
Store.v
BlobWriter.v
Outcomes.v
StoreInv.v
Triple.v
StoreSafe.v
StoreOps.v
ObjectOps.v
WriterOps.v
Listing.v
ListingSpec.v
Run.v
Frame.v
Refine.v
Samples.v
StoreProps.v
StoreProgress.v
Paging.v
ListProps.v
BucketProps.v
StoreFindings.v
ListFindings.v
StoreProgs.v
StoreMoves.v
StoreSteps.v
StoreSpec.v
StoreLin.v
PutLin.v
StoreRaces.v
StoreRaceFindings.v
StoreServed.v
GoNet.v
AwsChunked.v
ChunkedProofs.v
ChunkedBounds.v
S3Types.v
S3.v
Paths.v
S3Multipart.v
PartOps.v
S3Props.v
Multipart.v
S3Listing.v
S3Copy.v
Uploads.v
UploadOps.v
UploadSpec.v
Races.v
RaceProps.v
GcsTypes.v
Gcs.v
GcsProps.v
GcsListing.v
CrossProtocol.v
ContentRange.v
Resumable.v
