(* ===== verification/Prelude.v ===== *)
(** * objectstorage: a verification of the store and its two protocols

    The program is an object storage server: [pkg/store] keeps buckets as
    directories, object metadata in one SQLite database per bucket, and object
    content in a content-addressed blob store; [pkg/s3] and [pkg/gcs] are HTTP
    front ends over one and the same store.

    ** The model

    Every Go function is a function of the monad of [GoMonad]: from a state to
    an outcome (a value, an error, a panic, a loop that does not end, the death
    of the process) and the next state.  Strings are byte strings, [int64]s
    are integers with the wrap-around written out ([int64] below), maps are
    finite maps, errors are values of [Errors.error] with [errors_Is] and the
    text of [Error].

    The state of the store is [World.world]: directory entries and inodes below
    the root, the tables of the databases, the process's heap of [Bucket]
    handles and [BlobWriter]s, the clock, and a script of verdicts on the calls
    of the operating system and of SQLite that are still to come.  A verdict
    lets a call proceed, makes it fail (perhaps half-way: a write of the first
    bytes, a removal of some files), or kills the process.  When the script is
    used up every call proceeds; so a theorem about all worlds is a theorem
    about all sequences of failures and crashes, and [failing w] and
    [faults w = []] say which worlds may still see one.  A transaction works on
    its own copy of the tables, which its commit installs.

    A front end's state is a record of its own around a world ([S3.Server], [Gcs.Server]):
    the S3 server adds multipart uploads, the GCS server resumable sessions, both as a
    map from identifiers to pointers and a heap, since a request keeps the
    pointer while the map changes.  A handler maps a request to a response;
    [http.ServeContent] is one of the responses.

    ** Files, in the order they are compiled

    Foundations.  [Prelude]: bytes, [int64], string order, tactics, lemmas on
    lists and maps.  [Errors], [GoMonad] (with its weakest preconditions),
    [GoStd] and [GoNet] (strings, strconv, regexp, url, base64, time, HTTP),
    [Hash] (SHA-256, MD5, CRC-32C, executable), [Json], [JsonProofs] (the metadata column).

    The store.  [Types] is [types.go]; [Names] the two name checks; [Database]
    the schema and the SQL statements of [bucket.go] as functions on tables,
    with [scanObject]; [World] the calls of [os] and [database/sql]; [Bucket],
    [Store], [BlobWriter], [Listing] are [bucket.go], [store.go],
    [blobwriter.go] and [ListObjects], one definition per function.

    The store's proofs.  [StoreInv]: the invariant [world_ok].  [Triple]: a Hoare
    logic whose triples say how the world may look when a call returns, fails
    or dies.  [StoreSafe], [StoreOps], [ObjectOps], [WriterOps]: a triple for
    each operation.  [ListingSpec]: [ListObjects] against a reference listing
    that walks the objects in order once.  [Run]: the store as a step relation
    (a call, a death and a new start through [Open], the clock, the environment) and
    [reachable].  [Refine]: an abstract store, a map of buckets to objects
    with four atomic actions, and the simulation.  [Samples]: the worlds of the
    witnesses.  [Paging]: one argument for every client that follows cursors.
    [StoreProps], [StoreProgress], [ListProps], [BucketProps], [StoreFindings],
    [ListFindings]: the properties.

    Concurrent calls.  [Pool]: requests as programs whose calls are atomic and
    that lock and unlock mutexes between them, pools of requests that run in
    any interleaving, and a rely-guarantee logic for pools.  [Outcomes]: which
    errors calls return.  [StoreProgs]: the calls of the store as such programs,
    and that one that runs alone is the sequential call.  [StoreMoves],
    [StoreSteps]: what one step may do to the world under other calls' feet.
    [StoreSpec]: the abstract store in which each call does one thing at one
    instant, and the protocol that the calls follow.  [StoreLin], [PutLin]:
    those that create and describe buckets and put, describe, open and delete
    objects follow it.  [StoreRaces], [StoreRaceFindings], and [StoreServed] on
    every call of the store: the properties.

    The S3 front end.  [AwsChunked], [ChunkedProofs]: [awschunked.go] and its
    decoder's correctness.  [S3Types] is [xml.go]; [S3] [objects.go] and
    [buckets.go]; [Paths] the splitting of paths; [S3Multipart] [multipart.go]
    and [server.go].  [ChunkedBounds]: the decoder on any input.  [PartOps],
    [Multipart]: multipart uploads.  [S3Props], [S3Copy], [S3Listing]: objects,
    deletes, copies, and the cursors of listings.  [Frame], [Uploads],
    [UploadOps], [UploadSpec], [Races], [RaceProps]: concurrent requests on
    multipart uploads, on the logic of [Pool].

    The GCS front end.  [GcsTypes] is [resource.go]; [Gcs] the rest of
    [pkg/gcs].  [GcsProps]: preconditions and uploads in one request;
    [GcsListing]: page tokens; [ContentRange], [Resumable]: resumable uploads.
    [CrossProtocol]: written through one front end, read through the other.

    ** What the theorems show

    - Integrity: in every reachable state the reference counts are exact and the
      blob file of every live object is in place and has the recorded SHA-256,
      whatever failed or crashed on the way.
    - Atomicity: every call is one atomic action on the abstract store, or none,
      also when it fails or dies in the middle; each operation has a
      specification that names its results, its errors and their reasons.
      Generations rise, a create-only write replaces nothing, calls return.
    - Content: what [PutObject], an S3 PUT, a multipart upload, a GCS upload in one
      request or in chunks stored are the bytes that were sent, and they are read
      back, through the same front end or the other.  A reader gets content with
      the SHA-256 of what was written: equal to it, or a collision, since the store
      deduplicates by digest; the statements keep both cases.
    - Concurrency: whatever calls that create and describe buckets and put, describe,
      open and delete objects, or whatever requests on multipart uploads, are
      under way at the same time, they have the effects and the answers of
      single instants, in an order that agrees with their beginnings and ends;
      none panics; conditional puts lose no update.  Every call of the store,
      and every request on uploads, is served in the end.  Alone, each is the
      sequential operation (lemmas of [StoreProgs] and [RaceProps], which keep the two
      models of one function together).
    - Listings: if the prefix and the delimiter are empty or end in a byte below
      0x7f, a page is a page of the reference listing, and a client that follows
      the cursors, the store's tokens, S3's of both versions or GCS's, gets
      the whole listing once and in order.  [ListFindings] has what happens for
      other prefixes.
    - Progress: when the environment fails nothing, complete writes succeed.
    - Decoders: aws-chunked bodies, paths, checksums and [Content-Range] headers.
    - Errors: refused requests change nothing; and what the code does where it
      should not, each for every state and request in which it does
      ([StoreFindings], [ListFindings], and the last properties of the front ends);
      [StoreRaceFindings] has two schedules that go wrong.

    ** Concurrency

    A concurrent call of the store ([StoreProgs]) makes each call of the operating
    system and of SQLite as a step of its own, and [s.mu] and the [commitMu] of
    each bucket are mutexes of the pool; [DeleteBucket] takes the former while it
    has the latter, as the code does.  Two groups of calls are one step:
    those by which a bucket is opened, under [s.mu], and the statements of a
    transaction before its commit, which see only its own copy of the tables
    and run under [commitMu].  In between other calls run, the clock is set and
    the environment changes its mind about what fails.

    What makes this work is ownership: the writer of a put and its temporary
    file are its own until they are installed; the tables and blobs of a bucket
    are those of the call that has its [commitMu]; a new bucket's directory belongs to
    the call that made it until the database is there; everything else only grows.
    Each call is shown to keep to this ([StoreSpec.acts]) and to be right when
    others do ([StoreSpec.meanwhile]); [Pool] concludes for all pools.  The
    instant at which a call takes effect is that of its query, of the commit of
    its transaction, or of the opening of the bucket.  All of this is proved for
    hostile environments and for peaceful ones, which fail nothing, at once
    ([peace] in [StoreSpec]): in the latter a call only fails for a reason that
    the abstract store knows or that is in the request.

    A concurrent request on multipart uploads ([Uploads]) locks the mutex of its
    upload ([upload_mu]) and that of the server, which guards the table of
    uploads ([server_mu]); a completion locks the latter while it has the former.
    Its calls of the store are steps, which is what the theorem on the store's own
    calls is for.  The abstract server ([UploadSpec]) has a map of open and closed
    uploads and, for each request that has arrived, the deed it has done; an
    answer is tied to the deed.

    That calls return ([Pool.comes_to_end]) is a statement about runs: from any
    point of any run, there is no infinite continuation by the calls that are
    under way, and where it stops all have answered, unless the process died.
    It is proved from an order of the mutexes, which no call goes against: the
    mutex of the store or the server is 0, taken last.

    ** Fuel

    [scan_loop] runs for one iteration more than there can be results; each
    iteration but the last adds one, so it never runs out ([ListingSpec]; the
    theorems on listings ask for a prefix and a delimiter that end in ASCII, see
    [ListFindings] for others).  The decoder of aws-chunked bodies has fuel for
    each byte of its input and two more, as each header line takes a byte;
    running out is [None], which [ChunkedProofs] excludes.  A client of a listing
    ([Paging]) has fuel for one page more than there are objects.  The JSON parser,
    [strings_TrimSpace] and the cutting of a message into blocks have once or twice
    the length of their input.  All other recursion is structural.

    ** Not modelled, and why

    - [cmd/objectstorage/main.go]: flags, listeners and signals.
    - The bytes of XML and JSON documents that are answered: responses carry the
      documents as data.  The decoders of request documents and of MIME bodies
      are parameters ([S3Types.XmlDecoder], [Gcs.Decoders]); the properties
      that need one ask what it returns for the request at hand.
    - [http.ServeContent] (ranges and conditional headers), net/http itself.
    - What [ListObjects], [ListBuckets], [TempFile], [Close], the methods of a
      [BlobWriter] on its own and [DeleteBucket] do when others run at the same
      time: they are programs, and are served ([StoreServed]), but the abstract
      store of [StoreSpec] has no action for them; [DeleteBucket] removes a
      bucket under the calls that have found it ([StoreRaceFindings] has a run).
    - Concurrent requests of the GCS front end; those of S3 that are no multipart
      uploads are calls of the store and no more state.
    - Steps finer than calls in four places where nobody else can see the
      difference: the statements that make the schema of a new database; the
      staging of a part in its private file; the reading of a part when it is
      appended, and of the source when an object is copied, since files do not
      change once written.
    - Deaths of the process while calls are under way at the same time: the
      sequential theorems are about every point of one call.
    - Loss of data that was not synced: a crash keeps what was written.
*)

From Stdlib Require Export ZArith Lia Bool.
From Stdlib Require Export Ascii.
From Stdlib Require Import String.
From stdpp Require Export base tactics numbers option list sets gmap fin_maps strings sorting pretty.
From Hammer Require Export Tactics.
From stdpp Require Import options.

Declare Scope go_scope.
Delimit Scope go_scope with go.

(** ** Go's byte slices and strings

    A Go [string] is a sequence of bytes: Rocq's [string].  A Go [[]byte] is a
    list of 8-bit characters. *)
Abbreviation bytes := (list ascii).

(** [string(p)] and [[]byte(s)]. *)
Abbreviation string_of_bytes := String.string_of_list_ascii.
Abbreviation bytes_of_string := String.list_ascii_of_string.

(** The byte value of a character, and the character of a byte value. *)
Definition byte_val (a : ascii) : Z := Z.of_N (N_of_ascii a).
Definition byte_of (z : Z) : ascii := ascii_of_N (Z.to_N (z mod 256)).

Lemma byte_val_range a : (0 ≤ byte_val a < 256)%Z.
Proof. unfold byte_val. pose proof (N_ascii_bounded a). lia. Qed.

Lemma byte_of_val a : byte_of (byte_val a) = a.
Proof.
  unfold byte_of. rewrite Z.mod_small by apply byte_val_range.
  unfold byte_val. rewrite N2Z.id. apply ascii_N_embedding.
Qed.

Lemma byte_val_of z : (0 ≤ z < 256)%Z → byte_val (byte_of z) = z.
Proof.
  intros Hz. unfold byte_of, byte_val. rewrite Z.mod_small by done.
  rewrite N_ascii_embedding; lia.
Qed.

Lemma byte_val_inj a b : byte_val a = byte_val b → a = b.
Proof. intros H. by rewrite <- (byte_of_val a), H, byte_of_val. Qed.

(** Go's [int64] arithmetic wraps around. *)
Definition int64 (z : Z) : Z := ((z + 2 ^ 63) mod 2 ^ 64 - 2 ^ 63)%Z.

Lemma int64_small z : (- 2 ^ 63 ≤ z < 2 ^ 63)%Z → int64 z = z.
Proof. intros H. unfold int64. rewrite Z.mod_small; lia. Qed.

Lemma int64_range z : (- 2 ^ 63 ≤ int64 z < 2 ^ 63)%Z.
Proof. unfold int64. pose proof (Z.mod_pos_bound (z + 2 ^ 63) (2 ^ 64)). lia. Qed.

Lemma int64_idem z : int64 (int64 z) = int64 z.
Proof. apply int64_small, int64_range. Qed.

Lemma int64_add_l a b : int64 (int64 a + b) = int64 (a + b).
Proof.
  unfold int64.
  replace ((a + 2 ^ 63) mod 2 ^ 64 - 2 ^ 63 + b + 2 ^ 63)%Z
    with ((a + 2 ^ 63) mod 2 ^ 64 + b)%Z by lia.
  rewrite Z.add_mod_idemp_l by lia. do 2 f_equal. lia.
Qed.

(** ** The byte order on strings

    Go's [<] on strings and SQLite's BINARY collation on TEXT both compare
    byte by byte: stdpp's total order [String.le]. *)
Definition str_lt : relation string := strict String.le.
Infix "<ₛ" := str_lt (at level 70) : go_scope.
Infix "≤ₛ" := String.le (at level 70) : go_scope.
Open Scope go_scope.

#[export] Instance str_lt_dec : RelDecision str_lt.
Proof. intros s t. unfold str_lt, strict. apply _. Defined.

Lemma str_nle s t : ¬ (s ≤ₛ t) ↔ t <ₛ s.
Proof.
  unfold str_lt, strict. split; [|tauto].
  intros H. split; [|done]. destruct (total String.le s t); tauto.
Qed.

Lemma str_nlt s t : ¬ (s <ₛ t) ↔ t ≤ₛ s.
Proof. rewrite <- str_nle. destruct (decide (t ≤ₛ s)); tauto. Qed.

Lemma str_lt_le s t : s <ₛ t → s ≤ₛ t.
Proof. by intros [? _]. Qed.

Lemma str_le_lt_trans s t u : s ≤ₛ t → t <ₛ u → s <ₛ u.
Proof. intros H1 [H2 H3]. split; [by etrans|]. intros H. apply H3. by etrans. Qed.

Lemma str_lt_le_trans s t u : s <ₛ t → t ≤ₛ u → s <ₛ u.
Proof. intros [H1 H2] H3. split; [by etrans|]. intros H. apply H2. by etrans. Qed.

Lemma str_lt_irrefl s : ¬ (s <ₛ s).
Proof. by intros [? ?]. Qed.

Lemma str_le_lteq s t : s ≤ₛ t ↔ s <ₛ t ∨ s = t.
Proof.
  split.
  - intros H. destruct (decide (t ≤ₛ s)).
    + right. by apply (anti_symm String.le).
    + left. done.
  - intros [?%str_lt_le| ->]; done.
Qed.

Lemma str_le_cons a b s t :
  String a s ≤ₛ String b t ↔ (byte_val a < byte_val b)%Z ∨ (a = b ∧ s ≤ₛ t).
Proof.
  unfold String.le, String.leb. cbn [String.compare]. unfold Ascii.compare, byte_val.
  destruct (N.compare_spec (N_of_ascii a) (N_of_ascii b)) as [E|E|E].
  - assert (a = b) as ->.
    { by rewrite <- (ascii_N_embedding a), E, ascii_N_embedding. }
    split; [by right|]. intros [?|[_ ?]]; [lia|done].
  - split; [intros _; lia|done].
  - split; [done|]. intros [?|[-> _]]; lia.
Qed.

Lemma str_le_nil s : "" ≤ₛ s.
Proof. by destruct s. Qed.

Lemma str_le_nil_inv s : s ≤ₛ "" → s = "".
Proof. by destruct s. Qed.

Lemma str_lt_nil s : ¬ (s <ₛ "").
Proof. rewrite str_nlt. apply str_le_nil. Qed.

Lemma str_lt_cons a b s t :
  String a s <ₛ String b t ↔ (byte_val a < byte_val b)%Z ∨ (a = b ∧ s <ₛ t).
Proof.
  rewrite <- !str_nle, !str_le_cons. split.
  - intros H. destruct (Z.lt_trichotomy (byte_val a) (byte_val b)) as [?|[E|?]].
    + by left.
    + right. apply byte_val_inj in E as ->. naive_solver.
    + tauto.
  - intros [?|[? ?]] [?|[? ?]]; subst; lia || tauto.
Qed.

Lemma str_app_cons a s t : String a s +:+ t = String a (s +:+ t).
Proof. done. Qed.

Lemma str_app_le p s t : p +:+ s ≤ₛ p +:+ t ↔ s ≤ₛ t.
Proof.
  induction p as [|a p IH]; [done|].
  rewrite !str_app_cons, str_le_cons, IH. split; [|by right].
  intros [?|[_ ?]]; [lia|done].
Qed.

Lemma str_app_lt p s t : p +:+ s <ₛ p +:+ t ↔ s <ₛ t.
Proof. by rewrite <- !str_nle, str_app_le. Qed.

Lemma str_app_nil_r s : s +:+ "" = s.
Proof. induction s as [|a s IH]; [done|]. by rewrite !str_app_cons, IH. Qed.

Lemma str_app_assoc s t u : (s +:+ t) +:+ u = s +:+ (t +:+ u).
Proof. induction s as [|a s IH]; [done|]. by rewrite !str_app_cons, IH. Qed.

Lemma str_length_app s t : String.length (s +:+ t) = String.length s + String.length t.
Proof. induction s as [|a s IH]; [done|]. rewrite str_app_cons. cbn. by rewrite IH. Qed.

(** The string just after [s] in the byte order is [s] followed by a NUL. *)
Lemma str_succ_nul s t : s +:+ String "000" "" ≤ₛ t ↔ s <ₛ t.
Proof.
  revert t. induction s as [|a s IH]; intros t.
  - cbn. destruct t as [|b t].
    + split; [by intros ?%str_le_nil_inv | by intros ?%str_lt_nil].
    + split; [intros _; split; [apply str_le_nil | by intros ?%str_le_nil_inv] |].
      intros _. apply str_le_cons. pose proof (byte_val_range b).
      destruct (decide (byte_val b = 0%Z)) as [E|].
      * right. split; [|apply str_le_nil]. symmetry. by apply byte_val_inj.
      * left. unfold byte_val at 1. cbn. lia.
  - rewrite str_app_cons. destruct t as [|b t].
    + split; [by intros ?%str_le_nil_inv | by intros ?%str_lt_nil].
    + rewrite str_le_cons, str_lt_cons, IH. done.
Qed.

(** ** Prefixes *)
Lemma prefix_spec p s : String.prefix p s = true ↔ ∃ t, s = p +:+ t.
Proof.
  revert s. induction p as [|a p IH]; intros s.
  - split; [by exists s|]. by destruct s.
  - destruct s as [|b s]; cbn; [split; [done|by intros [? ?]]|].
    destruct (ascii_dec a b) as [->|Hne].
    + rewrite IH. split; intros [t Ht]; exists t; rewrite str_app_cons in *; congruence.
    + split; [done|]. intros [t Ht]. rewrite str_app_cons in Ht. congruence.
Qed.

Lemma prefix_app p t : String.prefix p (p +:+ t) = true.
Proof. apply prefix_spec. by exists t. Qed.

Lemma prefix_le p s : String.prefix p s = true → p ≤ₛ s.
Proof.
  rewrite prefix_spec. intros [t ->].
  rewrite <- (str_app_nil_r p) at 1. apply str_app_le, str_le_nil.
Qed.

Lemma prefix_trans p q s :
  String.prefix p q = true → String.prefix q s = true → String.prefix p s = true.
Proof.
  rewrite !prefix_spec. intros [t ->] [u ->]. exists (t +:+ u). apply str_app_assoc.
Qed.

(** Whatever lies between a prefix of [s] and [s] itself has that prefix. *)
Lemma prefix_between p s t :
  p ≤ₛ s → s ≤ₛ t → String.prefix p t = true → String.prefix p s = true.
Proof.
  rewrite (prefix_spec p t). intros Hps Hst [u ->]. revert s Hps Hst.
  induction p as [|a p IH]; intros s Hps Hst; [by destruct s|].
  destruct s as [|b s]; [by apply str_le_nil_inv in Hps|].
  rewrite str_app_cons in Hst. apply str_le_cons in Hps, Hst.
  destruct Hps as [?|[<- Hps]], Hst as [?|[Heq Hst]]; subst; try lia.
  cbn. destruct (ascii_dec a a); [|done]. by apply IH.
Qed.

(** ** Substrings: [s[:n]] and [s[n:]] for [n] within bounds *)
Fixpoint str_take (n : nat) (s : string) : string :=
  match n, s with
  | S n, String a s => String a (str_take n s)
  | _, _ => ""
  end.

Fixpoint str_drop (n : nat) (s : string) : string :=
  match n, s with
  | 0, _ => s
  | S n, String _ s => str_drop n s
  | S _, "" => ""
  end.

Lemma str_take_drop n s : str_take n s +:+ str_drop n s = s.
Proof.
  revert s. induction n as [|n IH]; intros [|a s]; cbn; try done.
  by rewrite str_app_cons, IH.
Qed.

Lemma str_drop_app p s : str_drop (String.length p) (p +:+ s) = s.
Proof. induction p as [|a p IH]; [by destruct s|]. rewrite str_app_cons. exact IH. Qed.

Lemma str_take_app p s : str_take (String.length p) (p +:+ s) = p.
Proof. induction p as [|a p IH]; [by destruct s|]. rewrite str_app_cons. cbn. by rewrite IH. Qed.

Lemma str_length_take n s : n ≤ String.length s → String.length (str_take n s) = n.
Proof.
  revert s. induction n as [|n IH]; intros [|a s]; cbn; try lia.
  intros H. rewrite IH; lia.
Qed.

(** ** Sorted lists of strings *)
Lemma sorted_unique_eq (l1 l2 : list string) :
  StronglySorted String.le l1 → StronglySorted String.le l2 → l1 ≡ₚ l2 → l1 = l2.
Proof. apply (StronglySorted_unique String.le). Qed.

(** [sort.Slice] by a string key. *)
Lemma sort_by_key_sorted {A} (f : A → string) (l : list A) :
  StronglySorted String.le (f <$> merge_sort (λ x y, f x ≤ₛ f y) l).
Proof.
  apply (StronglySorted_fmap f (λ x y, f x ≤ₛ f y)); [done|].
  apply StronglySorted_merge_sort.
  - intros x y z. apply (transitivity (R:=String.le)).
  - intros x y. apply (total String.le).
Qed.
