(* ===== verification/Errors.v ===== *)
(** Go error values: the sentinel errors of [pkg/store/types.go], the errors of
    the standard library the code tests for, and wrapping by [fmt.Errorf]. *)

From S2P Require Import Prelude.
From stdpp Require Import options.

(** Operating-system error numbers as the [os] package reports them.  [EIO]
    stands for any failure injected by the environment. *)
Inductive errno :=
  | EEXIST | ENOENT | ENOTDIR | EBADF | EIO.

#[export] Instance errno_eq_dec : EqDecision errno.
Proof. solve_decision. Defined.

(** A piece of a formatted message: literal text, a [%q] verb (whose quoting of
    non-printable text is left symbolic) or a decimal integer. *)
Inductive frag :=
  | Lit (s : string)
  | Quote (s : string)
  | Dec (z : Z).

#[export] Instance frag_eq_dec : EqDecision frag.
Proof. solve_decision. Defined.

Inductive error :=
  | ErrBucketNotFound
  | ErrBucketExists
  | ErrBucketNotEmpty
  | ErrObjectNotFound
  | ErrPreconditionFailed
  | ErrInvalidName
  | ErrNoRows                 (* sql.ErrNoRows *)
  | EOF                       (* io.EOF *)
  | ErrUnexpectedEOF          (* io.ErrUnexpectedEOF *)
  | SysErr (e : errno)        (* *os.PathError and friends *)
  | Other (m : list frag)     (* errors.New, or fmt.Errorf without %w *)
  | Wrap (pre : list frag) (e : error) (post : list frag).  (* fmt.Errorf with %w *)

#[export] Instance error_eq_dec : EqDecision error.
Proof. solve_decision. Defined.

(** [errors.Is]: the error itself or one of the errors it wraps. *)
Fixpoint errors_Is (e target : error) : bool :=
  bool_decide (e = target) ||
  match e with
  | Wrap _ e' _ => errors_Is e' target
  | _ => false
  end.

(** [os.IsExist], which does not look inside wrapped errors. *)
Definition os_IsExist (e : error) : bool := bool_decide (e = SysErr EEXIST).

(** [err.Error()]. *)
Fixpoint Error (e : error) : list frag :=
  match e with
  | ErrBucketNotFound => [Lit "bucket not found"]
  | ErrBucketExists => [Lit "bucket already exists"]
  | ErrBucketNotEmpty => [Lit "bucket not empty"]
  | ErrObjectNotFound => [Lit "object not found"]
  | ErrPreconditionFailed => [Lit "precondition failed"]
  | ErrInvalidName => [Lit "invalid name"]
  | ErrNoRows => [Lit "sql: no rows in result set"]
  | EOF => [Lit "EOF"]
  | ErrUnexpectedEOF => [Lit "unexpected EOF"]
  | SysErr EEXIST => [Lit "file exists"]
  | SysErr ENOENT => [Lit "no such file or directory"]
  | SysErr ENOTDIR => [Lit "not a directory"]
  | SysErr EBADF => [Lit "file already closed"]
  | SysErr EIO => [Lit "input/output error"]
  | Other m => m
  | Wrap pre e post => pre ++ Error e ++ post
  end.

Lemma errors_Is_refl e : errors_Is e e = true.
Proof. destruct e; cbn; by rewrite bool_decide_true. Qed.

Lemma errors_Is_wrap pre e post target :
  errors_Is e target = true → errors_Is (Wrap pre e post) target = true.
Proof. intros H. cbn. rewrite H. apply orb_true_r. Qed.
