(* ===== verification/GoMonad.v ===== *)
(** The effects of Go code as a state monad with Go's ways of ending a call: a
    value, an error, a panic, a loop that never returns, or the death of the
    process.  With it, a small program logic: [wp m Φ s] says that running [m]
    from [s] ends in an outcome and state that satisfy [Φ]. *)

From S2P Require Import Prelude Errors.
From stdpp Require Import options.

Inductive outcome (A : Type) :=
  | Ret (a : A)            (* the call returned, with a nil error if it has one *)
  | Err (e : error)        (* the call returned a non-nil error *)
  | Panic (m : list frag)  (* a run-time panic, unwinding deferred calls *)
  | Diverge                (* the call does not return *)
  | Crash.                 (* the process died in the middle of the call *)
Arguments Ret {A} _.
Arguments Err {A} _.
Arguments Panic {A} _.
Arguments Diverge {A}.
Arguments Crash {A}.

Definition M (S A : Type) : Type := S → outcome A * S.

(** An outcome that is not a value propagates unchanged. *)
Definition outcome_cast {A B} (o : outcome A) (k : A → outcome B) : outcome B :=
  match o with
  | Ret a => k a
  | Err e => Err e
  | Panic m => Panic m
  | Diverge => Diverge
  | Crash => Crash
  end.

Section monad.
Context {S : Type}.

Definition ret {A} (a : A) : M S A := λ s, (Ret a, s).

Definition bind {A B} (m : M S A) (f : A → M S B) : M S B := λ s,
  let '(o, s') := m s in
  match o with
  | Ret a => f a s'
  | Err e => (Err e, s')
  | Panic x => (Panic x, s')
  | Diverge => (Diverge, s')
  | Crash => (Crash, s')
  end.

Definition throw {A} (e : error) : M S A := λ s, (Err e, s).
Definition panic {A} (x : list frag) : M S A := λ s, (Panic x, s).
Definition diverge {A} : M S A := λ s, (Diverge, s).
Definition get : M S S := λ s, (Ret s, s).
Definition gets {A} (f : S → A) : M S A := λ s, (Ret (f s), s).
Definition modify (f : S → S) : M S unit := λ s, (Ret tt, f s).

(** [x, err := m]: the error becomes a value. *)
Definition try {A} (m : M S A) : M S (error + A) := λ s,
  let '(o, s') := m s in
  (match o with
   | Ret a => Ret (inr a)
   | Err e => Ret (inl e)
   | Panic x => Panic x
   | Diverge => Diverge
   | Crash => Crash
   end, s').

(** [m] with its error dropped, as in [os.Remove(name)]. *)
Definition ignore {A} (m : M S A) : M S unit :=
  bind (try m) (λ _, ret tt).

(** [defer c()] around [m]: [c] runs when [m] returns or panics; its own
    error is dropped. *)
Definition defer {A} (c : M S unit) (m : M S A) : M S A := λ s,
  let '(o, s') := m s in
  match o with
  | Diverge => (Diverge, s')
  | Crash => (Crash, s')
  | _ =>
    let '(o2, s2) := ignore c s' in
    match o2 with
    | Ret _ => (o, s2)
    | Err e => (Err e, s2)
    | Panic x => (Panic x, s2)
    | Diverge => (Diverge, s2)
    | Crash => (Crash, s2)
    end
  end.
End monad.

Declare Scope gom_scope.
Delimit Scope gom_scope with gom.
Notation "'let*' x ':=' m 'in' k" := (bind m (λ x, k))
  (at level 10, x name, m at level 100, k at level 200,
   format "'let*'  x  ':='  m  'in' '//' k") : gom_scope.
Notation "'let*' ' pat ':=' m 'in' k" := (bind m (λ pat, k))
  (at level 10, pat strict pattern, m at level 100, k at level 200) : gom_scope.
Notation "'do*' m 'in' k" := (bind m (λ _, k))
  (at level 10, m at level 100, k at level 200, format "'do*'  m  'in' '//' k") : gom_scope.
Open Scope gom_scope.

(** A computation on a component of a larger state. *)
Definition zoom {S T A} (g : T → S) (p : S → T → T) (m : M S A) : M T A := λ t,
  let '(o, s') := m (g t) in (o, p s' t).

(** ** Equations *)
Lemma bind_ext {S A B} (m m' : M S A) (f f' : A → M S B) s :
  m s = m' s → (∀ a s', f a s' = f' a s') → bind m f s = bind m' f' s.
Proof. intros E Hf. unfold bind. rewrite E. destruct (m' s) as [[] s']; auto. Qed.
Lemma bind_assoc {S A B C} (m : M S A) (f : A → M S B) (k : B → M S C) s :
  bind (bind m f) k s = bind m (λ a, bind (f a) k) s.
Proof. unfold bind. by destruct (m s) as [[] s']. Qed.

(** ** Weakest preconditions *)
Definition wp {S A} (m : M S A) (Φ : outcome A → S → Prop) (s : S) : Prop :=
  Φ (m s).1 (m s).2.

(** How an assertion about the final outcome of [bind m f] reads after [m]. *)
Definition bind_post {S A B} (f : A → M S B) (Φ : outcome B → S → Prop)
    (o : outcome A) (s : S) : Prop :=
  match o with
  | Ret a => wp (f a) Φ s
  | Err e => Φ (Err e) s
  | Panic x => Φ (Panic x) s
  | Diverge => Φ Diverge s
  | Crash => Φ Crash s
  end.

Section wp.
Context {S : Type}.
Implicit Types s : S.

Lemma wp_bind {A B} (m : M S A) (f : A → M S B) Φ s :
  wp m (bind_post f Φ) s → wp (bind m f) Φ s.
Proof. unfold wp, bind, bind_post, wp. by destruct (m s) as [[] s']. Qed.

Lemma wp_ret {A} (a : A) (Φ : outcome A → S → Prop) s : Φ (Ret a) s → wp (ret a) Φ s.
Proof. done. Qed.

Lemma wp_throw {A} e (Φ : outcome A → S → Prop) s : Φ (Err e) s → wp (throw e) Φ s.
Proof. done. Qed.

Lemma wp_mono {A} (m : M S A) (Φ Ψ : outcome A → S → Prop) s :
  wp m Φ s → (∀ o s', Φ o s' → Ψ o s') → wp m Ψ s.
Proof. unfold wp. auto. Qed.

Lemma wp_conj {A} (m : M S A) (Φ Ψ : outcome A → S → Prop) s :
  wp m Φ s → wp m Ψ s → wp m (λ o s', Φ o s' ∧ Ψ o s') s.
Proof. unfold wp. auto. Qed.

Lemma wp_gets {A} (f : S → A) Φ s : Φ (Ret (f s)) s → wp (gets f) Φ s.
Proof. done. Qed.

Lemma wp_modify (f : S → S) Φ s : Φ (Ret tt) (f s) → wp (modify f) Φ s.
Proof. done. Qed.

Lemma wp_try {A} (m : M S A) (Φ : outcome (error + A) → S → Prop) s :
  wp m (λ o s', match o with
                | Ret a => Φ (Ret (inr a)) s'
                | Err e => Φ (Ret (inl e)) s'
                | Panic x => Φ (Panic x) s'
                | Diverge => Φ Diverge s'
                | Crash => Φ Crash s'
                end) s →
  wp (try m) Φ s.
Proof. unfold wp, try. by destruct (m s) as [[] s']. Qed.

Lemma wp_ignore {A} (m : M S A) (Φ : outcome unit → S → Prop) s :
  wp m (λ o s', match o with
                | Ret _ | Err _ => Φ (Ret tt) s'
                | Panic x => Φ (Panic x) s'
                | Diverge => Φ Diverge s'
                | Crash => Φ Crash s'
                end) s →
  wp (ignore m) Φ s.
Proof. unfold wp, ignore, bind, try. by destruct (m s) as [[] s']. Qed.

Lemma wp_defer {A} (c : M S unit) (m : M S A) Φ s :
  wp m (λ o s', match o with
                | Diverge => Φ Diverge s'
                | Crash => Φ Crash s'
                | _ => wp (ignore c) (λ o2 s2, Φ (outcome_cast o2 (λ _, o)) s2) s'
                end) s →
  wp (defer c m) Φ s.
Proof.
  unfold wp, defer. destruct (m s) as [[a|e|x| |] s']; cbn; try done;
    destruct (ignore c s') as [[] s2]; cbn; done.
Qed.

Lemma wp_zoom {T A} (g : T → S) (p : S → T → T) (m : M S A) Φ (t : T) :
  wp m (λ o s', Φ o (p s' t)) (g t) → wp (zoom g p m) Φ t.
Proof. unfold wp, zoom. by destruct (m (g t)). Qed.
End wp.

(** [I] holds again however the call ends. *)
Definition preserves {S A} (I : S → Prop) (m : M S A) : Prop :=
  ∀ s, I s → wp m (λ _ s', I s') s.

Section preserves.
Context {S : Type} (I : S → Prop).

Lemma preserves_ret {A} (a : A) : preserves I (ret a).
Proof. by intros s. Qed.
Lemma preserves_throw {A} e : preserves I (throw (A:=A) e).
Proof. by intros s. Qed.
Lemma preserves_gets {A} (f : S → A) : preserves I (gets f).
Proof. by intros s. Qed.
Lemma preserves_bind {A B} (m : M S A) (f : A → M S B) :
  preserves I m → (∀ a, preserves I (f a)) → preserves I (bind m f).
Proof.
  intros Hm Hf s Hs. apply wp_bind. eapply wp_mono; [by apply Hm|].
  intros [] s' ?; cbn; try done. by apply Hf.
Qed.
Lemma preserves_try {A} (m : M S A) : preserves I m → preserves I (try m).
Proof. intros Hm s Hs. apply wp_try. eapply wp_mono; [by apply Hm|]. by intros []. Qed.
Lemma preserves_ignore {A} (m : M S A) : preserves I m → preserves I (ignore m).
Proof. intros Hm s Hs. apply wp_ignore. eapply wp_mono; [by apply Hm|]. by intros []. Qed.
Lemma preserves_defer {A} (c : M S unit) (m : M S A) :
  preserves I c → preserves I m → preserves I (defer c m).
Proof.
  intros Hc Hm s Hs. apply wp_defer. eapply wp_mono; [by apply Hm|].
  intros [] s' ?; try done; by apply (preserves_ignore c).
Qed.
End preserves.

Create HintDb gopres.
#[export] Hint Resolve preserves_ret preserves_throw preserves_gets preserves_try
  preserves_ignore preserves_defer : gopres.
#[export] Hint Resolve preserves_bind : gopres.

(** One step of symbolic execution on a [wp] goal. *)
Ltac wp_step :=
  lazymatch goal with
  | |- wp (bind _ _) _ _ => apply wp_bind
  | |- wp (ret _) _ _ => apply wp_ret
  | |- wp (throw _) _ _ => apply wp_throw
  | |- wp (gets _) _ _ => apply wp_gets
  | |- wp (modify _) _ _ => apply wp_modify
  | |- wp (try _) _ _ => apply wp_try
  | |- wp (ignore _) _ _ => apply wp_ignore
  | |- wp (defer _ _) _ _ => apply wp_defer
  | |- bind_post _ _ (Ret _) _ => cbn [bind_post]
  | |- bind_post _ _ (Err _) _ => cbn [bind_post]
  | |- bind_post _ _ (Panic _) _ => cbn [bind_post]
  | |- bind_post _ _ Diverge _ => cbn [bind_post]
  | |- bind_post _ _ Crash _ => cbn [bind_post]
  end.
