(* ===== verification/Pool.v ===== *)
(** Concurrent requests: a request is a program whose calls are atomic and that
    locks and unlocks mutexes between them; a pool of requests runs them in any
    interleaving.  A rely-guarantee logic for pools: what is proved of each
    request on its own, against what the others are allowed to do, holds of
    every pool of them. *)

From S2P Require Import Prelude Errors GoMonad.
From stdpp Require Import options.
From stdpp Require Import relations.

(** ** Requests as programs *)
Section programs.
Context {S R : Type}.
Implicit Types (s : S) (H : gset nat).

(** A request being served: it has answered, or its next step is a call, the
    acquisition or the release of a mutex; [Broken] is a request whose handler
    panicked or does not come back. *)
Inductive prog : Type :=
  | Answer (resp : R)
  | Call {A : Type} (m : M S A) (k : A → prog)
  | Lock (p : nat) (k : prog)
  | Unlock (p : nat) (k : prog)
  | Broken.

(** The program run alone, from beginning to end. *)
Fixpoint run (a : prog) : M S R :=
  match a with
  | Answer resp => ret resp
  | Call m k => bind m (λ v, run (k v))
  | Lock _ k => run k
  | Unlock _ k => run k
  | Broken => panic []
  end.

(** ** Pools *)

Context {Q : Type}.

(** The state the requests share, the mutexes that are locked, and the requests
    that have arrived, with how far they have come. *)
Record pool := mkPool {
  shared : S;
  held : gset nat;
  reqs : list (Q * prog);
}.

(** How a call that does not end in the death of the process leaves its
    request. *)
Definition resume {A} (o : outcome A) (k : A → prog) : prog :=
  match o with Ret v => k v | _ => Broken end.

Inductive serves : pool → pool → Prop :=
  | serves_call i q A (m : M S A) k s H l :
      l !! i = Some (q, Call m k) → (m s).1 ≠ Crash →
      serves (mkPool s H l) (mkPool (m s).2 H (<[i := (q, resume (m s).1 k)]> l))
  | serves_lock i q p k s H l :
      l !! i = Some (q, Lock p k) → p ∉ H → serves (mkPool s H l) (mkPool s ({[p]} ∪ H) (<[i := (q, k)]> l))
  | serves_unlock i q p k s H l :
      l !! i = Some (q, Unlock p k) → serves (mkPool s H l) (mkPool s (H ∖ {[p]}) (<[i := (q, k)]> l)).

(** Besides serving its requests, a pool takes new ones, and its shared state
    changes by other activities of the process. *)
Inductive pstep (handler : Q → prog) (others : S → S → Prop) : pool → pool → Prop :=
  | pstep_serves c c' : serves c c' → pstep handler others c c'
  | pstep_arrive q s H l : pstep handler others (mkPool s H l) (mkPool s H (l ++ [(q, handler q)]))
  | pstep_others s s' H l : others s s' → pstep handler others (mkPool s H l) (mkPool s' H l).

(** *** Schedules *)

(** The request [i] is served one step, if it can be. *)
Definition serve_one (i : nat) (c : pool) : option pool :=
  match reqs c !! i with
  | Some (q, Call m k) =>
    match m (shared c) with
    | (Crash, _) => None
    | (o, s') => Some (mkPool s' (held c) (<[i := (q, resume o k)]> (reqs c)))
    end
  | Some (q, Lock p k) =>
    if decide (p ∈ held c) then None else Some (mkPool (shared c) ({[p]} ∪ held c) (<[i := (q, k)]> (reqs c)))
  | Some (q, Unlock p k) => Some (mkPool (shared c) (held c ∖ {[p]}) (<[i := (q, k)]> (reqs c)))
  | _ => None
  end.

(** The requests are served in the order of the schedule. *)
Fixpoint serve_all (sched : list nat) (c : pool) : option pool :=
  match sched with
  | [] => Some c
  | i :: sched => match serve_one i c with Some c' => serve_all sched c' | None => None end
  end.

(** The same for a schedule of turns: a request whose turn it is and that cannot
    be served loses it. *)
Fixpoint take_turns (turns : list nat) (c : pool) : pool :=
  match turns with
  | [] => c
  | i :: turns => take_turns turns (default c (serve_one i c))
  end.

(** The requests that have arrived. *)
Definition arrivals (handler : Q → prog) (s : S) (qs : list Q) : pool := mkPool s ∅ ((λ q, (q, handler q)) <$> qs).

Lemma serve_one_serves i c c' : serve_one i c = Some c' → serves c c'.
Proof.
  destruct c as [s H l]. unfold serve_one; cbn. destruct (l !! i) as [[q [resp|A m k|p k|p k|]]|] eqn:E; try done.
  - pose proof (serves_call i q A m k s H l E) as Hs. destruct (m s) as [[] s']; cbn in *; try done; intros [= <-]; by apply Hs.
  - destruct (decide (p ∈ H)); [done|]. intros [= <-]. by eapply serves_lock.
  - intros [= <-]. by eapply serves_unlock.
Qed.

Lemma unanswered_or_all (l : list (Q * prog)) :
  (∃ i q a, l !! i = Some (q, a) ∧ ∀ resp, a ≠ Answer resp) ∨
  (∀ i q a, l !! i = Some (q, a) → ∃ resp, a = Answer resp).
Proof.
  induction l as [|[q a] l [(i & q' & a' & Hi & Ha')|IH]]; [right; by intros i q a|left; by exists (Datatypes.S i), q', a'|].
  assert ((∃ resp, a = Answer resp) ∨ ∀ resp, a ≠ Answer resp) as [Ha|Ha] by (destruct a; eauto).
  - right. intros [|i] q' a' Hi; cbn in Hi; [by simplify_eq|by eapply IH].
  - left. by exists 0, q, a.
Qed.

(** *** Termination *)

(** [a'] is what is left of [a] after one step. *)
Inductive left_of : prog → prog → Prop :=
  | left_call A (m : M S A) k v : left_of (k v) (Call m k)
  | left_broken A (m : M S A) k : left_of Broken (Call m k)
  | left_lock p k : left_of k (Lock p k)
  | left_unlock p k : left_of k (Unlock p k).

Lemma left_of_wf a : Acc left_of a.
Proof.
  assert (Acc left_of Broken) as Hb by (constructor; intros b Hb; inversion Hb).
  induction a as [resp|A m k IH|p k IH|p k IH|]; constructor; intros b Hl.
  - inversion Hl.
  - assert (b = Broken ∨ ∃ v, b = k v) as [->|[v ->]]; [|done|apply IH].
    change (match Call m k with Call _ k0 => b = Broken ∨ ∃ v, b = k0 v | _ => True end).
    destruct Hl; eauto.
  - by inversion Hl; subst.
  - by inversion Hl; subst.
  - inversion Hl.
Qed.

(** One of the requests has made a step. *)
Inductive one_left : list (Q * prog) → list (Q * prog) → Prop :=
  | one_left_here q a a' l : left_of a' a → one_left ((q, a') :: l) ((q, a) :: l)
  | one_left_there x l l' : one_left l' l → one_left (x :: l') (x :: l).

Lemma one_left_insert l i q a a' :
  l !! i = Some (q, a) → left_of a' a → one_left (<[i := (q, a')]> l) l.
Proof.
  revert i. induction l as [|x l IH]; intros [|i] Hi Hl; cbn in *; simplify_eq; [by constructor|].
  constructor. by apply IH.
Qed.

Lemma one_left_wf l : Acc one_left l.
Proof.
  induction l as [|[q a] l IHl]; [constructor; intros l' Hl; inversion Hl|].
  revert a. induction IHl as [l _ IHl]. intros a. induction (left_of_wf a) as [a _ IHa].
  constructor. intros l' Hl. inversion Hl; subst; auto.
Qed.

(** No pool can be served forever. *)
Lemma serves_one_left c c' : serves c c' → one_left (reqs c') (reqs c).
Proof.
  intros [i q A m k s H l Hi Hn|i q p k s H l Hi Hp|i q p k s H l Hi]; cbn; (eapply one_left_insert; [exact Hi|]).
  - destruct (m s).1; cbn; first [apply left_call|apply left_broken].
  - constructor.
  - constructor.
Qed.

Lemma serves_wf c : Acc (λ c' c, serves c c') c.
Proof.
  assert (∀ l, Acc one_left l → ∀ c, reqs c = l → Acc (λ c' c, serves c c') c) as H; [|by eapply H; [apply one_left_wf|]].
  intros l Hl. induction Hl as [l _ IH]. intros c0 <-. constructor. intros c' Hs.
  eapply IH; [by apply serves_one_left|done].
Qed.

Lemma serve_all_pstep handler others sched : ∀ c c', serve_all sched c = Some c' → rtc (pstep handler others) c c'.
Proof.
  induction sched as [|i sched IH]; intros c c'; cbn; [intros [= <-]; apply rtc_refl|].
  destruct (serve_one i c) as [c1|] eqn:E; [|done]. intros H.
  eapply rtc_l; [|by apply IH]. by apply pstep_serves, (serve_one_serves i).
Qed.

Lemma take_turns_pstep handler others turns : ∀ c, rtc (pstep handler others) c (take_turns turns c).
Proof.
  induction turns as [|i turns IH]; intros c; cbn; [apply rtc_refl|].
  destruct (serve_one i c) as [c1|] eqn:E; cbn; [|apply IH].
  eapply rtc_l; [|apply IH]. by apply pstep_serves, (serve_one_serves i).
Qed.

Lemma arrivals_pstep handler others s qs : rtc (pstep handler others) (mkPool s ∅ []) (arrivals handler s qs).
Proof.
  unfold arrivals.
  assert (∀ l, rtc (pstep handler others) (mkPool s ∅ l) (mkPool s ∅ (l ++ ((λ q, (q, handler q)) <$> qs)))) as H;
    [|exact (H [])].
  induction qs as [|q qs IH]; intros l; cbn; [rewrite app_nil_r; apply rtc_refl|].
  eapply rtc_l; [apply pstep_arrive|]. specialize (IH (l ++ [(q, handler q)])). by rewrite <- app_assoc in IH.
Qed.

(** *** Being served to the end *)

(** The process is about to die in a call of one of the requests. *)
Definition dies (c : pool) : Prop :=
  ∃ i q A (m : M S A) k, reqs c !! i = Some (q, Call m k) ∧ (m (shared c)).1 = Crash.
Definition all_answered (c : pool) : Prop := ∀ i q a, reqs c !! i = Some (q, a) → ∃ resp, a = Answer resp.

(** However the requests are served, after finitely many steps all of them have
    answered, unless the process dies in one: none is ever left waiting. *)
Inductive comes_to_end (c : pool) : Prop :=
  | comes : all_answered c ∨ dies c ∨ (∃ c', serves c c') → (∀ c', serves c c' → comes_to_end c') → comes_to_end c.

End programs.
Arguments prog : clear implicits.
Arguments pool : clear implicits.

(** ** The logic *)

(** What requests promise each other.  Besides the shared state [S] there is a
    ghost state [G]; each request, known by its number, owns resources [Own],
    and has locked the mutexes [L], the last one first. *)
Record protocol (S R Q G Own : Type) := {
  inv : S → G → Prop;                    (* holds between steps *)
  guarded : nat → S → G → Prop;          (* holds of a mutex that is not locked *)
  valid : Own → S → G → Prop;            (* what is owned is consistent with the state *)
  nothing_owned : Own;
  apart : Own → Own → Prop;              (* owned by two requests *)
  answered : nat → Q → R → G → Prop;     (* the request may answer with this *)
  idle : nat → G → Prop;                 (* the request has not arrived *)
  guar : nat → list nat → Own → Own → S → G → S → G → Prop;  (* what a step may do *)
  rely : nat → list nat → Own → S → G → S → G → Prop;        (* what others' steps may do *)
}.
Arguments inv {_ _ _ _ _} _ _ _.
Arguments guarded {_ _ _ _ _} _ _ _ _.
Arguments valid {_ _ _ _ _} _ _ _ _.
Arguments nothing_owned {_ _ _ _ _} _.
Arguments apart {_ _ _ _ _} _ _ _.
Arguments answered {_ _ _ _ _} _ _ _ _ _.
Arguments idle {_ _ _ _ _} _ _ _.
Arguments guar {_ _ _ _ _} _ _ _ _ _ _ _ _ _.
Arguments rely {_ _ _ _ _} _ _ _ _ _ _ _ _.

Class ProtocolLaws {S R Q G Own} (P : protocol S R Q G Own) := {
  rely_refl i L r s g : rely P i L r s g s g;
  rely_trans i L r s1 g1 s2 g2 s3 g3 :
    rely P i L r s1 g1 s2 g2 → rely P i L r s2 g2 s3 g3 → rely P i L r s1 g1 s3 g3;
  nothing_valid s g : valid P (nothing_owned P) s g;
  nothing_apart r : apart P (nothing_owned P) r;
  apart_sym r r' : apart P r r' → apart P r' r;
  answered_rely i q L r s g s' g' resp : rely P i L r s g s' g' → answered P i q resp g → answered P i q resp g';
  idle_rely i s g s' g' : rely P i [] (nothing_owned P) s g s' g' → idle P i g → idle P i g';
  (* a step leaves its request with valid resources, keeps the mutexes it has not
     locked guarded, and is what the other requests rely on *)
  guar_valid i L r r' s g s' g' : guar P i L r r' s g s' g' → valid P r s g → valid P r' s' g';
  guar_guarded i L r r' s g s' g' p :
    guar P i L r r' s g s' g' → p ∉ L → guarded P p s g → guarded P p s' g';
  guar_rely i L r r' s g s' g' j L' q :
    guar P i L r r' s g s' g' → i ≠ j → (∀ p, p ∈ L' → p ∉ L) →
    valid P r s g → valid P q s g → apart P r q →
    rely P j L' q s g s' g' ∧ valid P q s' g' ∧ apart P r' q;
}.

Lemma head_held (p : nat) L : p ∈ p :: L.
Proof. left. Qed.
#[export] Hint Resolve head_held : core.

Section logic.
Context {S R Q G Own : Type} (P : protocol S R Q G Own) `{!ProtocolLaws P}.
Implicit Types (s : S) (g : G) (q : Q) (H : gset nat) (l : list (Q * prog S R)).
Set Default Proof Using "Type*".

(** The request [i], which has locked [L] and owns [r], can be served to the end
    whatever the others do meanwhile.  It locks mutexes in descending order. *)
Fixpoint safe (i : nat) (q : Q) (a : prog S R) (L : list nat) (r : Own) (s0 : S) (g0 : G) {struct a} : Prop :=
  ∀ s g, rely P i L r s0 g0 s g → inv P s g → valid P r s g →
  match a with
  | Answer resp => L = [] ∧ answered P i q resp g
  | Call m k =>
      wp m (λ o s', match o with
        | Ret v => ∃ g' r', guar P i L r r' s g s' g' ∧ inv P s' g' ∧ safe i q (k v) L r' s' g'
        | Crash => True
        | _ => False
        end) s
  | Lock p k => (∀ p', p' ∈ L → p < p') ∧ (guarded P p s g → safe i q k (p :: L) r s g)
  | Unlock p k => ∃ L', L = p :: L' ∧ guarded P p s g ∧ safe i q k L' r s g
  | Broken => False
  end.

Lemma safe_rely i q a L r s g s' g' : rely P i L r s g s' g' → safe i q a L r s g → safe i q a L r s' g'.
Proof.
  intros Hr Hs. destruct a; cbn [safe] in *; intros s2 g2 Hr2; apply Hs; by eapply rely_trans.
Qed.

(** What holds of a pool between steps; [L] and [r] say what each request has
    locked and owns. *)
Record pool_safe (c : pool S R Q) (g : G) (L : nat → list nat) (r : nat → Own) : Prop := {
  ps_inv : inv P (shared c) g;
  ps_guarded : ∀ p, p ∉ held c → guarded P p (shared c) g;
  ps_held : ∀ p, p ∈ held c ↔ ∃ i, p ∈ L i;
  ps_once : ∀ i j p, p ∈ L i → p ∈ L j → i = j;
  ps_order : ∀ i, NoDup (L i);
  ps_apart : ∀ i j, i ≠ j → apart P (r i) (r j);
  ps_valid : ∀ i, valid P (r i) (shared c) g;
  ps_reqs : ∀ i, match reqs c !! i with
                 | Some (q, a) => safe i q a (L i) (r i) (shared c) g
                 | None => L i = [] ∧ r i = nothing_owned P ∧ idle P i g
                 end;
}.

Definition pool_inv (c : pool S R Q) (g : G) : Prop := ∃ L r, pool_safe c g L r.

(** One step of request [i] that is guaranteed. *)
Lemma pool_safe_step c l' g (L : nat → list nat) (r : nat → Own) i r' s' g' :
  pool_safe c g L r → guar P i (L i) (r i) r' (shared c) g s' g' → inv P s' g' →
  (∀ j, j ≠ i → l' !! j = reqs c !! j) →
  match l' !! i with
  | Some (q, a) => safe i q a (L i) r' s' g'
  | None => L i = [] ∧ r' = nothing_owned P ∧ idle P i g'
  end →
  pool_safe (mkPool s' (held c) l') g' L (λ j, if decide (j = i) then r' else r j).
Proof.
  intros [Hi Hg Hh Ho Hn Ha Hv Hr] Hguar Hi' Hl Hsafe.
  assert (∀ j, i ≠ j → rely P j (L j) (r j) (shared c) g s' g' ∧ valid P (r j) s' g' ∧ apart P r' (r j)) as Hothers.
  { intros j Hj. apply (guar_rely i (L i) (r i) r' (shared c) g s' g' j (L j) (r j)); auto.
    intros p Hp Hp'. apply Hj. by eapply Ho. }
  split; cbn; try done.
  - intros p Hp. eapply guar_guarded; [exact Hguar| |by apply Hg]. intros E. apply Hp, Hh. by exists i.
  - intros j k Hjk. repeat case_decide; subst; [done|by apply Hothers|by apply apart_sym, Hothers|by apply Ha].
  - intros j. case_decide; [by eapply guar_valid|by apply Hothers].
  - intros j. specialize (Hr j). case_decide as Hd; [by subst j|]. rewrite Hl by done.
    destruct (Hothers j) as (Hrely & _ & _); [done|].
    destruct (reqs c !! j) as [[q' b]|]; [by eapply safe_rely|]. destruct Hr as (HL & Hno & ?). split_and!; [done..|].
    rewrite HL, Hno in Hrely. by eapply idle_rely.
Qed.

(** The lemmas about single steps. *)
Lemma safe_now c g L r i q a :
  pool_safe c g L r → reqs c !! i = Some (q, a) → safe i q a (L i) (r i) (shared c) g.
Proof. intros Hc Ha. pose proof (ps_reqs _ _ _ _ Hc i) as H. by rewrite Ha in H. Qed.

(** What safety says of the state a pool is in. *)
Lemma here {c g} {L : nat → list nat} {r : nat → Own} {i} {Φ : S → G → Prop} :
  pool_safe c g L r →
  (∀ s g', rely P i (L i) (r i) (shared c) g s g' → inv P s g' → valid P (r i) s g' → Φ s g') → Φ (shared c) g.
Proof. intros Hc HΦ. apply HΦ; [apply rely_refl|apply Hc|apply Hc]. Qed.

(** The empty pool is safe. *)
Lemma pool_inv_empty s g :
  inv P s g → (∀ p, guarded P p s g) → (∀ i, idle P i g) → pool_inv (mkPool s ∅ []) g.
Proof.
  intros Hinv Hg Hi. exists (λ _, []), (λ _, nothing_owned P). split; cbn; try done.
  - intros p. split; [set_solver|by intros [? ?%not_elem_of_nil]].
  - by intros i j p ?%not_elem_of_nil.
  - intros i. constructor.
  - intros. apply nothing_apart.
  - intros. apply nothing_valid.
Qed.

(** ** What safe pools do *)

(** No request is ever broken, and one that has answered has a right to. *)
Lemma pool_answers c g i q a :
  pool_inv c g → reqs c !! i = Some (q, a) → a ≠ Broken ∧ ∀ resp, a = Answer resp → answered P i q resp g.
Proof.
  intros (L & r & Hc) Ha. pose proof (safe_now _ _ _ _ _ _ _ Hc Ha) as Hs.
  split; [intros ->|intros resp ->];
    by destruct (here Hc Hs).
Qed.

(** There is no deadlock: while a request has not answered, one of them can be
    served, unless the process is about to die in a call of one. *)
Lemma can_or_blocked (c : pool S R Q) i q a :
  reqs c !! i = Some (q, a) → (∀ resp, a ≠ Answer resp) → a ≠ Broken →
  dies c ∨ (∃ c', serves c c') ∨ ∃ p k, a = Lock p k ∧ p ∈ held c.
Proof using.
  clear. intros Ha Hna Hnb. destruct c as [s H l]; cbn in *. destruct a as [resp|A m k|p k|p k|]; [by destruct (Hna resp)|..|done].
  - destruct (m s).1 eqn:E; [right; left..|left; by exists i, q, A, m, k];
      (eexists; eapply serves_call; [exact Ha|congruence]).
  - destruct (decide (p ∈ H)); [right; right; eauto|right; left]. eexists. by eapply serves_lock.
  - right; left. eexists. by eapply serves_unlock.
Qed.

Lemma pool_progress c g i q a :
  pool_inv c g → reqs c !! i = Some (q, a) → (∀ resp, a ≠ Answer resp) → dies c ∨ ∃ c', serves c c'.
Proof.
  intros (L & r & Hc) Ha Hna.
  (* a request that waits for [p]: the one that has locked it waits for a mutex below *)
  assert (∀ p j q k, reqs c !! j = Some (q, Lock p k) → p ∈ held c → dies c ∨ ∃ c', serves c c') as Hwait.
  { intros p. induction p as [p IH] using lt_wf_ind. intros j q' k Hj Hp.
    apply (ps_held _ _ _ _ Hc) in Hp as [j' Hj']. pose proof (ps_reqs _ _ _ _ Hc j') as Hr.
    destruct (reqs c !! j') as [[q2 b]|] eqn:Hb; [|destruct Hr as [E _]; rewrite E in Hj'; by apply not_elem_of_nil in Hj'].
    destruct (can_or_blocked c j' q2 b Hb) as [?|[?|(p' & k' & -> & Hp')]]; [|..|by left|by right|].
    - intros resp ->. destruct (here Hc Hr) as [E _]. rewrite E in Hj'. by apply not_elem_of_nil in Hj'.
    - intros ->. exact (here Hc Hr).
    - destruct (here Hc Hr) as [Hlt _]. eapply (IH p'); [by apply Hlt|exact Hb|done]. }
  pose proof (safe_now _ _ _ _ _ _ _ Hc Ha) as Hs.
  destruct (can_or_blocked c i q a Ha Hna) as [?|[?|(p & k & -> & Hp)]]; [|by left|by right|by eapply Hwait].
  intros ->. exact (here Hc Hs).
Qed.
(** *** Soundness *)

Lemma unique_head {A} (x : A) (xs : list A) : NoDup (x :: xs) → x ∉ xs.
Proof using. by intros [? _]%NoDup_cons. Qed.

Context (handler : Q → prog S R) (others : S → S → Prop).

(** Handlers are safe when their requests arrive, and the other activities
    guarantee what
    an idle request would. *)
Hypothesis handler_safe : ∀ q i s g, inv P s g → idle P i g → safe i q (handler q) [] (nothing_owned P) s g.
Hypothesis others_guar : ∀ i s g s', others s s' → inv P s g → idle P i g →
  ∃ g', guar P i [] (nothing_owned P) (nothing_owned P) s g s' g' ∧ inv P s' g' ∧ idle P i g'.

(** The ghost state changes as guaranteed. *)
Definition guaranteed (g g' : G) : Prop := ∃ i L r r' s s', guar P i L r r' s g s' g'.

Lemma pool_lock_safe s H l g L r i q p k :
  pool_safe (mkPool s H l) g L r → l !! i = Some (q, Lock p k) → p ∉ H →
  pool_safe (mkPool s ({[p]} ∪ H) (<[i := (q, k)]> l)) g (λ j, if decide (j = i) then p :: L j else L j) r.
Proof.
  intros Hc Hi Hp. pose proof (here Hc (safe_now _ _ _ _ _ _ _ Hc Hi)) as [HL Hs].
  specialize (Hs (ps_guarded _ _ _ _ Hc p Hp)). destruct Hc as [Hinv Hg Hh Ho Hn Ha Hv Hr]; cbn in *.
  assert (∀ j, p ∉ L j) as Hfree by (intros j Hj; apply Hp, Hh; by exists j).
  assert (∀ j x, x ∈ (if decide (j = i) then p :: L j else L j) ↔ (j = i ∧ x = p) ∨ x ∈ L j) as Hin.
  { intros j x. case_decide as Hd; [rewrite elem_of_cons|]; naive_solver. }
  split; cbn; try done.
  - intros x Hx. apply Hg. set_solver.
  - intros x. rewrite elem_of_union, elem_of_singleton, Hh. setoid_rewrite Hin. naive_solver.
  - intros j j' x. rewrite !Hin. intros [[-> ->]|Hj] [[-> E]|Hj']; subst; [done| | |by eapply Ho]; by destruct (Hfree _ Hj') || by destruct (Hfree _ Hj).
  - intros j. case_decide; [|done]. by apply NoDup_cons.
  - intros j. specialize (Hr j). case_decide as Hd; [subst j|].
    + by rewrite list_lookup_insert_eq by by eapply lookup_lt_Some.
    + by rewrite list_lookup_insert_ne.
Qed.

Lemma pool_unlock_safe s H l g L r i q p k :
  pool_safe (mkPool s H l) g L r → l !! i = Some (q, Unlock p k) →
  pool_safe (mkPool s (H ∖ {[p]}) (<[i := (q, k)]> l)) g (λ j, if decide (j = i) then tail (L j) else L j) r.
Proof.
  intros Hc Hi. pose proof (here Hc (safe_now _ _ _ _ _ _ _ Hc Hi)) as (L' & HL & Hgp & Hs).
  destruct Hc as [Hinv Hg Hh Ho Hn Ha Hv Hr]; cbn in *.
  pose proof (Hn i) as Hni. rewrite HL in Hni. apply unique_head in Hni as Hout.
  assert (∀ j x, x ∈ (if decide (j = i) then tail (L j) else L j) ↔ x ∈ L j ∧ x ≠ p) as Hin.
  { intros j x. case_decide as Hd; [subst; rewrite HL; cbn; rewrite elem_of_cons; naive_solver|].
    split; [|naive_solver]. intros Hx. split; [done|]. intros ->. apply Hd, (Ho j i p); [done|]. rewrite HL. left. }
  split; cbn; try done.
  - intros x Hx. destruct (decide (x = p)) as [->|]; [done|]. apply Hg. set_solver.
  - intros x. rewrite elem_of_difference, elem_of_singleton, Hh. setoid_rewrite Hin. naive_solver.
  - intros j j' x. rewrite !Hin. intros [Hj _] [Hj' _]. by eapply Ho.
  - intros j. case_decide; [|done]. subst. rewrite HL. by apply NoDup_cons in Hni as [_ ?].
  - intros j. specialize (Hr j). case_decide as Hd; [subst j; rewrite HL|].
    + by rewrite list_lookup_insert_eq by by eapply lookup_lt_Some.
    + by rewrite list_lookup_insert_ne.
Qed.

Lemma serves_safe c c' g : pool_inv c g → serves c c' → ∃ g', rtc guaranteed g g' ∧ pool_inv c' g'.
Proof.
  intros Hinv Hs. destruct Hs as [i q A m k s H l Hi Hn|i q p k s H l Hi Hp|i q p k s H l Hi]; destruct Hinv as (L & r & Hc).
  - pose proof (here Hc (safe_now _ _ _ _ _ _ _ Hc Hi)) as Hs.
    cbn in Hs. unfold wp in Hs. destruct (m s) as [[v|e|x| |] s'] eqn:E; cbn in *; try done.
    destruct Hs as (g' & r' & Hguar & Hinv & Hs). exists g'. split; [apply rtc_once; by repeat eexists|].
    eexists _, _. apply (pool_safe_step _ _ _ _ _ i r' s' g' Hc Hguar Hinv); cbn.
    + intros j Hj. by rewrite list_lookup_insert_ne.
    + by rewrite list_lookup_insert_eq by by eapply lookup_lt_Some.
  - exists g. split; [apply rtc_refl|]. eexists _, _. by apply pool_lock_safe.
  - exists g. split; [apply rtc_refl|]. eexists _, _. by apply pool_unlock_safe.
Qed.

(** Every safe pool comes to its end. *)
Lemma pool_comes_to_end (c : pool S R Q) : ∀ g, pool_inv c g → comes_to_end c.
Proof.
  induction (serves_wf c) as [c _ IH]. intros g Hc. constructor.
  - destruct (unanswered_or_all (reqs c)) as [(i & q & a & Ha & Hna)|Hall]; [|by left].
    right. by eapply pool_progress.
  - intros c' Hs. destruct (serves_safe c c' g Hc Hs) as (g' & _ & Hc'). by eapply IH.
Qed.

Lemma arrive_safe s H l g q :
  pool_inv (mkPool s H l) g → pool_inv (mkPool s H (l ++ [(q, handler q)])) g.
Proof.
  intros (L & r & [Hinv Hg Hh Ho Hnd Ha Hv Hr]). exists L, r. split; cbn in *; try done.
  intros j. specialize (Hr j). destruct (decide (j < length l)) as [Hj|Hj]; [by rewrite lookup_app_l|].
  rewrite lookup_app_r by lia. rewrite lookup_ge_None_2 in Hr by lia. destruct Hr as (HL & Hn & Hidle).
  destruct (j - length l) as [|d]; cbn; [|done]. rewrite HL, Hn. by apply handler_safe.
Qed.

Lemma others_safe s s' H l g :
  pool_inv (mkPool s H l) g → others s s' → ∃ g', rtc guaranteed g g' ∧ pool_inv (mkPool s' H l) g'.
Proof.
  intros (L & r & Hc) Ho. pose proof (ps_reqs _ _ _ _ Hc (length l)) as Hi. cbn in Hi.
  rewrite lookup_ge_None_2 in Hi by lia. destruct Hi as (HL & Hn & Hidle).
  destruct (others_guar (length l) s g s' Ho (ps_inv _ _ _ _ Hc) Hidle) as (g' & Hguar & Hinv & Hidle').
  exists g'. split; [apply rtc_once; by repeat eexists|]. eexists _, _.
  apply (pool_safe_step _ _ _ _ _ (length l) (nothing_owned P) s' g' Hc); cbn; [by rewrite HL, Hn|done|done|].
  by rewrite lookup_ge_None_2 by lia.
Qed.

(** A pool of safe requests stays one, however they are interleaved. *)
Lemma pool_sound c c' g :
  pool_inv c g → rtc (pstep handler others) c c' → ∃ g', rtc guaranteed g g' ∧ pool_inv c' g'.
Proof.
  intros Hc Hr. revert g Hc. induction Hr as [c|c1 c2 c3 Hs _ IH]; intros g Hc; [exists g; by split; [apply rtc_refl|]|].
  assert (∃ g', rtc guaranteed g g' ∧ pool_inv c2 g') as (g1 & Hg1 & Hc2).
  { destruct Hs as [c c' Hs|q s H l|s s' H l Ho].
    - by eapply serves_safe.
    - exists g. split; [apply rtc_refl|by apply arrive_safe].
    - by eapply others_safe. }
  destruct (IH g1 Hc2) as (g2 & ? & ?). exists g2. split; [by etrans|done].
Qed.
End logic.
