(* ===== verification/GoStd.v ===== *)
(** The parts of Go's standard library that the code computes with: package
    [strings], [strconv], the conversion [string(b)] of a byte, and the bounded
    regular expressions of package [regexp] the code compiles. *)

From S2P Require Import Prelude.
From stdpp Require Import options.

(** ** Package strings *)

Definition strings_HasPrefix (s p : string) : bool := String.prefix p s.

Definition strings_TrimPrefix (s p : string) : string :=
  if strings_HasPrefix s p then str_drop (String.length p) s else s.

Definition str_mem (a : ascii) (chars : string) : bool :=
  existsb (Ascii.eqb a) (bytes_of_string chars).

(** For a [chars] of ASCII characters. *)
Fixpoint strings_ContainsAny (s chars : string) : bool :=
  match s with
  | "" => false
  | String a s => str_mem a chars || strings_ContainsAny s chars
  end.

(** [strings.Index(s, sep)]: the first position where [sep] starts, [None]
    for -1. *)
Fixpoint strings_Index (s sep : string) : option nat :=
  if String.prefix sep s then Some 0
  else match s with
       | "" => None
       | String _ s => S <$> strings_Index s sep
       end.

Definition strings_Contains (s sep : string) : bool :=
  match strings_Index s sep with Some _ => true | None => false end.

Definition strings_HasSuffix (s suf : string) : bool :=
  (String.length suf <=? String.length s) &&
  String.eqb (str_drop (String.length s - String.length suf) s) suf.

(** [strings.Cut]. *)
Definition strings_Cut (s sep : string) : string * string * bool :=
  match strings_Index s sep with
  | Some i => (str_take i s, str_drop (i + String.length sep) s, true)
  | None => (s, "", false)
  end.

(** [strings.TrimRight], [strings.TrimLeft] and [strings.Trim] with a cutset of
    ASCII characters. *)
Fixpoint bytes_trim_left (cut : string) (l : bytes) : bytes :=
  match l with
  | a :: l' => if str_mem a cut then bytes_trim_left cut l' else l
  | [] => []
  end.
Definition strings_TrimLeft (s cut : string) : string :=
  string_of_bytes (bytes_trim_left cut (bytes_of_string s)).
Definition strings_TrimRight (s cut : string) : string :=
  string_of_bytes (rev (bytes_trim_left cut (rev (bytes_of_string s)))).
Definition strings_Trim (s cut : string) : string :=
  strings_TrimRight (strings_TrimLeft s cut) cut.

(** [strings.Split(s, sep)] for a one-character separator. *)
Fixpoint strings_Split1 (sep : ascii) (s : string) : list string :=
  match s with
  | "" => [""]
  | String a s =>
    if Ascii.eqb a sep then "" :: strings_Split1 sep s
    else match strings_Split1 sep s with
         | x :: xs => String a x :: xs
         | [] => [String a ""]
         end
  end.

(** [strings.Join]. *)
Fixpoint strings_Join (l : list string) (sep : string) : string :=
  match l with
  | [] => ""
  | [x] => x
  | x :: l => x +:+ sep +:+ strings_Join l sep
  end.

Lemma strings_Index_spec s sep i :
  strings_Index s sep = Some i →
  i + String.length sep ≤ String.length s ∧
  String.prefix sep (str_drop i s) = true ∧
  ∀ j, j < i → String.prefix sep (str_drop j s) = false.
Proof.
  revert i. induction s as [|a s IH]; intros i; cbn [strings_Index].
  - destruct (String.prefix sep "") eqn:E; [|done]. intros [= <-].
    destruct sep; [|done]. cbn. repeat split; [lia|]. intros; lia.
  - destruct (String.prefix sep (String a s)) eqn:E.
    + intros [= <-]. cbn [str_drop]. repeat split; [|done|intros; lia].
      apply prefix_spec in E as [t E]. rewrite E, str_length_app. lia.
    + destruct (strings_Index s sep) as [k|]; [|done]. intros [= <-].
      destruct (IH _ eq_refl) as (H1 & H2 & H3). cbn [str_drop String.length].
      repeat split; [lia|done|]. intros [|j] Hj; [done|]. apply H3. lia.
Qed.

Lemma strings_Index_None s sep :
  strings_Index s sep = None → ∀ j, String.prefix sep (str_drop j s) = false.
Proof.
  induction s as [|a s IH]; cbn [strings_Index].
  - destruct (String.prefix sep "") eqn:E; [done|]. intros _ [|j]; done.
  - destruct (String.prefix sep (String a s)) eqn:E; [done|].
    destruct (strings_Index s sep); [done|]. intros _ [|j]; [done|]. by apply IH.
Qed.

(** ** A byte as a string

    [string(b)] of a byte [b] is the UTF-8 encoding of the code point [b]: one
    byte below 0x80, two from there on. *)
Definition string_of_rune_byte (b : Z) : string :=
  if (b <? 128)%Z then String (byte_of b) ""
  else String (byte_of (192 + b / 64)) (String (byte_of (128 + b mod 64)) "").

(** ** Package strconv *)
Definition digit_val (a : ascii) : option Z :=
  let v := byte_val a in
  if (48 <=? v)%Z && (v <=? 57)%Z then Some (v - 48)%Z
  else if (97 <=? v)%Z && (v <=? 122)%Z then Some (v - 87)%Z
  else if (65 <=? v)%Z && (v <=? 90)%Z then Some (v - 55)%Z
  else None.

(** The value of a non-empty digit string in [base], unbounded. *)
Fixpoint digits_val (base : Z) (acc : Z) (s : string) : option Z :=
  match s with
  | "" => Some acc
  | String a s =>
    match digit_val a with
    | Some d => if (d <? base)%Z then digits_val base (acc * base + d)%Z s else None
    | None => None
    end
  end.

(** [strconv.ParseInt(s, base, 64)] for [base] 10 or 16: the value, and whether
    there is an error.  A syntax error gives 0; a number out of range gives the
    nearest [int64]. *)
Definition strconv_ParseInt (s : string) (base : Z) : Z * bool :=
  let '(neg, digits) :=
    match s with
    | String a s' =>
      if Ascii.eqb a "+"%char then (false, s')
      else if Ascii.eqb a "-"%char then (true, s')
      else (false, s)
    | "" => (false, "")
    end in
  match digits with
  | "" => (0%Z, true)
  | _ =>
    match digits_val base 0 digits with
    | None => (0%Z, true)
    | Some n =>
      if neg then if (n <=? 2 ^ 63)%Z then ((- n)%Z, false) else ((- 2 ^ 63)%Z, true)
      else if (n <? 2 ^ 63)%Z then (n, false) else ((2 ^ 63 - 1)%Z, true)
    end
  end.

(** [strconv.Atoi], on a 64-bit platform. *)
Definition strconv_Atoi (s : string) : Z * bool := strconv_ParseInt s 10.

Example ParseInt_min : strconv_ParseInt "-9223372036854775808" 10 = ((- 2 ^ 63)%Z, false).
Proof. by vm_compute. Qed.
Example ParseInt_big : strconv_ParseInt "9223372036854775808" 10 = ((2 ^ 63 - 1)%Z, true).
Proof. by vm_compute. Qed.
Example ParseInt_hex : strconv_ParseInt "1fF" 16 = (511%Z, false).
Proof. by vm_compute. Qed.

Lemma strconv_ParseInt_range s base n b :
  (0 < base)%Z → strconv_ParseInt s base = (n, b) → (- 2 ^ 63 ≤ n < 2 ^ 63)%Z.
Proof.
  intros Hb. unfold strconv_ParseInt.
  destruct (match s with "" => _ | String _ _ => _ end) as [neg ds].
  assert (∀ ds acc v, (0 ≤ acc)%Z → digits_val base acc ds = Some v → (0 ≤ v)%Z) as Hpos.
  { clear ds. induction ds as [|a ds IH]; intros acc v Ha; cbn; [intros; simplify_eq; lia|].
    destruct (digit_val a) as [d|] eqn:Ed; [|done].
    destruct (d <? base)%Z; [|done]. apply IH.
    assert (0 ≤ d)%Z; [|nia]. unfold digit_val in Ed. repeat case_match; simplify_eq; lia. }
  destruct ds as [|a ds]; [intros; simplify_eq; lia|].
  destruct (digits_val base 0 (String a ds)) as [v|] eqn:E; [|intros; simplify_eq; lia].
  apply Hpos in E; [|lia].
  destruct neg; [destruct (Z.leb_spec v (2 ^ 63))|destruct (Z.ltb_spec v (2 ^ 63))];
    intros; simplify_eq; lia.
Qed.

(** ** Package regexp: anchored expressions with bounded repetition

    A match is anchored at both ends when some way of matching consumes the
    whole input. *)
Inductive regex :=
  | Class (f : ascii → bool)
  | Seq (r1 r2 : regex)
  | Rep (r : regex) (min extra : nat).  (* r{min,min+extra} *)

(** The remainders of the input after each way of matching a prefix. *)
Fixpoint re_rep (m : bytes → list bytes) (min extra : nat) (s : bytes) : list bytes :=
  match min with
  | S min => m s ≫= re_rep m min extra
  | 0 => (fix opt (extra : nat) (s : bytes) : list bytes :=
            s :: match extra with 0 => [] | S extra => m s ≫= opt extra end) extra s
  end.

Fixpoint re_rests (r : regex) (s : bytes) : list bytes :=
  match r with
  | Class f => match s with a :: s' => if f a then [s'] else [] | [] => [] end
  | Seq r1 r2 => re_rests r1 s ≫= re_rests r2
  | Rep r min extra => re_rep (re_rests r) min extra s
  end.

Definition re_MatchString (r : regex) (s : string) : bool :=
  existsb (λ rest, match rest with [] => true | _ => false end)
    (re_rests r (bytes_of_string s)).

Lemma re_class_rests f s rest :
  rest ∈ re_rests (Class f) s ↔ ∃ a, s = a :: rest ∧ f a = true.
Proof.
  cbn. split.
  - destruct s as [|a s]; [by intros ?%elem_of_nil|]. destruct (f a) eqn:E.
    + intros ->%list_elem_of_singleton. by exists a.
    + by intros ?%elem_of_nil.
  - intros (a & -> & ->). by apply list_elem_of_singleton.
Qed.

Lemma re_rep_opt f extra s rest :
  rest ∈ re_rep (re_rests (Class f)) 0 extra s ↔
  ∃ m, s = m ++ rest ∧ length m ≤ extra ∧ Forall (λ a, f a = true) m.
Proof.
  cbn [re_rep]. revert s. induction extra as [|extra IH]; intros s.
  - rewrite list_elem_of_singleton. split.
    + intros ->. by exists [].
    + intros ([|] & ? & ? & ?); [done|cbn in *; lia].
  - rewrite elem_of_cons, list_elem_of_bind. setoid_rewrite IH.
    setoid_rewrite re_class_rests. split.
    + intros [->|(s' & (m & -> & ? & ?) & (a & -> & ?))].
      * exists []. repeat split; [cbn; lia|done].
      * exists (a :: m). repeat split; [cbn; lia|by constructor].
    + intros ([|a m] & -> & Hl & Hf); [by left|right].
      inversion Hf; subst. exists (m ++ rest). split; [|by exists a].
      exists m. cbn in Hl. repeat split; [lia|done].
Qed.

Lemma re_rep_class f min extra s rest :
  rest ∈ re_rests (Rep (Class f) min extra) s ↔
  ∃ m, s = m ++ rest ∧ min ≤ length m ≤ min + extra ∧ Forall (λ a, f a = true) m.
Proof.
  change (re_rests (Rep (Class f) min extra) s) with (re_rep (re_rests (Class f)) min extra s).
  revert s. induction min as [|min IH]; intros s.
  - rewrite re_rep_opt. split; intros (m & ? & ? & ?); exists m; repeat split; try done; lia.
  - cbn [re_rep]. rewrite list_elem_of_bind. setoid_rewrite IH.
    setoid_rewrite re_class_rests. split.
    + intros (s' & (m & -> & ? & ?) & (a & -> & ?)).
      exists (a :: m). repeat split; [cbn; lia..|by constructor].
    + intros ([|a m] & -> & Hl & Hf); [cbn in Hl; lia|].
      inversion Hf; subst. exists (m ++ rest). split; [|by exists a].
      exists m. cbn in Hl. repeat split; [lia..|done].
Qed.

Lemma re_seq_rests r1 r2 s rest :
  rest ∈ re_rests (Seq r1 r2) s ↔ ∃ s1, rest ∈ re_rests r2 s1 ∧ s1 ∈ re_rests r1 s.
Proof. cbn [re_rests]. by rewrite list_elem_of_bind. Qed.

Lemma re_MatchString_spec r s :
  re_MatchString r s = true ↔ [] ∈ re_rests r (bytes_of_string s).
Proof.
  unfold re_MatchString. rewrite existsb_exists. setoid_rewrite <- list_elem_of_In.
  split; [intros ([] & ? & ?); [done..]|]. by exists [].
Qed.
