(* ===== verification/Types.v ===== *)
(** [pkg/store/types.go]: bucket and object descriptions, write options, list
    requests, and the GCS-style preconditions. *)

From S2P Require Import Prelude Errors.
From stdpp Require Import options.

(** A [time.Time] is an instant, in nanoseconds since the Unix epoch. *)
Abbreviation Time := Z.
(** [t.UnixMicro()] is an [int64]: it wraps around far from the epoch. *)
Definition UnixMicro_of (t : Time) : Z := int64 (t / 1000).
Definition time_UnixMicro (us : Z) : Time := (us * 1000)%Z.   (* time.UnixMicro(us).UTC() *)

(** The values of an [int64]. *)
Definition is_int64 (z : Z) : Prop := (- 2 ^ 63 ≤ z < 2 ^ 63)%Z.

Lemma UnixMicro_of_range t : is_int64 (UnixMicro_of t).
Proof. apply int64_range. Qed.
Lemma UnixMicro_of_time us : is_int64 us → UnixMicro_of (time_UnixMicro us) = us.
Proof. intros H. unfold UnixMicro_of, time_UnixMicro. rewrite Z.div_mul by done. by apply int64_small. Qed.

Record BucketInfo := mkBucketInfo {
  bi_Name : string;
  bi_Created : Time;
  bi_Metageneration : Z;
}.

(** Maps that are nil and maps that are empty are not told apart: the code only
    ranges over them, takes their [len], or encodes them with [omitempty]. *)
Record ObjectInfo := mkObjectInfo {
  oi_Bucket : string;
  oi_Name : string;
  oi_Generation : Z;
  oi_Metageneration : Z;
  oi_Size : Z;
  oi_SHA256 : string;  (* hex *)
  oi_MD5 : bytes;      (* 16 bytes *)
  oi_CRC32C : Z;       (* uint32, Castagnoli *)
  oi_ContentType : string;
  oi_Metadata : gmap string string;
  oi_Created : Time;
  oi_Updated : Time;
}.

#[export] Instance ObjectInfo_eq_dec : EqDecision ObjectInfo.
Proof. solve_decision. Defined.

Record Conditions := mkConditions {
  GenerationMatch : option Z;
  GenerationNotMatch : option Z;
  MetagenerationMatch : option Z;
  MetagenerationNotMatch : option Z;
}.

Definition noConditions : Conditions := mkConditions None None None None.

(** A non-nil pointer whose target fails the test [bad]. *)
Definition cond_fails (c : option Z) (bad : Z → bool) : bool :=
  match c with Some v => bad v | None => false end.

(** [Conditions.check]: [Some e] is the error returned, [None] is nil. *)
Definition check (c : Conditions) (existing : option ObjectInfo) : option error :=
  let gen := match existing with Some o => oi_Generation o | None => 0%Z end in
  let metagen := match existing with Some o => oi_Metageneration o | None => 0%Z end in
  let exists_ := match existing with Some _ => true | None => false end in
  if cond_fails (GenerationMatch c) (λ v, negb (gen =? v)%Z) then Some ErrPreconditionFailed
  else if cond_fails (GenerationNotMatch c) (λ v, exists_ && (gen =? v)%Z) then Some ErrPreconditionFailed
  else if cond_fails (MetagenerationMatch c) (λ v, negb (metagen =? v)%Z) then Some ErrPreconditionFailed
  else if cond_fails (MetagenerationNotMatch c) (λ v, exists_ && (metagen =? v)%Z) then Some ErrPreconditionFailed
  else None.

Record PutOptions := mkPutOptions {
  po_ContentType : string;
  po_Metadata : gmap string string;
  po_Conditions : Conditions;
}.

Record ListRequest := mkListRequest {
  lr_Prefix : string;
  lr_Delimiter : string;
  lr_PageToken : string;
  lr_MaxResults : Z;
}.

Record ListResult := mkListResult {
  Objects : list ObjectInfo;
  Prefixes : list string;
  NextPageToken : string;
}.

(** *** What the preconditions mean *)

(** The specification: a condition speaks about the live generation and
    metageneration, an absent object counting as generation 0; the negative
    conditions hold of an absent object. *)
Definition conditions_hold (c : Conditions) (existing : option ObjectInfo) : Prop :=
  (∀ v, GenerationMatch c = Some v →
     match existing with Some o => oi_Generation o = v | None => v = 0%Z end) ∧
  (∀ v o, GenerationNotMatch c = Some v → existing = Some o → oi_Generation o ≠ v) ∧
  (∀ v, MetagenerationMatch c = Some v →
     match existing with Some o => oi_Metageneration o = v | None => v = 0%Z end) ∧
  (∀ v o, MetagenerationNotMatch c = Some v → existing = Some o → oi_Metageneration o ≠ v).

Lemma check_cases c existing :
  check c existing = None ∨ check c existing = Some ErrPreconditionFailed.
Proof. unfold check. repeat case_match; auto. Qed.

Lemma cond_fails_spec c bad :
  cond_fails c bad = false ↔ ∀ v, c = Some v → bad v = false.
Proof. destruct c as [v|]; cbn; split; intros; simplify_eq; auto. Qed.

Lemma check_None c existing :
  let gen := match existing with Some o => oi_Generation o | None => 0%Z end in
  let metagen := match existing with Some o => oi_Metageneration o | None => 0%Z end in
  let exists_ := match existing with Some _ => true | None => false end in
  check c existing = None ↔
    cond_fails (GenerationMatch c) (λ v, negb (gen =? v)%Z) = false ∧
    cond_fails (GenerationNotMatch c) (λ v, exists_ && (gen =? v)%Z) = false ∧
    cond_fails (MetagenerationMatch c) (λ v, negb (metagen =? v)%Z) = false ∧
    cond_fails (MetagenerationNotMatch c) (λ v, exists_ && (metagen =? v)%Z) = false.
Proof. cbn zeta. unfold check. repeat case_match; intuition congruence. Qed.

Lemma check_spec c existing : check c existing = None ↔ conditions_hold c existing.
Proof.
  rewrite check_None, !cond_fails_spec. unfold conditions_hold.
  destruct existing as [o|]; cbn [andb]; setoid_rewrite negb_false_iff;
    setoid_rewrite Z.eqb_eq; try setoid_rewrite Z.eqb_neq.
  - split; intros (H1 & H2 & H3 & H4); repeat split; intros; simplify_eq; eauto.
  - split; intros (H1 & H2 & H3 & H4); repeat split; intros; simplify_eq; eauto.
    all: symmetry; eauto.
Qed.

Lemma check_noConditions existing : check noConditions existing = None.
Proof. done. Qed.

(** Create-if-absent: [GenerationMatch = 0] lets a write through exactly when
    the object does not exist, given that live generations are not 0. *)
Lemma check_create_only existing :
  (∀ o, existing = Some o → oi_Generation o ≠ 0%Z) →
  check (mkConditions (Some 0%Z) None None None) existing = None ↔ existing = None.
Proof.
  intros Hg. rewrite check_spec. unfold conditions_hold; cbn. split.
  - intros (H & _). destruct existing as [o|]; [|done].
    destruct (Hg o eq_refl). by apply H.
  - intros ->. repeat split; intros; simplify_eq; done.
Qed.
