(* ===== verification/Hash.v ===== *)
(** The checksums of [crypto/sha256], [crypto/md5] and [hash/crc32]
    (Castagnoli), as executable functions on byte strings, and
    [encoding/hex].EncodeToString.  The code under [src/] only calls them; they
    are modelled here so that the whole store runs, and the proofs use no more
    than the lengths and ranges of their results. *)

From S2P Require Import Prelude.
From stdpp Require Import options.
Local Open Scope N_scope.

(** ** 32-bit words *)
Definition w32 (x : N) : N := x mod 2 ^ 32.
Definition add32 (x y : N) : N := w32 (x + y).
Definition rotr32 (n x : N) : N := N.lor (N.shiftr x n) (w32 (N.shiftl x (32 - n))).
Definition rotl32 (n x : N) : N := rotr32 (32 - n) x.
Definition not32 (x : N) : N := N.lxor x 0xffffffff.

Definition byte_N (a : ascii) : N := N_of_ascii a.
Definition N_byte (x : N) : ascii := ascii_of_N (x mod 256).

(** Big- and little-endian words. *)
Definition be32 (l : bytes) : N := fold_left (λ acc b, acc * 256 + byte_N b) l 0.
Definition le32 (l : bytes) : N := be32 (reverse l).
Definition put_be32 (x : N) : bytes :=
  [N_byte (N.shiftr x 24); N_byte (N.shiftr x 16); N_byte (N.shiftr x 8); N_byte x].
Definition put_le32 (x : N) : bytes := reverse (put_be32 x).

(** Cut a list into pieces of [n] elements ([fuel] bounds their number). *)
Fixpoint pieces (fuel : nat) (n : nat) (l : bytes) : list bytes :=
  match fuel, l with
  | S fuel, _ :: _ => take n l :: pieces fuel n (drop n l)
  | _, _ => []
  end.

(** Padding to a multiple of 64 bytes: 0x80, zeros, and the length in bits. *)
Definition pad (len64 : N → bytes) (msg : bytes) : bytes :=
  let n := length msg in
  let z := ((119 - n mod 64) mod 64)%nat in
  msg ++ N_byte 0x80 :: replicate z (N_byte 0) ++ len64 (8 * N.of_nat n).
Definition be64 (x : N) : bytes := put_be32 (N.shiftr x 32) ++ put_be32 (w32 x).
Definition le64 (x : N) : bytes := put_le32 (w32 x) ++ put_le32 (N.shiftr x 32).

Definition blocks (p : bytes) : list bytes := pieces (length p) 64 p.
Definition words (dec : bytes → N) (block : bytes) : list N := dec <$> pieces 16 4 block.

(** ** SHA-256 *)
Module Sha256.
(** The constants are the first 32 bits of the fractional parts of roots of the
    first primes: cube roots for the rounds, square roots for the initial state. *)
Definition divides_none (n : nat) : bool :=
  forallb (λ d, negb (Nat.modulo n d =? 0)%nat) (seq 2 (n - 2)).
Definition primes (k : nat) : list N := N.of_nat <$> take k (List.filter divides_none (seq 2 320)).

(** The integer cube root, bit by bit. *)
Definition cube_root (bits : nat) (n : N) : N :=
  fold_left (λ r b, let r' := r + 2 ^ N.of_nat b in if r' * r' * r' <=? n then r' else r)
    (rev (seq 0 bits)) 0.

Definition K : list N :=
  Eval vm_compute in (λ p, w32 (cube_root 40 (p * 2 ^ 96))) <$> primes 64.
Definition H0 : list N :=
  Eval vm_compute in (λ p, w32 (N.sqrt (p * 2 ^ 64))) <$> primes 8.

(** The message schedule, kept newest word first. *)
Fixpoint schedule (n : nat) (rev_w : list N) : list N :=
  match n with
  | O => rev_w
  | S n =>
    let w15 := nth 14 rev_w 0 in
    let w2 := nth 1 rev_w 0 in
    let s0 := N.lxor (N.lxor (rotr32 7 w15) (rotr32 18 w15)) (N.shiftr w15 3) in
    let s1 := N.lxor (N.lxor (rotr32 17 w2) (rotr32 19 w2)) (N.shiftr w2 10) in
    let w := w32 (nth 15 rev_w 0 + s0 + nth 6 rev_w 0 + s1) in
    schedule n (w :: rev_w)
  end.

Definition state : Type := N * N * N * N * N * N * N * N.

Definition round (st : state) (kw : N * N) : state :=
  let '(a, b, c, d, e, f, g, h) := st in
  let S1 := N.lxor (N.lxor (rotr32 6 e) (rotr32 11 e)) (rotr32 25 e) in
  let ch := N.lxor (N.land e f) (N.land (not32 e) g) in
  let t1 := w32 (h + S1 + ch + kw.1 + kw.2) in
  let S0 := N.lxor (N.lxor (rotr32 2 a) (rotr32 13 a)) (rotr32 22 a) in
  let maj := N.lxor (N.lxor (N.land a b) (N.land a c)) (N.land b c) in
  let t2 := w32 (S0 + maj) in
  (add32 t1 t2, a, b, c, add32 d t1, e, f, g).

Definition compress (hs : list N) (block : bytes) : list N :=
  let ws := reverse (schedule 48 (reverse (words be32 block))) in
  match hs with
  | [a; b; c; d; e; f; g; h] =>
    let '(a', b', c', d', e', f', g', h') :=
      fold_left round (zip K ws) (a, b, c, d, e, f, g, h) in
    [add32 a a'; add32 b b'; add32 c c'; add32 d d';
     add32 e e'; add32 f f'; add32 g g'; add32 h h']
  | _ => hs
  end.

Definition sum (msg : bytes) : bytes :=
  fold_left compress (blocks (pad be64 msg)) H0 ≫= put_be32.
End Sha256.

(** ** MD5 *)
Module Md5.
Definition T : list N :=
[0xd76aa478; 0xe8c7b756; 0x242070db; 0xc1bdceee;
 0xf57c0faf; 0x4787c62a; 0xa8304613; 0xfd469501;
 0x698098d8; 0x8b44f7af; 0xffff5bb1; 0x895cd7be;
 0x6b901122; 0xfd987193; 0xa679438e; 0x49b40821;
 0xf61e2562; 0xc040b340; 0x265e5a51; 0xe9b6c7aa;
 0xd62f105d; 0x02441453; 0xd8a1e681; 0xe7d3fbc8;
 0x21e1cde6; 0xc33707d6; 0xf4d50d87; 0x455a14ed;
 0xa9e3e905; 0xfcefa3f8; 0x676f02d9; 0x8d2a4c8a;
 0xfffa3942; 0x8771f681; 0x6d9d6122; 0xfde5380c;
 0xa4beea44; 0x4bdecfa9; 0xf6bb4b60; 0xbebfbc70;
 0x289b7ec6; 0xeaa127fa; 0xd4ef3085; 0x04881d05;
 0xd9d4d039; 0xe6db99e5; 0x1fa27cf8; 0xc4ac5665;
 0xf4292244; 0x432aff97; 0xab9423a7; 0xfc93a039;
 0x655b59c3; 0x8f0ccc92; 0xffeff47d; 0x85845dd1;
 0x6fa87e4f; 0xfe2ce6e0; 0xa3014314; 0x4e0811a1;
 0xf7537e82; 0xbd3af235; 0x2ad7d2bb; 0xeb86d391].
Definition shifts : list N :=
  [7; 12; 17; 22; 7; 12; 17; 22; 7; 12; 17; 22; 7; 12; 17; 22;
   5; 9; 14; 20; 5; 9; 14; 20; 5; 9; 14; 20; 5; 9; 14; 20;
   4; 11; 16; 23; 4; 11; 16; 23; 4; 11; 16; 23; 4; 11; 16; 23;
   6; 10; 15; 21; 6; 10; 15; 21; 6; 10; 15; 21; 6; 10; 15; 21].

Definition round (ws : list N) (st : N * N * N * N) (i : nat) : N * N * N * N :=
  let '(a, b, c, d) := st in
  let '(f, g) :=
    if (i <? 16)%nat then (N.lor (N.land b c) (N.land (not32 b) d), i)
    else if (i <? 32)%nat then (N.lor (N.land d b) (N.land (not32 d) c), ((5 * i + 1) mod 16)%nat)
    else if (i <? 48)%nat then (N.lxor (N.lxor b c) d, ((3 * i + 5) mod 16)%nat)
    else (N.lxor c (N.lor b (not32 d)), ((7 * i) mod 16)%nat) in
  let f' := w32 (f + a + nth i T 0 + nth g ws 0) in
  (d, add32 b (rotl32 (nth i shifts 0) f'), b, c).

Definition compress (hs : N * N * N * N) (block : bytes) : N * N * N * N :=
  let '(a, b, c, d) := hs in
  let '(a', b', c', d') := fold_left (round (words le32 block)) (seq 0 64) hs in
  (add32 a a', add32 b b', add32 c c', add32 d d').

Definition sum (msg : bytes) : bytes :=
  let '(a, b, c, d) :=
    fold_left compress (blocks (pad le64 msg))
      (0x67452301, 0xefcdab89, 0x98badcfe, 0x10325476) in
  put_le32 a ++ put_le32 b ++ put_le32 c ++ put_le32 d.
End Md5.

(** ** CRC-32C, reflected polynomial 0x82f63b78 *)
Module Crc32c.
Fixpoint shift_out (n : nat) (c : N) : N :=
  match n with
  | O => c
  | S n =>
    shift_out n (if N.testbit c 0 then N.lxor (N.shiftr c 1) 0x82f63b78 else N.shiftr c 1)
  end.
Definition update (c : N) (b : ascii) : N := shift_out 8 (N.lxor c (byte_N b)).
Definition checksum (msg : bytes) : N :=
  w32 (N.lxor (fold_left update msg 0xffffffff) 0xffffffff).
End Crc32c.

Definition sha256_sum : bytes → bytes := Sha256.sum.
Definition md5_sum : bytes → bytes := Md5.sum.
Definition crc32c_sum (msg : bytes) : Z := Z.of_N (Crc32c.checksum msg).

(** ** encoding/hex *)
Definition hex_digit (x : N) : ascii :=
  if x <? 10 then ascii_of_N (48 + x) else ascii_of_N (87 + x).
Fixpoint hex_EncodeToString (l : bytes) : string :=
  match l with
  | [] => ""
  | b :: l =>
    String (hex_digit (byte_N b / 16)) (String (hex_digit (byte_N b mod 16)) (hex_EncodeToString l))
  end.

Example sha256_abc : hex_EncodeToString (sha256_sum (bytes_of_string "abc")) =
  "ba7816bf8f01cfea414140de5dae2223b00361a396177a9cb410ff61f20015ad".
Proof. by vm_compute. Qed.
Example md5_abc : hex_EncodeToString (md5_sum (bytes_of_string "abc")) =
  "900150983cd24fb0d6963f7d28e17f72".
Proof. by vm_compute. Qed.
Example crc32c_digits : crc32c_sum (bytes_of_string "123456789") = 0xe3069283%Z.
Proof. by vm_compute. Qed.

(** ** Lengths and ranges *)
Lemma length_bind_be32 (l : list N) : length (l ≫= put_be32) = (4 * length l)%nat.
Proof.
  induction l as [|x l IH]; [done|]. rewrite bind_cons, length_app, IH.
  change (length (put_be32 x)) with 4%nat. cbn [length]. lia.
Qed.

Lemma length_compress hs block : length (Sha256.compress hs block) = length hs.
Proof.
  unfold Sha256.compress.
  do 8 (destruct hs as [|? hs]; [done|]). destruct hs; [|done].
  by destruct (fold_left _ _ _) as [[[[[[[? ?] ?] ?] ?] ?] ?] ?].
Qed.

Lemma length_sha256_sum msg : length (sha256_sum msg) = 32%nat.
Proof.
  unfold sha256_sum, Sha256.sum. rewrite length_bind_be32.
  assert (∀ bs hs, length (fold_left Sha256.compress bs hs) = length hs) as ->; [|done].
  induction bs as [|b bs IH]; intros hs; [done|]. cbn. by rewrite IH, length_compress.
Qed.

Lemma length_md5_sum msg : length (md5_sum msg) = 16%nat.
Proof. unfold md5_sum, Md5.sum. by destruct (fold_left _ _ _) as [[[? ?] ?] ?]. Qed.

Lemma crc32c_sum_range msg : (0 ≤ crc32c_sum msg < 2 ^ 32)%Z.
Proof.
  unfold crc32c_sum, Crc32c.checksum, w32.
  generalize (N.lxor (fold_left Crc32c.update msg 4294967295) 4294967295). intros x.
  change (2 ^ 32)%Z with (Z.of_N (2 ^ 32)).
  split; [apply N2Z.is_nonneg|]. apply N2Z.inj_lt. by apply N.mod_lt.
Qed.

Lemma length_hex l : String.length (hex_EncodeToString l) = (2 * length l)%nat.
Proof. induction l as [|b l IH]; [done|]. cbn. rewrite IH. lia. Qed.

Lemma length_sha256_hex msg : String.length (hex_EncodeToString (sha256_sum msg)) = 64%nat.
Proof. by rewrite length_hex, length_sha256_sum. Qed.

Lemma hex_digit_inj x y : x < 16 → y < 16 → hex_digit x = hex_digit y → x = y.
Proof.
  unfold hex_digit. intros Hx Hy.
  destruct (N.ltb_spec x 10), (N.ltb_spec y 10); intros E;
    apply (f_equal N_of_ascii) in E; rewrite !N_ascii_embedding in E; lia.
Qed.

#[export] Instance hex_inj : Inj (=) (=) hex_EncodeToString.
Proof.
  intros l1. induction l1 as [|a l1 IH]; intros [|b l2] E; try done.
  cbn [hex_EncodeToString] in E. injection E as E1 E2 E3.
  f_equal; [|by apply IH].
  pose proof (N_ascii_bounded a). pose proof (N_ascii_bounded b). unfold byte_N in *.
  apply hex_digit_inj in E1, E2; try (apply N.mod_lt; lia); try (apply N.Div0.div_lt_upper_bound; lia).
  rewrite <- (ascii_N_embedding a), <- (ascii_N_embedding b). f_equal.
  rewrite (N.div_mod' (N_of_ascii a) 16), (N.div_mod' (N_of_ascii b) 16). congruence.
Qed.

#[global] Arguments sha256_sum : simpl never.
#[global] Arguments md5_sum : simpl never.
#[global] Arguments crc32c_sum : simpl never.
#[global] Arguments hex_EncodeToString : simpl never.
