(* ===== verification/Names.v ===== *)
(** Bucket and object names: the checks of [pkg/store/store.go] and
    [pkg/store/bucket.go], and why a valid bucket name is a safe path
    component. *)

From S2P Require Import Prelude GoStd.
From stdpp Require Import options.

Definition char_in (lo hi : ascii) (a : ascii) : bool :=
  (byte_val lo <=? byte_val a)%Z && (byte_val a <=? byte_val hi)%Z.

(** The character classes [[a-z0-9]] and [[a-z0-9._-]]. *)
Definition is_alnum (a : ascii) : bool := char_in "a" "z" a || char_in "0" "9" a.
Definition is_name_char (a : ascii) : bool :=
  is_alnum a || Ascii.eqb a "." || Ascii.eqb a "_" || Ascii.eqb a "-".

(** [^[a-z0-9][a-z0-9._-]{1,61}[a-z0-9]$] *)
Definition validBucketNameRE : regex :=
  Seq (Class is_alnum) (Seq (Rep (Class is_name_char) 1 60) (Class is_alnum)).

Definition validBucketName (name : string) : bool := re_MatchString validBucketNameRE name.

Definition validObjectName (name : string) : bool :=
  negb (String.eqb name "") && negb (String.eqb name ".") && negb (String.eqb name "..") &&
  negb (strings_ContainsAny name (String "000" (String "010" (String "013" "")))) &&
  (String.length name <=? 1024).

(** The rule the comment on [validBucketName] states. *)
Definition bucket_name_rule (name : string) : Prop :=
  ∃ first middle last,
    bytes_of_string name = first :: middle ++ [last] ∧
    is_alnum first = true ∧ is_alnum last = true ∧
    Forall (λ a, is_name_char a = true) middle ∧
    3 ≤ String.length name ≤ 63.

Lemma length_bytes_of_string s : length (bytes_of_string s) = String.length s.
Proof. induction s; cbn; auto. Qed.

Lemma validBucketName_spec name :
  validBucketName name = true ↔ bucket_name_rule name.
Proof.
  unfold validBucketName, validBucketNameRE. rewrite re_MatchString_spec.
  rewrite re_seq_rests. setoid_rewrite re_seq_rests. setoid_rewrite re_rep_class.
  setoid_rewrite re_class_rests. unfold bucket_name_rule.
  rewrite <- length_bytes_of_string. split.
  - intros (s1 & (s2 & (z & -> & Hz) & (m & -> & Hl & Hm)) & (a & -> & Ha)).
    exists a, m, z. repeat split; try done; cbn; rewrite length_app; cbn; lia.
  - intros (a & m & z & E & Ha & Hz & Hm & Hl). rewrite E in *.
    cbn in Hl. rewrite length_app in Hl. cbn in Hl.
    exists (m ++ [z]). split; [|by exists a].
    exists [z]. split; [by exists z|]. exists m. repeat split; [lia..|done].
Qed.

(** No byte of a valid bucket name is a path separator or a NUL. *)
Lemma validBucketName_chars name a :
  validBucketName name = true → a ∈ bytes_of_string name → is_name_char a = true.
Proof.
  rewrite validBucketName_spec. intros (f & m & z & -> & Hf & Hz & Hm & _) Ha.
  assert (∀ b, is_alnum b = true → is_name_char b = true) as Hw.
  { intros b Hb. unfold is_name_char. by rewrite Hb. }
  rewrite elem_of_cons, elem_of_app, list_elem_of_singleton in Ha.
  destruct Ha as [->|[Ha| ->]]; [auto| |auto].
  rewrite Forall_forall in Hm. auto.
Qed.

Lemma validBucketName_no_slash name :
  validBucketName name = true → "/"%char ∉ bytes_of_string name.
Proof. by intros H ?%(validBucketName_chars _ _ H). Qed.

Lemma validBucketName_not_dots name :
  validBucketName name = true → name ≠ "" ∧ name ≠ "." ∧ name ≠ "..".
Proof. intros H. repeat split; intros ->; by vm_compute in H. Qed.

Lemma strings_ContainsAny_spec s chars :
  strings_ContainsAny s chars = true ↔ ∃ a, a ∈ bytes_of_string s ∧ str_mem a chars = true.
Proof.
  induction s as [|b s IH]; cbn.
  - split; [done|]. by intros (? & ?%elem_of_nil & _).
  - rewrite orb_true_iff, IH. setoid_rewrite elem_of_cons. split.
    + intros [?|(a & ? & ?)]; eauto.
    + intros (a & [->|?] & ?); eauto.
Qed.

Lemma validObjectName_spec name :
  validObjectName name = true ↔
  (1 ≤ String.length name ≤ 1024 ∧ name ≠ "." ∧ name ≠ ".." ∧
   ("000"%char ∉ bytes_of_string name) ∧ ("010"%char ∉ bytes_of_string name) ∧
   ("013"%char ∉ bytes_of_string name)).
Proof.
  unfold validObjectName.
  rewrite !andb_true_iff, !negb_true_iff, !String.eqb_neq, Nat.leb_le.
  rewrite <- (not_true_iff_false (strings_ContainsAny _ _)), strings_ContainsAny_spec.
  unfold str_mem. cbn [bytes_of_string existsb].
  split.
  - intros ((((H1 & H2) & H3) & H4) & H5).
    repeat split; try done; [destruct name; cbn in *; [done|lia]|..];
      intros H; apply H4; eexists; (split; [exact H|done]).
  - intros ((? & ?) & ? & ? & ? & ? & ?).
    repeat split; try done; [by intros ->; cbn in *; lia|].
    intros (a & Ha & Hm). rewrite !orb_true_iff, !Ascii.eqb_eq in Hm.
    destruct Hm as [->|[->|[->|?]]]; done.
Qed.

#[global] Arguments validBucketName : simpl never.
#[global] Arguments validObjectName : simpl never.
