(* ===== verification/Json.v ===== *)
(** [encoding/json], as far as the code uses it: Marshal of a
    [map[string]string], and a parser of JSON texts with the conversion of a
    parsed object to a [map[string]string] that Unmarshal performs.

    Strings are byte strings; the encoder and the decoder replace bytes that
    are not valid UTF-8 by U+FFFD, as Go does. *)

From S2P Require Import Prelude GoStd.
From stdpp Require Import options.
Local Open Scope Z_scope.

(** ** UTF-8 *)
Definition in_range (lo hi : Z) (a : ascii) : bool := (lo <=? byte_val a) && (byte_val a <=? hi).
Definition cont (a : ascii) : bool := in_range 0x80 0xbf a.

(** The length of the valid encoding at the head of [l], or 0 if there is none:
    [utf8.DecodeRune] without the rune. *)
Definition utf8_len (l : bytes) : nat :=
  match l with
  | [] => 0
  | a :: l =>
    if byte_val a <? 0x80 then 1%nat
    else if in_range 0xc2 0xdf a then
      match l with b :: _ => if cont b then 2%nat else 0%nat | _ => 0%nat end
    else if in_range 0xe0 0xef a then
      match l with
      | b :: c :: _ =>
        let lo := if byte_val a =? 0xe0 then 0xa0 else 0x80 in
        let hi := if byte_val a =? 0xed then 0x9f else 0xbf in
        if in_range lo hi b && cont c then 3%nat else 0%nat
      | _ => 0%nat
      end
    else if in_range 0xf0 0xf4 a then
      match l with
      | b :: c :: d :: _ =>
        let lo := if byte_val a =? 0xf0 then 0x90 else 0x80 in
        let hi := if byte_val a =? 0xf4 then 0x8f else 0xbf in
        if in_range lo hi b && cont c && cont d then 4%nat else 0%nat
      | _ => 0%nat
      end
    else 0%nat
  end.

(** [utf8.Valid], by cutting off one encoded rune at a time. *)
Inductive utf8_valid : bytes → Prop :=
  | utf8_valid_nil : utf8_valid []
  | utf8_valid_rune r l :
      r ≠ [] → (∀ l', utf8_len (r ++ l') = length r) → utf8_valid l → utf8_valid (r ++ l).

(** [utf8.AppendRune] for a code point that is not a surrogate. *)
Definition utf8_encode (r : Z) : bytes :=
  if r <? 0x80 then [byte_of r]
  else if r <? 0x800 then [byte_of (0xc0 + r / 64); byte_of (0x80 + r mod 64)]
  else if r <? 0x10000 then
    [byte_of (0xe0 + r / 4096); byte_of (0x80 + (r / 64) mod 64); byte_of (0x80 + r mod 64)]
  else
    [byte_of (0xf0 + r / 262144); byte_of (0x80 + (r / 4096) mod 64);
     byte_of (0x80 + (r / 64) mod 64); byte_of (0x80 + r mod 64)].

(** ** Marshal *)
Definition hexd (z : Z) : ascii := if z <? 10 then byte_of (48 + z) else byte_of (87 + z).

Definition esc_u (z : Z) : bytes :=
  bytes_of_string "\u" ++
  [hexd (z / 4096); hexd ((z / 256) mod 16); hexd ((z / 16) mod 16); hexd (z mod 16)].

(** One ASCII character inside a JSON string ([escapeHTML] is on). *)
Definition esc_ascii (a : ascii) : bytes :=
  let v := byte_val a in
  if (v =? 34) || (v =? 92) then ["\"%char; a]
  else if v =? 8 then bytes_of_string "\b"
  else if v =? 12 then bytes_of_string "\f"
  else if v =? 10 then bytes_of_string "\n"
  else if v =? 13 then bytes_of_string "\r"
  else if v =? 9 then bytes_of_string "\t"
  else if (v <? 32) || (v =? 38) || (v =? 60) || (v =? 62) then esc_u v
  else [a].

(** One encoded rune of more than one byte: U+2028 and U+2029 are escaped. *)
Definition esc_rune (r : bytes) : bytes :=
  if decide (r = utf8_encode 0x2028) then esc_u 0x2028
  else if decide (r = utf8_encode 0x2029) then esc_u 0x2029
  else r.

Fixpoint esc_body (fuel : nat) (l : bytes) : bytes :=
  match fuel, l with
  | S fuel, a :: l' =>
    match utf8_len l with
    | O => esc_u 0xfffd ++ esc_body fuel l'
    | S O => esc_ascii a ++ esc_body fuel l'
    | n => esc_rune (take n l) ++ esc_body fuel (drop n l)
    end
  | _, _ => []
  end.

Definition quote : ascii := "034"%char.

Definition marshal_string (s : string) : bytes :=
  let l := bytes_of_string s in
  quote :: esc_body (length l) l ++ [quote].

(** Keys in byte order. *)
Definition sorted_entries (m : gmap string string) : list (string * string) :=
  merge_sort (λ p q, String.le p.1 q.1) (map_to_list m).

Fixpoint marshal_members (l : list (string * string)) : bytes :=
  match l with
  | [] => []
  | [(k, v)] => marshal_string k ++ ":"%char :: marshal_string v
  | (k, v) :: l => marshal_string k ++ ":"%char :: marshal_string v ++ ","%char :: marshal_members l
  end.

(** [json.Marshal] of a non-nil [map[string]string]. *)
Definition json_Marshal_map (m : gmap string string) : string :=
  string_of_bytes ("{"%char :: marshal_members (sorted_entries m) ++ ["}"%char]).

(** ** Parsing *)
#[warnings="-register-all"]
Inductive json :=
  | JNull
  | JBool (b : bool)
  | JNum (lit : bytes)
  | JStr (s : bytes)
  | JArr (l : list json)
  | JObj (l : list (bytes * json)).

Definition is_ws (a : ascii) : bool :=
  let v := byte_val a in (v =? 32) || (v =? 9) || (v =? 10) || (v =? 13).

Fixpoint skip_ws (l : bytes) : bytes :=
  match l with a :: l' => if is_ws a then skip_ws l' else l | [] => [] end.

Definition hexv (a : ascii) : option Z :=
  match digit_val a with Some d => if d <? 16 then Some d else None | None => None end.

(** Four hexadecimal digits. *)
Definition getu4 (l : bytes) : option (Z * bytes) :=
  match l with
  | a :: b :: c :: d :: l =>
    match hexv a, hexv b, hexv c, hexv d with
    | Some a, Some b, Some c, Some d => Some (((a * 16 + b) * 16 + c) * 16 + d, l)
    | _, _, _, _ => None
    end
  | _ => None
  end.

Definition surrogate_hi (r : Z) : bool := (0xd800 <=? r) && (r <? 0xdc00).
Definition surrogate_lo (r : Z) : bool := (0xdc00 <=? r) && (r <? 0xe000).

(** The rune of a [\u] escape whose first code unit is [r]: a surrogate needs
    its partner right behind it, else it is U+FFFD. *)
Definition unescape_u (r : Z) (l : bytes) : bytes * bytes :=
  if surrogate_hi r || surrogate_lo r then
    match l with
    | "\"%char :: "u"%char :: l' =>
      match getu4 l' with
      | Some (r2, l2) =>
        if surrogate_hi r && surrogate_lo r2
        then (utf8_encode ((r - 0xd800) * 1024 + (r2 - 0xdc00) + 0x10000), l2)
        else (utf8_encode 0xfffd, l)
      | None => (utf8_encode 0xfffd, l)
      end
    | _ => (utf8_encode 0xfffd, l)
    end
  else (utf8_encode r, l).

(** The character after a backslash, other than [u]. *)
Definition unescape (a : ascii) : option ascii :=
  let v := byte_val a in
  if (v =? 34) || (v =? 92) || (v =? 47) then Some a
  else if v =? 98 then Some (byte_of 8)
  else if v =? 102 then Some (byte_of 12)
  else if v =? 110 then Some (byte_of 10)
  else if v =? 114 then Some (byte_of 13)
  else if v =? 116 then Some (byte_of 9)
  else None.

(** The rest of a string literal after its opening quote. *)
Fixpoint parse_string (fuel : nat) (l : bytes) : option (bytes * bytes) :=
  match fuel with
  | O => None
  | S fuel =>
    let cons_ (p : bytes) (r : option (bytes * bytes)) :=
      match r with Some (s, rest) => Some (p ++ s, rest) | None => None end in
    match l with
    | [] => None
    | a :: l' =>
      if byte_val a =? 34 then Some ([], l')
      else if byte_val a =? 92 then
        match l' with
        | "u"%char :: l2 =>
          match getu4 l2 with
          | Some (r, l3) => let '(p, l4) := unescape_u r l3 in cons_ p (parse_string fuel l4)
          | None => None
          end
        | c :: l2 =>
          match unescape c with Some b => cons_ [b] (parse_string fuel l2) | None => None end
        | [] => None
        end
      else if byte_val a <? 32 then None
      else
        match utf8_len l with
        | O => cons_ (utf8_encode 0xfffd) (parse_string fuel l')
        | n => cons_ (take n l) (parse_string fuel (drop n l))
        end
    end
  end.

Definition is_digit (a : ascii) : bool := in_range 48 57 a.

Fixpoint span_digits (l : bytes) : bytes * bytes :=
  match l with
  | a :: l' => if is_digit a then let '(d, r) := span_digits l' in (a :: d, r) else ([], l)
  | [] => ([], [])
  end.

(** [-? (0 | [1-9][0-9]* ) (. [0-9]+)? ([eE] [+-]? [0-9]+)?] *)
Definition parse_number (l : bytes) : option (bytes * bytes) :=
  let '(sign, l1) := match l with "-"%char :: l' => (["-"%char], l') | _ => ([], l) end in
  let '(int_, l2) :=
    match l1 with
    | "0"%char :: l' => (["0"%char], l')
    | _ => span_digits l1
    end in
  match int_ with
  | [] => None
  | _ =>
    let frac :=
      match l2 with
      | "."%char :: l' =>
        match span_digits l' with ([], _) => None | (d, r) => Some ("."%char :: d, r) end
      | _ => Some ([], l2)
      end in
    match frac with
    | None => None
    | Some (f, l3) =>
      let exp :=
        match l3 with
        | e :: l' =>
          if Ascii.eqb e "e" || Ascii.eqb e "E" then
            let '(sg, l'') :=
              match l' with
              | "+"%char :: r => (["+"%char], r)
              | "-"%char :: r => (["-"%char], r)
              | _ => ([], l')
              end in
            match span_digits l'' with ([], _) => None | (d, r) => Some (e :: sg ++ d, r) end
          else Some ([], l3)
        | [] => Some ([], l3)
        end in
      match exp with
      | None => None
      | Some (x, l4) => Some (sign ++ int_ ++ f ++ x, l4)
      end
    end
  end.

(** A keyword of the text. *)
Definition eat (w : string) (l : bytes) : option bytes :=
  let w := bytes_of_string w in
  if decide (take (length w) l = w) then Some (drop (length w) l) else None.

(** A value at the head of [l] (blanks skipped), and what follows it.  The
    three functions share one counter, which every call decreases. *)
Fixpoint parse_value (fuel : nat) (l : bytes) : option (json * bytes) :=
  match fuel with
  | O => None
  | S fuel =>
    match skip_ws l with
    | [] => None
    | a :: l1 =>
      if Ascii.eqb a "{" then
        match skip_ws l1 with
        | "}"%char :: l2 => Some (JObj [], l2)
        | _ => match parse_members fuel l1 with Some (ms, l2) => Some (JObj ms, l2) | None => None end
        end
      else if Ascii.eqb a "[" then
        match skip_ws l1 with
        | "]"%char :: l2 => Some (JArr [], l2)
        | _ => match parse_elements fuel l1 with Some (vs, l2) => Some (JArr vs, l2) | None => None end
        end
      else if Ascii.eqb a quote then
        match parse_string (S (length l1)) l1 with Some (s, l2) => Some (JStr s, l2) | None => None end
      else if Ascii.eqb a "t" then
        match eat "true" (a :: l1) with Some l2 => Some (JBool true, l2) | None => None end
      else if Ascii.eqb a "f" then
        match eat "false" (a :: l1) with Some l2 => Some (JBool false, l2) | None => None end
      else if Ascii.eqb a "n" then
        match eat "null" (a :: l1) with Some l2 => Some (JNull, l2) | None => None end
      else
        match parse_number (a :: l1) with Some (n, l2) => Some (JNum n, l2) | None => None end
    end
  end
with parse_members (fuel : nat) (l : bytes) : option (list (bytes * json) * bytes) :=
  match fuel with
  | O => None
  | S fuel =>
    match skip_ws l with
    | a :: l1 =>
      if Ascii.eqb a quote then
        match parse_string (S (length l1)) l1 with
        | Some (k, l2) =>
          match skip_ws l2 with
          | ":"%char :: l3 =>
            match parse_value fuel l3 with
            | Some (v, l4) =>
              match skip_ws l4 with
              | "}"%char :: l5 => Some ([(k, v)], l5)
              | ","%char :: l5 =>
                match parse_members fuel l5 with
                | Some (ms, l6) => Some ((k, v) :: ms, l6)
                | None => None
                end
              | _ => None
              end
            | None => None
            end
          | _ => None
          end
        | None => None
        end
      else None
    | [] => None
    end
  end
with parse_elements (fuel : nat) (l : bytes) : option (list json * bytes) :=
  match fuel with
  | O => None
  | S fuel =>
    match parse_value fuel l with
    | Some (v, l1) =>
      match skip_ws l1 with
      | "]"%char :: l2 => Some ([v], l2)
      | ","%char :: l2 =>
        match parse_elements fuel l2 with Some (vs, l3) => Some (v :: vs, l3) | None => None end
      | _ => None
      end
    | None => None
    end
  end.

Definition parse_fuel (l : bytes) : nat := S (2 * length l).

(** A whole JSON text. *)
Definition json_parse (s : string) : option json :=
  let l := bytes_of_string s in
  match parse_value (parse_fuel l) l with
  | Some (v, rest) => match skip_ws rest with [] => Some v | _ => None end
  | None => None
  end.

(** One member stored in a [map[string]string]: a string, or null for "". *)
Definition string_member (m : option (gmap string string)) (kv : bytes * json)
    : option (gmap string string) :=
  match m, kv.2 with
  | Some m, JStr v => Some (<[string_of_bytes kv.1 := string_of_bytes v]> m)
  | Some m, JNull => Some (<[string_of_bytes kv.1 := ""]> m)
  | _, _ => None
  end.

Definition json_string_map (v : json) : option (gmap string string) :=
  match v with
  | JObj ms => fold_left string_member ms (Some ∅)
  | JNull => Some ∅
  | _ => None
  end.

(** [json.Unmarshal(data, &m)] with [m] a nil [map[string]string]: [None] for
    an error. *)
Definition json_Unmarshal_map (s : string) : option (gmap string string) :=
  match json_parse s with Some v => json_string_map v | None => None end.
