(* ===== verification/JsonProofs.v ===== *)
(** The metadata codec: whatever Marshal writes Unmarshal reads, and on maps
    whose keys and values are valid UTF-8 it reads the map that was written. *)

From S2P Require Import Prelude GoStd Json.
From stdpp Require Import options.

(** ** String literals *)

(** The parser's step on one escaped rune: [p] is decoded, [X] is left. *)
Definition decodes_to (e p : bytes) : Prop :=
  ∀ fuel X, parse_string (S fuel) (e ++ X) =
    match parse_string fuel X with Some (s, rest) => Some (p ++ s, rest) | None => None end.

Lemma esc_ascii_decodes a : (byte_val a < 128)%Z → decodes_to (esc_ascii a) [a].
Proof.
  intros Ha fuel X.
  destruct a as [[] [] [] [] [] [] [] []]; try done; by cbn.
Qed.

Lemma utf8_len_ascii a l : (byte_val a < 128)%Z → utf8_len (a :: l) = 1.
Proof. intros Ha. cbn. destruct (Z.ltb_spec (byte_val a) 128); [done|lia]. Qed.

Lemma utf8_len_head a l n :
  utf8_len (a :: l) = S (S n) → (194 ≤ byte_val a)%Z.
Proof.
  cbn. unfold in_range.
  destruct (Z.ltb_spec (byte_val a) 128); [done|].
  destruct (Z.leb_spec 194 (byte_val a)); [done|].
  destruct (Z.leb_spec 224 (byte_val a)); [lia|].
  destruct (Z.leb_spec 240 (byte_val a)); [lia|]. done.
Qed.

Lemma utf8_len_one a l : utf8_len (a :: l) = 1 → (byte_val a < 128)%Z.
Proof.
  cbn. destruct (Z.ltb_spec (byte_val a) 128); [done|].
  repeat case_match; discriminate.
Qed.

Lemma plain_rune_decodes a r :
  (194 ≤ byte_val a)%Z → (∀ l', utf8_len ((a :: r) ++ l') = length (a :: r)) →
  decodes_to (a :: r) (a :: r).
Proof.
  intros Ha Hlen fuel X. specialize (Hlen X). cbn [parse_string app].
  destruct (Z.eqb_spec (byte_val a) 34); [lia|].
  destruct (Z.eqb_spec (byte_val a) 92); [lia|].
  destruct (Z.ltb_spec (byte_val a) 32); [lia|].
  change (a :: r ++ X) with ((a :: r) ++ X). rewrite Hlen.
  cbn [length]. change (S (length r)) with (length (a :: r)).
  by rewrite take_app_length, drop_app_length.
Qed.

Lemma esc_rune_decodes r n :
  (∀ l', utf8_len (r ++ l') = length r) → length r = S (S n) →
  decodes_to (esc_rune r) r.
Proof.
  intros Hlen Hn. unfold esc_rune.
  destruct (decide _) as [->|]; [intros fuel X; by cbn|].
  destruct (decide _) as [->|]; [intros fuel X; by cbn|].
  destruct r as [|a r]; [done|]. apply plain_rune_decodes; [|done].
  specialize (Hlen []). rewrite app_nil_r, Hn in Hlen. by eapply utf8_len_head.
Qed.

(** Encoding one rune of a string, and that it decodes. *)
Lemma esc_body_rune r l n :
  r ≠ [] → (∀ l', utf8_len (r ++ l') = length r) →
  ∃ e, esc_body (S n) (r ++ l) = e ++ esc_body n l ∧ decodes_to e r.
Proof.
  intros Hr Hlen. pose proof (Hlen l) as Hl.
  destruct r as [|a [|b r]]; [done|..].
  - cbn [app] in *. exists (esc_ascii a). cbn [esc_body]. rewrite Hl. cbn [length].
    split; [done|]. apply esc_ascii_decodes. by eapply utf8_len_one.
  - exists (esc_rune (a :: b :: r)). split; [|by eapply esc_rune_decodes].
    change ((a :: b :: r) ++ l) with (a :: (b :: r ++ l)) in *. cbn [esc_body].
    rewrite Hl. cbn [length].
    change (S (S (length r))) with (length (a :: b :: r)).
    change (a :: b :: r ++ l) with ((a :: b :: r) ++ l).
    by rewrite take_app_length, drop_app_length.
Qed.

(** Only the bytes of a rune matter to its length. *)
Lemma utf8_len_take l k l' : utf8_len l = S k → utf8_len (take (S k) l ++ l') = S k.
Proof.
  destruct l as [|a l]; [done|]. cbn [utf8_len]. intros H.
  destruct (byte_val a <? 128)%Z eqn:E1; [simplify_eq; cbn [take app utf8_len]; by rewrite E1|].
  destruct (in_range 194 223 a) eqn:E2.
  { destruct l as [|b l]; [done|]. destruct (cont b) eqn:E; [|done]. simplify_eq.
    cbn [take app utf8_len]. by rewrite E1, E2, E. }
  destruct (in_range 224 239 a) eqn:E3.
  { destruct l as [|b [|c l]]; try done.
    destruct (in_range _ _ b && cont c) eqn:E; [|done]. simplify_eq.
    cbn [take app utf8_len]. by rewrite E1, E2, E3, E. }
  destruct (in_range 240 244 a) eqn:E4; [|done].
  destruct l as [|b [|c [|d l]]]; try done.
  destruct (in_range _ _ b && cont c && cont d) eqn:E; [|done]. simplify_eq.
  cbn [take app utf8_len]. by rewrite E1, E2, E3, E4, E.
Qed.

Lemma utf8_len_le l : utf8_len l ≤ length l.
Proof.
  destruct l as [|a l]; [done|]. cbn [utf8_len].
  repeat case_match; cbn; lia.
Qed.

(** What is left of a string when it has gone through the encoder: bytes that
    are not UTF-8 become U+FFFD. *)
Fixpoint sanitize (fuel : nat) (l : bytes) : bytes :=
  match fuel, l with
  | S fuel, _ :: l' =>
    match utf8_len l with
    | 0 => utf8_encode 0xfffd ++ sanitize fuel l'
    | n => take n l ++ sanitize fuel (drop n l)
    end
  | _, _ => []
  end.

Lemma fffd_decodes : decodes_to (esc_u 0xfffd) (utf8_encode 0xfffd).
Proof. intros fuel X. by cbn. Qed.

Lemma sanitize_rune r l n :
  r ≠ [] → (∀ l', utf8_len (r ++ l') = length r) → sanitize (S n) (r ++ l) = r ++ sanitize n l.
Proof.
  intros Hr Hlen. pose proof (Hlen l) as Hl. destruct r as [|a r]; [done|]. cbn [app sanitize].
  change (a :: r ++ l) with ((a :: r) ++ l). rewrite Hl. cbn [length].
  change (S (length r)) with (length (a :: r)). by rewrite take_app_length, drop_app_length.
Qed.

(** A string is a rune or a stray byte, and the rest. *)
Lemma utf8_cases a l :
  (utf8_len (a :: l) = 0) ∨
  ∃ r l', a :: l = r ++ l' ∧ r ≠ [] ∧ ∀ l'', utf8_len (r ++ l'') = length r.
Proof.
  destruct (utf8_len (a :: l)) as [|k] eqn:E; [by left|right].
  pose proof (utf8_len_le (a :: l)) as Hle. rewrite E in Hle.
  exists (take (S k) (a :: l)), (drop (S k) (a :: l)). rewrite take_drop. split_and!; [done|done|].
  intros l''. rewrite (utf8_len_take _ _ _ E), length_take. lia.
Qed.

Lemma parse_string_esc_body n : ∀ l fuel rest, length l ≤ n → length l < fuel →
  parse_string fuel (esc_body n l ++ quote :: rest) = Some (sanitize n l, rest).
Proof.
  induction n as [|n IH]; intros [|a l] fuel rest Hn Hf; cbn [length] in *; try lia;
    (destruct fuel as [|fuel]; [lia|]); [done..|].
  destruct (utf8_cases a l) as [Hz|(r & l' & El & Hr & Hlen)].
  - cbn [esc_body sanitize]. rewrite Hz, <- app_assoc, fffd_decodes, IH by lia. done.
  - assert (0 < length r) by (destruct r; [done|cbn; lia]).
    apply (f_equal length) in El as Elen. rewrite length_app in Elen. cbn [length] in Elen. rewrite El.
    destruct (esc_body_rune r l' n Hr Hlen) as (e & -> & He).
    rewrite <- app_assoc, He, IH by lia. by rewrite sanitize_rune.
Qed.

Lemma sanitize_valid l : utf8_valid l → ∀ n, length l ≤ n → sanitize n l = l.
Proof.
  induction 1 as [|r l Hr Hlen _ IH]; intros n Hn; [by destruct n|].
  rewrite length_app in Hn. assert (0 < length r) by (destruct r; [done|cbn; lia]).
  destruct n as [|n]; [lia|]. rewrite sanitize_rune by done. by rewrite IH by lia.
Qed.

Lemma esc_rune_length r : length r ≤ length (esc_rune r).
Proof.
  unfold esc_rune. destruct (decide _) as [->|]; [by vm_compute; lia|].
  destruct (decide _) as [->|]; [by vm_compute; lia|done].
Qed.

Lemma esc_body_length n : ∀ l, length l ≤ n → length l ≤ length (esc_body n l).
Proof.
  induction n as [|n IH]; intros [|a l] Hn; cbn [length] in *; try lia.
  cbn [esc_body]. pose proof (utf8_len_le (a :: l)) as Hle. cbn [length] in Hle.
  destruct (utf8_len (a :: l)) as [|[|k]]; rewrite length_app.
  - specialize (IH l ltac:(lia)). unfold esc_u. cbn. lia.
  - specialize (IH l ltac:(lia)). assert (1 ≤ length (esc_ascii a)); [|lia].
    unfold esc_ascii, esc_u. repeat case_match; cbn; lia.
  - pose proof (esc_rune_length (take (S (S k)) (a :: l))) as Hr. rewrite length_take in Hr. cbn [length] in Hr.
    specialize (IH (drop (S (S k)) (a :: l))). rewrite length_drop in IH. cbn [length] in IH. lia.
Qed.

(** ** Objects *)

(** A string whose bytes are valid UTF-8. *)
Definition utf8_string (s : string) : Prop := utf8_valid (bytes_of_string s).

(** A string as it comes back. *)
Definition san (s : string) : bytes := sanitize (length (bytes_of_string s)) (bytes_of_string s).

Lemma san_valid s : utf8_string s → san s = bytes_of_string s.
Proof. intros Hs. by apply sanitize_valid. Qed.

Lemma parse_marshal_string s rest :
  ∃ l, marshal_string s ++ rest = quote :: l ∧ parse_string (S (length l)) l = Some (san s, rest).
Proof.
  unfold marshal_string. eexists. split; [by rewrite <- app_comm_cons, <- app_assoc|].
  apply parse_string_esc_body; [done|].
  rewrite length_app. pose proof (esc_body_length (length (bytes_of_string s)) (bytes_of_string s) ltac:(lia)).
  lia.
Qed.

Lemma parse_value_quote fuel l :
  parse_value (S fuel) (quote :: l) =
  match parse_string (S (length l)) l with Some (s, l2) => Some (JStr s, l2) | None => None end.
Proof. reflexivity. Qed.

Lemma parse_value_string fuel s rest :
  parse_value (S fuel) (marshal_string s ++ rest) = Some (JStr (san s), rest).
Proof.
  destruct (parse_marshal_string s rest) as (l & -> & Hl).
  by rewrite parse_value_quote, Hl.
Qed.

Definition json_member (p : string * string) : bytes * json :=
  (san p.1, JStr (san p.2)).

Lemma marshal_members_cons p q l :
  marshal_members (p :: q :: l) =
  marshal_string p.1 ++ ":"%char :: marshal_string p.2 ++ ","%char :: marshal_members (q :: l).
Proof. by destruct p. Qed.

Lemma parse_members_quote fuel l :
  parse_members (S fuel) (quote :: l) =
  match parse_string (S (length l)) l with
  | Some (k, l2) =>
    match skip_ws l2 with
    | ":"%char :: l3 =>
      match parse_value fuel l3 with
      | Some (v, l4) =>
        match skip_ws l4 with
        | "}"%char :: l5 => Some ([(k, v)], l5)
        | ","%char :: l5 =>
          match parse_members fuel l5 with
          | Some (ms, l6) => Some ((k, v) :: ms, l6)
          | None => None
          end
        | _ => None
        end
      | None => None
      end
    | _ => None
    end
  | None => None
  end.
Proof. reflexivity. Qed.

Lemma parse_members_key fuel k rest :
  parse_members (S fuel) (marshal_string k ++ ":"%char :: rest) =
    match parse_value fuel rest with
    | Some (v, l4) =>
      match skip_ws l4 with
      | "}"%char :: l5 => Some ([(san k, v)], l5)
      | ","%char :: l5 =>
        match parse_members fuel l5 with
        | Some (ms, l6) => Some ((san k, v) :: ms, l6)
        | None => None
        end
      | _ => None
      end
    | None => None
    end.
Proof.
  destruct (parse_marshal_string k (":"%char :: rest)) as (l & -> & Hl).
  etrans; [apply parse_members_quote|]. by rewrite Hl.
Qed.

Lemma parse_members_marshal l : l ≠ [] →
  ∀ fuel rest, length l < fuel →
  parse_members fuel (marshal_members l ++ "}"%char :: rest) = Some (json_member <$> l, rest).
Proof.
  intros Hne. induction l as [|p l IH]; [done|]. intros fuel rest Hfuel.
  destruct fuel as [|fuel]; [cbn in Hfuel; lia|].
  destruct fuel as [|fuel]; [cbn in Hfuel; lia|].
  destruct l as [|q l].
  - destruct p as [k v]. cbn [marshal_members]. rewrite <- app_assoc, <- app_comm_cons.
    rewrite parse_members_key. by rewrite parse_value_string.
  - rewrite marshal_members_cons, <- !app_assoc, <- app_comm_cons, <- app_assoc, <- app_comm_cons.
    rewrite parse_members_key, parse_value_string.
    cbn [skip_ws]. change (is_ws ",") with false. cbn iota.
    rewrite IH; [done|done|cbn in *; lia].
Qed.

Lemma string_of_bytes_of_string s : string_of_bytes (bytes_of_string s) = s.
Proof. apply String.string_of_list_ascii_of_string. Qed.

Lemma bytes_of_string_of_bytes l : bytes_of_string (string_of_bytes l) = l.
Proof. apply String.list_ascii_of_string_of_list_ascii. Qed.

(** The members stored one after the other. *)
Definition store_members (l : list (string * string)) (m : gmap string string) : gmap string string :=
  foldl (λ m p, <[string_of_bytes (san p.1) := string_of_bytes (san p.2)]> m) m l.

Lemma fold_string_members l m :
  fold_left string_member (json_member <$> l) (Some m) = Some (store_members l m).
Proof. revert m. induction l as [|[k v] l IH]; intros m; [done|]. apply IH. Qed.

Lemma store_members_valid l m :
  Forall (λ p, utf8_string p.1 ∧ utf8_string p.2) l → store_members l m = foldl (λ m p, <[p.1 := p.2]> m) m l.
Proof.
  intros Hf. revert m. induction Hf as [|[k v] l [Hk Hv] _ IH]; intros m; [done|]. cbn [fst snd] in *.
  unfold store_members in *. cbn [foldl fst snd]. rewrite !san_valid, !string_of_bytes_of_string by done. apply IH.
Qed.

Lemma foldl_insert (l : list (string * string)) (m : gmap string string) :
  NoDup l.*1 → foldl (λ m p, <[p.1 := p.2]> m) m l = list_to_map l ∪ m.
Proof.
  revert m. induction l as [|[k v] l IH]; intros m Hnd; cbn.
  - by rewrite (left_id ∅ _).
  - apply NoDup_cons in Hnd as [Hk Hnd]. rewrite IH by done.
    rewrite <- insert_union_l, <- insert_union_r; [done|].
    by apply not_elem_of_list_to_map_1.
Qed.

Lemma sorted_entries_perm m : sorted_entries m ≡ₚ map_to_list m.
Proof. apply merge_sort_Permutation. Qed.

(** The codec on its domain. *)
Definition utf8_map (m : gmap string string) : Prop :=
  map_Forall (λ k v, utf8_string k ∧ utf8_string v) m.

Lemma parse_value_brace fuel l :
  parse_value (S fuel) ("{"%char :: quote :: l) =
  match parse_members fuel (quote :: l) with
  | Some (ms, l2) => Some (JObj ms, l2)
  | None => None
  end.
Proof. reflexivity. Qed.

Lemma marshal_members_quote p l : ∃ r, marshal_members (p :: l) = quote :: r.
Proof. destruct p as [k v], l; cbn; eauto. Qed.

Lemma marshal_members_length p l : length (p :: l) ≤ length (marshal_members (p :: l)).
Proof.
  revert p. induction l as [|q l IH]; intros p; [destruct p; cbn; lia|].
  rewrite marshal_members_cons, length_app. cbn [length]. rewrite length_app.
  cbn [length] in *. specialize (IH q). lia.
Qed.

Lemma parse_value_object fuel l rest :
  length l < fuel →
  parse_value (S fuel) ("{"%char :: marshal_members l ++ "}"%char :: rest) =
  Some (JObj (json_member <$> l), rest).
Proof.
  intros Hfuel. destruct l as [|p l]; [done|].
  pose proof (parse_members_marshal (p :: l) ltac:(done) fuel rest Hfuel) as Hp.
  destruct (marshal_members_quote p l) as [r Hr]. rewrite Hr in *.
  cbn [app] in *. by rewrite parse_value_brace, Hp.
Qed.

(** What is written is always read back, up to [sanitize]. *)
Lemma json_map_readback m :
  json_Unmarshal_map (json_Marshal_map m) = Some (store_members (sorted_entries m) ∅).
Proof.
  unfold json_Unmarshal_map, json_parse, json_Marshal_map.
  rewrite bytes_of_string_of_bytes.
  assert (length (sorted_entries m) ≤ length (marshal_members (sorted_entries m))).
  { destruct (sorted_entries m); [done|apply marshal_members_length]. }
  unfold parse_fuel. rewrite parse_value_object by (cbn; rewrite length_app; cbn; lia).
  cbn [skip_ws]. unfold json_string_map. apply fold_string_members.
Qed.

Lemma json_map_roundtrip m :
  utf8_map m → json_Unmarshal_map (json_Marshal_map m) = Some m.
Proof.
  intros Hm. rewrite json_map_readback.
  assert (NoDup (sorted_entries m).*1) as Hnd.
  { rewrite sorted_entries_perm. apply NoDup_fst_map_to_list. }
  assert (list_to_map (sorted_entries m) = m) as Hto.
  { erewrite list_to_map_proper; [apply list_to_map_to_list|done|apply sorted_entries_perm]. }
  assert (Forall (λ p, utf8_string p.1 ∧ utf8_string p.2) (sorted_entries m)) as Hf.
  { rewrite sorted_entries_perm. apply map_Forall_to_list in Hm.
    eapply Forall_impl; [exact Hm|]. by intros []. }
  rewrite store_members_valid, foldl_insert by done. by rewrite Hto, (right_id ∅ _).
Qed.

(** Marshal never gives the text that [Commit] uses for "no metadata" when
    there is some. *)
Lemma json_Marshal_map_nonempty m :
  m ≠ ∅ → json_Marshal_map m ≠ "{}" ∧ json_Marshal_map m ≠ "".
Proof.
  intros Hm. unfold json_Marshal_map. split; [|done].
  destruct (sorted_entries m) as [|p l] eqn:E.
  - pose proof (sorted_entries_perm m) as Hp. rewrite E in Hp.
    apply Permutation_nil_l in Hp. symmetry in Hp. by apply map_to_list_empty_iff in Hp.
  - by destruct (marshal_members_quote p l) as [r ->].
Qed.

#[global] Arguments json_Marshal_map : simpl never.
#[global] Arguments json_Unmarshal_map : simpl never.
