(* ===== verification/Database.v ===== *)
(** The per-bucket SQLite database ([pkg/store/bucket.go], [schema]): its
    tables, the SQL statements the code runs as functions on them, reading a
    row back ([scanObject]), and the well-formedness the statements keep. *)

From S2P Require Import Prelude Errors GoStd Types Hash Names Json JsonProofs.
From stdpp Require Import options.

(** ** Tables *)

(** A row of [objects]; its primary key [name] is the key of the map. *)
Record objectRow := mkObjectRow {
  r_generation : Z;
  r_metageneration : Z;
  r_sha256 : string;
  r_size : Z;
  r_md5 : bytes;
  r_crc32c : Z;
  r_content_type : string;
  r_metadata : string;   (* JSON object *)
  r_created : Z;         (* unix micros *)
  r_updated : Z;
}.

(** A row of [blobs], keyed by [sha256]. *)
Record blobRow := mkBlobRow {
  b_size : Z;
  b_refcount : Z;
}.

(** [bucket_info] holds at most the row with [id = 1]: (created, metageneration). *)
Record database := mkDatabase {
  bucket_info : option (Z * Z);
  objects : gmap string objectRow;
  blobs : gmap string blobRow;
}.

(** What the [schema] statements leave in a new file. *)
Definition empty_database : database := mkDatabase None ∅ ∅.

Definition set_objects (f : gmap string objectRow → gmap string objectRow) (d : database) : database :=
  mkDatabase (bucket_info d) (f (objects d)) (blobs d).
Definition set_blobs (f : gmap string blobRow → gmap string blobRow) (d : database) : database :=
  mkDatabase (bucket_info d) (objects d) (f (blobs d)).

(** ** Statements *)

(** INSERT OR IGNORE INTO bucket_info (id, created, metageneration) VALUES (1, ?, 1) *)
Definition sql_insert_bucket_info (created : Z) (d : database) : database :=
  mkDatabase (match bucket_info d with Some i => Some i | None => Some (created, 1%Z) end)
    (objects d) (blobs d).

(** DELETE FROM objects WHERE name = ? *)
Definition sql_delete_object (name : string) : database → database := set_objects (delete name).

(** INSERT OR REPLACE INTO objects ... *)
Definition sql_replace_object (name : string) (row : objectRow) : database → database :=
  set_objects (insert name row).

(** INSERT INTO blobs (sha256, size, refcount) VALUES (?, ?, 1)
    ON CONFLICT(sha256) DO UPDATE SET refcount = refcount + 1 *)
Definition sql_insert_blob (sha : string) (size : Z) : database → database :=
  set_blobs (partial_alter (λ o,
    match o with
    | Some r => Some (mkBlobRow (b_size r) (b_refcount r + 1))
    | None => Some (mkBlobRow size 1)
    end) sha).

(** UPDATE blobs SET refcount = refcount - 1 WHERE sha256 = ? *)
Definition sql_decrement_blob (sha : string) : database → database :=
  set_blobs (alter (λ r, mkBlobRow (b_size r) (b_refcount r - 1)) sha).

(** DELETE FROM blobs WHERE sha256 = ? *)
Definition sql_delete_blob (sha : string) : database → database := set_blobs (delete sha).

(** SELECT COUNT of the rows of objects *)
Definition sql_count_objects (d : database) : Z := Z.of_nat (size (objects d)).

(** What [decrefBlob] does to the tables when none of its statements fails: the
    decrement, and the row's removal when the count reaches zero.  The flag says
    whether the blob is orphaned. *)
Definition decref (sha : string) (d : database) : database * bool :=
  let d1 := sql_decrement_blob sha d in
  match blobs d1 !! sha with
  | None => (d1, false)
  | Some b => if (b_refcount b <=? 0)%Z then (sql_delete_blob sha d1, true) else (d1, false)
  end.

(** ORDER BY name, on a set of rows. *)
Definition by_name (p q : string * objectRow) : Prop := p.1 ≤ₛ q.1.
#[export] Instance by_name_dec : RelDecision by_name.
Proof. unfold by_name. intros p q. apply _. Defined.
Definition order_by_name (m : gmap string objectRow) : list (string * objectRow) :=
  merge_sort by_name (map_to_list m).

(** SELECT ... FROM objects WHERE name >= ? [AND name < ?] ORDER BY name LIMIT ?;
    [hi = ""] leaves the second condition out. *)
Definition in_bounds (lo hi : string) (name : string) : Prop :=
  lo ≤ₛ name ∧ (hi ≠ "" → name <ₛ hi).
#[export] Instance in_bounds_dec lo hi name : Decision (in_bounds lo hi name).
Proof. unfold in_bounds. apply _. Defined.
Definition sql_select_range (d : database) (lo hi : string) (limit : nat)
    : list (string * objectRow) :=
  take limit (filter (λ p, in_bounds lo hi p.1) (order_by_name (objects d))).

(** ** scanObject *)

(** [b.scanObject(row)] for a row of the bucket called [bname]: the [crc32c]
    column must fit a [uint32], and the metadata column must hold a JSON
    object of strings unless it is empty. *)
Definition scanObject (bname name : string) (r : objectRow) : error + ObjectInfo :=
  if negb ((0 <=? r_crc32c r)%Z && (r_crc32c r <? 2 ^ 32)%Z)
  then inl (Other [Lit "sql: Scan error: converting driver.Value type to a uint32: value out of range"])
  else
    match
      (if negb (String.eqb (r_metadata r) "") && negb (String.eqb (r_metadata r) "{}")
       then json_Unmarshal_map (r_metadata r)
       else Some ∅)
    with
    | None =>
      inl (Wrap [Lit "corrupt metadata for object "; Quote name; Lit ": "]
                (Other [Lit "json: cannot unmarshal"]) [])
    | Some md =>
      inr (mkObjectInfo bname name (r_generation r) (r_metageneration r) (r_size r)
             (r_sha256 r) (r_md5 r) (r_crc32c r) (r_content_type r) md
             (time_UnixMicro (r_created r)) (time_UnixMicro (r_updated r)))
    end.

(** The [metadata] column that [Commit] writes. *)
Definition metadata_column (md : gmap string string) : string :=
  if decide (size md = 0) then "{}" else json_Marshal_map md.

(** The row [Commit] writes. *)
Definition new_row (gen : Z) (sha : string) (size : Z) (md5 : bytes) (crc : Z)
    (ctype : string) (md : gmap string string) (now : Z) : objectRow :=
  mkObjectRow gen 1 sha size md5 crc ctype (metadata_column md) now now.

Lemma scanObject_new_row bname name gen sha sz md5 crc ctype md now :
  (0 ≤ crc < 2 ^ 32)%Z → utf8_map md →
  scanObject bname name (new_row gen sha sz md5 crc ctype md now) =
  inr (mkObjectInfo bname name gen 1 sz sha md5 crc ctype md
         (time_UnixMicro now) (time_UnixMicro now)).
Proof.
  intros Hcrc Hmd. unfold scanObject, new_row, metadata_column; cbn.
  destruct (Z.leb_spec 0 crc), (Z.ltb_spec crc (2 ^ 32)); try lia. cbn.
  destruct (decide (size md = 0)) as [E|E]; cbn.
  - apply map_size_empty_iff in E. by subst.
  - assert (md ≠ ∅) as Hne by (intros ->; by rewrite map_size_empty in E).
    destruct (json_Marshal_map_nonempty md Hne) as [H1 H2].
    apply String.eqb_neq in H1, H2. rewrite H1, H2. cbn.
    by rewrite json_map_roundtrip.
Qed.

(** ** Well-formedness *)

(** How many objects have their content under [sha]. *)
Definition references (sha : string) (m : gmap string objectRow) : nat :=
  size (filter (λ p, r_sha256 p.2 = sha) m).

(** A row describes content [c]: its checksums and length. *)
Definition describes (r : objectRow) (c : bytes) : Prop :=
  r_sha256 r = hex_EncodeToString (sha256_sum c) ∧
  r_md5 r = md5_sum c ∧ r_crc32c r = crc32c_sum c ∧ r_size r = int64 (Z.of_nat (length c)).

Record row_ok (name : string) (r : objectRow) : Prop := {
  row_name : validObjectName name = true;
  row_content : ∃ c, describes r c;
  row_metadata : ∃ md, r_metadata r = metadata_column md;
  row_metageneration : r_metageneration r = 1%Z;
  row_generation : is_int64 (r_generation r);
  row_times : is_int64 (r_created r) ∧ is_int64 (r_updated r);
}.

(** Such a row can always be read. *)
Lemma row_ok_scans bname name r : row_ok name r → ∃ o, scanObject bname name r = inr o.
Proof.
  intros [_ (c & _ & _ & Hcrc & _) (md & Hmd) _ _ _]. unfold scanObject. rewrite Hcrc, Hmd.
  pose proof (crc32c_sum_range c) as Hr.
  destruct (Z.leb_spec 0 (crc32c_sum c)), (Z.ltb_spec (crc32c_sum c) (2 ^ 32)); try lia. cbn [andb negb].
  unfold metadata_column. destruct (decide _); [by eexists|]. rewrite json_map_readback.
  destruct (_ && _); by eexists.
Qed.

(** A blobs table that counts [f sha] references for each blob. *)
Definition counts (f : string → nat) (bs : gmap string blobRow) : Prop :=
  ∀ sha, match bs !! sha with
         | Some b => b_refcount b = Z.of_nat (f sha) ∧ (0 < b_refcount b)%Z
         | None => f sha = 0
         end.

(** The refcounts are exact, so a blob is recorded iff some object needs it. *)
Record db_ok (d : database) : Prop := {
  db_rows : map_Forall row_ok (objects d);
  db_refs : counts (λ sha, references sha (objects d)) (blobs d);
}.

Lemma references_insert_None sha m name r :
  m !! name = None →
  references sha (<[name := r]> m) =
  (if decide (r_sha256 r = sha) then 1 else 0) + references sha m.
Proof.
  intros Hn. unfold references. destruct (decide (r_sha256 r = sha)) as [E|E].
  - rewrite map_filter_insert_True by done. rewrite map_size_insert_None; [done|].
    apply map_lookup_filter_None. by left.
  - rewrite map_filter_insert_False by done. rewrite delete_id; done.
Qed.

Lemma references_delete sha m name r :
  m !! name = Some r →
  references sha m = (if decide (r_sha256 r = sha) then 1 else 0) + references sha (delete name m).
Proof.
  intros Hn. rewrite <- (insert_delete_id m name r) at 1 by done.
  apply references_insert_None, lookup_delete_eq.
Qed.

Lemma references_insert sha m name r :
  references sha (<[name := r]> m) =
  (if decide (r_sha256 r = sha) then 1 else 0) + references sha (delete name m).
Proof.
  rewrite <- insert_delete_eq. apply references_insert_None, lookup_delete_eq.
Qed.

Lemma references_empty sha : references sha ∅ = 0.
Proof. unfold references. by rewrite map_filter_empty, map_size_empty. Qed.

Lemma db_ok_empty : db_ok empty_database.
Proof.
  split; cbn; [by apply map_Forall_empty|]. intros sha. rewrite lookup_empty. apply references_empty.
Qed.

Lemma db_ok_bucket_info created d : db_ok d → db_ok (sql_insert_bucket_info created d).
Proof. intros [H1 H2]. by split. Qed.

(** A recorded object has a recorded blob. *)
Lemma db_ok_object_blob d name r :
  db_ok d → objects d !! name = Some r → is_Some (blobs d !! r_sha256 r).
Proof.
  intros [_ Hr] Hn. specialize (Hr (r_sha256 r)).
  destruct (blobs d !! r_sha256 r); [done|].
  rewrite (references_delete _ _ _ _ Hn), decide_True in Hr by done. lia.
Qed.

(** A blob is recorded exactly when an object refers to it. *)
Lemma db_ok_blob_iff d sha :
  db_ok d → is_Some (blobs d !! sha) ↔ ∃ name r, objects d !! name = Some r ∧ r_sha256 r = sha.
Proof.
  intros Hok. split.
  - intros [b Hb]. pose proof (db_refs _ Hok sha) as H. rewrite Hb in H.
    unfold references in H. destruct H as [H1 H2].
    destruct (map_choose (filter (λ p, r_sha256 p.2 = sha) (objects d))) as (name & r & Hnr).
    { intros E. rewrite E, map_size_empty in H1. lia. }
    apply map_lookup_filter_Some in Hnr as [? ?]. eauto.
  - intros (name & r & Hn & <-). by eapply db_ok_object_blob.
Qed.

(** *** How the statements change the counts *)
Lemma counts_ext f g bs : (∀ sha, f sha = g sha) → counts f bs → counts g bs.
Proof. intros Hfg H sha. specialize (H sha). rewrite <- Hfg. done. Qed.

Lemma counts_insert_blob f d sha sz :
  counts f (blobs d) →
  counts (λ s, (if decide (s = sha) then 1 else 0) + f s) (blobs (sql_insert_blob sha sz d)).
Proof.
  intros H s. cbn. specialize (H s). destruct (decide (s = sha)) as [->|Hne].
  - rewrite lookup_partial_alter_eq. destruct (blobs d !! sha); cbn; lia.
  - rewrite lookup_partial_alter_ne by done. done.
Qed.

Lemma counts_decref f d sha :
  counts f (blobs d) → 0 < f sha →
  counts (λ s, f s - (if decide (s = sha) then 1 else 0)) (blobs (decref sha d).1) ∧
  ((decref sha d).2 = true ↔ f sha = 1) ∧
  objects (decref sha d).1 = objects d ∧
  bucket_info (decref sha d).1 = bucket_info d.
Proof.
  intros H Hpos. pose proof (H sha) as Hs. unfold decref. cbn.
  rewrite lookup_alter_eq. destruct (blobs d !! sha) as [b|]; cbn; [|lia].
  destruct Hs as [Hs _].
  destruct (Z.leb_spec (b_refcount b - 1) 0); cbn.
  - split; [|split; [split; [lia|done]|done]]. intros s. specialize (H s).
    destruct (decide (s = sha)) as [->|Hne]; [rewrite lookup_delete_eq; lia|].
    rewrite lookup_delete_ne, lookup_alter_ne by done. by rewrite Nat.sub_0_r.
  - split; [|split; [split; [done|lia]|done]]. intros s. specialize (H s).
    destruct (decide (s = sha)) as [->|Hne].
    + rewrite lookup_alter_eq. destruct (blobs d !! sha); cbn in *; [|lia].
      destruct H; simplify_eq. lia.
    + rewrite lookup_alter_ne by done. by rewrite Nat.sub_0_r.
Qed.

(** *** The two transactions *)

(** What a committed [DeleteObject] does to the tables. *)
Definition delete_tx (name : string) (old : objectRow) (d : database) : database * bool :=
  decref (r_sha256 old) (sql_delete_object name d).

(** What a committed [Commit] does to the tables, and the blob it orphans. *)
Definition commit_tx (name : string) (row : objectRow) (d : database) : database * option string :=
  let d1 := sql_insert_blob (r_sha256 row) (r_size row) d in
  match objects d !! name with
  | Some old =>
    let '(d2, orphaned) := decref (r_sha256 old) d1 in
    (sql_replace_object name row d2, if orphaned then Some (r_sha256 old) else None)
  | None => (sql_replace_object name row d1, None)
  end.

Lemma delete_tx_objects name old d : objects (delete_tx name old d).1 = delete name (objects d).
Proof. unfold delete_tx, decref. cbn. by repeat case_match. Qed.

Lemma commit_tx_objects name row d :
  objects (commit_tx name row d).1 = <[name := row]> (objects d).
Proof.
  unfold commit_tx, decref. destruct (objects d !! name); cbn; [|done]. by repeat case_match; simplify_eq/=.
Qed.

Lemma delete_tx_ok name old d :
  db_ok d → objects d !! name = Some old →
  db_ok (delete_tx name old d).1 ∧
  ((delete_tx name old d).2 = true ↔ blobs (delete_tx name old d).1 !! r_sha256 old = None).
Proof.
  intros [Hrows Hrefs] Hn.
  destruct (counts_decref (λ sha, references sha (objects d)) (sql_delete_object name d)
    (r_sha256 old)) as (Hc & Ho & _); [done|..].
  { rewrite (references_delete _ _ _ _ Hn), decide_True by done. lia. }
  fold (delete_tx name old d) in *.
  assert (counts (λ sha, references sha (objects (delete_tx name old d).1))
    (blobs (delete_tx name old d).1)) as Hc'.
  { eapply counts_ext, Hc. intros sha. cbn. rewrite delete_tx_objects.
    rewrite (references_delete sha _ _ _ Hn). repeat case_decide; simplify_eq; lia. }
  split; [split; [|done]|].
  - rewrite delete_tx_objects. by apply map_Forall_delete.
  - rewrite Ho. specialize (Hc (r_sha256 old)). cbn in Hc. rewrite decide_True in Hc by done.
    destruct (blobs (delete_tx name old d).1 !! r_sha256 old); split; try done; [intros; lia|].
    pose proof (references_delete (r_sha256 old) _ _ _ Hn). rewrite decide_True in H by done. lia.
Qed.

Lemma commit_tx_ok name row d :
  db_ok d → row_ok name row →
  db_ok (commit_tx name row d).1 ∧
  is_Some (blobs (commit_tx name row d).1 !! r_sha256 row) ∧
  (∀ sha, (commit_tx name row d).2 = Some sha →
     sha ≠ r_sha256 row ∧ blobs (commit_tx name row d).1 !! sha = None).
Proof.
  intros [Hrows Hrefs] Hrow.
  set (d' := (commit_tx name row d).1).
  assert (objects d' = <[name := row]> (objects d)) as Hobj by apply commit_tx_objects.
  assert (counts (λ sha, references sha (objects d')) (blobs d') ∧
    ∀ sha, (commit_tx name row d).2 = Some sha → references sha (objects d') = 0) as [Hc Horph].
  { pose proof (counts_insert_blob _ d (r_sha256 row) (r_size row) Hrefs) as Hins.
    rewrite Hobj. unfold d', commit_tx in *. destruct (objects d !! name) as [old|] eqn:Hn.
    - destruct (counts_decref _ _ (r_sha256 old) Hins) as (Hc & Ho & _).
      { cbn. rewrite (references_delete _ _ _ _ Hn). repeat case_decide; done || lia. }
      destruct (decref _ _) as [d2 orphaned]. cbn in *. split.
      + eapply counts_ext, Hc. intros sha. cbn.
        rewrite references_insert, (references_delete sha _ _ _ Hn).
        repeat case_decide; simplify_eq; lia.
      + intros sha Hs. destruct orphaned; [|done]. simplify_eq.
        destruct Ho as [Ho _]. specialize (Ho eq_refl).
        rewrite references_insert. rewrite (references_delete _ _ _ _ Hn) in Ho.
        repeat case_decide; simplify_eq; lia.
    - split; [|done]. eapply counts_ext, Hins. intros sha. cbn.
      rewrite references_insert_None by done. repeat case_decide; simplify_eq; lia. }
  assert (db_ok d') as Hok.
  { split; [|done]. rewrite Hobj. by apply map_Forall_insert_2. }
  split; [done|]. split.
  - apply (db_ok_object_blob d' name row Hok). by rewrite Hobj, lookup_insert_eq.
  - intros sha Hs. specialize (Horph _ Hs). specialize (Hc sha).
    split.
    + intros ->. rewrite Hobj, references_insert, decide_True in Horph by done. lia.
    + destruct (blobs d' !! sha); [lia|done].
Qed.
