(* ===== verification/World.v ===== *)
(** The world the store runs in: the files under the data directory, the
    process's heap of [Bucket] handles and [BlobWriter]s, the clock, and a
    script of environment failures.  The functions of package [os] and the
    calls on [*sql.DB] and [*sql.Tx] that the code makes are operations on it. *)

From S2P Require Import Prelude Errors GoMonad GoStd Types Database.
From stdpp Require Import options.

(** ** State *)

(** A path below the store's root, by components: [filepath.Join(s.root, a, b)]
    is [[a; b]].  (Bucket names and the other components contain no separator
    and are not dots, so [Join] only concatenates.) *)
Abbreviation path := (list string).

(** A directory entry.  Regular files and SQLite databases are inodes, so that
    an open file or database survives being unlinked. *)
Inductive node :=
  | NDir
  | NFile (ino : nat)
  | NDb (ino : nat).

#[export] Instance node_eq_dec : EqDecision node.
Proof. solve_decision. Defined.

(** [type Bucket struct] (its mutex is implicit: see the header); [b_db] is the
    database inode behind [*sql.DB], [b_open] whether it has not been closed. *)
Record Bucket := mkBucket {
  b_name : string;
  b_dir : path;
  b_db : nat;
  b_open : bool;
}.

(** [type BlobWriter struct]; [w_b] points to a [Bucket], a hash state is the
    list of bytes it has been fed. *)
Record BlobWriter := mkBlobWriter {
  w_b : nat;
  w_tmp : path;      (* w.tmp.Name() *)
  w_ino : nat;       (* the open file behind w.tmp *)
  w_sha : bytes;
  w_md5h : bytes;
  w_crc : bytes;
  w_size : Z;
  w_done : bool;
}.

(** What the environment does to one external call: let it proceed, make it
    fail, or kill the process.  A failing or killed call may have done part of
    its work: a write its first [n] bytes, [RemoveAll] all but [keep]. *)
Inductive verdict :=
  | Proceed
  | Fail (n : nat) (keep : list path)
  | Die (n : nat) (keep : list path).

Record world := mkWorld {
  tree : gmap path node;              (* directory entries *)
  files : gmap nat bytes;             (* contents of regular files *)
  dbs : gmap nat database;            (* contents of databases *)
  next : nat;                         (* next unused inode or pointer *)
  handles : gmap nat Bucket;          (* heap: Bucket structs *)
  buckets : gmap string nat;          (* Store.buckets *)
  writers : gmap nat BlobWriter;      (* heap: BlobWriter structs *)
  now : Time;                         (* the wall clock *)
  faults : list verdict;              (* what happens to the next external calls *)
}.

Definition set_tree (f : gmap path node → gmap path node) (w : world) : world :=
  mkWorld (f (tree w)) (files w) (dbs w) (next w) (handles w) (buckets w) (writers w) (now w) (faults w).
Definition set_files (f : gmap nat bytes → gmap nat bytes) (w : world) : world :=
  mkWorld (tree w) (f (files w)) (dbs w) (next w) (handles w) (buckets w) (writers w) (now w) (faults w).
Definition set_dbs (f : gmap nat database → gmap nat database) (w : world) : world :=
  mkWorld (tree w) (files w) (f (dbs w)) (next w) (handles w) (buckets w) (writers w) (now w) (faults w).
Definition set_next (n : nat) (w : world) : world :=
  mkWorld (tree w) (files w) (dbs w) n (handles w) (buckets w) (writers w) (now w) (faults w).
Definition set_handles (f : gmap nat Bucket → gmap nat Bucket) (w : world) : world :=
  mkWorld (tree w) (files w) (dbs w) (next w) (f (handles w)) (buckets w) (writers w) (now w) (faults w).
Definition set_buckets (f : gmap string nat → gmap string nat) (w : world) : world :=
  mkWorld (tree w) (files w) (dbs w) (next w) (handles w) (f (buckets w)) (writers w) (now w) (faults w).
Definition set_writers (f : gmap nat BlobWriter → gmap nat BlobWriter) (w : world) : world :=
  mkWorld (tree w) (files w) (dbs w) (next w) (handles w) (buckets w) (f (writers w)) (now w) (faults w).
Definition set_now (t : Time) (w : world) : world :=
  mkWorld (tree w) (files w) (dbs w) (next w) (handles w) (buckets w) (writers w) t (faults w).
Definition set_faults (fs : list verdict) (w : world) : world :=
  mkWorld (tree w) (files w) (dbs w) (next w) (handles w) (buckets w) (writers w) (now w) fs.

(** ** External calls *)

(** One external call: the environment decides whether [step] runs; [part n
    keep] is the work a failing call may leave behind. *)
Definition external {A} (e : error) (part : nat → list path → world → world)
    (step : M world A) : M world A := λ w,
  match faults w with
  | [] => step w
  | v :: vs =>
    let w' := set_faults vs w in
    match v with
    | Proceed => step w'
    | Fail n keep => (Err e, part n keep w')
    | Die n keep => (Crash, part n keep w')
    end
  end.

Definition nothing (n : nat) (keep : list path) (w : world) : world := w.

Definition syscall {A} (step : M world A) : M world A := external (SysErr EIO) nothing step.

Definition sql_error : error := Other [Lit "sqlite: disk I/O error"].
Definition sqlcall {A} (step : M world A) : M world A := external sql_error nothing step.

Lemma wp_external {A} e part (step : M world A) Φ w :
  (∀ fs, (faults w = [] → fs = []) → wp step Φ (set_faults fs w)) →
  (∀ fs n keep, faults w ≠ [] → Φ (Err e) (part n keep (set_faults fs w))) →
  (∀ fs n keep, faults w ≠ [] → Φ Crash (part n keep (set_faults fs w))) →
  wp (external e part step) Φ w.
Proof.
  intros Hs Hf Hd. unfold wp, external. destruct (faults w) as [|v vs] eqn:E.
  - specialize (Hs []). unfold wp in Hs.
    assert (set_faults [] w = w) as <-; [|auto]. destruct w; cbn in *. by subst.
  - destruct v; cbn; [by apply Hs|by apply Hf|by apply Hd].
Qed.

Definition fresh : M world nat := λ w, (Ret (next w), set_next (S (next w)) w).

Definition time_Now : M world Time := gets now.

(** ** Package os *)
Definition parent (p : path) : path := removelast p.

Definition is_dir (t : gmap path node) (p : path) : bool :=
  match p with [] => true | _ => bool_decide (t !! p = Some NDir) end.

Definition os_Mkdir (p : path) : M world unit := syscall (λ w,
  match tree w !! p with
  | Some _ => (Err (SysErr EEXIST), w)
  | None =>
    if is_dir (tree w) (parent p) then (Ret tt, set_tree (insert p NDir) w)
    else (Err (SysErr ENOENT), w)
  end).

(** [os.MkdirAll]: the missing directories on the way to [p], outermost first. *)
Definition mkdir_missing (p : path) : M world unit :=
  let* w := get in
  if is_dir (tree w) p then ret tt
  else match tree w !! p with
       | Some _ => throw (SysErr ENOTDIR)
       | None => os_Mkdir p
       end.
Fixpoint mkdir_all (done_ todo : path) : M world unit :=
  match todo with
  | [] => ret tt
  | c :: todo =>
    do* mkdir_missing (done_ ++ [c]) in
    mkdir_all (done_ ++ [c]) todo
  end.
Definition os_MkdirAll (p : path) : M world unit := mkdir_all [] p.

Definition os_Stat (p : path) : M world node := syscall (λ w,
  match tree w !! p with
  | Some n => (Ret n, w)
  | None => (Err (SysErr ENOENT), w)
  end).

(** [os.CreateTemp(dir, prefix + "*")]: the star becomes a random number; here a
    number never used before. *)
Definition temp_path (dir : path) (prefix : string) (n : nat) : path :=
  dir ++ [prefix +:+ pretty (N.of_nat n)].
#[export] Instance temp_path_inj dir prefix : Inj (=) (=) (temp_path dir prefix).
Proof.
  unfold temp_path. intros n m H. apply app_inv_head in H. injection H as H.
  apply (inj (String.app prefix)) in H. apply (inj pretty) in H. lia.
Qed.
Definition os_CreateTemp (dir : path) (prefix : string) : M world (path * nat) := syscall (λ w,
  if is_dir (tree w) dir then
    let ino := next w in
    let p := temp_path dir prefix ino in
    match tree w !! p with
    | Some _ => (Err (SysErr EEXIST), w)
    | None =>
      (Ret (p, ino), set_next (S ino) (set_files (insert ino []) (set_tree (insert p (NFile ino)) w)))
    end
  else (Err (SysErr ENOENT), w)).

Definition os_Rename (src dst : path) : M world unit := syscall (λ w,
  match tree w !! src with
  | Some (NFile i) =>
    if is_dir (tree w) (parent dst) then
      match tree w !! dst with
      | Some NDir => (Err (SysErr EEXIST), w)
      | _ => (Ret tt, set_tree (λ t, <[dst := NFile i]> (delete src t)) w)
      end
    else (Err (SysErr ENOENT), w)
  | _ => (Err (SysErr ENOENT), w)
  end).

(** [os.Remove] of a file. *)
Definition os_Remove (p : path) : M world unit := syscall (λ w,
  match tree w !! p with
  | Some (NFile _) | Some (NDb _) => (Ret tt, set_tree (delete p) w)
  | Some NDir => (Err (SysErr EEXIST), w)
  | None => (Err (SysErr ENOENT), w)
  end).

(** [p] is [q] or lies below it. *)
Fixpoint below (q p : path) : bool :=
  match q, p with
  | [], _ => true
  | a :: q, b :: p => String.eqb a b && below q p
  | _ :: _, [] => false
  end.

(** The entries under [q] go, except those in [keep] and the directories they
    are in. *)
Definition remove_below (q : path) (keep : list path) (t : gmap path node) : gmap path node :=
  filter (λ e, below q e.1 = false ∨ Exists (λ k, below e.1 k = true) keep) t.
Definition os_RemoveAll (p : path) : M world unit :=
  external (SysErr EIO) (λ _ keep, set_tree (remove_below p keep))
    (modify (set_tree (remove_below p []))).

(** [os.Open] of a regular file: the open file is its inode. *)
Definition os_Open (p : path) : M world nat := syscall (λ w,
  match tree w !! p with
  | Some (NFile i) => (Ret i, w)
  | _ => (Err (SysErr ENOENT), w)
  end).

(** The bytes of an open file. *)
Definition file_content (i : nat) (w : world) : bytes := default [] (files w !! i).

(** [f.Write(p)] at the end of the file: how many bytes were written, and the
    error when that is fewer than all. *)
Definition file_Write (i : nat) (p : bytes) : M world (nat * option error) := λ w,
  let append (q : bytes) := set_files (alter (λ c, c ++ q) i) in
  match faults w with
  | [] => (Ret (length p, None), append p w)
  | v :: vs =>
    let w' := set_faults vs w in
    match v with
    | Proceed => (Ret (length p, None), append p w')
    | Fail n _ => (Ret (length (take n p), Some (SysErr EIO)), append (take n p) w')
    | Die n _ => (Crash, append (take n p) w')
    end
  end.

Definition file_Sync : M world unit := syscall (ret tt).
Definition file_Close : M world unit := syscall (ret tt).

(** [os.ReadDir(root)]: the names of the entries of the root and whether they
    are directories, sorted by name. *)
Definition root_entries (t : gmap path node) : list (string * bool) :=
  merge_sort (λ p q, String.le p.1 q.1)
    (omap (λ e, match e with ([c], n) => Some (c, bool_decide (n = NDir)) | _ => None end)
      (map_to_list t)).
Definition os_ReadDir_root : M world (list (string * bool)) :=
  syscall (gets (λ w, root_entries (tree w))).

(** ** database/sql on a bucket's handle *)
Definition ErrDbClosed : error := Other [Lit "sql: database is closed"].

(** The tables behind an open handle. *)
Definition handle_db (h : nat) (w : world) : option database :=
  match handles w !! h with
  | Some b => if b_open b then dbs w !! b_db b else None
  | None => None
  end.

(** A query outside a transaction. *)
Definition db_Query {A} (h : nat) (q : database → A) : M world A := sqlcall (λ w,
  match handle_db h w with
  | Some d => (Ret (q d), w)
  | None => (Err ErrDbClosed, w)
  end).

(** [db.Begin()]: a transaction works on its own copy of the tables, which
    [tx.Commit()] installs; [tx.Rollback()] drops it.  (Writers are serialized
    by [commitMu].) *)
Definition db_Begin (h : nat) : M world database := db_Query h (λ d, d).
Definition tx_Exec (stmt : database → database) (tx : database) : M world database :=
  sqlcall (ret (stmt tx)).
Definition tx_QueryRow {A} (q : database → A) (tx : database) : M world A :=
  sqlcall (ret (q tx)).
Definition tx_Commit (h : nat) (tx : database) : M world unit := sqlcall (λ w,
  match handles w !! h with
  | Some b =>
    if b_open b then (Ret tt, set_dbs (insert (b_db b) tx) w) else (Err ErrDbClosed, w)
  | None => (Err ErrDbClosed, w)
  end).

(** [db.Close()]: the handle is closed even when an error is reported. *)
Definition close_handle (h : nat) : world → world :=
  set_handles (alter (λ b, mkBucket (b_name b) (b_dir b) (b_db b) false) h).
Definition db_Close (h : nat) : M world unit :=
  external sql_error (λ _ _, close_handle h) (modify (close_handle h)).
