(* ===== verification/Bucket.v ===== *)
(** [pkg/store/bucket.go]: methods of a [*Bucket]: opening its database, its
    metadata, blob paths, fetching an object row and dropping a blob
    reference. *)

From S2P Require Import Prelude Errors GoMonad GoStd Types Database World.
From stdpp Require Import options.

(** Dereference a [*Bucket]. *)
Definition load_bucket (h : nat) : M world Bucket := λ w,
  match handles w !! h with
  | Some b => (Ret b, w)
  | None => (Panic [Lit "invalid memory address or nil pointer dereference"], w)
  end.

Definition data_sqlite (dir : path) : path := dir ++ ["data.sqlite"].

(** [db.Exec(schema)]: SQLite creates a missing file; CREATE TABLE IF NOT EXISTS
    leaves an initialized one alone. *)
Definition exec_schema (p : path) : M world nat := sqlcall (λ w,
  match tree w !! p with
  | Some (NDb i) => (Ret i, w)
  | None =>
    if is_dir (tree w) (parent p) then
      let i := next w in
      (Ret i, set_next (S i) (set_dbs (insert i empty_database) (set_tree (insert p (NDb i)) w)))
    else (Err (Other [Lit "unable to open database file"]), w)
  | Some _ => (Err (Other [Lit "unable to open database file"]), w)
  end).

Definition exec_bucket_info (i : nat) (created : Z) : M world unit :=
  sqlcall (modify (set_dbs (alter (sql_insert_bucket_info created) i))).

(** [openBucket(name, dir)]: the new [*Bucket]. *)
Definition openBucket (name : string) (dir : path) : M world nat :=
  let* r := try (sqlcall (ret tt)) in        (* sql.Open *)
  match r with
  | inl e => throw (Wrap [Lit "opening bucket db: "] e [])
  | inr _ =>
    let* r := try (exec_schema (data_sqlite dir)) in
    match r with
    | inl e =>
      do* ignore (sqlcall (ret tt)) in        (* db.Close() *)
      throw (Wrap [Lit "initializing bucket schema: "] e [])
    | inr i =>
      let* t := time_Now in
      let* r := try (exec_bucket_info i (UnixMicro_of t)) in
      match r with
      | inl e =>
        do* ignore (sqlcall (ret tt)) in      (* db.Close() *)
        throw e
      | inr _ =>
        let* h := fresh in
        do* modify (set_handles (insert h (mkBucket name dir i true))) in
        ret h
      end
    end
  end.

(** [b.info()]. *)
Definition info (h : nat) : M world BucketInfo :=
  let* b := load_bucket h in
  let* r := db_Query h bucket_info in
  match r with
  | None => throw ErrNoRows
  | Some (created, metagen) => ret (mkBucketInfo (b_name b) (time_UnixMicro created) metagen)
  end.

(** [b.blobPath(sha256Hex)].  The argument is always a sha256 in hex, so the
    slice [sha256Hex[:2]] is in bounds. *)
Definition blobPath (b : Bucket) (sha256Hex : string) : path :=
  b_dir b ++ ["objects"; str_take 2 sha256Hex; sha256Hex].

(** [b.scanObject(row)] on the result of a query for one row. *)
Definition scan (b : Bucket) (name : string) (row : option objectRow) : M world ObjectInfo :=
  match row with
  | None => throw ErrNoRows
  | Some r => match scanObject (b_name b) name r with
              | inl e => throw e
              | inr o => ret o
              end
  end.

(** [b.getObject(name)]. *)
Definition getObject (h : nat) (name : string) : M world ObjectInfo :=
  let* b := load_bucket h in
  let* r := try (let* row := db_Query h (λ d, objects d !! name) in scan b name row) in
  match r with
  | inl e => if errors_Is e ErrNoRows then throw ErrObjectNotFound else throw e
  | inr o => ret o
  end.

(** The existing row of a transaction: [existing = nil] when there is none. *)
Definition tx_existing (b : Bucket) (name : string) (tx : database) : M world (option ObjectInfo) :=
  let* r := try (let* row := tx_QueryRow (λ d, objects d !! name) tx in scan b name row) in
  match r with
  | inl e => if errors_Is e ErrNoRows then ret None else throw e
  | inr o => ret (Some o)
  end.

(** [decrefBlob(tx, sha256Hex)]: the transaction's tables after it, and whether
    the blob file is orphaned. *)
Definition decrefBlob (tx : database) (sha256Hex : string) : M world (database * bool) :=
  let* tx := tx_Exec (sql_decrement_blob sha256Hex) tx in
  let* r := tx_QueryRow (λ d, b_refcount <$> blobs d !! sha256Hex) tx in
  match r with
  | None => ret (tx, false)
  | Some refcount =>
    if (refcount <=? 0)%Z then
      let* tx := tx_Exec (sql_delete_blob sha256Hex) tx in
      ret (tx, true)
    else ret (tx, false)
  end.
