(* ===== verification/Store.v ===== *)
(** [pkg/store/store.go]: the store's buckets, and the object operations of
    [pkg/store/bucket.go] that are methods of [*Store]. *)

From S2P Require Import Prelude Errors GoMonad GoStd Types Names Database World Bucket.
From stdpp Require Import options.

(** [Open(root)].  The root is the path without components; the model takes the
    directory as made, but [os.MkdirAll] can fail.  The [Store] it returns is the
    one of the process: [buckets] is its map of open handles. *)
Definition Open : M world unit :=
  let* r := try (syscall (os_MkdirAll [])) in
  match r with
  | inl e => throw (Wrap [Lit "creating store root: "] e [])
  | inr _ => modify (set_buckets (λ _, ∅))
  end.

(** [s.openBucket(name)], under [s.mu]. *)
Definition Store_openBucket (name : string) : M world nat :=
  let* w := get in
  match buckets w !! name with
  | Some h => ret h
  | None =>
    let* h := openBucket name [name] in
    do* modify (set_buckets (insert name h)) in
    ret h
  end.

(** [s.bucket(name)]. *)
Definition bucket (name : string) : M world nat :=
  if negb (validBucketName name) then throw ErrBucketNotFound
  else
    let* w := get in
    match buckets w !! name with
    | Some h => ret h
    | None =>
      let* r := try (os_Stat (data_sqlite [name])) in
      match r with
      | inl _ => throw ErrBucketNotFound
      | inr _ => Store_openBucket name
      end
    end.

Definition CreateBucket (name : string) : M world BucketInfo :=
  if negb (validBucketName name)
  then throw (Wrap [] ErrInvalidName [Lit ": bucket "; Quote name])
  else
    let dir := [name] in
    let* r := try (os_Mkdir dir) in
    match r with
    | inl e => if os_IsExist e then throw ErrBucketExists else throw e
    | inr _ =>
      do* os_Mkdir (dir ++ ["objects"]) in
      do* os_Mkdir (dir ++ ["tmp"]) in
      let* b := Store_openBucket name in
      info b
    end.

Definition GetBucket (name : string) : M world BucketInfo :=
  let* b := bucket name in
  info b.

Fixpoint list_entries (entries : list (string * bool)) (infos : list BucketInfo)
    : M world (list BucketInfo) :=
  match entries with
  | [] => ret infos
  | (name, isDir) :: entries =>
    if negb isDir then list_entries entries infos
    else
      let* r := try (os_Stat (data_sqlite [name])) in
      match r with
      | inl _ => list_entries entries infos     (* not a bucket directory *)
      | inr _ =>
        let* b := bucket name in
        let* i := info b in
        list_entries entries (infos ++ [i])
      end
  end.

Definition ListBuckets : M world (list BucketInfo) :=
  let* entries := os_ReadDir_root in
  let* infos := list_entries entries [] in
  ret (merge_sort (λ i j, String.le (bi_Name i) (bi_Name j)) infos).

Definition DeleteBucket (name : string) : M world unit :=
  let* h := bucket name in
  let* count := db_Query h sql_count_objects in
  if (0 <? count)%Z then throw ErrBucketNotEmpty
  else
    do* modify (set_buckets (delete name)) in
    do* db_Close h in
    os_RemoveAll [name].

(** [s.Close()]: every handle is closed and forgotten; the first error is
    reported. *)
Fixpoint close_all (hs : list (string * nat)) (firstErr : option error) : M world (option error) :=
  match hs with
  | [] => ret firstErr
  | (name, h) :: hs =>
    let* r := try (db_Close h) in
    do* modify (set_buckets (delete name)) in
    close_all hs (match r, firstErr with inl e, None => Some e | _, _ => firstErr end)
  end.
Definition Close : M world unit :=
  let* w := get in
  let* e := close_all (map_to_list (buckets w)) None in
  match e with Some e => throw e | None => ret tt end.

Definition GetObject (bucketName name : string) : M world ObjectInfo :=
  let* b := bucket bucketName in
  getObject b name.

(** The metadata of an object and the open file on its content. *)
Definition OpenObject (bucketName name : string) : M world (ObjectInfo * nat) :=
  let* h := bucket bucketName in
  let* oi := getObject h name in
  let* b := load_bucket h in
  let* r := try (os_Open (blobPath b (oi_SHA256 oi))) in
  match r with
  | inl e =>
    throw (Wrap [Lit "opening blob for "; Lit bucketName; Lit "/"; Lit name; Lit ": "] e [])
  | inr f => ret (oi, f)
  end.

Definition DeleteObject (bucketName name : string) (conds : Conditions) : M world unit :=
  let* h := bucket bucketName in
  let* b := load_bucket h in
  let* tx := db_Begin h in
  let* existing := tx_existing b name tx in
  match check conds existing with
  | Some e => throw e
  | None =>
    match existing with
    | None => throw ErrObjectNotFound
    | Some old =>
      let* tx := tx_Exec (sql_delete_object name) tx in
      let* ' (tx, orphan) := decrefBlob tx (oi_SHA256 old) in
      do* tx_Commit h tx in
      if orphan then ignore (os_Remove (blobPath b (oi_SHA256 old))) else ret tt
    end
  end.
