(* ===== verification/BlobWriter.v ===== *)
(** [pkg/store/blobwriter.go]: streaming content into the store and committing
    it as an object. *)

From S2P Require Import Prelude Errors GoMonad GoStd Types Names Hash Database World Bucket Store.
From stdpp Require Import options.

Definition load_writer (p : nat) : M world BlobWriter := λ w,
  match writers w !! p with
  | Some bw => (Ret bw, w)
  | None => (Panic [Lit "invalid memory address or nil pointer dereference"], w)
  end.

Definition set_done (bw : BlobWriter) : BlobWriter :=
  mkBlobWriter (w_b bw) (w_tmp bw) (w_ino bw) (w_sha bw) (w_md5h bw) (w_crc bw) (w_size bw) true.

(** The hashes and the size after [q] has been written. *)
Definition feed (q : bytes) (bw : BlobWriter) : BlobWriter :=
  mkBlobWriter (w_b bw) (w_tmp bw) (w_ino bw) (w_sha bw ++ q) (w_md5h bw ++ q) (w_crc bw ++ q)
    (int64 (w_size bw + Z.of_nat (length q))) (w_done bw).

Definition NewBlobWriter (bucketName : string) : M world nat :=
  let* h := bucket bucketName in
  let* b := load_bucket h in
  let* ' (tmp, ino) := os_CreateTemp (b_dir b ++ ["tmp"]) "upload-" in
  let* p := fresh in
  do* modify (set_writers (insert p (mkBlobWriter h tmp ino [] [] [] 0 false))) in
  ret p.

(** [w.Write(p)] returns both a count and an error. *)
Definition Write (wp : nat) (p : bytes) : M world (nat * option error) :=
  let* bw := load_writer wp in
  if w_done bw then ret (0, Some (Other [Lit "write on finished BlobWriter"]))
  else
    let* ' (n, err) := file_Write (w_ino bw) p in
    if 0 <? n then
      do* modify (set_writers (alter (feed (take n p)) wp)) in
      ret (n, err)
    else ret (n, err).

(** [w.Checksums()]. *)
Definition Checksums (bw : BlobWriter) : string * bytes * Z :=
  (hex_EncodeToString (sha256_sum (w_sha bw)), md5_sum (w_md5h bw), crc32c_sum (w_crc bw)).

Definition Abort_ (wp : nat) : M world unit :=
  let* bw := load_writer wp in
  if w_done bw then ret tt
  else
    do* modify (set_writers (alter set_done wp)) in
    do* ignore file_Close in
    ignore (os_Remove (w_tmp bw)).

(** The blob file is put in place unless it is there already. *)
Definition install_blob (tmpName blob : path) : M world unit :=
  let* r := try (os_Stat blob) in
  match r with
  | inr _ => ret tt
  | inl _ =>
    do* os_MkdirAll (parent blob) in
    os_Rename tmpName blob
  end.

(** The generation of a new version: the clock's, unless the live version's is
    as high. *)
Definition next_generation (existing : option ObjectInfo) (t : Time) : Z :=
  let generation := UnixMicro_of t in
  match existing with
  | Some o => if (generation <=? oi_Generation o)%Z then int64 (oi_Generation o + 1) else generation
  | None => generation
  end.

(** The statements of [Commit] between the preconditions and [tx.Commit()]: the
    new reference, the old version's reference, the new row.  The blob the old
    version orphans comes back with the tables. *)
Definition commit_statements (tx : database) (name : string) (existing : option ObjectInfo) (row : objectRow)
    : M world (database * option string) :=
  let* tx := tx_Exec (sql_insert_blob (r_sha256 row) (r_size row)) tx in
  let* ' (tx, orphan) :=
    match existing with
    | Some old =>
      let* ' (tx, orphaned) := decrefBlob tx (oi_SHA256 old) in
      ret (tx, if orphaned : bool then Some (oi_SHA256 old) else None)
    | None => ret (tx, None)
    end in
  let* tx := tx_Exec (sql_replace_object name row) tx in
  ret (tx, orphan).

(** The transaction of [Commit]: from the preconditions to [tx.Commit()].  The
    result is the object's description and the blob it orphaned. *)
Definition commit_in_tx (h : nat) (b : Bucket) (bw : BlobWriter) (name : string) (opts : PutOptions)
    : M world (ObjectInfo * option string) :=
  let '(shaHex, md5Sum, crc32c) := Checksums bw in
  let* tx := db_Begin h in
  let* existing := tx_existing b name tx in
  match check (po_Conditions opts) existing with
  | Some e => throw e
  | None =>
    let* t := time_Now in
    let generation := next_generation existing t in
    let row := new_row generation shaHex (w_size bw) md5Sum crc32c
                 (po_ContentType opts) (po_Metadata opts) (UnixMicro_of t) in
    let* ' (tx, orphan) := commit_statements tx name existing row in
    do* tx_Commit h tx in
    ret (mkObjectInfo (b_name b) name generation 1 (w_size bw) shaHex md5Sum crc32c
           (po_ContentType opts) (po_Metadata opts) t t, orphan)
  end.

(** [w.Commit(name, opts)]. *)
Definition Commit (wp : nat) (name : string) (opts : PutOptions) : M world ObjectInfo :=
  let* bw := load_writer wp in
  if w_done bw then throw (Other [Lit "commit on finished BlobWriter"])
  else
    do* modify (set_writers (alter set_done wp)) in
    let tmpName := w_tmp bw in
    defer (os_Remove tmpName) (
      if negb (validObjectName name) then
        do* ignore file_Close in
        throw (Wrap [] ErrInvalidName [Lit ": object "; Quote name])
      else
        let* r := try file_Sync in
        match r with
        | inl e =>
          do* ignore file_Close in
          throw e
        | inr _ =>
          do* file_Close in
          let h := w_b bw in
          let* b := load_bucket h in
          do* install_blob tmpName (blobPath b (hex_EncodeToString (sha256_sum (w_sha bw)))) in
          let* ' (oi, orphan) := commit_in_tx h b bw name opts in
          match orphan with
          | Some sha =>
            do* ignore (os_Remove (blobPath b sha)) in
            ret oi
          | None => ret oi
          end
        end).

(** [s.TempFile(bucket)]: the new file's name and its open file. *)
Definition TempFile (bucketName : string) : M world (path * nat) :=
  let* h := bucket bucketName in
  let* b := load_bucket h in
  os_CreateTemp (b_dir b ++ ["tmp"]) "part-".

(** An [io.Reader]: the pieces its successive [Read] calls deliver, then how
    it ends, [None] for [io.EOF]. *)
Abbreviation reader := (list bytes * option error)%type.

(** [io.Copy(w, r)] for a [BlobWriter]: the bytes written, and the error. *)
Fixpoint io_Copy (wp : nat) (pieces : list bytes) (end_ : option error) (written : Z)
    : M world (Z * option error) :=
  match pieces with
  | [] => ret (written, end_)
  | [] :: pieces => io_Copy wp pieces end_ written
  | p :: pieces =>
    let* ' (n, err) := Write wp p in
    let written := int64 (written + Z.of_nat n) in
    match err with
    | Some e => ret (written, Some e)
    | None =>
      if negb (n =? length p) then ret (written, Some (Other [Lit "short write"]))
      else io_Copy wp pieces end_ written
    end
  end.

Definition PutObject (bucketName name : string) (r : reader) (opts : PutOptions) : M world ObjectInfo :=
  let* wp := NewBlobWriter bucketName in
  let* ' (_, err) := io_Copy wp r.1 r.2 0 in
  match err with
  | Some e =>
    do* Abort_ wp in
    throw e
  | None => Commit wp name opts
  end.
