(* ===== verification/Outcomes.v ===== *)
(** How the calls of the store may end, whatever world they are made in: which
    errors they return, and that they do not panic. *)

From S2P Require Import Prelude Errors GoMonad GoStd Types Names Hash Database World Bucket Store BlobWriter.
From stdpp Require Import options.

(** The call neither panics nor diverges, and its errors satisfy [P]. *)
Definition fails_with {S A} (P : error → Prop) (m : M S A) : Prop :=
  ∀ s, match (m s).1 with Ret _ | Crash => True | Err e => P e | _ => False end.

Section rules.
Context {S : Type} (P : error → Prop).

Lemma fails_ret {A} (a : A) : fails_with (S:=S) P (ret a).
Proof. done. Qed.
Lemma fails_throw {A} e : P e → fails_with (S:=S) P (throw (A:=A) e).
Proof. by intros ? s. Qed.
Lemma fails_pure {A} (f : S → outcome A * S) : (∀ s, match (f s).1 with Ret _ => True | _ => False end) → fails_with P f.
Proof. intros Hf s. specialize (Hf s). by destruct (f s).1. Qed.
Lemma fails_bind {A B} (m : M S A) (f : A → M S B) : fails_with P m → (∀ a, fails_with P (f a)) → fails_with P (bind m f).
Proof. intros Hm Hf s. specialize (Hm s). unfold bind. destruct (m s) as [[] s']; cbn in *; try done. apply Hf. Qed.
Lemma fails_get {A} (f : S → M S A) : (∀ s, fails_with P (f s)) → fails_with P (bind get f).
Proof. intros Hf s. apply Hf. Qed.
Lemma fails_try {A} Q (m : M S A) : fails_with Q m → fails_with P (try m).
Proof. intros Hm s. specialize (Hm s). unfold try. by destruct (m s) as [[] s']. Qed.
Lemma fails_ignore {A} Q (m : M S A) : fails_with Q m → fails_with P (ignore m).
Proof. intros Hm. apply fails_bind; [by eapply fails_try|done]. Qed.
Lemma fails_bind_try {A B} Q (m : M S A) (f : error + A → M S B) :
  fails_with Q m → (∀ a, fails_with P (f (inr a))) → (∀ e, Q e → fails_with P (f (inl e))) → fails_with P (bind (try m) f).
Proof.
  intros Hm Ha He s. specialize (Hm s). unfold bind, try. destruct (m s) as [[] s']; cbn in *; try done; [apply Ha|by apply He].
Qed.
Lemma fails_mono {A} Q (m : M S A) : (∀ e, Q e → P e) → fails_with Q m → fails_with P m.
Proof. intros HQ Hm s. specialize (Hm s). destruct (m s).1; auto. Qed.
End rules.

Lemma fails_external {A} P e part (step : M world A) : P e → fails_with P step → fails_with P (external e part step).
Proof. intros He Hs w. unfold external. destruct (faults w) as [|[]]; [apply Hs..|done|done]. Qed.

(** ** Errors of the environment

    They are told apart from the errors that speak of objects. *)
Definition plain (e : error) : Prop := errors_Is e ErrObjectNotFound = false ∧ errors_Is e ErrPreconditionFailed = false.

Lemma plain_sys n : plain (SysErr n).
Proof. done. Qed.
Lemma plain_other m : plain (Other m).
Proof. done. Qed.
Lemma plain_wrap a e b : plain e → plain (Wrap a e b).
Proof. intros [H1 H2]. split; cbn; done. Qed.

Create HintDb plain.
#[export] Hint Resolve plain_sys plain_other plain_wrap : plain.
#[export] Hint Extern 0 (plain sql_error) => exact (plain_other _) : plain.
#[export] Hint Extern 0 (plain ErrDbClosed) => exact (plain_other _) : plain.
#[export] Hint Extern 0 (plain ErrNoRows) => done : plain.
#[export] Hint Extern 0 (plain ErrBucketNotFound) => done : plain.
#[export] Hint Extern 0 (plain ErrBucketExists) => done : plain.
#[export] Hint Extern 0 (plain ErrInvalidName) => done : plain.

Ltac fail_step :=
  lazymatch goal with
  | H : ?P |- ?P => exact H
  | |- fails_with _ (bind get _) => apply fails_get; intros
  | |- fails_with _ (bind (try _) _) => apply (fails_bind_try _ plain); [|intros|intros]; cbn beta iota
  | |- fails_with _ (bind _ _) => apply fails_bind; [|intros]
  | |- fails_with _ (try _) => apply (fails_try _ plain)
  | |- fails_with _ (ignore _) => apply (fails_ignore _ plain)
  | |- fails_with _ (ret _) => apply fails_ret
  | |- fails_with _ (throw _) => apply fails_throw; eauto with plain
  | |- fails_with _ (gets _) => apply fails_pure; done
  | |- fails_with _ (modify _) => apply fails_pure; done
  | |- fails_with _ fresh => apply fails_pure; done
  | |- fails_with _ time_Now => apply fails_pure; done
  | |- fails_with _ (external _ _ _) => apply fails_external; [eauto with plain|]
  | |- fails_with _ (syscall _) => apply fails_external; [eauto with plain|]
  | |- fails_with _ (sqlcall _) => apply fails_external; [eauto with plain|]
  | |- fails_with _ (db_Begin _) => unfold db_Begin, db_Query
  | |- fails_with _ (db_Query _ _) => unfold db_Query
  | |- fails_with _ (tx_Commit _ _) => unfold tx_Commit
  | |- fails_with _ (tx_Exec _ _) => unfold tx_Exec
  | |- fails_with _ (tx_QueryRow _ _) => unfold tx_QueryRow
  | |- fails_with _ (os_Remove _) => unfold os_Remove
  | |- fails_with _ (os_Rename _ _) => unfold os_Rename
  | |- fails_with _ (os_Mkdir _) => unfold os_Mkdir
  | |- fails_with _ (os_Stat _) => unfold os_Stat
  | |- fails_with _ (os_Open _) => unfold os_Open
  | |- fails_with _ (os_CreateTemp _ _) => unfold os_CreateTemp
  | |- fails_with _ file_Sync => unfold file_Sync
  | |- fails_with _ file_Close => unfold file_Close
  | |- fails_with _ (exec_schema _) => unfold exec_schema
  | |- fails_with _ (exec_bucket_info _ _) => unfold exec_bucket_info
  | |- fails_with _ (match ?x with _ => _ end) => destruct x
  | |- fails_with _ (fun w => _) =>
      let w := fresh "w" in intros w;
      repeat match goal with
        | |- context [tree w !! ?p] => destruct (tree w !! p) as [[]|]
        | |- context [handles w !! ?h] => destruct (handles w !! h)
        | |- context [handle_db ?h w] => destruct (handle_db h w)
        | |- context [is_dir ?t ?p] => destruct (is_dir t p)
        | |- context [b_open ?b] => destruct (b_open b)
        end; cbn; solve [eauto with plain]
  end.
Ltac fails := repeat fail_step.

Section calls.
Abbreviation plainly m := (fails_with plain m).

Lemma fails_Stat p : plainly (os_Stat p).
Proof. fails. Qed.
Lemma fails_Mkdir p : plainly (os_Mkdir p).
Proof. fails. Qed.
Lemma fails_MkdirAll p : plainly (os_MkdirAll p).
Proof.
  unfold os_MkdirAll. generalize ([] : path). induction p as [|c p IH]; intros d; cbn [mkdir_all]; [fails|].
  apply fails_bind; [unfold mkdir_missing; fails|intros; apply IH].
Qed.
Lemma fails_install tmp blob : plainly (install_blob tmp blob).
Proof. unfold install_blob. fails. apply fails_MkdirAll. Qed.
Lemma fails_Store_openBucket n : plainly (Store_openBucket n).
Proof. unfold Store_openBucket, openBucket. fails. Qed.
Lemma fails_Begin h : plainly (db_Begin h).
Proof. fails. Qed.
Lemma fails_db_Query {A} h (q : database → A) : fails_with (λ e, e = sql_error ∨ e = ErrDbClosed) (db_Query h q).
Proof. apply fails_external; [auto|]. intros w. destruct (handle_db h w); cbn; auto. Qed.
Lemma fails_tx_Commit h tx : plainly (tx_Commit h tx).
Proof. fails. Qed.

Lemma fails_decrefBlob tx sha : plainly (decrefBlob tx sha).
Proof. unfold decrefBlob. fails. Qed.
Lemma fails_commit_statements tx name existing row : plainly (commit_statements tx name existing row).
Proof. unfold commit_statements. fails; apply fails_decrefBlob. Qed.


(** A row that cannot be read is no missing object. *)
Lemma fails_scan b name row : plainly (scan b name row).
Proof.
  unfold scan. destruct row as [r|]; [|fails]. destruct (scanObject _ _ r) as [e|o] eqn:E; [|fails].
  apply fails_throw. revert E. unfold scanObject. repeat case_match; intros [= <-]; auto with plain.
Qed.
Lemma fails_tx_existing b name tx : plainly (tx_existing b name tx).
Proof.
  unfold tx_existing. apply (fails_bind_try _ plain); [|intros; fails|].
  - fails. apply fails_scan.
  - intros e He. destruct (errors_Is e ErrNoRows); by fails.
Qed.

(** With errors of any kind. *)
Abbreviation returns m := (fails_with (λ _, True) m).
Lemma plainly_returns {A} (m : M world A) : plainly m → returns m.
Proof. by apply fails_mono. Qed.

Lemma returns_scan b name row : returns (scan b name row).
Proof. unfold scan. destruct row as [r|]; [destruct (scanObject _ _ r)|]; done. Qed.
Lemma returns_tx_existing b name tx : returns (tx_existing b name tx).
Proof.
  unfold tx_existing. apply (fails_bind_try _ (λ _, True)); [|done|intros e _; by destruct (errors_Is e ErrNoRows)].
  fails. apply returns_scan.
Qed.
Lemma returns_commit_in_tx h b bw name opts : returns (commit_in_tx h b bw name opts).
Proof.
  unfold commit_in_tx, Checksums. fails; [apply returns_tx_existing|apply plainly_returns, fails_commit_statements].
Qed.

End calls.

(** Calls that panic, but return no error. *)
Lemma run_load_bucket {B} h (f : Bucket → M world B) w :
  bind (load_bucket h) f w =
  match handles w !! h with
  | Some b => f b w
  | None => (Panic [Lit "invalid memory address or nil pointer dereference"], w)
  end.
Proof. unfold bind, load_bucket. by destruct (handles w !! h). Qed.

(** Calls that report errors as results, or drop them. *)
Lemma run_load_writer {B} p (f : BlobWriter → M world B) w :
  bind (load_writer p) f w =
  match writers w !! p with
  | Some bw => f bw w
  | None => (Panic [Lit "invalid memory address or nil pointer dereference"], w)
  end.
Proof. unfold bind, load_writer. by destruct (writers w !! p). Qed.
Lemma Write_no_error p q w e w' : Write p q w ≠ (Err e, w').
Proof.
  unfold Write. rewrite run_load_writer. destruct (writers w !! p) as [bw|]; [|done]. destruct (w_done bw); [done|].
  unfold bind, file_Write, modify, ret. by destruct (faults w) as [|[]]; cbn; repeat case_match.
Qed.
Lemma io_Copy_no_error p pieces end_ : ∀ n w e w', io_Copy p pieces end_ n w ≠ (Err e, w').
Proof.
  induction pieces as [|[|a q] pieces IH]; intros n w e w'; cbn [io_Copy]; [done|apply IH|].
  unfold bind. pose proof (Write_no_error p (a :: q) w) as Hne.
  destruct (Write p (a :: q) w) as [[[k [e1|]]|e1|x| |] w1]; try done; [|by destruct (Hne e1 w1)].
  destruct (negb _); [done|apply IH].
Qed.
Lemma Abort_no_error p w e w' : Abort_ p w ≠ (Err e, w').
Proof.
  unfold Abort_. rewrite run_load_writer. destruct (writers w !! p) as [bw|]; [|done]. destruct (w_done bw); [done|].
  unfold bind, modify, ignore, bind, try, ret. by repeat case_match.
Qed.
