(* ===== verification/StoreInv.v ===== *)
(** The invariant of the store: what holds of the disk and of the process's
    memory between calls, whatever calls were made, failed or were cut short. *)

From S2P Require Import Prelude Errors GoMonad GoStd Types Names Hash Database World Bucket Store BlobWriter.
From stdpp Require Import options.

(** The paths of bucket [n]. *)
Definition db_path (n : string) : path := [n; "data.sqlite"].
Definition blob_path (n sha : string) : path := [n; "objects"; str_take 2 sha; sha].
Definition upload_path (n : string) (ino : nat) : path := temp_path [n; "tmp"] "upload-" ino.
(** The temporary files of [TempFile], which uploads of parts keep between
    requests. *)
Definition part_path (n : string) (k : nat) : path := temp_path [n; "tmp"] "part-" k.

(** The tables of bucket [n] on disk. *)
Definition bucket_db (w : world) (n : string) : option database :=
  match tree w !! db_path n with
  | Some (NDb i) => dbs w !! i
  | _ => None
  end.

(** The bytes stored under [sha] in bucket [n]. *)
Definition blob_content (w : world) (n sha : string) : option bytes :=
  match tree w !! blob_path n sha with
  | Some (NFile i) => files w !! i
  | _ => None
  end.

#[global] Arguments db_path : simpl never.
#[global] Arguments blob_path : simpl never.
#[global] Arguments upload_path : simpl never.
#[global] Arguments part_path : simpl never.

Definition sha_hex (c : bytes) : string := hex_EncodeToString (sha256_sum c).

(** The layout of a bucket's directory: what may be at which path in it. *)
Inductive layout : path → node → Prop :=
  | layout_bucket : layout [] NDir
  | layout_objects : layout ["objects"] NDir
  | layout_tmp : layout ["tmp"] NDir
  | layout_db i : layout ["data.sqlite"] (NDb i)
  | layout_temp pre i : pre = "upload-" ∨ pre = "part-" →
      layout ["tmp"; pre +:+ pretty (N.of_nat i)] (NFile i)
  | layout_shard hh : layout ["objects"; hh] NDir
  | layout_blob hh s i : layout ["objects"; hh; s] (NFile i).

(** *** The disk *)
Record disk_ok (w : world) : Prop := {
  (* inodes are allocated and in use *)
  ok_file : ∀ p i, tree w !! p = Some (NFile i) → i < next w ∧ is_Some (files w !! i);
  ok_db : ∀ p i, tree w !! p = Some (NDb i) → i < next w ∧ is_Some (dbs w !! i);
  ok_dbs : ∀ i d, dbs w !! i = Some d → i < next w ∧ db_ok d;
  (* there are no hard links *)
  ok_file_inj : ∀ p q i, tree w !! p = Some (NFile i) → tree w !! q = Some (NFile i) → p = q;
  ok_db_inj : ∀ p q i, tree w !! p = Some (NDb i) → tree w !! q = Some (NDb i) → p = q;
  (* a blob file's name is the hash of its content *)
  ok_hash : ∀ n hh s i c, tree w !! [n; "objects"; hh; s] = Some (NFile i) →
    files w !! i = Some c → sha_hex c = s;
  (* a recorded blob is on disk *)
  ok_stored : ∀ n d sha, bucket_db w n = Some d → is_Some (blobs d !! sha) →
    is_Some (blob_content w n sha);
  (* entries are in directories, and buckets have the documented layout *)
  ok_parent : ∀ p nd, tree w !! p = Some nd → is_dir (tree w) (parent p) = true;
  ok_layout : ∀ n rest nd, validBucketName n = true → tree w !! (n :: rest) = Some nd → layout rest nd;
}.

(** *** The process *)

(** A database with its [bucket_info] row. *)
Definition initialized (d : database) : Prop := is_Some (bucket_info d).

(** A handle: its fields are consistent, its database is initialized, and while
    it is open it is the registered one and its database is the bucket's. *)
Definition handle_ok (w : world) (h : nat) (b : Bucket) : Prop :=
  b_dir b = [b_name b] ∧ h < next w ∧ (∃ d, dbs w !! b_db b = Some d ∧ initialized d) ∧
  (b_open b = true →
     buckets w !! b_name b = Some h ∧ tree w !! db_path (b_name b) = Some (NDb (b_db b))).

(** A writer: the hashes have seen exactly the bytes of its temporary file;
    until it is done nobody else can reach that file, which stays in place
    while the bucket is open. *)
Definition writer_ok (w : world) (p : nat) (bw : BlobWriter) : Prop :=
  p < next w ∧ w_ino bw < next w ∧
  w_md5h bw = w_sha bw ∧ w_crc bw = w_sha bw ∧
  w_size bw = int64 (Z.of_nat (length (w_sha bw))) ∧
  files w !! w_ino bw = Some (w_sha bw) ∧
  (∃ b, handles w !! w_b bw = Some b ∧ w_tmp bw = upload_path (b_name b) (w_ino bw) ∧
     (b_open b = true → w_done bw = false → tree w !! w_tmp bw = Some (NFile (w_ino bw)))) ∧
  (∀ q, w_done bw = false → tree w !! q = Some (NFile (w_ino bw)) → q = w_tmp bw) ∧
  (∀ j, tree w !! w_tmp bw = Some (NFile j) → j = w_ino bw) ∧
  (∀ n k, tree w !! part_path n k ≠ Some (NFile (w_ino bw))).

Record proc_ok (w : world) : Prop := {
  ok_handles : map_Forall (handle_ok w) (handles w);
  ok_buckets : ∀ n h, buckets w !! n = Some h →
    ∃ b, handles w !! h = Some b ∧ b_name b = n ∧ b_open b = true ∧ validBucketName n = true;
  ok_writers : map_Forall (writer_ok w) (writers w);
  ok_writers_inj : ∀ p q bw bw', writers w !! p = Some bw → writers w !! q = Some bw' →
    w_ino bw = w_ino bw' → p = q;
  ok_names : ∀ h b, handles w !! h = Some b → validBucketName (b_name b) = true;
}.

Record world_ok (w : world) : Prop := {
  wok_disk : disk_ok w;
  wok_proc : proc_ok w;
}.

(** ** The invariant does not depend on the clock or on what will fail *)
Lemma world_ok_faults fs w : world_ok w → world_ok (set_faults fs w).
Proof. intros [[] []]. split; split; assumption. Qed.
Lemma world_ok_now t w : world_ok w → world_ok (set_now t w).
Proof. intros [[] []]. split; split; assumption. Qed.

(** ** Path facts *)
Lemma blob_path_inj n n' sha sha' :
  blob_path n sha = blob_path n' sha' → n = n' ∧ sha = sha'.
Proof. unfold blob_path. intros. by simplify_eq. Qed.

Lemma upload_not_db n ino n' : upload_path n ino ≠ db_path n'.
Proof. done. Qed.

Lemma upload_not_blob n ino n' hh s : upload_path n ino ≠ [n'; "objects"; hh; s].
Proof. done. Qed.

Lemma upload_path_inj n n' i j : upload_path n i = upload_path n' j → n = n' ∧ i = j.
Proof.
  intros H. assert (n = n') as -> by (unfold upload_path, temp_path in H; by simplify_eq).
  split; [done|]. by apply (inj (temp_path [n'; "tmp"] "upload-")) in H.
Qed.

Lemma part_not_upload n k m j : part_path n k ≠ upload_path m j.
Proof.
  unfold part_path, upload_path, temp_path. cbn. intros H. injection H as _ E. discriminate E.
Qed.

Lemma blobPath_eq b sha : b_dir b = [b_name b] → blobPath b sha = blob_path (b_name b) sha.
Proof. unfold blobPath, blob_path. by intros ->. Qed.

(** ** Elementary changes

    Each lemma says that one kind of change keeps the invariant; the operations
    are made of these. *)

(** Entries disappear, or directories come and go. *)
Lemma world_ok_shrink f w :
  world_ok w →
  (∀ p n, n ≠ NDir → f (tree w) !! p = Some n → tree w !! p = Some n) →
  (∀ n d sha i, bucket_db w n = Some d → f (tree w) !! db_path n = tree w !! db_path n →
     is_Some (blobs d !! sha) → tree w !! blob_path n sha = Some (NFile i) →
     f (tree w) !! blob_path n sha = Some (NFile i)) →
  (∀ h b, handles w !! h = Some b → b_open b = true →
     f (tree w) !! db_path (b_name b) = tree w !! db_path (b_name b)) →
  (∀ p nd, f (tree w) !! p = Some nd → is_dir (f (tree w)) (parent p) = true) →
  (∀ n rest, validBucketName n = true → f (tree w) !! (n :: rest) = Some NDir → layout rest NDir) →
  (∀ p bw b, writers w !! p = Some bw → handles w !! w_b bw = Some b → b_open b = true →
     w_done bw = false → f (tree w) !! w_tmp bw = tree w !! w_tmp bw) →
  world_ok (set_tree f w).
Proof.
  intros [[] []] Hsub Hblob Hh Hpar Hlay Hwr. split; split; try done; cbn.
  - intros p i Hp. eapply ok_file0, Hsub; [|exact Hp]; done.
  - intros p i Hp. eapply ok_db0, Hsub; [|exact Hp]; done.
  - intros p q i Hp Hq. eapply ok_file_inj0; (eapply Hsub; [|eassumption]; done).
  - intros p q i Hp Hq. eapply ok_db_inj0; (eapply Hsub; [|eassumption]; done).
  - intros n hh s i c Hp. eapply ok_hash0, Hsub; [|exact Hp]; done.
  - intros n d sha Hd Hsha. unfold bucket_db in Hd; cbn in Hd.
    destruct (f (tree w) !! db_path n) as [[| |i]|] eqn:Hn; try done.
    assert (tree w !! db_path n = Some (NDb i)) as Hn' by (eapply Hsub; [|exact Hn]; done).
    assert (bucket_db w n = Some d) as Hd' by (unfold bucket_db; by rewrite Hn').
    destruct (ok_stored0 n d sha Hd' Hsha) as [c Hc]. unfold blob_content in Hc |- *; cbn.
    destruct (tree w !! blob_path n sha) as [[|j|]|] eqn:Hj; try done.
    rewrite (Hblob _ _ _ _ Hd' ltac:(congruence) Hsha Hj). by eexists.
  - intros n rest nd Hn Hp. destruct (decide (nd = NDir)) as [->|]; [by apply (Hlay n)|].
    apply (ok_layout0 n); [done|]. by apply Hsub.
  - intros h b Hb. destruct (ok_handles0 h b Hb) as (? & ? & ? & Hopen).
    repeat split; try done; [by apply Hopen|]. cbn. rewrite (Hh _ _ Hb) by done. by apply Hopen.
  - intros p bw Hp. destruct (ok_writers0 p bw Hp) as (? & ? & ? & ? & ? & ? & (b & Hb & Htmp & Hin) & Hw1 & Hw2 & Hw3).
    repeat split; try done; cbn.
    + exists b. repeat split; [done..|]. intros Ho Hnd. rewrite (Hwr _ _ _ Hp Hb) by done. by apply Hin.
    + intros q Hdone Hq. apply Hw1; [done|]. eapply Hsub; [|exact Hq]; done.
    + intros j Hj. apply Hw2. eapply Hsub; [|exact Hj]; done.
    + intros n k Hk. apply (Hw3 n k). eapply Hsub; [|exact Hk]; done.
Qed.

Lemma is_dir_insert_dir t p q : is_dir t q = true → is_dir (<[p := NDir]> t) q = true.
Proof.
  destruct q as [|c q]; [done|]. unfold is_dir. rewrite !bool_decide_eq_true.
  intros Hq. destruct (decide (p = c :: q)) as [->|]; [apply lookup_insert_eq|by rewrite lookup_insert_ne].
Qed.

Lemma is_dir_insert t p nd q : t !! p = None → is_dir t q = true → is_dir (<[p := nd]> t) q = true.
Proof.
  intros Hp. destruct q as [|c q]; [done|]. unfold is_dir. rewrite !bool_decide_eq_true.
  intros Hq. rewrite lookup_insert_ne; [done|]. intros ->. congruence.
Qed.

Lemma is_dir_delete t p nd q :
  t !! p = Some nd → nd ≠ NDir → is_dir t q = true → is_dir (delete p t) q = true.
Proof.
  intros Hp Hnd. destruct q as [|c q]; [done|]. unfold is_dir. rewrite !bool_decide_eq_true.
  intros Hq. rewrite lookup_delete_ne; [done|]. intros ->. congruence.
Qed.

Lemma world_ok_mkdir p w :
  world_ok w → tree w !! p = None → is_dir (tree w) (parent p) = true →
  (∀ n rest, p = n :: rest → layout rest NDir) →
  world_ok (set_tree (insert p NDir) w).
Proof.
  intros Hok Hp Hpar Hlay.
  assert (∀ q n, tree w !! q = Some n → <[p := NDir]> (tree w) !! q = Some n) as Hr.
  { intros q n Hq. rewrite lookup_insert_ne; [done|]. intros ->. congruence. }
  apply world_ok_shrink; [done|..].
  - intros q n Hn Hq. destruct (decide (q = p)) as [->|]; [rewrite lookup_insert_eq in Hq; congruence|].
    by rewrite lookup_insert_ne in Hq.
  - eauto.
  - intros h b Hb Ho. destruct (ok_handles _ (wok_proc _ Hok) h b Hb) as (_ & _ & _ & Hopen).
    destruct (Hopen Ho) as [_ Ht]. rewrite Ht. by apply Hr.
  - intros q nd Hq. apply is_dir_insert_dir. apply lookup_insert_Some in Hq as [[<- _]|[_ Hq]]; [done|].
    by apply (ok_parent _ (wok_disk _ Hok) _ _ Hq).
  - intros n rest Hn Hq. apply lookup_insert_Some in Hq as [[-> _]|[_ Hq]]; [by eapply Hlay|].
    by apply (ok_layout _ (wok_disk _ Hok) n).
  - intros q bw b Hbw Hb Ho Hnd.
    destruct (ok_writers _ (wok_proc _ Hok) _ _ Hbw) as (_ & _ & _ & _ & _ & _ & (b' & Hb' & _ & Hin) & _).
    simplify_eq. rewrite Hin by done. by apply Hr, Hin.
Qed.

(** A file is unlinked that no recorded blob needs and no writer is using. *)
Lemma world_ok_remove p i w :
  world_ok w → tree w !! p = Some (NFile i) →
  (∀ n d sha, p = blob_path n sha → bucket_db w n = Some d → blobs d !! sha = None) →
  (∀ q bw, writers w !! q = Some bw → w_tmp bw = p → w_done bw = true) →
  world_ok (set_tree (delete p) w).
Proof.
  intros Hok Hp Hneed Hdone. apply world_ok_shrink; [done|..].
  - intros q n _ Hq. by apply lookup_delete_Some in Hq as [_ ?].
  - intros n d sha j Hd _ Hsha Hj. rewrite lookup_delete_ne; [done|].
    intros ->. rewrite (Hneed _ _ _ eq_refl Hd) in Hsha. by destruct Hsha.
  - intros h b Hb Ho. destruct (ok_handles _ (wok_proc _ Hok) h b Hb) as (_ & _ & _ & Hopen).
    destruct (Hopen Ho) as [_ Ht]. rewrite lookup_delete_ne; [done|]. intros ->. congruence.
  - intros q nd [_ Hq]%lookup_delete_Some. eapply is_dir_delete; [done..|].
    by apply (ok_parent _ (wok_disk _ Hok) _ _ Hq).
  - intros n rest Hn [_ Hq]%lookup_delete_Some. by apply (ok_layout _ (wok_disk _ Hok) n).
  - intros q bw b Hbw Hb Ho Hnd. rewrite lookup_delete_ne; [done|]. intros E.
    rewrite (Hdone _ _ Hbw) in Hnd; done.
Qed.

Lemma below_parent q p : below q p = true → below (parent q) p = true.
Proof.
  revert p. induction q as [|a q IH]; intros [|b p]; cbn; try done.
  rewrite andb_true_iff. intros [Hab Hq]. destruct q as [|c q]; [done|].
  cbn. rewrite Hab. cbn. by apply IH.
Qed.

Lemma below_cons_parent n p : below [n] p = false → below [n] (parent p) = false.
Proof. destruct p as [|b [|c p]]; cbn; done. Qed.

(** The directory of a bucket is removed, as far as the environment lets it:
    nobody has the bucket open and it records no blob. *)
Lemma world_ok_remove_below n keep w :
  world_ok w →
  (∀ h b, handles w !! h = Some b → b_open b = true → b_name b ≠ n) →
  (∀ d, bucket_db w n = Some d → blobs d = ∅) →
  world_ok (set_tree (remove_below [n] keep) w).
Proof.
  intros Hok Hclosed Hempty.
  assert (∀ m p, m ≠ n → remove_below [n] keep (tree w) !! (m :: p) = tree w !! (m :: p)) as Hother.
  { intros m p Hm. unfold remove_below. rewrite map_lookup_filter.
    destruct (tree w !! (m :: p)); [|done]. cbn.
    rewrite option_guard_True; [done|]. left. cbn. destruct (String.eqb_spec n m); [congruence|done]. }
  apply world_ok_shrink; [done|..].
  - intros p m _ Hp. by apply map_lookup_filter_Some in Hp as [? _].
  - intros m d sha i Hd _ Hsha Hi. destruct (decide (m = n)) as [->|Hm].
    + rewrite (Hempty _ Hd), lookup_empty in Hsha. by destruct Hsha.
    + unfold blob_path in *. by rewrite Hother.
  - intros h b Hb Ho. unfold db_path. by rewrite Hother by eauto.
  - intros p nd Hp. apply map_lookup_filter_Some in Hp as [Hp Hkeep]; cbn in Hkeep.
    pose proof (ok_parent _ (wok_disk _ Hok) _ _ Hp) as Hd.
    destruct (parent p) as [|c q] eqn:E; [done|]. unfold is_dir in *. rewrite bool_decide_eq_true in *.
    apply map_lookup_filter_Some. split; [done|]. cbn [fst]. rewrite <- E.
    destruct Hkeep as [Hb|Hk]; [left; by apply below_cons_parent|right].
    eapply Exists_impl; [exact Hk|]. intros k. apply below_parent.
  - intros m rest Hm Hp. apply map_lookup_filter_Some in Hp as [Hp _].
    by apply (ok_layout _ (wok_disk _ Hok) m).
  - intros p bw b Hbw Hb Ho Hnd.
    destruct (ok_writers _ (wok_proc _ Hok) _ _ Hbw) as (_ & _ & _ & _ & _ & _ & (b' & Hb' & Ht & _) & _).
    simplify_eq. rewrite Ht. unfold upload_path, temp_path. cbn. by rewrite Hother by eauto.
Qed.

Lemma world_ok_next n w : world_ok w → next w ≤ n → world_ok (set_next n w).
Proof.
  intros [[] []] Hn. split; split; try done; cbn.
  - intros p i Hp. destruct (ok_file0 p i Hp). split; [lia|done].
  - intros p i Hp. destruct (ok_db0 p i Hp). split; [lia|done].
  - intros i d Hi. destruct (ok_dbs0 i d Hi). split; [lia|done].
  - intros h b Hb. destruct (ok_handles0 h b Hb) as (? & ? & ? & ?).
    split; [done|]. split; [cbn; lia|]. done.
  - intros p bw Hp. destruct (ok_writers0 p bw Hp) as (? & ? & ?).
    split; [cbn; lia|]. split; [cbn; lia|]. done.
Qed.

(** A new empty file at a path no writer uses. *)
Lemma world_ok_new_file n pre w :
  world_ok w → pre = "upload-" ∨ pre = "part-" →
  let p := temp_path [n; "tmp"] pre (next w) in
  tree w !! p = None → is_dir (tree w) (parent p) = true →
  (∀ m k, k < next w → upload_path m k ≠ p) →
  world_ok (set_next (S (next w)) (set_files (insert (next w) []) (set_tree (insert p (NFile (next w))) w))).
Proof.
  intros Hok Hpre p Hp Hpar Hfresh. pose proof Hok as [[] []].
  assert (∀ q i, <[p := NFile (next w)]> (tree w) !! q = Some (NFile i) →
    (q = p ∧ i = next w) ∨ (tree w !! q = Some (NFile i) ∧ i < next w)) as Hl.
  { intros q i Hq. apply lookup_insert_Some in Hq as [[<- ?]|[? Hq]]; [left; by simplify_eq|].
    right. split; [done|]. by destruct (ok_file0 _ _ Hq). }
  assert (∀ q nd, q ≠ p → <[p := NFile (next w)]> (tree w) !! q = nd ↔ tree w !! q = nd) as Ho.
  { intros q nd Hq. by rewrite lookup_insert_ne. }
  split; split; cbn; try done.
  - intros q i Hq. destruct (Hl _ _ Hq) as [[_ ->]|[Hq' Hi]].
    + split; [lia|]. by rewrite lookup_insert_eq.
    + split; [lia|]. rewrite lookup_insert_ne by lia. by eapply ok_file0.
  - intros q i Hq. apply lookup_insert_Some in Hq as [[_ ?]|[_ Hq]]; [done|].
    destruct (ok_db0 _ _ Hq). split; [lia|done].
  - intros i d Hi. destruct (ok_dbs0 i d Hi). split; [lia|done].
  - intros q r i Hq Hr. destruct (Hl _ _ Hq) as [[-> ->]|[Hq' Hi]], (Hl _ _ Hr) as [[-> ?]|[Hr' ?]];
      try lia; try done. by eapply ok_file_inj0.
  - intros q r i Hq Hr. apply lookup_insert_Some in Hq as [[_ ?]|[_ Hq]]; [done|].
    apply lookup_insert_Some in Hr as [[_ ?]|[_ Hr]]; [done|]. by eapply ok_db_inj0.
  - intros m hh s i c Hq Hc. destruct (Hl _ _ Hq) as [[? _]|[Hq' Hi]]; [done|].
    rewrite lookup_insert_ne in Hc by lia. by eapply ok_hash0.
  - intros m d sha Hd Hsha.
    assert (bucket_db w m = Some d) as Hd' by (unfold bucket_db in *; cbn in Hd; by rewrite lookup_insert_ne in Hd).
    destruct (ok_stored0 m d sha Hd' Hsha) as [c Hc]. unfold blob_content in *; cbn.
    rewrite lookup_insert_ne by done.
    destruct (tree w !! blob_path m sha) as [[|j|]|] eqn:Hj; try done.
    destruct (ok_file0 _ _ Hj). rewrite lookup_insert_ne by lia. by eexists.
  - intros q nd Hq. apply is_dir_insert; [done|].
    apply lookup_insert_Some in Hq as [[<- _]|[_ Hq]]; [done|]. by eapply ok_parent0.
  - intros m rest nd Hm Hq. apply lookup_insert_Some in Hq as [[E <-]|[_ Hq]]; [|by apply (ok_layout0 m)].
    unfold p, temp_path in E. simplify_eq. by constructor.
  - intros h b Hb. destruct (ok_handles0 h b Hb) as (? & ? & ? & Hopen).
    repeat split; try done; cbn; [lia|by apply Hopen|]. rewrite lookup_insert_ne by done. by apply Hopen.
  - intros q bw Hq. destruct (ok_writers0 q bw Hq) as (? & ? & ? & ? & ? & ? & (b & ? & Htmp & Hin) & Hw1 & Hw2 & Hw3).
    repeat split; try done; cbn; try lia.
    + rewrite lookup_insert_ne by lia. done.
    + exists b. repeat split; [done..|]. intros. rewrite lookup_insert_ne; [by apply Hin|].
      rewrite Htmp. intros E. by eapply Hfresh.
    + intros r Hdone Hr. destruct (Hl _ _ Hr) as [[_ ?]|[Hr' _]]; [lia|]. by apply Hw1.
    + intros j Hj. destruct (Hl _ _ Hj) as [[E _]|[Hj' _]]; [|by apply Hw2].
      exfalso. rewrite Htmp in E. by eapply Hfresh.
    + intros m k Hk. destruct (Hl _ _ Hk) as [[_ ?]|[Hk' _]]; [lia|]. by apply (Hw3 m k).
Qed.

(** A new empty database. *)
Lemma world_ok_new_db n w :
  world_ok w → tree w !! db_path n = None → is_dir (tree w) [n] = true →
  world_ok (set_next (S (next w)) (set_dbs (insert (next w) empty_database)
    (set_tree (insert (db_path n) (NDb (next w))) w))).
Proof.
  intros Hok Hp Hpar. pose proof Hok as [[] []].
  assert (∀ q i, <[db_path n := NDb (next w)]> (tree w) !! q = Some (NFile i) →
    tree w !! q = Some (NFile i)) as Hl.
  { intros q i Hq. by apply lookup_insert_Some in Hq as [[<- ?]|[? Hq]]. }
  assert (∀ q i, <[db_path n := NDb (next w)]> (tree w) !! q = Some (NDb i) →
    (q = db_path n ∧ i = next w) ∨ (tree w !! q = Some (NDb i) ∧ i < next w)) as Hd.
  { intros q i Hq. apply lookup_insert_Some in Hq as [[<- ?]|[? Hq]]; [left; by simplify_eq|].
    right. split; [done|]. by destruct (ok_db0 _ _ Hq). }
  split; split; cbn; try done.
  - intros q i Hq. destruct (ok_file0 _ _ (Hl _ _ Hq)). split; [lia|done].
  - intros q i Hq. destruct (Hd _ _ Hq) as [[_ ->]|[Hq' Hi]].
    + split; [lia|]. by rewrite lookup_insert_eq.
    + split; [lia|]. rewrite lookup_insert_ne by lia. by eapply ok_db0.
  - intros i d Hi. apply lookup_insert_Some in Hi as [[<- <-]|[? Hi]].
    + split; [lia|apply db_ok_empty].
    + destruct (ok_dbs0 i d Hi). split; [lia|done].
  - intros q r i Hq Hr. eapply ok_file_inj0; by eapply Hl.
  - intros q r i Hq Hr. destruct (Hd _ _ Hq) as [[-> ->]|[Hq' Hi]], (Hd _ _ Hr) as [[-> ?]|[Hr' ?]];
      try lia; try done. by eapply ok_db_inj0.
  - intros m hh s i c Hq. eapply ok_hash0, Hl, Hq.
  - intros m d sha Hm Hsha. unfold bucket_db in Hm; cbn in Hm.
    destruct (<[db_path n:=NDb (next w)]> (tree w) !! db_path m) as [[|i|i]|] eqn:Hi; try done.
    destruct (Hd _ _ Hi) as [[_ ->]|[Hi' ?]].
    + rewrite lookup_insert_eq in Hm. simplify_eq. cbn in Hsha. by destruct Hsha.
    + rewrite lookup_insert_ne in Hm by lia.
      destruct (ok_stored0 m d sha) as [c Hc]; [by unfold bucket_db; rewrite Hi'|done|].
      exists c. unfold blob_content in *; cbn. by rewrite lookup_insert_ne.
  - intros q nd Hq. apply is_dir_insert; [done|].
    apply lookup_insert_Some in Hq as [[<- _]|[_ Hq]]; [done|]. by eapply ok_parent0.
  - intros m rest nd Hm Hq. apply lookup_insert_Some in Hq as [[E <-]|[_ Hq]]; [|by apply (ok_layout0 m)].
    unfold db_path in E. simplify_eq. constructor.
  - intros h b Hb. destruct (ok_handles0 h b Hb) as (? & ? & Hdb & Hopen).
    repeat split; try done; cbn; [lia| |by apply Hopen|].
    + destruct Hdb as (d & Hdb & ?). exists d. rewrite lookup_insert_ne; [done|]. intros E.
      rewrite <- E in Hdb. destruct (ok_dbs0 _ _ Hdb). lia.
    + rewrite lookup_insert_ne; [by apply Hopen|]. intros E. destruct (Hopen ltac:(done)) as [_ Ht].
      rewrite <- E in Ht. congruence.
  - intros q bw Hq. destruct (ok_writers0 q bw Hq) as (? & ? & ? & ? & ? & ? & (b & Hb & Htmp & Hin) & Hw1 & Hw2 & Hw3).
    repeat split; try done; cbn; try lia.
    + exists b. repeat split; [done..|]. intros. rewrite lookup_insert_ne by (by rewrite Htmp). by apply Hin.
    + intros r Hdone Hr. apply Hw1; [done|]. by apply Hl.
    + intros j Hj. by apply Hw2, Hl.
    + intros m k Hk. by apply (Hw3 m k), Hl.
Qed.

(** The tables of a database are replaced by good ones whose blobs are on
    disk. *)
Lemma world_ok_dbs i d' w :
  world_ok w → (∃ d, dbs w !! i = Some d ∧ (initialized d → initialized d')) → db_ok d' →
  (∀ n sha, tree w !! db_path n = Some (NDb i) → is_Some (blobs d' !! sha) →
     is_Some (blob_content w n sha)) →
  world_ok (set_dbs (insert i d') w).
Proof.
  intros Hok (d & Hi & Hinit) Hd' Hst. pose proof Hok as [[] []]. split; split; cbn; try done.
  - intros p j Hp. destruct (ok_db0 _ _ Hp). split; [done|].
    destruct (decide (j = i)) as [->|]; [by rewrite lookup_insert_eq|by rewrite lookup_insert_ne].
  - intros j e Hj. apply lookup_insert_Some in Hj as [[<- <-]|[? Hj]]; [|by apply ok_dbs0].
    split; [|done]. by eapply ok_dbs0.
  - intros n e sha He Hsha. unfold bucket_db in He; cbn in He.
    destruct (tree w !! db_path n) as [[| |j]|] eqn:Hj; try done.
    destruct (decide (j = i)) as [->|Hne].
    + rewrite lookup_insert_eq in He. simplify_eq. by apply Hst.
    + rewrite lookup_insert_ne in He by done. eapply ok_stored0; [|done]. unfold bucket_db. by rewrite Hj.
  - intros h b Hb. destruct (ok_handles0 h b Hb) as (? & ? & Hdb & Hopen).
    split_and!; try done; try exact Hopen; cbn. destruct Hdb as (e & He & Hei).
    destruct (decide (b_db b = i)) as [E|]; [|by exists e; rewrite lookup_insert_ne].
    assert (e = d) as -> by congruence. exists d'. rewrite E, lookup_insert_eq. split; [done|by apply Hinit].
Qed.

(** A finished upload becomes a blob file. *)
Lemma world_ok_rename n k i c w :
  world_ok w → tree w !! upload_path n k = Some (NFile i) → files w !! i = Some c →
  (∀ p bw, writers w !! p = Some bw → w_ino bw = i → w_done bw = true) →
  is_dir (tree w) (parent (blob_path n (sha_hex c))) = true →
  tree w !! blob_path n (sha_hex c) ≠ Some NDir →
  world_ok (set_tree (λ t, <[blob_path n (sha_hex c) := NFile i]> (delete (upload_path n k) t)) w).
Proof.
  intros Hok Hsrc Hc Hdone Hpar Hdst. pose proof Hok as [[] []].
  set (dst := blob_path n (sha_hex c)). set (src := upload_path n k).
  assert (∀ q nd, q ≠ dst → <[dst := NFile i]> (delete src (tree w)) !! q = Some nd →
    q ≠ src ∧ tree w !! q = Some nd) as Hl.
  { intros q nd Hq. rewrite lookup_insert_ne by done. intros [? ?]%lookup_delete_Some. done. }
  assert (∀ q, q ≠ dst → q ≠ src → <[dst := NFile i]> (delete src (tree w)) !! q = tree w !! q) as Hr.
  { intros q ? ?. by rewrite lookup_insert_ne, lookup_delete_ne. }
  assert (∀ q j, <[dst := NFile i]> (delete src (tree w)) !! q = Some (NFile j) →
    (q = dst ∧ j = i) ∨ (q ≠ dst ∧ q ≠ src ∧ tree w !! q = Some (NFile j) ∧ j ≠ i)) as Hf.
  { intros q j Hq. destruct (decide (q = dst)) as [->|Hne].
    - rewrite lookup_insert_eq in Hq. left. by simplify_eq.
    - destruct (Hl _ _ Hne Hq) as [Hs Ht]. right. repeat split; try done.
      intros ->. apply Hs. by eapply ok_file_inj0. }
  split; split; cbn; try done.
  - intros q j Hq. destruct (Hf _ _ Hq) as [[_ ->]|(_ & _ & Ht & _)]; [by eapply ok_file0|by eapply ok_file0].
  - intros q j Hq. destruct (decide (q = dst)) as [->|Hne]; [by rewrite lookup_insert_eq in Hq|].
    destruct (Hl _ _ Hne Hq) as [_ Ht]. by eapply ok_db0.
  - intros q r j Hq Hr'. destruct (Hf _ _ Hq) as [[-> ->]|(? & ? & ? & ?)],
      (Hf _ _ Hr') as [[-> ?]|(? & ? & ? & ?)]; try done. by eapply ok_file_inj0.
  - intros q r j Hq Hr'. destruct (decide (q = dst)) as [->|Hne]; [by rewrite lookup_insert_eq in Hq|].
    destruct (decide (r = dst)) as [->|Hne']; [by rewrite lookup_insert_eq in Hr'|].
    eapply ok_db_inj0; by eapply Hl.
  - intros m hh s j e Hq He. destruct (Hf _ _ Hq) as [[Heq ->]|(_ & _ & Ht & _)]; [|by eapply ok_hash0].
    unfold dst, blob_path in Heq. by simplify_eq.
  - intros m d sha Hm Hsha.
    assert (bucket_db w m = Some d) as Hm'.
    { unfold bucket_db in *; cbn in Hm. by rewrite Hr in Hm. }
    destruct (ok_stored0 m d sha Hm' Hsha) as [e He]. unfold blob_content in *; cbn.
    destruct (decide (blob_path m sha = dst)) as [->|Hne].
    + rewrite lookup_insert_eq. by exists c.
    + rewrite Hr by done. by exists e.
  - assert (∀ q, is_dir (tree w) q = true → is_dir (<[dst:=NFile i]> (delete src (tree w))) q = true) as Hdir.
    { intros [|x q]; [done|]. unfold is_dir. rewrite !bool_decide_eq_true. intros Hq.
      rewrite Hr; [done|..]; intros E; rewrite E in Hq; unfold dst, src in *; congruence. }
    intros q nd Hq. apply Hdir. destruct (decide (q = dst)) as [->|Hne]; [done|].
    destruct (Hl _ _ Hne Hq) as [_ Ht]. by eapply ok_parent0.
  - intros m rest nd Hm Hq. destruct (decide (m :: rest = dst)) as [E|Hne].
    + rewrite E, lookup_insert_eq in Hq. unfold dst, blob_path in E. simplify_eq. constructor.
    + destruct (Hl _ _ Hne Hq) as [_ Ht]. by apply (ok_layout0 m).
  - intros h b Hb. destruct (ok_handles0 h b Hb) as (? & ? & ? & Hopen).
    repeat split; try done; cbn; [by apply Hopen|]. rewrite Hr by done. by apply Hopen.
  - intros q bw Hq. destruct (ok_writers0 q bw Hq) as (? & ? & ? & ? & ? & ? & (b & Hb & Htmp & Hin) & Hw1 & Hw2 & Hw3).
    repeat split; try done; cbn.
    + exists b. repeat split; [done..|]. intros Ho Hnd. rewrite Hr; [by apply Hin|by rewrite Htmp|].
      intros E. pose proof (Hin Ho Hnd) as Ht. rewrite E in Ht. unfold src in Ht. simplify_eq.
      rewrite (Hdone _ _ Hq) in Hnd; done.
    + intros r Hnd Hr'. destruct (Hf _ _ Hr') as [[_ Hi]|(_ & _ & Ht & _)]; [|by apply Hw1].
      rewrite (Hdone _ _ Hq Hi) in Hnd. done.
    + intros j Hj. destruct (Hf _ _ Hj) as [[E _]|(_ & _ & Ht & _)]; [|by apply Hw2].
      by rewrite Htmp in E.
    + intros m l Hl'. destruct (Hf _ _ Hl') as [[E _]|(_ & _ & Ht & _)]; [done|]. by apply (Hw3 m l).
Qed.

(** ** Elementary changes of the process's memory *)

(** Bytes reach a live writer's file and its hashes. *)
Lemma world_ok_write p bw q w :
  world_ok w → writers w !! p = Some bw → w_done bw = false →
  world_ok (set_writers (alter (feed q) p) (set_files (alter (λ c, c ++ q) (w_ino bw)) w)).
Proof.
  intros Hok Hp Hnd. pose proof Hok as [[] []].
  destruct (ok_writers0 _ _ Hp) as (_ & _ & Hmd & Hcrc & Hsz & Hfile & (b & _ & Htmp & _) & Honly & _).
  assert (∀ r, tree w !! r = Some (NFile (w_ino bw)) → ∃ n k, r = upload_path n k) as Hup.
  { intros r Hr. rewrite (Honly _ Hnd Hr), Htmp. eauto. }
  assert (∀ i, is_Some (files w !! i) → is_Some (alter (λ c, c ++ q) (w_ino bw) (files w) !! i)) as Hsome.
  { intros i [c Hc]. destruct (decide (i = w_ino bw)) as [->|]; [rewrite lookup_alter_eq|rewrite lookup_alter_ne];
      rewrite ?Hc; by eexists || done. }
  split; split; cbn; try done.
  - intros r i Hr. destruct (ok_file0 _ _ Hr). auto.
  - intros n hh s i c Hr Hc. rewrite lookup_alter_ne in Hc; [by eapply ok_hash0|].
    intros <-. by destruct (Hup _ Hr) as (? & ? & ?).
  - intros n d sha Hd Hsha. destruct (ok_stored0 n d sha Hd Hsha) as [c Hc].
    unfold blob_content in *; cbn. destruct (tree w !! blob_path n sha) as [[|i|]|]; try done.
    apply Hsome. by eexists.
  - intros r bw' Hr. apply lookup_alter_Some in Hr as [(<- & bw0 & Hr & ->)|[Hne Hr]].
    + simplify_eq. destruct (ok_writers0 _ _ Hp) as (? & ? & ? & ? & ? & ? & ? & ? & ? & ?).
      repeat split; cbn; try done; try congruence.
      * rewrite Hsz, int64_add_l, length_app. f_equal. lia.
      * rewrite lookup_alter_eq, Hfile. done.
    + destruct (ok_writers0 _ _ Hr) as (? & ? & ? & ? & ? & ? & ? & ? & ? & ?).
      repeat split; cbn; try done.
      rewrite lookup_alter_ne; [done|]. intros E. apply Hne. by eapply ok_writers_inj0.
  - intros r r' bw1 bw2 H1 H2 E.
    assert (∀ x y, alter (feed q) p (writers w) !! x = Some y → ∃ z, writers w !! x = Some z ∧ w_ino z = w_ino y) as Hz.
    { intros x y Hx. apply lookup_alter_Some in Hx as [(<- & z & Hz & ->)|[_ Hx]]; [|by eauto].
      exists z. split; [done|]. done. }
    destruct (Hz _ _ H1) as (z1 & ? & ?), (Hz _ _ H2) as (z2 & ? & ?).
    eapply ok_writers_inj0; [done..|congruence].
Qed.

(** A writer is marked done. *)
Lemma world_ok_done p w : world_ok w → world_ok (set_writers (alter set_done p) w).
Proof.
  intros Hok. pose proof Hok as [[] []]. split; split; cbn; try done.
  - intros r bw' Hr. apply lookup_alter_Some in Hr as [(<- & bw0 & Hr & ->)|[Hne Hr]]; [|by apply ok_writers0].
    destruct (ok_writers0 _ _ Hr) as (? & ? & ? & ? & ? & ? & (b & ? & ? & ?) & ? & ? & ?).
    repeat split; cbn; try done. by exists b.
  - intros r r' bw1 bw2 H1 H2 E.
    assert (∀ x y, alter set_done p (writers w) !! x = Some y → ∃ z, writers w !! x = Some z ∧ w_ino z = w_ino y) as Hz.
    { intros x y Hx. apply lookup_alter_Some in Hx as [(<- & z & Hz & ->)|[_ Hx]]; [|by eauto].
      exists z. split; [done|]. done. }
    destruct (Hz _ _ H1) as (z1 & ? & ?), (Hz _ _ H2) as (z2 & ? & ?).
    eapply ok_writers_inj0; [done..|congruence].
Qed.

(** A writer is allocated on a fresh file. *)
Lemma world_ok_new_writer p i h b w :
  world_ok w → p < next w → i < next w →
  files w !! i = Some [] → handles w !! h = Some b →
  tree w !! upload_path (b_name b) i = Some (NFile i) →
  writers w !! p = None →
  (∀ q bw, writers w !! q = Some bw → w_ino bw ≠ i) →
  world_ok (set_writers (insert p (mkBlobWriter h (upload_path (b_name b) i) i [] [] [] 0 false)) w).
Proof.
  intros Hok Hp Hi Hf Hb Ht Hn Hfresh. pose proof Hok as [[] []]. split; split; cbn; try done.
  - intros q bw Hq. apply lookup_insert_Some in Hq as [[<- <-]|[? Hq]]; [|by apply ok_writers0].
    repeat split; cbn; try done.
    + by exists b.
    + intros r _ Hr. by eapply ok_file_inj0.
    + intros j Hj. congruence.
    + intros n k Hk. assert (part_path n k = upload_path (b_name b) i) as E by by eapply ok_file_inj0.
      by destruct (part_not_upload _ _ _ _ E).
  - intros q r bw1 bw2 Hq Hr E.
    apply lookup_insert_Some in Hq as [[<- <-]|[? Hq]], Hr as [[<- <-]|[? Hr]]; cbn in *;
      [done|..].
    + by destruct (Hfresh _ _ Hr).
    + by destruct (Hfresh _ _ Hq).
    + by eapply ok_writers_inj0.
Qed.

(** A bucket is opened and registered. *)
Lemma world_ok_register n i d w :
  world_ok w → validBucketName n = true → buckets w !! n = None →
  tree w !! db_path n = Some (NDb i) → dbs w !! i = Some d → initialized d →
  world_ok (set_buckets (insert n (next w))
    (set_handles (insert (next w) (mkBucket n [n] i true)) (set_next (S (next w)) w))).
Proof.
  intros Hok Hn Hnone Hdb Hd Hinit. pose proof Hok as [[] []].
  assert (∀ h b, handles w !! h = Some b → h < next w) as Hlt.
  { intros h b Hb. by destruct (ok_handles0 _ _ Hb) as (_ & ? & _). }
  split; split; cbn; try done.
  - intros p j Hp. destruct (ok_file0 _ _ Hp). split; [lia|done].
  - intros p j Hp. destruct (ok_db0 _ _ Hp). split; [lia|done].
  - intros j e Hj. destruct (ok_dbs0 _ _ Hj). split; [lia|done].
  - intros h b Hb. apply lookup_insert_Some in Hb as [[<- <-]|[Hne Hb]].
    + repeat split; cbn; try done; [lia|by eauto|]. by rewrite lookup_insert_eq.
    + destruct (ok_handles0 _ _ Hb) as (? & ? & ? & Hopen). repeat split; cbn; try done; [lia|..].
      * rewrite lookup_insert_ne; [by apply Hopen|]. intros ->. destruct (Hopen ltac:(done)). congruence.
      * by apply Hopen.
  - intros m h Hm. apply lookup_insert_Some in Hm as [[<- <-]|[Hne Hm]].
    + exists (mkBucket n [n] i true). by rewrite lookup_insert_eq.
    + destruct (ok_buckets0 _ _ Hm) as (b & Hb & ?). exists b.
      rewrite lookup_insert_ne; [done|]. pose proof (Hlt _ _ Hb). lia.
  - intros p bw Hp. destruct (ok_writers0 _ _ Hp) as (? & ? & ? & ? & ? & ? & (b & Hb & ? & ?) & ? & ? & ?).
    repeat split; cbn; try done; [lia..|]. exists b.
    rewrite lookup_insert_ne; [done|]. pose proof (Hlt _ _ Hb). lia.
  - intros h b Hb. apply lookup_insert_Some in Hb as [[<- <-]|[_ Hb]]; [done|by eapply ok_names0].
Qed.

(** A bucket is closed and forgotten. *)
Lemma world_ok_unregister n h w :
  world_ok w → buckets w !! n = Some h → world_ok (close_handle h (set_buckets (delete n) w)).
Proof.
  intros Hok Hn. pose proof Hok as [[] []].
  destruct (ok_buckets0 _ _ Hn) as (b & Hb & Hbn & Hbo & _).
  split; split; cbn; try done.
  - intros h' b' Hb'. apply lookup_alter_Some in Hb' as [(<- & b0 & Hb0 & ->)|[Hne Hb']].
    + destruct (ok_handles0 _ _ Hb0) as (? & ? & ? & ?). by repeat split.
    + destruct (ok_handles0 _ _ Hb') as (? & ? & ? & Hopen). repeat split; cbn; try done; [|by apply Hopen].
      destruct (Hopen ltac:(done)). rewrite lookup_delete_ne; [done|]. intros E. congruence.
  - intros m h' Hm. apply lookup_delete_Some in Hm as [Hne Hm].
    destruct (ok_buckets0 _ _ Hm) as (b' & Hb' & E & ?). exists b'. split; [|done].
    rewrite lookup_alter_ne; [done|]. intros ->. congruence.
  - intros p bw Hp. destruct (ok_writers0 _ _ Hp) as (? & ? & ? & ? & ? & ? & (b' & Hb' & ? & Hin) & ? & ? & ?).
    repeat split; cbn; try done.
    destruct (decide (w_b bw = h)) as [E|].
    + rewrite E, lookup_alter_eq. rewrite E, Hb in Hb'. simplify_eq. rewrite Hb. cbn. eexists.
      split; [done|]. cbn. done.
    + exists b'. rewrite lookup_alter_ne by done. done.
  - intros h' b' Hb'. apply lookup_alter_Some in Hb' as [(<- & b0 & Hb0 & ->)|[_ Hb']];
      [by apply (ok_names0 _ _ Hb0)|by eapply ok_names0].
Qed.

(** The process dies; the disk stays. *)
Definition died (w : world) : world :=
  set_handles (λ _, ∅) (set_buckets (λ _, ∅) (set_writers (λ _, ∅) w)).

Lemma world_ok_died w : disk_ok w → world_ok (died w).
Proof.
  intros []. split; split; cbn; try done.
Qed.
