(* ===== verification/Triple.v ===== *)
(** A Hoare logic for the store's operations: a triple says how the world may
    look when a call returns, fails, or is cut short by the death of the
    process, and that it neither panics nor diverges. *)

From S2P Require Import Prelude Errors GoMonad GoStd Types Names Hash Database World Bucket Store BlobWriter StoreInv.
From stdpp Require Import options.

(** [Q] on a value, [E] on an error, [C] on the death of the process. *)
Definition post {A} (Q : A → world → Prop) (E : error → world → Prop) (C : world → Prop)
    (o : outcome A) (w : world) : Prop :=
  match o with
  | Ret a => Q a w
  | Err e => E e w
  | Crash => C w
  | Panic _ | Diverge => False
  end.

Definition triple {A} (w : world) (m : M world A)
    (Q : A → world → Prop) (E : error → world → Prop) (C : world → Prop) : Prop :=
  wp m (post Q E C) w.

(** The environment may still make calls fail, or kill the process. *)
Definition failing (w : world) : Prop := faults w ≠ [].

(** It does not start to. *)
Definition calm (w w' : world) : Prop := faults w = [] → faults w' = [].

Lemma calm_refl w : calm w w.
Proof. by unfold calm. Qed.
Lemma calm_trans w1 w2 w3 : calm w1 w2 → calm w2 w3 → calm w1 w3.
Proof. unfold calm. auto. Qed.
Lemma calm_failing w w' : calm w w' → failing w' → failing w.
Proof. unfold calm, failing. auto. Qed.

(** [w'] is [w] after some external calls without effect. *)
Definition quiet (w w' : world) : Prop := ∃ fs, (faults w = [] → fs = []) ∧ w' = set_faults fs w.

Lemma quiet_refl w : quiet w w.
Proof. exists (faults w). split; [done|]. by destruct w. Qed.
Lemma quiet_trans w1 w2 w3 : quiet w1 w2 → quiet w2 w3 → quiet w1 w3.
Proof. intros (fs & H & ->) (fs' & H' & ->). exists fs'. cbn in *. auto. Qed.
Lemma quiet_ok w w' : quiet w w' → world_ok w → world_ok w'.
Proof. intros (fs & _ & ->). apply world_ok_faults. Qed.
Lemma quiet_calm w w' : quiet w w' → calm w w'.
Proof. intros (fs & H & ->). exact H. Qed.
Create HintDb quiet.
#[export] Hint Resolve calm_refl calm_trans calm_failing quiet_refl quiet_trans quiet_ok quiet_calm : quiet.

Section rules.
Context {A B : Type}.
Implicit Types (Q : A → world → Prop) (E : error → world → Prop) (C : world → Prop).

Lemma triple_mono w (m : M world A) Q Q' E E' C C' :
  triple w m Q E C → (∀ a w', Q a w' → Q' a w') → (∀ e w', E e w' → E' e w') →
  (∀ w', C w' → C' w') → triple w m Q' E' C'.
Proof.
  intros Hm HQ HE HC. eapply wp_mono; [exact Hm|]. intros [] w'; cbn; auto.
Qed.

Lemma triple_conseq w (m : M world A) Q E E' C C' :
  (∀ e w', E e w' → E' e w') → (∀ w', C w' → C' w') → triple w m Q E C → triple w m Q E' C'.
Proof. intros ? ? Hm. eapply triple_mono; [exact Hm|auto..]. Qed.

Lemma triple_ret w (a : A) Q E C : Q a w → triple w (ret a) Q E C.
Proof. done. Qed.

Lemma triple_throw w e Q E C : E e w → triple w (throw e) Q E C.
Proof. done. Qed.

Lemma triple_bind w (m : M world B) (f : B → M world A) Q (Q1 : B → world → Prop) E C :
  triple w m Q1 E C → (∀ b w', Q1 b w' → triple w' (f b) Q E C) →
  triple w (bind m f) Q E C.
Proof.
  intros Hm Hf. apply wp_bind. eapply wp_mono; [exact Hm|].
  intros [] w'; cbn; try done. apply Hf.
Qed.

(** The same with the rest of the computation as the postcondition. *)
Lemma triple_seq w (m : M world B) (f : B → M world A) Q E C :
  triple w m (λ b w', triple w' (f b) Q E C) E C → triple w (bind m f) Q E C.
Proof. intros Hm. eapply triple_bind; [exact Hm|auto]. Qed.

Lemma triple_try w (m : M world A) (Q : error + A → world → Prop) E C :
  triple w m (λ a, Q (inr a)) (λ e, Q (inl e)) C → triple w (try m) Q E C.
Proof.
  intros Hm. apply wp_try. eapply wp_mono; [exact Hm|]. by intros [] w'.
Qed.

Lemma triple_ignore w (m : M world A) (Q : unit → world → Prop) E C :
  triple w m (λ _, Q tt) (λ _, Q tt) C → triple w (ignore m) Q E C.
Proof.
  intros Hm. apply wp_ignore. eapply wp_mono; [exact Hm|]. by intros [] w'.
Qed.

(** A deferred call runs on both ways out. *)
Lemma triple_defer w (c : M world unit) (m : M world A) Q1 E1 Q E C :
  triple w m Q1 E1 C →
  (∀ a w', Q1 a w' → triple w' (ignore c) (λ _, Q a) (λ _ _, False) C) →
  (∀ e w', E1 e w' → triple w' (ignore c) (λ _, E e) (λ _ _, False) C) →
  triple w (defer c m) Q E C.
Proof.
  intros Hm HQ HE. apply wp_defer. eapply wp_mono; [exact Hm|].
  intros [a|e|x| |] w'; cbn; try done; intros H;
    [specialize (HQ _ _ H)|specialize (HE _ _ H)];
    (eapply wp_mono; [eassumption|]); by intros [] w''.
Qed.

Lemma triple_deferred w (c : M world unit) (m : M world A) Q E C :
  triple w m (λ a w', triple w' (ignore c) (λ _, Q a) (λ _ _, False) C)
    (λ e w', triple w' (ignore c) (λ _, E e) (λ _ _, False) C) C →
  triple w (defer c m) Q E C.
Proof. intros Hm. eapply triple_defer; [exact Hm|auto..]. Qed.

Lemma triple_gets w (f : world → A) Q E C : Q (f w) w → triple w (gets f) Q E C.
Proof. done. Qed.

Lemma triple_get w (f : world → M world A) Q E C :
  triple w (f w) Q E C → triple w (bind get f) Q E C.
Proof. done. Qed.

Lemma triple_modify w (g : world → world) (Q : unit → world → Prop) E C :
  Q tt (g w) → triple w (modify g) Q E C.
Proof. done. Qed.

(** An external call: it may do its work, fail or kill the process. *)
Lemma triple_external w e part (step : M world A) Q E C :
  (∀ w', quiet w w' → triple w' step Q E C) →
  (∀ w' n keep, quiet w w' → failing w → E e (part n keep w')) →
  (∀ w' n keep, quiet w w' → failing w → C (part n keep w')) →
  triple w (external e part step) Q E C.
Proof.
  intros Hs HE HC. apply wp_external.
  - intros fs Hfs. apply Hs. by exists fs.
  - intros fs n keep Hf. apply HE; [|done]. by exists fs.
  - intros fs n keep Hf. apply HC; [|done]. by exists fs.
Qed.
End rules.

Lemma triple_call {A} w e (step : M world A) Q E C :
  (∀ w', quiet w w' → triple w' step Q E C) →
  (∀ w', quiet w w' → failing w → E e w') → (∀ w', quiet w w' → failing w → C w') →
  triple w (external e nothing step) Q E C.
Proof. intros ? HE HC. apply triple_external; [done|intros; by apply HE|intros; by apply HC]. Qed.

(** ** The primitive operations

    An error of a primitive comes from the environment or has the reason named
    in its rule. *)

Lemma triple_load_bucket w h b Q E C :
  handles w !! h = Some b → Q b w → triple w (load_bucket h) Q E C.
Proof. intros Hb HQ. unfold triple, wp, load_bucket. by rewrite Hb. Qed.

Lemma triple_load_writer w p bw Q E C :
  writers w !! p = Some bw → Q bw w → triple w (load_writer p) Q E C.
Proof. intros Hb HQ. unfold triple, wp, load_writer. by rewrite Hb. Qed.

Lemma triple_fresh w (Q : nat → world → Prop) E C :
  Q (next w) (set_next (S (next w)) w) → triple w fresh Q E C.
Proof. done. Qed.

Lemma triple_time_Now w (Q : Time → world → Prop) E C : Q (now w) w → triple w time_Now Q E C.
Proof. done. Qed.

(** Run the body of a primitive after [triple_call]. *)
Ltac prim_body :=
  apply triple_call; [|auto..]; intros w' Hq; pose proof Hq as (fs & Hfs & ->);
  unfold triple, wp; cbn.

(** Calls that only look. *)
Lemma triple_os_Stat w p Q E C :
  (∀ w' nd, quiet w w' → tree w !! p = Some nd → Q nd w') →
  (∀ e w', quiet w w' → failing w ∨ e = SysErr ENOENT ∧ tree w !! p = None → E e w') →
  (∀ w', quiet w w' → failing w → C w') →
  triple w (os_Stat p) Q E C.
Proof.
  intros HQ HE HC. prim_body. destruct (tree w !! p) eqn:E'; cbn; [by apply HQ|apply HE; auto].
Qed.

Lemma triple_db_Query {A} w h (q : database → A) Q E C :
  (∀ w' d, quiet w w' → handle_db h w = Some d → Q (q d) w') →
  (∀ e w', quiet w w' → failing w ∨ e = ErrDbClosed ∧ handle_db h w = None → E e w') →
  (∀ w', quiet w w' → failing w → C w') →
  triple w (db_Query h q) Q E C.
Proof.
  intros HQ HE HC. prim_body. change (handle_db h (set_faults fs w)) with (handle_db h w).
  destruct (handle_db h w) eqn:E'; cbn; [by apply HQ|apply HE; auto].
Qed.

Lemma triple_tx_Exec w stmt tx Q E C :
  (∀ w', quiet w w' → Q (stmt tx) w') →
  (∀ e w', quiet w w' → failing w → E e w') → (∀ w', quiet w w' → failing w → C w') →
  triple w (tx_Exec stmt tx) Q E C.
Proof. intros HQ HE HC. apply triple_call; [|auto..]. intros w' Hw. by apply HQ. Qed.

Lemma triple_tx_QueryRow {A} w (q : database → A) tx Q E C :
  (∀ w', quiet w w' → Q (q tx) w') →
  (∀ w', quiet w w' → failing w → E sql_error w') → (∀ w', quiet w w' → failing w → C w') →
  triple w (tx_QueryRow q tx) Q E C.
Proof. intros HQ HE HC. apply triple_call; [|auto..]. intros w' Hw. by apply HQ. Qed.

Lemma triple_ret_call {A} w e (a : A) Q E C :
  (∀ w', quiet w w' → Q a w') →
  (∀ w', quiet w w' → failing w → E e w') → (∀ w', quiet w w' → failing w → C w') →
  triple w (external e nothing (ret a)) Q E C.
Proof. intros HQ HE HC. apply triple_call; [|auto..]. intros w' Hw. by apply HQ. Qed.

(** Calls that change the directory tree. *)
Lemma triple_os_Mkdir w p Q E C :
  (∀ w', quiet w w' → tree w !! p = None → is_dir (tree w) (parent p) = true →
     Q tt (set_tree (insert p NDir) w')) →
  (∀ e w', quiet w w' →
     failing w ∨ e = SysErr EEXIST ∧ is_Some (tree w !! p) ∨
     e = SysErr ENOENT ∧ tree w !! p = None ∧ is_dir (tree w) (parent p) = false → E e w') →
  (∀ w', quiet w w' → failing w → C w') →
  triple w (os_Mkdir p) Q E C.
Proof.
  intros HQ HE HC. prim_body.
  destruct (tree w !! p) eqn:E1; cbn; [apply HE; eauto|].
  destruct (is_dir (tree w) (parent p)) eqn:E2; cbn; [|apply HE; auto].
  by apply (HQ (set_faults fs w)).
Qed.

Lemma triple_os_CreateTemp w dir prefix Q E C :
  (∀ w', quiet w w' → is_dir (tree w) dir = true → tree w !! temp_path dir prefix (next w) = None →
     Q (temp_path dir prefix (next w), next w)
       (set_next (S (next w)) (set_files (insert (next w) [])
          (set_tree (insert (temp_path dir prefix (next w)) (NFile (next w))) w')))) →
  (∀ e w', quiet w w' →
     failing w ∨ is_dir (tree w) dir = false ∨ is_Some (tree w !! temp_path dir prefix (next w)) →
     E e w') →
  (∀ w', quiet w w' → failing w → C w') →
  triple w (os_CreateTemp dir prefix) Q E C.
Proof.
  intros HQ HE HC. prim_body.
  destruct (is_dir (tree w) dir) eqn:E1; cbn; [|apply HE; auto].
  destruct (tree w !! temp_path dir prefix (next w)) eqn:E2; cbn; [apply HE; eauto|].
  by apply (HQ (set_faults fs w)).
Qed.

Lemma triple_os_Rename w src dst Q E C :
  (∀ w' i, quiet w w' → tree w !! src = Some (NFile i) → is_dir (tree w) (parent dst) = true →
     tree w !! dst ≠ Some NDir →
     Q tt (set_tree (λ t, <[dst := NFile i]> (delete src t)) w')) →
  (∀ e w', quiet w w' →
     failing w ∨ (∀ i, tree w !! src ≠ Some (NFile i)) ∨ is_dir (tree w) (parent dst) = false ∨
     tree w !! dst = Some NDir → E e w') →
  (∀ w', quiet w w' → failing w → C w') →
  triple w (os_Rename src dst) Q E C.
Proof.
  intros HQ HE HC. prim_body.
  destruct (tree w !! src) as [[|i|]|] eqn:E1; cbn; try (by apply HE; auto).
  destruct (is_dir (tree w) (parent dst)) eqn:E2; cbn; [|apply HE; auto].
  destruct (tree w !! dst) as [[|j|j]|] eqn:E3; cbn; try (by apply HE; auto);
    by apply (HQ (set_faults fs w)).
Qed.

Lemma triple_os_Remove w p Q E C :
  (∀ w' nd, quiet w w' → tree w !! p = Some nd → nd ≠ NDir → Q tt (set_tree (delete p) w')) →
  (∀ e w', quiet w w' → failing w ∨ tree w !! p = None ∨ tree w !! p = Some NDir → E e w') →
  (∀ w', quiet w w' → failing w → C w') →
  triple w (os_Remove p) Q E C.
Proof.
  intros HQ HE HC. prim_body.
  destruct (tree w !! p) as [[|i|i]|] eqn:E1; cbn; try (by apply HE; auto);
    by eapply (HQ (set_faults fs w)).
Qed.

Lemma triple_os_RemoveAll w p (Q : unit → world → Prop) E C :
  (∀ w', quiet w w' → Q tt (set_tree (remove_below p []) w')) →
  (∀ e w' keep, quiet w w' → failing w → E e (set_tree (remove_below p keep) w')) →
  (∀ w' keep, quiet w w' → failing w → C (set_tree (remove_below p keep) w')) →
  triple w (os_RemoveAll p) Q E C.
Proof. intros HQ HE HC. apply triple_external; [|auto..]. intros w' Hw. by apply HQ. Qed.

Lemma triple_tx_Commit w h tx Q E C :
  (∀ w' b, quiet w w' → handles w !! h = Some b → b_open b = true →
     Q tt (set_dbs (insert (b_db b) tx) w')) →
  (∀ e w', quiet w w' →
     failing w ∨ e = ErrDbClosed ∧ (∀ b, handles w !! h = Some b → b_open b = false) → E e w') →
  (∀ w', quiet w w' → failing w → C w') →
  triple w (tx_Commit h tx) Q E C.
Proof.
  intros HQ HE HC. prim_body.
  destruct (handles w !! h) as [b|] eqn:E1; cbn;
    [|apply HE; [done|]; right; split; [done|congruence]].
  destruct (b_open b) eqn:E2; cbn; [|apply HE; [done|]; right; split; [done|congruence]].
  by eapply (HQ (set_faults fs w)).
Qed.

Lemma triple_db_Close w h (Q : unit → world → Prop) E C :
  (∀ w', quiet w w' → Q tt (close_handle h w')) →
  (∀ e w', quiet w w' → failing w → E e (close_handle h w')) →
  (∀ w', quiet w w' → failing w → C (close_handle h w')) →
  triple w (db_Close h) Q E C.
Proof. intros HQ HE HC. apply triple_external; [|auto..]. intros w' Hw. by apply HQ. Qed.

Lemma triple_os_Open w p Q E C :
  (∀ w' i, quiet w w' → tree w !! p = Some (NFile i) → Q i w') →
  (∀ e w', quiet w w' → failing w ∨ (∀ i, tree w !! p ≠ Some (NFile i)) → E e w') →
  (∀ w', quiet w w' → failing w → C w') →
  triple w (os_Open p) Q E C.
Proof.
  intros HQ HE HC. prim_body.
  destruct (tree w !! p) as [[|i|i]|] eqn:E1; cbn; try (by apply HE; auto). by apply HQ.
Qed.

Lemma triple_file_Write w i p Q E C :
  (∀ w', quiet w w' → Q (length p, None) (set_files (alter (λ c, c ++ p) i) w')) →
  (∀ w' n, quiet w w' → failing w →
     Q (length (take n p), Some (SysErr EIO)) (set_files (alter (λ c, c ++ take n p) i) w')) →
  (∀ w' n, quiet w w' → failing w → C (set_files (alter (λ c, c ++ take n p) i) w')) →
  triple w (file_Write i p) Q E C.
Proof.
  intros HQ HE HC. unfold triple, wp, file_Write.
  assert (∀ v fs, faults w = v :: fs → quiet w (set_faults fs w) ∧ failing w) as Hq.
  { intros v fs Hf. unfold failing. rewrite Hf. split; [|done]. exists fs. split; [by intros ?; simplify_eq; congruence|done]. }
  destruct (faults w) as [|[|n keep|n keep] fs] eqn:Hf; cbn;
    [apply (HQ w), quiet_refl|destruct (Hq _ _ eq_refl)..].
  - by apply (HQ (set_faults fs w)).
  - by apply (HE (set_faults fs w)).
  - by apply (HC (set_faults fs w)).
Qed.

(** One step of the symbolic execution of a triple; the rules of the primitive
    operations are applied by hand. *)
Ltac tstep :=
  lazymatch goal with
  | |- triple _ (bind get _) _ _ _ => apply triple_get
  | |- triple _ (bind _ _) _ _ _ => apply triple_seq
  | |- triple _ (ret _) _ _ _ => apply triple_ret
  | |- triple _ (throw _) _ _ _ => apply triple_throw
  | |- triple _ (try _) _ _ _ => apply triple_try
  | |- triple _ (ignore _) _ _ _ => apply triple_ignore
  | |- triple _ (gets _) _ _ _ => apply triple_gets
  | |- triple _ (modify _) _ _ _ => apply triple_modify
  | |- triple _ (defer _ _) _ _ _ => apply triple_deferred
  | |- triple _ fresh _ _ _ => apply triple_fresh
  | |- triple _ time_Now _ _ _ => apply triple_time_Now
  end; cbn beta iota.
Ltac tsteps := cbn beta iota; repeat tstep.

(** The cases in which the environment fails the call. *)
Ltac tfault := intros; tsteps; solve [eauto with quiet].

(** ** Framing: the calls that leave a part of the world alone, such as the heap of
    writers *)

Lemma triple_frame {A} (I : world → Prop) w (m : M world A) Q E C :
  preserves I m → I w → triple w m Q E C →
  triple w m (λ a w', Q a w' ∧ I w') (λ e w', E e w' ∧ I w') (λ w', C w' ∧ I w').
Proof.
  intros HI Hw Hm. pose proof (wp_conj _ _ _ _ Hm (HI _ Hw)) as H.
  eapply wp_mono; [exact H|]. intros [] w'; cbn; naive_solver.
Qed.

Definition looks {V} (view : world → V) (W : V) (w : world) : Prop := view w = W.
Abbreviation writers_are := (looks writers).

Section writers_frame.
Context {V : Type} (view : world → V) (W : V).
Abbreviation pres m := (preserves (looks view W) m).

Lemma pres_external {A} e part (step : M world A) :
  (∀ fs w, view (set_faults fs w) = view w) → (∀ n keep w, view (part n keep w) = view w) →
  pres step → pres (external e part step).
Proof.
  intros Hfs Hp Hs w Hw. apply wp_external; intros; [apply Hs|..]; unfold looks; by rewrite ?Hp, Hfs.
Qed.
Lemma pres_call {A} e (step : M world A) :
  (∀ fs w, view (set_faults fs w) = view w) → pres step → pres (external e nothing step).
Proof. intros Hfs. by apply pres_external. Qed.
(** A step that is a function of the world. *)
Lemma pres_pure {A} (f : world → outcome A * world) :
  (∀ w, view (f w).2 = view w) → pres f.
Proof. intros Hf w Hw. unfold wp, looks. by rewrite Hf. Qed.
Lemma pres_get {A} (f : world → M world A) : (∀ w, looks view W w → pres (f w)) → pres (bind get f).
Proof. intros Hf w Hw. by apply (Hf w Hw w). Qed.
End writers_frame.

(** Proves that a call leaves the part alone, from its text. *)
Ltac writers_step :=
  first
    [ assumption
    | lazymatch goal with
      | |- preserves _ (bind get _) => apply pres_get; intros
      | |- preserves _ (bind _ _) => apply preserves_bind; [|intros]
      | |- preserves _ (try _) => apply preserves_try
      | |- preserves _ (ignore _) => apply preserves_ignore
      | |- preserves _ (defer _ _) => apply preserves_defer
      | |- preserves _ (ret _) => apply preserves_ret
      | |- preserves _ (throw _) => apply preserves_throw
      | |- preserves _ (gets _) => apply preserves_gets
      | |- preserves _ (external _ nothing _) => apply pres_call; [done|]
      | |- preserves _ (external _ _ _) => apply pres_external; [done|done|]
      | |- preserves _ (modify _) => apply pres_pure; done
      | |- preserves _ (match ?x with _ => _ end) => destruct x
      | |- preserves _ (λ w, _) =>
          apply pres_pure; intros; cbn; repeat (case_match; cbn); done
      end ].

(** ** Calls of a server on its store *)
Section servers.
Context {T : Type} (store : T → world) (set_store : world → T → T).
Implicit Types s : T.

Lemma wp_call {A} (m : M world A) Q E C s (Φ : outcome A → T → Prop) :
  triple (store s) m Q E C →
  (∀ o w', post Q E C o w' → Φ o (set_store w' s)) → wp (zoom store set_store m) Φ s.
Proof. intros Hm HΦ. apply wp_zoom. eapply wp_mono; [exact Hm|]. auto. Qed.

Lemma wp_bind_call {A B} (m : M world A) (f : A → M T B) Q E C s (Φ : outcome B → T → Prop) :
  triple (store s) m Q E C → (∀ a w', Q a w' → wp (f a) Φ (set_store w' s)) →
  (∀ e w', E e w' → Φ (Err e) (set_store w' s)) → (∀ w', C w' → Φ Crash (set_store w' s)) →
  wp (bind (zoom store set_store m) f) Φ s.
Proof. intros Hm HQ HE HC. apply wp_bind. eapply wp_call; [exact Hm|]. intros [] w'; cbn; try done; auto. Qed.

Lemma wp_bind_try_call {A B} (m : M world A) (f : error + A → M T B) Q E C s (Φ : outcome B → T → Prop) :
  triple (store s) m Q E C → (∀ a w', Q a w' → wp (f (inr a)) Φ (set_store w' s)) →
  (∀ e w', E e w' → wp (f (inl e)) Φ (set_store w' s)) → (∀ w', C w' → Φ Crash (set_store w' s)) →
  wp (bind (try (zoom store set_store m)) f) Φ s.
Proof. intros Hm HQ HE HC. apply wp_bind, wp_try. eapply wp_call; [exact Hm|]. intros [] w'; cbn; try done; auto. Qed.
End servers.
