(* ===== verification/StoreSafe.v ===== *)
(** What the triples of the store's operations say about the worlds around a
    call, and the triples of the operations that open buckets. *)

From S2P Require Import Prelude Errors GoMonad GoStd Types Names Hash Database World Bucket Store BlobWriter StoreInv Triple.
From stdpp Require Import options.

(** ** Relations between the worlds around a call *)

(** The objects of bucket [n] on disk. *)
Definition tables (w : world) (n : string) : option (gmap string objectRow) :=
  if validBucketName n then objects <$> bucket_db w n else None.

Definition same_tables (w w' : world) : Prop := ∀ n, tables w' n = tables w n.

(** A file of [TempFile], with its content. *)
Definition part_at (w : world) (p : path) (i : nat) (c : bytes) : Prop :=
  tree w !! p = Some (NFile i) ∧ files w !! i = Some c.

Definition entries_kept (w w' : world) : Prop :=
  (∀ p, tree w !! p = Some NDir → tree w' !! p = Some NDir) ∧
  (∀ n k i c, part_at w (part_path n k) i c → part_at w' (part_path n k) i c).

Lemma entries_kept_same w w' : tree w' = tree w → files w' = files w → entries_kept w w'.
Proof. intros Ht Hf. split; unfold part_at; by rewrite Ht, ?Hf. Qed.
Lemma entries_kept_trans w1 w2 w3 : entries_kept w1 w2 → entries_kept w2 w3 → entries_kept w1 w3.
Proof. intros [H1 H2] [H3 H4]. split; auto. Qed.

Lemma entries_kept_insert w p nd : tree w !! p = None → entries_kept w (set_tree (insert p nd) w).
Proof.
  intros Hp. split; unfold part_at; cbn.
  - intros q Hq. rewrite lookup_insert_ne; [done|]. intros <-. congruence.
  - intros n k i c [Hq ?]. rewrite lookup_insert_ne; [done|]. intros E. congruence.
Qed.
Lemma entries_kept_delete w p i :
  tree w !! p = Some (NFile i) → (∀ n k, p ≠ part_path n k) → entries_kept w (set_tree (delete p) w).
Proof.
  intros Hp Hno. split; unfold part_at; cbn.
  - intros q Hq. rewrite lookup_delete_ne; [done|]. intros <-. congruence.
  - intros n k j c [Hq ?]. rewrite lookup_delete_ne; [done|]. by apply Hno.
Qed.

(** No object has changed, no directory or part is gone, and the environment is
    no more hostile. *)
Definition kept (w w' : world) : Prop := same_tables w w' ∧ calm w w' ∧ entries_kept w w'.

(** How a failing call ends: the invariant holds, the tables are related to
    those before by [T], and the environment is to blame or [R] holds of the
    error. *)
Definition E_rel (T : world → world → Prop) (w : world) (R : error → Prop) (e : error) (w' : world) : Prop :=
  world_ok w' ∧ T w w' ∧ calm w w' ∧ (failing w ∨ R e).

(** What the death of the process in a call leaves. *)
Definition C_rel (T : world → world → Prop) (w : world) (w' : world) : Prop :=
  disk_ok w' ∧ T w w' ∧ failing w.

Lemma same_tables_refl w : same_tables w w.
Proof. done. Qed.
Lemma same_tables_trans w1 w2 w3 : same_tables w1 w2 → same_tables w2 w3 → same_tables w1 w3.
Proof. intros H1 H2 n. by rewrite H2, H1. Qed.
Lemma quiet_same_tables w w' : quiet w w' → same_tables w w'.
Proof. by intros (fs & _ & ->). Qed.
Lemma quiet_kept w w' : quiet w w' → kept w w'.
Proof. intros H. split; [by apply quiet_same_tables|]. split; [by apply quiet_calm|]. destruct H as (fs & _ & ->). by apply entries_kept_same. Qed.
Lemma kept_trans w1 w2 w3 : kept w1 w2 → kept w2 w3 → kept w1 w3.
Proof.
  intros (H1 & H2 & H3) (H4 & H5 & H6).
  split; [by eapply same_tables_trans|]. split; [by eapply calm_trans|]. by eapply entries_kept_trans.
Qed.
Lemma kept_calm w w' : kept w w' → calm w w'.
Proof. by intros (_ & ? & _). Qed.
#[export] Hint Resolve same_tables_refl quiet_same_tables quiet_kept kept_calm : quiet.
Lemma kept_refl w : kept w w.
Proof. apply quiet_kept, quiet_refl. Qed.
Lemma kept_quiet w w1 w2 : kept w w1 → quiet w1 w2 → kept w w2.
Proof. intros. eapply kept_trans; [done|]. by apply quiet_kept. Qed.
#[export] Hint Resolve kept_refl | 0 : quiet.
#[export] Hint Resolve kept_quiet : quiet.

Lemma kept_is_dir w w' p : kept w w' → is_dir (tree w') p = false → is_dir (tree w) p = false.
Proof.
  intros (_ & _ & H). destruct p as [|c p]; [done|]. unfold is_dir.
  rewrite !bool_decide_eq_false. intros Hn Hp. by apply Hn, (proj1 H).
Qed.

(** A relation that a call may extend by steps that change no object. *)
Class Absorbs (T : world → world → Prop) : Prop := {
  absorbs_same w w' : same_tables w w' → T w w';
  absorbs_pre w1 w2 w3 : same_tables w1 w2 → T w2 w3 → T w1 w3;
  absorbs_post w1 w2 w3 : T w1 w2 → same_tables w2 w3 → T w1 w3;
}.
#[export] Instance same_tables_absorbs : Absorbs same_tables.
Proof. split; [done|intros w1 w2 w3; apply same_tables_trans..]. Qed.

Section absorbs.
Context {T : world → world → Prop} `{!Absorbs T}.
#[local] Set Default Proof Using "Type*".

Lemma E_rel_same w w' (R : error → Prop) e :
  world_ok w' → kept w w' → failing w ∨ R e → E_rel T w R e w'.
Proof. intros Hok (? & ? & _) ?. split_and!; try done. by apply absorbs_same. Qed.
Lemma C_rel_same w w' : disk_ok w' → kept w w' → failing w → C_rel T w w'.
Proof. intros Hok (? & ? & _) ?. split_and!; try done. by apply absorbs_same. Qed.

Lemma E_rel_quiet w w' w'' R e :
  world_ok w' → kept w w' → quiet w' w'' → failing w' → E_rel T w R e w''.
Proof. intros. apply E_rel_same; eauto with quiet. Qed.
Lemma C_rel_quiet w w' w'' :
  world_ok w' → kept w w' → quiet w' w'' → failing w' → C_rel T w w''.
Proof. intros. apply C_rel_same; eauto with quiet. apply wok_disk. eauto with quiet. Qed.

(** Cleaning up after an error. *)
Lemma E_rel_post w w' w'' (R R' : error → Prop) e e' :
  E_rel T w R e w' → quiet w' w'' → (R e → R' e') → E_rel T w R' e' w''.
Proof.
  intros (? & ? & ? & Hf) ? HR. split_and!; [eauto with quiet|eapply absorbs_post; eauto with quiet|
    eauto with quiet|destruct Hf; auto].
Qed.
Lemma C_rel_post w w' w'' (R : error → Prop) e :
  E_rel T w R e w' → quiet w' w'' → failing w' → C_rel T w w''.
Proof.
  intros (? & ? & ? & Hf) ? HR. split_and!; [apply wok_disk; eauto with quiet|
    eapply absorbs_post; eauto with quiet|eauto with quiet].
Qed.

(** A call that changes no object after steps that may have. *)
Lemma E_rel_then w w' w'' (R R' : error → Prop) e :
  T w w' → calm w w' → E_rel same_tables w' R' e w'' → (R' e → R e) → E_rel T w R e w''.
Proof.
  intros ? ? (? & ? & ? & Hf) HR. split_and!; [done|by eapply absorbs_post|by eapply calm_trans|].
  destruct Hf; [left|right]; eauto with quiet.
Qed.
Lemma C_rel_then w w' w'' :
  T w w' → calm w w' → C_rel same_tables w' w'' → C_rel T w w''.
Proof.
  intros ? ? (? & ? & ?). split_and!; [done|by eapply absorbs_post|]. eauto with quiet.
Qed.

(** A call after steps that changed no object. *)
Lemma E_rel_pre w w' (R R' : error → Prop) e w'' :
  kept w w' → (∀ e, R' e → R e) → E_rel T w' R' e w'' → E_rel T w R e w''.
Proof.
  intros (? & ? & _) HR (? & ? & ? & Hf). split_and!; [done|by eapply absorbs_pre|by eapply calm_trans|].
  destruct Hf; [left|right]; eauto with quiet.
Qed.
Lemma C_rel_pre w w' w'' : kept w w' → C_rel T w' w'' → C_rel T w w''.
Proof.
  intros (? & ? & _) (? & ? & ?). split_and!; [done|by eapply absorbs_pre|]. eauto with quiet.
Qed.

Lemma triple_after {A} w w' (m : M world A) Q (R R' : error → Prop) :
  kept w w' → (∀ e, R' e → R e) →
  triple w' m Q (E_rel T w' R') (C_rel T w') → triple w' m Q (E_rel T w R) (C_rel T w).
Proof.
  intros Hk HR Hm. eapply triple_mono; [exact Hm|done|..].
  - intros. by eapply E_rel_pre.
  - intros. by eapply C_rel_pre.
Qed.
End absorbs.
#[export] Hint Resolve E_rel_quiet C_rel_quiet : quiet.
#[export] Hint Extern 0 (Absorbs _) => apply _ : quiet.

(** A call that changed no object, seen from one that may change some. *)
Lemma triple_absorb {A} T `{!Absorbs T} w (m : M world A) Q (R : error → Prop) :
  triple w m Q (E_rel same_tables w R) (C_rel same_tables w) →
  triple w m Q (E_rel T w R) (C_rel T w).
Proof.
  intros Hm. eapply triple_mono; [exact Hm|done|..].
  - intros e w' (? & ? & ? & ?). split_and!; try done. by apply absorbs_same.
  - intros w' (? & ? & ?). split_and!; try done. by apply absorbs_same.
Qed.

(** ** Opening a bucket *)

(** [w'] is [w] with bucket [n] created, or as it was. *)
Definition opened (n : string) (w w' : world) : Prop :=
  ∀ m, tables w' m = tables w m ∨ (m = n ∧ tables w n = None ∧ tables w' n = Some ∅).

#[export] Instance opened_absorbs n : Absorbs (opened n).
Proof.
  split; [intros w w' H m; by left|..]; intros w1 w2 w3 H1 H2 m.
  - destruct (H2 m) as [E|(-> & ? & ?)]; [left; by rewrite E|right]. by rewrite <- H1.
  - rewrite H2. destruct (H1 m) as [?|(-> & ? & ?)]; [by left|right]. by rewrite H2.
Qed.

Lemma opened_exists n w w' : opened n w w' → is_Some (tables w n) → same_tables w w'.
Proof. intros H [t Ht] m. destruct (H m) as [?|(-> & ? & ?)]; [done|congruence]. Qed.

(** The memory of the process is untouched. *)
Definition same_memory (w w' : world) : Prop :=
  handles w' = handles w ∧ buckets w' = buckets w ∧ writers w' = writers w.

Lemma quiet_same_memory w w' : quiet w w' → same_memory w w'.
Proof. by intros (fs & _ & ->). Qed.
#[export] Hint Resolve quiet_same_memory : quiet.

Lemma tables_db w n t :
  tables w n = Some t ↔ validBucketName n = true ∧ ∃ d, bucket_db w n = Some d ∧ t = objects d.
Proof.
  unfold tables. destruct (validBucketName n); [|by split; [|intros []]].
  destruct (bucket_db w n) as [d|]; cbn; split; [| |done|by intros (_ & ? & ? & _)].
  - intros ?. simplify_eq. eauto.
  - intros (_ & ? & ? & ->). by simplify_eq.
Qed.

(** The database file of a bucket that may exist. *)
Lemma db_node w n nd :
  world_ok w → validBucketName n = true → tree w !! db_path n = Some nd →
  ∃ i d, nd = NDb i ∧ dbs w !! i = Some d ∧ bucket_db w n = Some d.
Proof.
  intros Hok Hn Hp. pose proof (ok_layout _ (wok_disk _ Hok) _ _ _ Hn Hp) as Hl.
  inversion Hl; subst. destruct (ok_db _ (wok_disk _ Hok) _ _ Hp) as [_ [d Hd]].
  exists i, d. split_and!; try done. unfold bucket_db. by rewrite Hp.
Qed.

Lemma tables_no_db w n : validBucketName n = true → tree w !! db_path n = None → tables w n = None.
Proof. intros Hn H. unfold tables, bucket_db. by rewrite Hn, H. Qed.

(** The schema leaves a database at the bucket's path. *)
Lemma triple_exec_schema w n (Q : nat → world → Prop) R :
  world_ok w → validBucketName n = true → is_dir (tree w) [n] = true →
  (∀ w' i d, world_ok w' → opened n w w' → calm w w' → entries_kept w w' → same_memory w w' →
     tree w' !! db_path n = Some (NDb i) → dbs w' !! i = Some d → Q i w') →
  triple w (exec_schema (data_sqlite [n])) Q (E_rel (opened n) w R) (C_rel (opened n) w).
Proof.
  intros Hok Hn Hdir HQ. apply triple_call; [|by eauto with quiet..]. intros w' Hq.
  assert (world_ok w') as Hok' by eauto with quiet.
  assert (same_tables w w') as Hs by auto with quiet.
  assert (is_dir (tree w') [n] = true) as Hdir' by (by destruct Hq as (fs & _ & ->)).
  assert (calm w w') as Hc by auto with quiet.
  destruct (quiet_kept _ _ Hq) as (_ & _ & Hk).
  pose proof (quiet_same_memory _ _ Hq) as Hm.
  unfold triple, wp, exec_schema. change (data_sqlite [n]) with (db_path n).
  destruct (tree w' !! db_path n) as [nd|] eqn:E.
  - destruct (db_node _ _ _ Hok' Hn E) as (i & d & -> & Hd & Hb). eapply HQ; eauto. by apply absorbs_same.
  - change (parent (db_path n)) with [n]. rewrite Hdir'. cbn.
    eapply HQ; try done.
    + by apply world_ok_new_db.
    + intros m. destruct (decide (m = n)) as [->|Hne].
      * right. split_and!; [done|rewrite <- Hs; by apply tables_no_db|].
        unfold tables, bucket_db; cbn. by rewrite Hn, !lookup_insert_eq.
      * left. rewrite <- Hs. unfold tables, bucket_db; cbn.
        rewrite lookup_insert_ne by (unfold db_path; congruence).
        destruct (tree w' !! db_path m) as [[|j|j]|] eqn:Ej; try done.
        destruct (ok_db _ (wok_disk _ Hok') _ _ Ej). by rewrite lookup_insert_ne by lia.
    + eapply entries_kept_trans; [exact Hk|]. eapply entries_kept_trans; [exact (entries_kept_insert w' (db_path n) (NDb (next w')) E)|].
      by apply entries_kept_same.
    + cbn. by rewrite lookup_insert_eq.
    + cbn. by rewrite lookup_insert_eq.
Qed.

Lemma tables_set_dbs w i d d' n :
  dbs w !! i = Some d → objects d' = objects d →
  tables (set_dbs (insert i d') w) n = tables w n.
Proof.
  intros Hi Ho. unfold tables, bucket_db; cbn. destruct (validBucketName n); [|done].
  destruct (tree w !! db_path n) as [[|j|j]|]; try done.
  destruct (decide (j = i)) as [->|]; [|by rewrite lookup_insert_ne].
  rewrite lookup_insert_eq, Hi. cbn. by rewrite Ho.
Qed.

Lemma triple_exec_bucket_info w n i d t (Q : unit → world → Prop) R :
  world_ok w → tree w !! db_path n = Some (NDb i) → dbs w !! i = Some d →
  (∀ w', world_ok w' → kept w w' → same_memory w w' → tree w' = tree w →
     dbs w' !! i = Some (sql_insert_bucket_info t d) → Q tt w') →
  triple w (exec_bucket_info i t) Q (E_rel same_tables w R) (C_rel same_tables w).
Proof.
  intros Hok Ht Hd HQ. apply triple_call; [|by eauto with quiet..]. intros w' Hq.
  assert (world_ok w') as Hok' by eauto with quiet.
  destruct Hq as (fs & Hfs & ->). apply triple_modify.
  set (d' := sql_insert_bucket_info t d).
  assert (set_dbs (alter (sql_insert_bucket_info t) i) (set_faults fs w) =
          set_dbs (insert i d') (set_faults fs w)) as ->.
  { unfold set_dbs; cbn. f_equal. apply map_eq. intros j. destruct (decide (j = i)) as [->|].
    - by rewrite lookup_alter_eq, lookup_insert_eq, Hd.
    - by rewrite lookup_alter_ne, lookup_insert_ne. }
  apply HQ; try done.
  - apply world_ok_dbs; [done|..].
    + exists d. split; [done|]. intros ?. unfold initialized, d', sql_insert_bucket_info. cbn.
      by destruct (bucket_info d).
    + apply db_ok_bucket_info. by eapply ok_dbs; [apply Hok|].
    + intros m sha Hm Hsha. apply (ok_stored _ (wok_disk _ Hok) m d sha); [|exact Hsha].
      unfold bucket_db. cbn in Hm. rewrite Hm. exact Hd.
  - split_and!; [|exact Hfs|by apply entries_kept_same]. intros m. by apply (tables_set_dbs (set_faults fs w) i d).
  - cbn. by rewrite lookup_insert_eq.
Qed.

(** A handle on bucket [n] that can be used. *)
Definition is_open (w : world) (h : nat) (n : string) : Prop :=
  ∃ b, handles w !! h = Some b ∧ b_name b = n ∧ b_open b = true.

Lemma is_open_facts w h n :
  world_ok w → is_open w h n →
  ∃ i d, handles w !! h = Some (mkBucket n [n] i true) ∧ buckets w !! n = Some h ∧
    validBucketName n = true ∧ tree w !! db_path n = Some (NDb i) ∧ dbs w !! i = Some d ∧
    initialized d ∧ bucket_db w n = Some d ∧ handle_db h w = Some d ∧ tables w n = Some (objects d).
Proof.
  intros Hok (b & Hb & Hn & Ho).
  destruct (ok_handles _ (wok_proc _ Hok) _ _ Hb) as (Hdir & _ & (d & Hd & Hi) & Hopen).
  destruct (Hopen Ho) as [Hreg Ht]. rewrite Hn in *.
  destruct (ok_buckets _ (wok_proc _ Hok) _ _ Hreg) as (b' & _ & _ & _ & Hv).
  assert (bucket_db w n = Some d) as Hbd by (unfold bucket_db; by rewrite Ht).
  exists (b_db b), d. split_and!; try done.
  - rewrite Hb. destruct b; cbn in *. by subst.
  - unfold handle_db. by rewrite Hb, Ho.
  - apply tables_db. eauto.
Qed.

Lemma is_open_registered w h n : world_ok w → buckets w !! n = Some h → is_open w h n.
Proof.
  intros Hok Hb. destruct (ok_buckets _ (wok_proc _ Hok) _ _ Hb) as (b & ? & ? & ? & _). by exists b.
Qed.

(** Opening a bucket whose directory exists. *)
Lemma triple_Store_openBucket w n (Q : nat → world → Prop) R :
  world_ok w → validBucketName n = true → is_dir (tree w) [n] = true →
  (∀ w' h, world_ok w' → opened n w w' → calm w w' → entries_kept w w' → is_open w' h n → Q h w') →
  triple w (Store_openBucket n) Q (E_rel (opened n) w R) (C_rel (opened n) w).
Proof.
  intros Hok Hn Hdir HQ. unfold Store_openBucket. tstep.
  destruct (buckets w !! n) as [h|] eqn:Hb.
  { tstep. apply HQ;
      [done|by apply absorbs_same|apply calm_refl|by apply entries_kept_same|by apply is_open_registered]. }
  unfold openBucket. tsteps.
  apply triple_ret_call; [|tfault..]. intros w1 Hq1. tsteps.
  assert (world_ok w1) as Hok1 by eauto with quiet.
  assert (kept w w1) as Hk1 by auto with quiet.
  assert (is_dir (tree w1) [n] = true ∧ buckets w1 !! n = None) as [Hdir1 Hb1].
  { by destruct Hq1 as (fs & _ & ->). }
  eapply triple_conseq; [| |apply (triple_exec_schema w1 n _ (λ _, False)); [done..|]].
  { intros e w2 He. apply (E_rel_pre w w1 (λ _, False) _ e w2 Hk1) in He; [|done]. tsteps.
    apply triple_ret_call; intros; tsteps; first [by eapply E_rel_post|by eapply C_rel_post]. }
  { intros w2 Hc. by eapply C_rel_pre. }
  intros w2 i d Hok2 Ho2 Hc2 Hd2 (_ & Hb2 & _) Ht2 Hdb2. tsteps.
  assert (calm w w2) as Hcw by eauto using calm_trans, kept_calm.
  assert (opened n w w2) as How by (eapply absorbs_pre; [|done]; by destruct Hk1).
  eapply triple_conseq; [| |apply (triple_exec_bucket_info w2 n i d _ _ (λ _, False)); [done..|]].
  { intros e w3 He. eapply (E_rel_then (T:=opened n)) in He; [|done..]. tsteps.
    apply triple_ret_call; intros; tsteps; first [by eapply E_rel_post|by eapply C_rel_post]. }
  { intros w3 Hc. by eapply C_rel_then. }
  intros w3 Hok3 (Hs3 & Hc3 & Hd3) (_ & Hb3 & _) Ht3 Hdb3. tsteps.
  rewrite <- Ht3 in Ht2.
  assert (initialized (sql_insert_bucket_info (UnixMicro_of (now w2)) d)) as Hi.
  { unfold initialized, sql_insert_bucket_info. cbn. by destruct (bucket_info d). }
  assert (same_tables w3 (set_buckets (insert n (next w3))
    (set_handles (insert (next w3) (mkBucket n [n] i true)) (set_next (S (next w3)) w3)))) as Hs by done.
  apply HQ.
  - eapply world_ok_register; try done. congruence.
  - eapply absorbs_post; [|exact Hs]. by eapply absorbs_post.
  - intros Hf. cbn. auto.
  - destruct Hk1 as (_ & _ & Hk1). eapply entries_kept_trans; [exact Hk1|].
    eapply entries_kept_trans; [exact Hd2|]. eapply entries_kept_trans; [exact Hd3|]. by apply entries_kept_same.
  - eexists. cbn. by rewrite lookup_insert_eq.
Qed.

(** [s.bucket(name)] finds the bucket or reports that there is none. *)
Lemma triple_bucket w n (Q : nat → world → Prop) :
  world_ok w →
  (∀ w' h, world_ok w' → kept w w' → is_open w' h n → Q h w') →
  triple w (bucket n) Q
    (E_rel same_tables w (λ e, e = ErrBucketNotFound ∧ tables w n = None)) (C_rel same_tables w).
Proof.
  intros Hok HQ. unfold bucket. destruct (validBucketName n) eqn:Hn; cbn [negb]; tsteps.
  2: { apply E_rel_same; [done|auto with quiet|]. right. split; [done|]. unfold tables. by rewrite Hn. }
  destruct (buckets w !! n) as [h|] eqn:Hb.
  { tstep. apply HQ; [done|auto with quiet|by apply is_open_registered]. }
  tsteps. apply triple_os_Stat; [|intros e w' Hq Hr|tfault]; tsteps.
  - intros w' nd Hq Hnd.
    assert (world_ok w') as Hok' by eauto with quiet. assert (kept w w') as Hk by auto with quiet.
    destruct (db_node _ _ _ Hok Hn Hnd) as (i & d & -> & _ & Hd).
    assert (is_Some (tables w' n)) as Hex.
    { destruct Hk as (Hs & _). rewrite Hs. exists (objects d). apply tables_db. eauto. }
    assert (is_dir (tree w') [n] = true) as Hdir.
    { destruct Hq as (fs & _ & ->). apply (ok_parent _ (wok_disk _ Hok) _ _ Hnd). }
    assert (∀ w2, opened n w' w2 → same_tables w' w2) as Hsame by (intros; by eapply opened_exists).
    apply (triple_after w w' _ _ _ (λ _, False)); [exact Hk|done|].
    eapply triple_conseq; [| |apply (triple_Store_openBucket w' n _ (λ _, False)); [done..|]].
    + intros e w2 (? & Ho & ? & ?). split_and!; auto.
    + intros w2 (? & Ho & ?). split_and!; auto.
    + intros w2 h ? Ho ? ? ?. apply HQ; [done| |done]. eapply kept_trans; [exact Hk|]. split_and!; auto.
  - apply E_rel_same; [eauto with quiet..|]. destruct Hr as [|[_ Hr]]; [by left|right].
    split; [done|]. by apply tables_no_db.
Qed.

(** A call that changes no object, in an operation that is killed later than it
    fails. *)
Lemma triple_weaken_C {A} T `{!Absorbs T} w0 w (m : M world A) Q E :
  triple w m Q E (C_rel same_tables w0) → triple w m Q E (C_rel T w0).
Proof.
  intros Hm. eapply triple_conseq; [done| |exact Hm].
  intros w' (? & ? & ?). split_and!; try done. by apply absorbs_same.
Qed.

(** A call in an environment that does not fail it. *)
Lemma calm_run {A} w (m : M world A) Q T T' R :
  triple w m Q (E_rel T w R) (C_rel T' w) → faults w = [] →
  (∃ a w', m w = (Ret a, w') ∧ Q a w') ∨
  (∃ e w', m w = (Err e, w') ∧ R e ∧ world_ok w' ∧ T w w' ∧ faults w' = []).
Proof.
  intros H Hf. unfold triple, wp in H. destruct (m w) as [[a|e|x| |] w']; cbn in H; [|..|done|done|].
  - left. by exists a, w'.
  - right. destruct H as (? & ? & Hc & [Hx|?]); [by destruct Hx|]. exists e, w'. split_and!; auto.
  - destruct H as (_ & _ & Hx). by destruct Hx.
Qed.
