(* ===== verification/StoreOps.v ===== *)
(** Triples for the operations on buckets ([pkg/store/store.go]): create, get,
    list, delete, and closing the store. *)

From S2P Require Import Prelude Errors GoMonad GoStd Types Names Hash Database World Bucket Store BlobWriter StoreInv Triple StoreSafe.
From stdpp Require Import options.

(** Facts that follow from a quiet step. *)
Ltac quiet_facts Hq :=
  match type of Hq with
  | quiet ?w ?w' =>
    let Hok := fresh "Hok" in let Hk := fresh "Hk" in
    assert (world_ok w') as Hok by eauto with quiet;
    assert (kept w w') as Hk by auto with quiet
  end.

Tactic Notation "quiet_facts_as" ident(Hq) ident(Hok) ident(Hk) :=
  match type of Hq with
  | quiet ?w ?w' =>
    assert (world_ok w') as Hok by eauto with quiet;
    assert (kept w w') as Hk by auto with quiet
  end.

Lemma kept_tables w w' n : kept w w' → tables w' n = tables w n.
Proof. intros (H & _). apply H. Qed.

Lemma quiet_is_open w w' h n : quiet w w' → is_open w h n → is_open w' h n.
Proof. by intros (fs & _ & ->). Qed.
#[export] Hint Resolve quiet_is_open : quiet.

(** ** Buckets *)

Lemma triple_info w h n (Q : BucketInfo → world → Prop) R :
  world_ok w → is_open w h n →
  (∀ w' bi, world_ok w' → quiet w w' → bi_Name bi = n → Q bi w') →
  triple w (info h) Q (E_rel same_tables w R) (C_rel same_tables w).
Proof.
  intros Hok Ho HQ. unfold info. tsteps.
  destruct (is_open_facts _ _ _ Hok Ho) as (i & d & Hh & _ & _ & _ & _ & [[c m] Hi] & _ & Hd & _).
  eapply triple_load_bucket; [exact Hh|]. tsteps.
  apply triple_db_Query; [|intros e w' Hq [?|[_ ?]]; [eauto with quiet|congruence]|tfault].
  intros w' d' Hq Hd'. replace d' with d by congruence. rewrite Hi. tsteps.
  apply HQ; eauto with quiet.
Qed.

(** Both subdirectories of a bucket are there. *)
Definition intact (w : world) (n : string) : Prop :=
  tree w !! [n; "objects"] = Some NDir ∧ tree w !! [n; "tmp"] = Some NDir.

Lemma kept_intact w w' n : kept w w' → intact w n → intact w' n.
Proof. intros (_ & _ & H) [? ?]. split; by apply (proj1 H). Qed.

(** A directory is made in the layout of a bucket. *)
Lemma triple_os_Mkdir_ok w n rest (Q : unit → world → Prop) (E : error → world → Prop) (C : world → Prop) :
  world_ok w → layout rest NDir → 
  (∀ w', world_ok w' → kept w w' → tree w !! (n :: rest) = None →
     (∃ fs, w' = set_tree (insert (n :: rest) NDir) (set_faults fs w)) → Q tt w') →
  (∀ e w', quiet w w' →
     failing w ∨ e = SysErr EEXIST ∧ is_Some (tree w !! (n :: rest)) ∨
     e = SysErr ENOENT ∧ tree w !! (n :: rest) = None ∧ is_dir (tree w) (parent (n :: rest)) = false → E e w') →
  (∀ w', quiet w w' → failing w → C w') →
  triple w (os_Mkdir (n :: rest)) Q E C.
Proof.
  intros Hok Hl HQ HE HC. apply triple_os_Mkdir; [|done..]. intros w' Hq Hnone Hdir.
  quiet_facts Hq. pose proof Hq as (fs & Hfs & ->). apply HQ; [| |done|by exists fs].
  - apply world_ok_mkdir; [done..|]. intros m r Er. by simplify_eq.
  - destruct Hk as (Hs & Hc & Hd). split_and!; [|done|].
    + intros m. rewrite <- Hs. unfold tables, bucket_db; cbn. destruct (validBucketName m); [|done].
      rewrite lookup_insert_ne; [done|]. intros E'. unfold db_path in E'. simplify_eq.
      inversion Hl.
    + exact (entries_kept_trans _ _ _ Hd (entries_kept_insert (set_faults fs w) _ NDir Hnone)).
Qed.

(** A bucket without a directory has nothing in it. *)
Lemma no_dir_child w n c : world_ok w → tree w !! [n] = None → tree w !! [n; c] = None.
Proof.
  intros Hok Hn. destruct (tree w !! [n; c]) eqn:E; [|done].
  pose proof (ok_parent _ (wok_disk _ Hok) _ _ E) as Hp. unfold is_dir in Hp.
  change (parent [n; c]) with [n] in Hp. rewrite bool_decide_eq_true in Hp. congruence.
Qed.

(** The next directory of a bucket being created. *)
Lemma triple_Mkdir_sub w0 w n c (Q : unit → world → Prop) T `{!Absorbs T} R :
  world_ok w → kept w0 w → c = "objects" ∨ c = "tmp" →
  tree w !! [n] = Some NDir → tree w !! [n; c] = None →
  (∀ w', world_ok w' → kept w0 w' → (∃ fs, w' = set_tree (insert [n; c] NDir) (set_faults fs w)) → Q tt w') →
  triple w (os_Mkdir ([n] ++ [c])) Q (E_rel T w0 R) (C_rel T w0).
Proof.
  intros Hok Hk Hc Hn Hnone HQ. apply triple_os_Mkdir_ok; [done|destruct Hc as [->| ->]; constructor|..].
  - intros w' Hok' Hk' _ Hw'. apply HQ; [done|by eapply kept_trans|done].
  - intros e w' Hq [Hf|[[_ Hr]|(_ & _ & Hr)]]; [by eauto with quiet|..].
    + rewrite Hnone in Hr. by destruct Hr.
    + change (parent (n :: [c])) with [n] in Hr. unfold is_dir in Hr.
      rewrite bool_decide_eq_false in Hr. done.
  - eauto with quiet.
Qed.

(** What [CreateBucket] reports when nothing failed. *)
Definition create_error (w : world) (n : string) (e : error) : Prop :=
  (validBucketName n = false ∧ e = Wrap [] ErrInvalidName [Lit ": bucket "; Quote n]) ∨
  (validBucketName n = true ∧ e = ErrBucketExists ∧ is_Some (tree w !! [n])).

Lemma triple_CreateBucket w n :
  world_ok w →
  triple w (CreateBucket n)
    (λ bi w', world_ok w' ∧ calm w w' ∧ opened n w w' ∧ tables w n = None ∧ is_Some (tables w' n) ∧
       intact w' n ∧ validBucketName n = true ∧ bi_Name bi = n)
    (E_rel (opened n) w (create_error w n)) (C_rel (opened n) w).
Proof.
  intros Hok. unfold CreateBucket, create_error. destruct (validBucketName n) eqn:Hn; cbn [negb]; tsteps.
  2: { apply E_rel_same; [done|auto with quiet|]. auto. }
  apply triple_os_Mkdir_ok; [done|constructor|..|tfault].
  2: { intros e w' Hq Hr. quiet_facts Hq. cbn beta iota.
       destruct Hr as [Hf|[[-> Hr]|(_ & _ & Hr)]]; [..|done].
       - destruct (os_IsExist e); tsteps; eauto with quiet.
       - cbn. tsteps. apply E_rel_same; [done..|]. right. right. done. }
  intros w1 Hok1 Hk1 Hnone (fs1 & E1). tsteps.
  assert (tables w n = None) as Hno by (apply tables_no_db, no_dir_child; done).
  apply (triple_Mkdir_sub w w1 n _ _ (opened n)); [done..|auto|subst; apply lookup_insert_eq|
    subst; cbn; rewrite lookup_insert_ne by done; by apply no_dir_child|].
  intros w2 Hok2 Hk2 (fs2 & E2). tsteps.
  apply (triple_Mkdir_sub w w2 n _ _ (opened n)); [done..|auto|subst; cbn; rewrite lookup_insert_ne by done; apply lookup_insert_eq|
    subst; cbn; rewrite !lookup_insert_ne by done; by apply no_dir_child|].
  intros w3 Hok3 Hk3 (fs3 & E3). tsteps.
  assert (tree w3 !! [n] = Some NDir) as Hdir.
  { subst. cbn. rewrite !lookup_insert_ne by done. apply lookup_insert_eq. }
  assert (intact w3 n) as Hint.
  { subst. split; cbn; [rewrite lookup_insert_ne by done|]; apply lookup_insert_eq. }
  clear E1 E2 E3.
  apply (triple_after w w3 _ _ _ (λ _, False)); [done..|].
  apply triple_Store_openBucket; [done..|by apply bool_decide_eq_true|].
  intros w4 h Hok4 Ho4 Hc4 Hd4 Hopen.
  destruct (is_open_facts _ _ _ Hok4 Hopen) as (i & d & _ & _ & _ & _ & _ & _ & _ & _ & Ht).
  assert (opened n w w4) as How by (eapply absorbs_pre; [by destruct Hk3|done]).
  assert (calm w w4) as Hcw by eauto using calm_trans, kept_calm.
  eapply triple_conseq; [| |apply (triple_info w4 h n _ (λ _, False)); [done..|]].
  { intros e w5 He. by eapply (E_rel_then (T:=opened n)). }
  { intros w5 Hc. by eapply (C_rel_then (T:=opened n)). }
  intros w5 bi Hok5 Hq Hbi. pose proof (quiet_kept _ _ Hq) as Hk5.
  split_and!; try done.
  - by eauto with quiet.
  - eapply absorbs_post; eauto with quiet.
  - rewrite (kept_tables _ _ _ Hk5). by eexists.
  - eapply kept_intact; [exact Hk5|]. destruct Hint. split; by apply (proj1 Hd4).
Qed.

Definition no_bucket (w : world) (n : string) (e : error) : Prop :=
  e = ErrBucketNotFound ∧ tables w n = None.

(** Looking the bucket up at the start of an operation. *)
Lemma triple_with_bucket T `{!Absorbs T} w n (Q : nat → world → Prop) (R : error → Prop) :
  world_ok w → (∀ e, no_bucket w n e → R e) →
  (∀ w' h, world_ok w' → kept w w' → is_open w' h n → Q h w') →
  triple w (bucket n) Q (E_rel T w R) (C_rel T w).
Proof.
  intros Hok HR HQ. eapply triple_conseq; [| |by apply triple_bucket].
  - intros e w' He. eapply E_rel_then; [by apply absorbs_same|apply calm_refl|exact He|apply HR].
  - intros w' Hc. eapply C_rel_then; [by apply absorbs_same|apply calm_refl|exact Hc].
Qed.

Lemma kept_no_bucket w w' n e : kept w w' → no_bucket w' n e → no_bucket w n e.
Proof. intros Hk [? H]. split; [done|]. by rewrite <- (kept_tables _ _ _ Hk). Qed.

Lemma is_open_tables w h n : world_ok w → is_open w h n → is_Some (tables w n).
Proof. intros Hok Ho. destruct (is_open_facts _ _ _ Hok Ho) as (? & ? & _ & _ & _ & _ & _ & _ & _ & _ & ->). by eexists. Qed.

Lemma triple_GetBucket w n :
  world_ok w →
  triple w (GetBucket n)
    (λ bi w', world_ok w' ∧ kept w w' ∧ is_Some (tables w n) ∧ bi_Name bi = n)
    (E_rel same_tables w (no_bucket w n)) (C_rel same_tables w).
Proof.
  intros Hok. unfold GetBucket. tsteps. apply triple_bucket; [done|].
  intros w1 h Hok1 Hk1 Ho. apply (triple_after w w1 _ _ _ (λ _, False)); [done..|].
  apply (triple_info _ _ n); [done..|]. intros w2 bi Hok2 Hq Hbi. split_and!; try done.
  - eauto with quiet.
  - rewrite <- (kept_tables _ _ _ Hk1). by eapply is_open_tables.
Qed.

(** *** Listing buckets *)

(** A directory of the root that cannot be a bucket's. *)
Definition stray_dir (w : world) : Prop :=
  ∃ n, validBucketName n = false ∧ tree w !! [n] = Some NDir.

Definition listed (w : world) (e : string * bool) : Prop := e.2 = true ∧ is_Some (tables w e.1).
#[export] Instance listed_dec w e : Decision (listed w e).
Proof. unfold listed. apply _. Defined.

(** A [Stat] that the environment makes fail drops the bucket from the list. *)
Lemma triple_list_entries w0 es : ∀ w infos,
  world_ok w → kept w0 w → (∀ n, (n, true) ∈ es → tree w0 !! [n] = Some NDir) →
  triple w (list_entries es infos)
    (λ l w', world_ok w' ∧ kept w0 w' ∧ ∃ l', l = infos ++ l' ∧
       map bi_Name l' `sublist_of` (filter (listed w0) es).*1 ∧
       (failing w0 ∨ map bi_Name l' = (filter (listed w0) es).*1))
    (E_rel same_tables w0 (λ e, e = ErrBucketNotFound ∧ stray_dir w0)) (C_rel same_tables w0).
Proof.
  induction es as [|[n d] es IH]; intros w infos Hok Hk Hes; cbn [list_entries].
  { tsteps. split_and!; try done. exists []. rewrite app_nil_r. auto. }
  assert (∀ m, (m, true) ∈ es → tree w0 !! [m] = Some NDir) as Hes' by (intros; apply Hes; by right).
  destruct d; cbn [negb].
  2: { rewrite filter_cons_False by (by intros [? _]). by apply IH. }
  assert (tree w0 !! [n] = Some NDir) as Hn by (apply Hes; by left).
  tsteps. apply triple_os_Stat; [intros w1 nd Hq Hnd|intros e w1 Hq Hr|tfault]; tsteps; quiet_facts Hq;
    assert (kept w0 w1) as Hk1 by eauto with quiet.
  - destruct (validBucketName n) eqn:Hv.
    2: { unfold bucket. rewrite Hv. cbn [negb]. tsteps. apply E_rel_same; [done..|].
         right. split; [done|]. by exists n. }
    assert (is_Some (tables w0 n)) as Hex.
    { rewrite <- (kept_tables _ _ _ Hk). destruct (db_node _ _ _ Hok Hv Hnd) as (i & d & _ & _ & Hd).
      exists (objects d). apply tables_db. eauto. }
    eapply triple_conseq; [| |apply triple_bucket; [done|]].
    { intros e w2. eapply (E_rel_pre (T:=same_tables)); [done|]. intros ? [_ ?].
      rewrite (kept_tables _ _ _ Hk1) in *. destruct Hex. congruence. }
    { intros w2. by eapply (C_rel_pre (T:=same_tables)). }
    intros w2 h Hok2 Hk2 Ho. tsteps.
    assert (kept w0 w2) as Hk2' by by eapply kept_trans.
    eapply triple_conseq; [| |apply (triple_info w2 h n _ (λ _, False)); [done..|]].
    { intros e w3. by eapply (E_rel_pre (T:=same_tables)). }
    { intros w3. by eapply (C_rel_pre (T:=same_tables)). }
    intros w3 bi Hok3 Hq3 Hbi.
    eapply triple_mono; [apply IH; [done|by eauto with quiet|done]| |done..].
    intros l w4 (? & ? & l' & -> & Hsub & Hl). split_and!; try done. exists (bi :: l').
    rewrite <- app_assoc. split; [done|]. cbn [map]. rewrite filter_cons_True by done.
    cbn. rewrite Hbi. split; [by constructor|]. destruct Hl as [?| ->]; auto.
  - eapply triple_mono; [apply IH; [done|by eauto with quiet|done]| |done..].
    intros l w4 (? & ? & l' & -> & Hsub & Hl). split_and!; try done. exists l'. split; [done|].
    destruct Hr as [Hf|[_ Hr]].
    + split; [|left; eauto with quiet]. rewrite filter_cons. case_decide; [by constructor|done].
    + rewrite filter_cons_False; [done|]. intros [_ [t Ht]]. cbn in Ht.
      rewrite <- (kept_tables _ _ _ Hk) in Ht. apply tables_db in Ht as (_ & d & Hd & _).
      change (data_sqlite [n]) with (db_path n) in Hr. unfold bucket_db in Hd. by rewrite Hr in Hd.
Qed.

Lemma root_entries_spec w n d :
  (n, d) ∈ root_entries (tree w) ↔ ∃ nd, tree w !! [n] = Some nd ∧ d = bool_decide (nd = NDir).
Proof.
  unfold root_entries. rewrite merge_sort_Permutation, list_elem_of_omap. split.
  - intros ([p nd] & Hp & E). apply elem_of_map_to_list in Hp.
    destruct p as [|c [|? ?]]; simplify_eq. eauto.
  - intros (nd & Hn & ->). exists ([n], nd). split; [by apply elem_of_map_to_list|done].
Qed.

Lemma root_entries_NoDup t : NoDup (root_entries t).*1.
Proof.
  unfold root_entries. rewrite merge_sort_Permutation.
  pose proof (NoDup_fst_map_to_list t) as H. induction (map_to_list t) as [|[p nd] l IH]; [constructor|].
  inversion_clear H as [|? ? Hp Hl]. specialize (IH Hl). cbn.
  destruct p as [|c [|? ?]]; cbn; [done| |done]. constructor; [|done].
  intros ([c' d'] & E & Hin)%list_elem_of_fmap. cbn in E. subst c'.
  apply list_elem_of_omap in Hin as ([q nd'] & Hq & E).
  destruct q as [|x [|? ?]]; simplify_eq. apply Hp. apply list_elem_of_fmap. by exists ([c], nd').
Qed.

Lemma triple_ListBuckets w :
  world_ok w →
  triple w ListBuckets
    (λ l w', world_ok w' ∧ kept w w' ∧ StronglySorted String.le (map bi_Name l) ∧
       NoDup (map bi_Name l) ∧ (∀ n, n ∈ map bi_Name l → is_Some (tables w n)) ∧
       (failing w ∨ ∀ n, is_Some (tables w n) → n ∈ map bi_Name l))
    (E_rel same_tables w (λ e, e = ErrBucketNotFound ∧ stray_dir w)) (C_rel same_tables w).
Proof.
  intros Hok. unfold ListBuckets. tsteps. apply triple_call; [|tfault..].
  intros w1 Hq. quiet_facts Hq. tsteps.
  assert (tree w1 = tree w) as Ht by (by destruct Hq as (fs & _ & ->)). rewrite Ht.
  eapply triple_mono; [apply (triple_list_entries w1 _ w1); [done|auto with quiet|]|..].
  { intros n Hn. apply root_entries_spec in Hn as (nd & Hn & Hnd). rewrite Ht.
    symmetry in Hnd. apply bool_decide_eq_true in Hnd. by subst. }
  2: { intros e w2. apply (E_rel_pre (T:=same_tables)); [exact Hk|]. intros ? [-> (n & ? & Hn)].
    split; [done|]. exists n. split; [done|]. by rewrite <- Ht. }
  2: { intros w2. by eapply (C_rel_pre (T:=same_tables)). }
  intros l w2 (Hok2 & Hk2 & l' & -> & Hsub & Hl). cbn [app]. tsteps.
  assert (map bi_Name (merge_sort (λ i j, String.le (bi_Name i) (bi_Name j)) l') ≡ₚ map bi_Name l') as Hp.
  { apply Permutation_map, merge_sort_Permutation. }
  assert (∀ n, n ∈ (filter (listed w1) (root_entries (tree w))).*1 ↔ is_Some (tables w n)) as Hin.
  { intros n. rewrite list_elem_of_fmap. setoid_rewrite list_elem_of_filter. unfold listed.
    setoid_rewrite (kept_tables _ _ _ Hk). split.
    - by intros ([m d] & -> & [_ ?] & _).
    - intros Hn. exists (n, true). split_and!; try done. apply root_entries_spec.
      destruct Hn as [t Htb]. apply tables_db in Htb as (_ & d & Hd & _). unfold bucket_db in Hd.
      destruct (tree w !! db_path n) as [nd|] eqn:E; [|done].
      pose proof (ok_parent _ (wok_disk _ Hok) _ _ E) as Hd'. apply bool_decide_eq_true in Hd'.
      exists NDir. split; [done|]. by rewrite bool_decide_eq_true_2. }
  split_and!.
  - done.
  - by eapply kept_trans.
  - apply (sort_by_key_sorted bi_Name).
  - rewrite Hp. eapply sublist_NoDup; [|exact Hsub].
    eapply sublist_NoDup; [apply (root_entries_NoDup (tree w))|]. apply fmap_sublist, sublist_filter.
  - intros n. rewrite Hp. intros Hn. apply Hin. by eapply elem_of_sublist.
  - destruct Hl as [Hf|E]; [left; eauto with quiet|right]. intros n. rewrite Hp, E. apply Hin.
Qed.

(** *** Deleting a bucket *)

(** [w'] is [w] without the empty bucket [n], or as it was. *)
Definition dropped (n : string) (w w' : world) : Prop :=
  ∀ m, tables w' m = tables w m ∨ (m = n ∧ tables w n = Some ∅ ∧ tables w' n = None).

#[export] Instance dropped_absorbs n : Absorbs (dropped n).
Proof.
  split; [intros w w' H m; by left|..]; intros w1 w2 w3 H1 H2 m.
  - destruct (H2 m) as [E|(-> & ? & ?)]; [left; by rewrite E|right]. by rewrite <- H1.
  - rewrite H2. destruct (H1 m) as [?|(-> & ? & ?)]; [by left|right]. by rewrite H2.
Qed.

Lemma db_ok_no_objects d : db_ok d → objects d = ∅ → blobs d = ∅.
Proof.
  intros Hok Ho. apply map_eq. intros sha. rewrite lookup_empty.
  destruct (blobs d !! sha) eqn:E; [|done].
  destruct (proj1 (db_ok_blob_iff d sha Hok)) as (m & r & Hm & _); [by eexists|].
  by rewrite Ho, lookup_empty in Hm.
Qed.

Lemma remove_below_other n keep w m rest :
  m ≠ n → remove_below [n] keep (tree w) !! (m :: rest) = tree w !! (m :: rest).
Proof.
  intros Hm. unfold remove_below. rewrite map_lookup_filter.
  destruct (tree w !! (m :: rest)); [|done]. cbn. rewrite option_guard_True; [done|].
  left. cbn. destruct (String.eqb_spec n m); [congruence|done].
Qed.

(** Removing the directory of a closed empty bucket. *)
Lemma remove_below_ok w n keep :
  world_ok w → tables w n = Some ∅ → buckets w !! n = None →
  let w' := set_tree (remove_below [n] keep) w in world_ok w' ∧ dropped n w w'.
Proof.
  intros Hok Ht Hb w'. split.
  - apply world_ok_remove_below; [done|..].
    + intros h b Hh Ho E. destruct (ok_handles _ (wok_proc _ Hok) _ _ Hh) as (_ & _ & _ & Hopen).
      destruct (Hopen Ho). congruence.
    + intros d Hd. apply db_ok_no_objects.
      * unfold bucket_db in Hd. destruct (tree w !! db_path n) as [[|j|j]|]; try done.
        by eapply ok_dbs; [apply Hok|].
      * apply tables_db in Ht as (_ & d' & ? & ?). congruence.
  - intros m. destruct (decide (m = n)) as [->|Hm].
    + destruct (remove_below [n] keep (tree w) !! db_path n) as [nd|] eqn:E.
      * left. unfold tables, bucket_db; cbn. rewrite E.
        apply map_lookup_filter_Some in E as [E _]. by rewrite E.
      * right. split_and!; try done. unfold tables, bucket_db; cbn. rewrite E. by destruct (validBucketName n).
    + left. unfold tables, bucket_db; cbn. unfold db_path. by rewrite remove_below_other.
Qed.

Lemma triple_DeleteBucket w n :
  world_ok w →
  triple w (DeleteBucket n)
    (λ _ w', world_ok w' ∧ calm w w' ∧ dropped n w w' ∧ tables w n = Some ∅ ∧
       (∀ rest, tree w' !! (n :: rest) = None))
    (E_rel (dropped n) w (λ e, no_bucket w n e ∨
       (e = ErrBucketNotEmpty ∧ ∃ t, tables w n = Some t ∧ t ≠ ∅)))
    (C_rel (dropped n) w).
Proof.
  intros Hok. unfold DeleteBucket. tsteps.
  apply triple_with_bucket; [apply _|done|auto|]. intros w1 h Hok1 Hk1 Ho.
  destruct (is_open_facts _ _ _ Hok1 Ho) as (i & d & Hh & Hreg & Hv & Hdb & _ & _ & Hbd & Hhd & Ht).
  tsteps. apply triple_db_Query; [|intros e w2 Hq [?|[_ ?]]; [eauto with quiet|congruence]|tfault].
  intros w2 d' Hq Hd'. replace d' with d by congruence. clear d' Hd'. cbn beta.
  quiet_facts Hq. assert (kept w w2) as Hk2 by eauto with quiet.
  assert (tables w n = Some (objects d)) as Ht0 by by rewrite <- (kept_tables _ _ _ Hk1).
  destruct (Z.ltb_spec 0 (sql_count_objects d)) as [Hcount|Hcount]; tsteps.
  { apply E_rel_same; [done..|]. right. right. split; [done|]. exists (objects d). split; [done|].
    intros E. unfold sql_count_objects in Hcount. rewrite E, map_size_empty in Hcount. lia. }
  assert (objects d = ∅) as Hempty.
  { apply map_size_empty_iff. unfold sql_count_objects in Hcount. lia. }
  rewrite Hempty in Ht0.
  set (wc := close_handle h (set_buckets (delete n) w2)).
  assert (world_ok wc) as Hokc by (apply world_ok_unregister; [done|by destruct Hq as (fs & _ & ->)]).
  assert (tables wc n = Some ∅) as Htc.
  { change (tables w2 n = Some ∅). by rewrite (kept_tables _ _ _ Hk2). }
  assert (buckets wc !! n = None) as Hbc by apply lookup_delete_eq.
  assert (kept w wc) as Hkc by exact Hk2.
  assert (∀ w3, quiet (set_buckets (delete n) w2) w3 → quiet wc (close_handle h w3)) as Hqc.
  { intros w3 (fs & Hfs & ->). by exists fs. }
  apply triple_db_Close; [intros w3 Hq3|intros e w3 Hq3 Hf|intros w3 Hq3 Hf]; apply Hqc in Hq3.
  2, 3: eauto with quiet.
  tsteps. quiet_facts Hq3. assert (kept w (close_handle h w3)) as Hk3 by eauto with quiet.
  assert (∀ w4 keep, quiet (close_handle h w3) w4 →
    world_ok (set_tree (remove_below [n] keep) w4) ∧ dropped n w (set_tree (remove_below [n] keep) w4) ∧
    calm w (set_tree (remove_below [n] keep) w4)) as Hrm.
  { intros w4 keep Hq4. quiet_facts Hq4. assert (kept w w4) as Hkd by eauto with quiet.
    destruct (remove_below_ok w4 n keep) as [? ?]; [done|by rewrite (kept_tables _ _ _ Hkd)| |].
    - destruct Hq4 as (fs4 & _ & ->). destruct Hq3 as (fs3 & _ & E). cbn. apply (f_equal buckets) in E.
      cbn in E. rewrite E. exact Hbc.
    - split_and!; [done| |by destruct Hkd as (_ & ? & _)]. eapply absorbs_pre; [|done]. by destruct Hkd. }
  apply triple_os_RemoveAll.
  - intros w4 Hq4. destruct (Hrm w4 [] Hq4) as (? & ? & ?). split_and!; try done.
    intros rest. cbn. apply map_lookup_filter_None. right. intros nd _. cbn.
    rewrite String.eqb_refl. by intros [?|?%Exists_nil].
  - intros e w4 keep Hq4 Hf. destruct (Hrm w4 keep Hq4) as (? & ? & ?). split_and!; try done.
    left. eauto with quiet.
  - intros w4 keep Hq4 Hf. destruct (Hrm w4 keep Hq4) as (? & ? & ?).
    split_and!; [by apply wok_disk|done|]. eauto with quiet.
Qed.

(** *** Closing the store *)

Lemma triple_close_all w0 hs : ∀ w firstErr,
  world_ok w → kept w0 w → buckets w = list_to_map hs → NoDup hs.*1 →
  (firstErr = None ∨ failing w0) →
  triple w (close_all hs firstErr)
    (λ e w', world_ok w' ∧ kept w0 w' ∧ buckets w' = ∅ ∧ (e = None ∨ failing w0))
    (λ _ _, False) (C_rel same_tables w0).
Proof.
  induction hs as [|[n h] hs IH]; intros w firstErr Hok Hk Hb Hnd Hfe; cbn [close_all]; [by tsteps|].
  apply NoDup_cons in Hnd as [Hn Hnd]. cbn in Hn.
  assert (buckets w !! n = Some h) as Hreg by (rewrite Hb; apply lookup_insert_eq).
  assert (∀ w', quiet w w' → let w2 := set_buckets (delete n) (close_handle h w') in
    world_ok w2 ∧ kept w0 w2 ∧ buckets w2 = list_to_map hs) as Hstep.
  { intros w' Hq w2. quiet_facts Hq. assert (buckets w' = buckets w) as Hbw by (by destruct Hq as (fs & _ & ->)).
    split_and!.
    - apply (world_ok_unregister n h w'); [done|by rewrite Hbw].
    - change (kept w0 w'). by eapply kept_trans.
    - cbn. rewrite Hbw, Hb. cbn. rewrite delete_insert_id; [done|by apply not_elem_of_list_to_map_1]. }
  tsteps. apply triple_db_Close; intros.
  - tsteps. destruct (Hstep w') as (? & ? & ?); [done|]. by apply IH.
  - tsteps. destruct (Hstep w') as (? & ? & ?); [done|]. apply IH; try done. right. eauto with quiet.
  - destruct (Hstep w') as (Hok2 & Hk2 & _); [done|]. destruct Hk2 as (? & ? & _).
    split_and!; [|done|eauto with quiet]. destruct (wok_disk _ Hok2). by split.
Qed.

Lemma triple_Close w :
  world_ok w →
  triple w Close (λ _ w', world_ok w' ∧ kept w w' ∧ buckets w' = ∅)
    (λ e w', world_ok w' ∧ kept w w' ∧ buckets w' = ∅ ∧ failing w) (C_rel same_tables w).
Proof.
  intros Hok. unfold Close. tsteps.
  eapply triple_mono; [apply (triple_close_all w)|..]; [done|auto with quiet| | |auto|..].
  - by rewrite list_to_map_to_list.
  - apply NoDup_fst_map_to_list.
  - intros [e|] w' (? & ? & ? & Hf); tsteps; [|done]. destruct Hf as [?|?]; done.
  - done.
  - done.
Qed.
