(* ===== verification/ObjectOps.v ===== *)
(** Triples for reading and deleting objects ([pkg/store/bucket.go]). *)

From S2P Require Import Prelude Errors GoMonad GoStd Types Names Hash Database World Bucket Store BlobWriter StoreInv Triple StoreSafe StoreOps.
From stdpp Require Import options.

(** The live version of an object, as the store describes it. *)
Definition has_object (w : world) (n name : string) (oi : ObjectInfo) : Prop :=
  ∃ t r, tables w n = Some t ∧ t !! name = Some r ∧ scanObject n name r = inr oi.

(** Why an operation cannot get at an object when nothing failed. *)
Definition object_missing (w : world) (n name : string) (e : error) : Prop :=
  e = ErrObjectNotFound ∧ ∃ t, tables w n = Some t ∧ t !! name = None.
Definition object_corrupt (w : world) (n name : string) (e : error) : Prop :=
  ∃ t r, tables w n = Some t ∧ t !! name = Some r ∧ scanObject n name r = inl e.

Lemma scanObject_not_NoRows bn name r e : scanObject bn name r = inl e → errors_Is e ErrNoRows = false.
Proof. unfold scanObject. by repeat case_match; intros ?; simplify_eq. Qed.

Lemma sql_error_not_NoRows : errors_Is sql_error ErrNoRows = false.
Proof. done. Qed.

(** In a world that satisfies the invariant every row can be read. *)
Lemma world_rows w n t name r :
  world_ok w → tables w n = Some t → t !! name = Some r → row_ok name r.
Proof.
  intros Hok (_ & d & Hd & ->)%tables_db Hr. unfold bucket_db in Hd.
  destruct (tree w !! db_path n) as [[|j|j]|]; try done.
  destruct (ok_dbs _ (wok_disk _ Hok) _ _ Hd) as [_ Hdb]. by apply (db_rows _ Hdb).
Qed.

Lemma not_corrupt w n name e : world_ok w → ¬ object_corrupt w n name e.
Proof.
  intros Hok (t & r & Ht & Hr & He). destruct (row_ok_scans n name r); [by eapply world_rows|congruence].
Qed.

(** The [getObject] query on a usable handle. *)
Lemma triple_getObject T `{!Absorbs T} w0 w h n name (Q : ObjectInfo → world → Prop) (R : error → Prop) :
  world_ok w → kept w0 w → is_open w h n →
  (∀ e, object_missing w0 n name e ∨ object_corrupt w0 n name e → R e) →
  (∀ w' oi, world_ok w' → quiet w w' → has_object w0 n name oi → Q oi w') →
  triple w (getObject h name) Q (E_rel T w0 R) (C_rel T w0).
Proof.
  intros Hok Hk Ho HR HQ. unfold getObject, object_missing, object_corrupt in *. tsteps.
  destruct (is_open_facts _ _ _ Hok Ho) as (i & d & Hh & _ & _ & _ & _ & _ & _ & Hhd & Ht).
  rewrite (kept_tables _ _ _ Hk) in Ht.
  eapply triple_load_bucket; [exact Hh|]. tsteps.
  apply triple_db_Query.
  - intros w' d' Hq Hd'. replace d' with d by congruence. quiet_facts Hq.
    assert (kept w0 w') as Hk' by by eapply kept_trans.
    unfold scan. destruct (objects d !! name) as [r|] eqn:Hr; cbn [b_name].
    + destruct (scanObject n name r) as [e|oi] eqn:Hs; tsteps.
      * rewrite (scanObject_not_NoRows _ _ _ _ Hs). tsteps.
        apply E_rel_same; [done..|]. right. apply HR. right. eauto.
      * apply HQ; [done..|]. exists (objects d), r. done.
    + tsteps. cbn. tsteps. apply E_rel_same; [done..|]. right. apply HR. left. eauto.
  - intros e w' Hq [Hf|[_ ?]]; [|congruence]. cbn beta iota.
    destruct (errors_Is e ErrNoRows); tsteps; eauto with quiet.
  - eauto with quiet.
Qed.

(** Why reading an object fails when nothing failed. *)
Definition get_error (w : world) (n name : string) (e : error) : Prop :=
  no_bucket w n e ∨ object_missing w n name e ∨ object_corrupt w n name e.

Lemma triple_GetObject w n name :
  world_ok w →
  triple w (GetObject n name)
    (λ oi w', world_ok w' ∧ kept w w' ∧ has_object w n name oi)
    (E_rel same_tables w (get_error w n name)) (C_rel same_tables w).
Proof.
  intros Hok. unfold GetObject, get_error. tsteps.
  apply triple_with_bucket; [apply _|done|auto|]. intros w1 h Hok1 Hk1 Ho.
  apply (triple_getObject same_tables _ _ _ n); [done..|tauto|].
  intros w' oi ? Hq ?. split_and!; [done|eauto with quiet|done].
Qed.

Lemma scanObject_sha bn name r oi : scanObject bn name r = inr oi → oi_SHA256 oi = r_sha256 r.
Proof. unfold scanObject. by repeat case_match; intros ?; simplify_eq. Qed.

(** The file of a live object holds bytes with the recorded hash. *)
Lemma object_blob w h n name oi :
  world_ok w → is_open w h n → has_object w n name oi →
  ∃ i c, tree w !! blob_path n (oi_SHA256 oi) = Some (NFile i) ∧ files w !! i = Some c ∧
    sha_hex c = oi_SHA256 oi.
Proof.
  intros Hok Ho (t & r & Ht & Hr & Hs).
  destruct (is_open_facts _ _ _ Hok Ho) as (i & d & _ & _ & _ & _ & Hd & _ & Hbd & _ & Ht').
  rewrite Ht in Ht'. simplify_eq. apply scanObject_sha in Hs as ->.
  assert (db_ok d) as Hdb by (by eapply ok_dbs; [apply Hok|]).
  destruct (ok_stored _ (wok_disk _ Hok) n d (r_sha256 r) Hbd) as [c Hc]; [by eapply db_ok_object_blob|].
  unfold blob_content in Hc. destruct (tree w !! blob_path n (r_sha256 r)) as [[|j|]|] eqn:Hj; try done.
  exists j, c. split_and!; try done. by eapply (ok_hash _ (wok_disk _ Hok)).
Qed.

Lemma has_object_kept w w' n name oi : kept w w' → has_object w n name oi → has_object w' n name oi.
Proof. intros Hk (t & r & ? & ? & ?). exists t, r. by rewrite (kept_tables _ _ _ Hk). Qed.

Lemma triple_OpenObject w n name :
  world_ok w →
  triple w (OpenObject n name)
    (λ '(oi, f) w', world_ok w' ∧ kept w w' ∧ has_object w n name oi ∧
       ∃ c, files w' !! f = Some c ∧ sha_hex c = oi_SHA256 oi)
    (E_rel same_tables w (get_error w n name)) (C_rel same_tables w).
Proof.
  intros Hok. unfold OpenObject, get_error. tsteps.
  apply triple_with_bucket; [apply _|done|auto|]. intros w1 h Hok1 Hk1 Ho. tsteps.
  apply (triple_getObject same_tables _ _ _ n); [done..|tauto|]. intros w2 oi Hok2 Hq2 Hobj.
  assert (is_open w2 h n) as Ho2 by eauto with quiet.
  destruct (is_open_facts _ _ _ Hok2 Ho2) as (i & d & Hh & _).
  tsteps. eapply triple_load_bucket; [exact Hh|]. tsteps.
  assert (kept w w2) as Hk2 by eauto with quiet.
  destruct (object_blob w2 h n name oi) as (j & c & Hj & Hc & Hsha);
    [done..|by eapply has_object_kept|].
  change (blobPath (mkBucket n [n] i true) (oi_SHA256 oi)) with (blob_path n (oi_SHA256 oi)).
  apply triple_os_Open.
  - intros w3 k Hq3 Hk3. tsteps. split_and!; [eauto with quiet..|done|].
    exists c. replace k with j by congruence. split; [|done]. by destruct Hq3 as (fs & _ & ->).
  - intros e w3 Hq3 [Hf|Hno]; tsteps; [eauto with quiet|]. by destruct (Hno j).
  - eauto with quiet.
Qed.

(** ** Inside a transaction *)

(** A handle that [db.Begin] succeeds on. *)
Lemma triple_tx_existing T `{!Absorbs T} w0 w b n name tx (Q : option ObjectInfo → world → Prop) (R : error → Prop) :
  world_ok w → kept w0 w → b_name b = n → tables w0 n = Some (objects tx) →
  (∀ e, object_corrupt w0 n name e → R e) →
  (∀ w' existing, world_ok w' → quiet w w' →
     match objects tx !! name, existing with
     | None, None => True
     | Some r, Some o => scanObject n name r = inr o
     | _, _ => False
     end → Q existing w') →
  triple w (tx_existing b name tx) Q (E_rel T w0 R) (C_rel T w0).
Proof.
  intros Hok Hk Hb Ht HR HQ. unfold tx_existing. tsteps.
  apply triple_tx_QueryRow; [intros w' Hq|intros w' Hq Hf; change (errors_Is sql_error ErrNoRows) with false; tfault|tfault]; quiet_facts Hq.
  assert (kept w0 w') as Hk' by by eapply kept_trans.
  unfold scan. rewrite Hb. destruct (objects tx !! name) as [r|] eqn:Hr.
  - destruct (scanObject n name r) as [e|oi] eqn:Hs; tsteps; [|by apply HQ].
    rewrite (scanObject_not_NoRows _ _ _ _ Hs). tsteps. apply E_rel_same; [done..|].
    right. apply HR. exists (objects tx), r. done.
  - tsteps. cbn. tsteps. by apply HQ.
Qed.

(** [decrefBlob] computes [decref]. *)
Lemma triple_decrefBlob T `{!Absorbs T} w0 w tx sha (Q : database * bool → world → Prop) R :
  world_ok w → kept w0 w →
  (∀ w', world_ok w' → quiet w w' → Q (decref sha tx) w') →
  triple w (decrefBlob tx sha) Q (E_rel T w0 R) (C_rel T w0).
Proof.
  intros Hok Hk HQ. unfold decrefBlob. tsteps.
  apply triple_tx_Exec; [|tfault..]. intros w1 Hq1. quiet_facts_as Hq1 Hok1 Hkq1. tsteps.
  assert (kept w0 w1) as Hk1 by eauto with quiet.
  apply triple_tx_QueryRow; [|tfault..]. intros w2 Hq2. quiet_facts_as Hq2 Hok2 Hkq2. cbn beta.
  assert (kept w0 w2) as Hk2 by eauto with quiet.
  assert (quiet w w2) as Hq by by eapply quiet_trans.
  revert HQ. unfold decref. cbv zeta.
  destruct (blobs (sql_decrement_blob sha tx) !! sha) as [br|]; cbn [fmap option_fmap option_map];
    intros HQ; [|tsteps; by apply HQ].
  destruct (b_refcount br <=? 0)%Z; tsteps; [|by apply HQ].
  apply triple_tx_Exec; [|tfault..]. intros w3 Hq3. tsteps. apply HQ; eauto with quiet.
Qed.

(** ** Changing the objects of one bucket *)

(** [w'] is [w] with the objects of bucket [n] changed as [P] says, or as it
    was. *)
Definition changed (n : string) (P : gmap string objectRow → gmap string objectRow → Prop)
    (w w' : world) : Prop :=
  ∀ m, tables w' m = tables w m ∨
    (m = n ∧ ∃ t t', tables w n = Some t ∧ tables w' n = Some t' ∧ P t t').

Lemma changed_mono n (P P' : gmap string objectRow → gmap string objectRow → Prop) w w' :
  (∀ t t', P t t' → P' t t') → changed n P w w' → changed n P' w w'.
Proof. intros HP H m. destruct (H m) as [?|(? & t & t' & ? & ? & ?)]; [by left|right]. split; [done|]. exists t, t'. auto. Qed.

#[export] Instance changed_absorbs n P : Absorbs (changed n P).
Proof.
  split; [intros w w' H m; by left|..]; intros w1 w2 w3 H1 H2 m.
  - destruct (H2 m) as [E|(-> & t & t' & ? & ? & ?)]; [left; by rewrite E|right].
    split; [done|]. exists t, t'. by rewrite <- H1.
  - rewrite H2. destruct (H1 m) as [?|(-> & t & t' & ? & ? & ?)]; [by left|right].
    split; [done|]. exists t, t'. by rewrite H2.
Qed.

(** A transaction is committed on a usable handle. *)
Lemma tx_Commit_ok w h n i tx :
  world_ok w → is_open w h n → handles w !! h = Some (mkBucket n [n] i true) → db_ok tx → initialized tx →
  (∀ sha, is_Some (blobs tx !! sha) → is_Some (blob_content w n sha)) →
  let w' := set_dbs (insert i tx) w in
  world_ok w' ∧ is_open w' h n ∧ bucket_db w' n = Some tx ∧ tables w' n = Some (objects tx) ∧
  ∀ m, m ≠ n → tables w' m = tables w m.
Proof.
  intros Hok Ho Hh Htx Hinit Hst w'.
  destruct (is_open_facts _ _ _ Hok Ho) as (i' & d & Hh' & _ & Hv & Ht & Hd & _).
  rewrite Hh in Hh'. simplify_eq.
  assert (bucket_db w' n = Some tx) as Hbd.
  { unfold bucket_db, w'; cbn. rewrite Ht. apply lookup_insert_eq. }
  split_and!; try done.
  - apply world_ok_dbs; [done|by exists d|done|]. intros m sha Hm.
    assert (m = n) as ->; [|apply Hst].
    pose proof (ok_db_inj _ (wok_disk _ Hok) _ _ _ Hm Ht) as E. unfold db_path in E. by simplify_eq.
  - apply tables_db. eauto.
  - intros m Hm. unfold tables, bucket_db, w'; cbn. destruct (validBucketName m); [|done].
    destruct (tree w !! db_path m) as [[|j|j]|] eqn:Ej; try done.
    rewrite lookup_insert_ne; [done|]. intros ->.
    pose proof (ok_db_inj _ (wok_disk _ Hok) _ _ _ Ej Ht) as E. unfold db_path in E. by simplify_eq.
Qed.

Lemma triple_tx_Commit_changed P w0 w h n d tx (Q : unit → world → Prop) R :
  world_ok w → kept w0 w → is_open w h n → bucket_db w n = Some d → db_ok tx → initialized tx →
  (∀ sha, is_Some (blobs tx !! sha) → is_Some (blob_content w n sha)) → P (objects d) (objects tx) →
  (∀ w', world_ok w' → calm w w' → calm w0 w' → changed n P w0 w' → is_open w' h n →
     bucket_db w' n = Some tx → tables w0 n = Some (objects d) → tables w' n = Some (objects tx) →
     (∃ fs i, w' = set_dbs (insert i tx) (set_faults fs w)) → Q tt w') →
  triple w (tx_Commit h tx) Q (E_rel same_tables w0 R) (C_rel (changed n P) w0).
Proof.
  intros Hok Hk Ho Hbd Htx Hti Hst HP HQ.
  destruct (is_open_facts _ _ _ Hok Ho) as (i & d' & Hh & _ & _ & _ & _ & _ & Hbd' & _ & Ht).
  replace d' with d in * by congruence. clear d' Hbd'.
  rewrite (kept_tables _ _ _ Hk) in Ht.
  apply triple_tx_Commit; [|intros e w' Hq [Hf|[_ Hno]]|tfault].
  2: eauto with quiet.
  2: by pose proof (Hno _ Hh).
  intros w1 b Hq Hb _. rewrite Hh in Hb. simplify_eq. cbn [b_db].
  quiet_facts_as Hq Hok1 Hk1. assert (kept w0 w1) as Hk' by by eapply kept_trans.
  destruct (tx_Commit_ok w1 h n i tx) as (Hok2 & Ho2 & Hbd2 & Ht2 & Hother);
    [done|eauto with quiet|by destruct Hq as (fs & _ & ->)|done..| |].
  { intros sha Hs. destruct Hq as (fs & _ & ->). by apply Hst. }
  apply HQ; try done.
  - by destruct Hk1 as (_ & ? & _).
  - by destruct Hk' as (_ & ? & _).
  - intros m. destruct (decide (m = n)) as [->|Hm].
    + right. split; [done|]. exists (objects d), (objects tx). done.
    + left. rewrite Hother by done. by apply kept_tables.
  - destruct Hq as (fs & _ & ->). eauto.
Qed.

(** A blob file that no recorded blob needs is unlinked. *)
Lemma remove_blob_ok w n sha nd :
  world_ok w → validBucketName n = true → tree w !! blob_path n sha = Some nd →
  (∀ d, bucket_db w n = Some d → blobs d !! sha = None) →
  world_ok (set_tree (delete (blob_path n sha)) w) ∧ kept w (set_tree (delete (blob_path n sha)) w) ∧ ∃ i, nd = NFile i.
Proof.
  intros Hok Hv Hnd Hneed. pose proof (ok_layout _ (wok_disk _ Hok) n _ _ Hv Hnd) as Hl. inversion Hl; subst. split_and!; [| |by eexists].
  - apply (world_ok_remove _ i); [done|done|..].
    + intros m d s Es Hd. apply blob_path_inj in Es as [<- <-]. by apply Hneed.
    + intros q bw Hbw Es. exfalso.
      destruct (ok_writers _ (wok_proc _ Hok) _ _ Hbw) as (_ & _ & _ & _ & _ & _ & (b & _ & Htmp & _) & _).
      by rewrite Htmp in Es.
  - split_and!; [|by intros ?|by apply (entries_kept_delete _ _ i)].
    intros m. unfold tables, bucket_db; cbn. destruct (validBucketName m); [|done]. by rewrite lookup_delete_ne.
Qed.

(** An orphaned blob file is removed; the error is ignored. *)
Lemma triple_remove_blob T `{!Absorbs T} w0 w n sha (Q : world → Prop) :
  world_ok w → T w0 w → calm w0 w → validBucketName n = true →
  (∀ d, bucket_db w n = Some d → blobs d !! sha = None) →
  (∀ w', world_ok w' → kept w w' → failing w ∨ tree w' !! blob_path n sha = None → 
     (∃ fs f, w' = set_tree f (set_faults fs w)) → Q w') →
  triple w (os_Remove (blob_path n sha)) (λ _, Q) (λ _, Q) (C_rel T w0).
Proof.
  intros Hok HT Hc Hv Hneed HQ. apply triple_os_Remove.
  - intros w' nd Hq Hnd Hne. quiet_facts Hq.
    destruct (remove_blob_ok w' n sha nd) as (Hok2 & Hk2 & _); [done|done|by destruct Hq as (fs & _ & ->)..|].
    apply HQ; [done|by eapply kept_trans|right; cbn; apply lookup_delete_eq|]. destruct Hq as (fs & _ & ->). eauto.
  - intros e w' Hq Hr. quiet_facts Hq. apply HQ; try done.
    + destruct Hr as [?|Hr]; [by left|right]. assert (tree w' = tree w) as -> by (by destruct Hq as (fs & _ & ->)).
      destruct Hr as [?|Hr]; [done|]. pose proof (ok_layout _ (wok_disk _ Hok) n _ _ Hv Hr) as Hl. inversion Hl.
    + destruct Hq as (fs & _ & ->). exists fs, id. by destruct w.
  - intros w' Hq Hf. quiet_facts Hq. split_and!; [by apply wok_disk| |eauto with quiet].
    eapply absorbs_post; [done|]. by destruct Hk.
Qed.

(** ** Deleting an object *)

Lemma decref_blobs sha d s : is_Some (blobs (decref sha d).1 !! s) → is_Some (blobs d !! s).
Proof.
  assert (is_Some (blobs (sql_decrement_blob sha d) !! s) → is_Some (blobs d !! s)) as H.
  { cbn. destruct (decide (s = sha)) as [->|]; [rewrite lookup_alter_eq|by rewrite lookup_alter_ne].
    by rewrite fmap_is_Some. }
  unfold decref. destruct (blobs (sql_decrement_blob sha d) !! sha) as [b|]; [|exact H].
  destruct (b_refcount b <=? 0)%Z; [|exact H]. cbn. intros Hs.
  apply H. cbn. destruct (decide (s = sha)) as [->|]; [by rewrite lookup_delete_eq in Hs; destruct Hs|].
  by rewrite lookup_delete_ne in Hs.
Qed.

Lemma decref_bucket_info sha d : bucket_info (decref sha d).1 = bucket_info d.
Proof. unfold decref. by repeat case_match. Qed.

(** The tables after a deletion can be committed. *)
Lemma delete_tx_facts w n d name r :
  world_ok w → bucket_db w n = Some d → initialized d → objects d !! name = Some r →
  let '(tx, orphan) := delete_tx name r d in
  db_ok tx ∧ (orphan = true ↔ blobs tx !! r_sha256 r = None) ∧ initialized tx ∧
  objects tx = delete name (objects d) ∧
  (∀ sha, is_Some (blobs tx !! sha) → is_Some (blob_content w n sha)).
Proof.
  intros Hok Hbd Hi Hr.
  assert (db_ok d) as Hd.
  { unfold bucket_db in Hbd. destruct (tree w !! db_path n) as [[|j|j]|]; try done.
    by eapply ok_dbs; [apply Hok|]. }
  destruct (delete_tx_ok name r d Hd Hr) as [Htxok Horph].
  pose proof (delete_tx_objects name r d) as Hobj.
  pose proof (decref_bucket_info (r_sha256 r) (sql_delete_object name d)) as Hbi.
  pose proof (decref_blobs (r_sha256 r) (sql_delete_object name d)) as Hbl.
  fold (delete_tx name r d) in Hbi, Hbl.
  destruct (delete_tx name r d) as [tx orphan]. cbn [fst snd] in *. split_and!; try done.
  - unfold initialized. by rewrite Hbi.
  - intros sha Hs. eapply (ok_stored _ (wok_disk _ Hok)); [done|]. by apply Hbl.
Qed.

(** A committed deletion. *)
Definition deletes (name : string) (conds : Conditions) (n : string)
    (t t' : gmap string objectRow) : Prop :=
  ∃ r o, t !! name = Some r ∧ scanObject n name r = inr o ∧ check conds (Some o) = None ∧
    t' = delete name t.

(** Why nothing was deleted. *)
Definition delete_error (w : world) (n name : string) (conds : Conditions) (e : error) : Prop :=
  no_bucket w n e ∨ object_corrupt w n name e ∨
  (object_missing w n name e ∧ check conds None = None) ∨
  (e = ErrPreconditionFailed ∧
   ((∃ o, has_object w n name o ∧ check conds (Some o) ≠ None) ∨
    ((∃ t, tables w n = Some t ∧ t !! name = None) ∧ check conds None ≠ None))).

(** No blob file is left without an object. *)
Definition blob_collected (w : world) (n sha : string) : Prop :=
  ∀ d, bucket_db w n = Some d → blobs d !! sha = None → tree w !! blob_path n sha = None.

Lemma triple_DeleteObject w n name conds :
  world_ok w →
  triple w (DeleteObject n name conds)
    (λ _ w', world_ok w' ∧ calm w w' ∧ changed n (deletes name conds n) w w' ∧
       ∃ t t', tables w n = Some t ∧ tables w' n = Some t' ∧ deletes name conds n t t' ∧
         (failing w ∨ ∀ r, t !! name = Some r → blob_collected w' n (r_sha256 r)))
    (E_rel same_tables w (delete_error w n name conds))
    (C_rel (changed n (deletes name conds n)) w).
Proof.
  intros Hok. unfold DeleteObject, delete_error. tsteps.
  apply triple_weaken_C; [apply _|]. apply triple_with_bucket; [apply _|done|auto|]. intros w1 h Hok1 Hk1 Ho1. tsteps.
  destruct (is_open_facts _ _ _ Hok1 Ho1) as (i & d & Hh & _ & Hv & _ & _ & Hinit & Hbd & Hhd & Ht).
  eapply triple_load_bucket; [exact Hh|]. tsteps.
  apply triple_db_Query; [|intros e w2 Hq [?|[_ ?]]; [eauto with quiet|congruence]|tfault].
  intros w2 d' Hq2 Hd'. replace d' with d by congruence. clear d' Hd'. quiet_facts_as Hq2 Hok2 Hkq2.
  assert (kept w w2) as Hk2 by eauto with quiet. tsteps.
  assert (tables w n = Some (objects d)) as Htw by by rewrite <- (kept_tables _ _ _ Hk1).
  apply triple_weaken_C; [apply _|]. apply (triple_tx_existing same_tables _ _ _ n); [done..|auto|]. intros w3 existing Hok3 Hq3 Hex.
  assert (kept w w3) as Hk3 by eauto with quiet.
  destruct (check conds existing) as [e|] eqn:Hc; tsteps.
  { apply E_rel_same; [done..|]. right. right. right. right.
    destruct (check_cases conds existing) as [?|Hc']; [congruence|]. split; [congruence|].
    destruct (objects d !! name) as [r|] eqn:Hr, existing as [o|]; try done; [left|right].
    - exists o. split; [|congruence]. exists (objects d), r. done.
    - split; [eauto|congruence]. }
  destruct (objects d !! name) as [r|] eqn:Hr, existing as [o|]; try done.
  2: { tsteps. apply E_rel_same; [done..|]. right. right. right. left. split; [|done]. split; [done|eauto]. }
  pose proof (scanObject_sha _ _ _ _ Hex) as Hsha.
  tsteps. apply triple_tx_Exec; [|tfault..]. intros w4 Hq4. quiet_facts_as Hq4 Hok4 Hkq4. tsteps.
  assert (kept w w4) as Hk4 by eauto with quiet.
  apply triple_weaken_C; [apply _|]. apply triple_decrefBlob; [apply _|done..|]. intros w5 Hok5 Hq5. rewrite Hsha.
  change (decref (r_sha256 r) (sql_delete_object name d)) with (delete_tx name r d).
  assert (kept w w5) as Hk5 by eauto with quiet.
  assert (quiet w1 w5) as Hq15 by eauto with quiet.
  assert (bucket_db w5 n = Some d) as Hbd5 by (by destruct Hq15 as (fs & _ & ->)).
  pose proof (delete_tx_facts w5 n d name r Hok5 Hbd5 Hinit Hr) as Hfacts.
  destruct (delete_tx name r d) as [tx orphan]. destruct Hfacts as (Htxok & Horph & Hti & Hobj & Hst). tsteps.
  assert (deletes name conds n (objects d) (objects tx)) as Hdel by (exists r, o; done).
  apply (triple_tx_Commit_changed _ w w5 h n d); [done|done|eauto with quiet|done..|].
  intros w6 Hok6 _ Hc6 Hch Ho6 Hbd6 _ Ht6 _. destruct orphan; tsteps.
  - assert (blobs tx !! r_sha256 r = None) as Hgone by by apply Horph.
    apply (triple_remove_blob (changed n (deletes name conds n)) w w6 n (r_sha256 r)); [done..| |].
    { intros d' Hd'. congruence. }
    intros w8 Hok8 Hk8 Hcol _. split_and!; try done.
    + eauto with quiet.
    + eapply absorbs_post; [exact Hch|by destruct Hk8].
    + exists (objects d), (objects tx). split_and!; [done|by rewrite (kept_tables _ _ _ Hk8)|done|].
      destruct Hcol as [Hf|Hcol]; [left; eauto with quiet|right].
      intros r' Hr'. replace r' with r by congruence. by intros d' _ _.
  - split_and!; try done. exists (objects d), (objects tx). split_and!; try done. right.
    intros r' Hr' d' Hd' Hb'. replace r' with r in Hb' by congruence. exfalso.
    assert (d' = tx) as -> by congruence. by apply Horph in Hb'.
Qed.
