(* ===== verification/WriterOps.v ===== *)
(** Triples for writing objects ([pkg/store/blobwriter.go]): the life of a
    [BlobWriter] from [NewBlobWriter] to [Commit] or [Abort]. *)

From S2P Require Import Prelude Errors GoMonad GoStd Types Names Hash Database World Bucket Store BlobWriter StoreInv Triple StoreSafe StoreOps ObjectOps.
From stdpp Require Import options.

(** A writer that is taking content. *)
Definition writing (w : world) (p : nat) (bw : BlobWriter) : Prop :=
  writers w !! p = Some bw ∧ w_done bw = false.

(** ** Creating temporary files *)

Lemma upload_prefix pre k m :
  pre = "upload-" ∨ pre = "part-" → ∀ pre', pre' = "upload-" ∨ pre' = "part-" →
  pre +:+ pretty (N.of_nat k) = pre' +:+ pretty (N.of_nat m) → k = m.
Proof.
  intros [->| ->] pre' [->| ->] H; try (rewrite !str_app_cons in H; discriminate);
    apply (inj (String.app _)), (inj pretty) in H; lia.
Qed.

(** A number that was never used makes a new name. *)
Lemma temp_path_free w n pre :
  world_ok w → validBucketName n = true → pre = "upload-" ∨ pre = "part-" →
  tree w !! temp_path [n; "tmp"] pre (next w) = None.
Proof.
  intros Hok Hn Hpre. destruct (tree w !! temp_path [n; "tmp"] pre (next w)) as [nd|] eqn:E; [|done].
  pose proof (ok_layout _ (wok_disk _ Hok) _ _ _ Hn E) as Hl. exfalso.
  inversion Hl as [| | | |pre' i Hpre' E'| |]; subst.
  apply upload_prefix in E' as ->; [|done..].
  destruct (ok_file _ (wok_disk _ Hok) _ _ E). lia.
Qed.

(** The world with a new empty temporary file. *)
Definition with_temp (p : path) (w : world) : world :=
  set_next (S (next w)) (set_files (insert (next w) []) (set_tree (insert p (NFile (next w))) w)).

Lemma with_temp_kept w n pre :
  world_ok w → tree w !! temp_path [n; "tmp"] pre (next w) = None → kept w (with_temp (temp_path [n; "tmp"] pre (next w)) w).
Proof.
  intros Hok Hnone. split_and!; [|by intros ?|].
  - intros m. unfold tables, bucket_db; cbn. destruct (validBucketName m); [|done].
    by rewrite lookup_insert_ne.
  - split; unfold part_at.
    + intros q Hq. assert (temp_path [n; "tmp"] pre (next w) ≠ q) by congruence. cbn. by rewrite lookup_insert_ne.
    + intros m k i c [Hp Hi]. destruct (ok_file _ (wok_disk _ Hok) _ _ Hp).
      assert (temp_path [n; "tmp"] pre (next w) ≠ part_path m k) by congruence. cbn.
      rewrite (lookup_insert_ne (files w)) by lia. by rewrite lookup_insert_ne.
Qed.

Definition no_tmp_dir (w : world) (n : string) : Prop := tree w !! [n; "tmp"] ≠ Some NDir.

Lemma triple_CreateTemp_ok T `{!Absorbs T} w0 w n pre (Q : path * nat → world → Prop) (R : error → Prop) :
  world_ok w → kept w0 w → validBucketName n = true → pre = "upload-" ∨ pre = "part-" →
  (∀ m k, k < next w → upload_path m k ≠ temp_path [n; "tmp"] pre (next w)) →
  (∀ e, no_tmp_dir w0 n → R e) →
  (∀ w', let p := temp_path [n; "tmp"] pre (next w) in
     world_ok (with_temp p w') → kept w (with_temp p w') → quiet w w' → Q (p, next w) (with_temp p w')) →
  triple w (os_CreateTemp [n; "tmp"] pre) Q (E_rel T w0 R) (C_rel T w0).
Proof.
  intros Hok Hk Hn Hpre Hfresh HR HQ. apply triple_os_CreateTemp; [| |tfault].
  - intros w' Hq Hdir Hnone. quiet_facts_as Hq Hok' Hk'. assert (next w' = next w) as Hnx by (by destruct Hq as (fs & _ & ->)).
    assert (tree w' = tree w) as Htr by (by destruct Hq as (fs & _ & ->)).
    specialize (HQ w'). unfold with_temp in *. rewrite Hnx in *. apply HQ; [| |done].
    + pose proof (world_ok_new_file n pre w' Hok' Hpre) as H. cbn zeta in H.
      rewrite Hnx, Htr in H. apply H; [done| |done].
      change (parent (temp_path [n; "tmp"] pre (next w))) with [n; "tmp"]. done.
    + eapply kept_trans; [exact Hk'|]. rewrite <- Hnx. apply with_temp_kept; [done|]. by rewrite Hnx, Htr.
  - intros e w' Hq [Hf|[Hd|Hs]].
    + eauto with quiet.
    + quiet_facts_as Hq Hok' Hk'. apply E_rel_same; [done|by eapply kept_trans|]. right. apply HR.
      apply (kept_is_dir _ _ _ Hk) in Hd. unfold is_dir in Hd. by apply bool_decide_eq_false in Hd.
    + rewrite temp_path_free in Hs by done. by destruct Hs.
Qed.

(** The world with a writer on a new temporary file. *)
Definition with_writer (h : nat) (n : string) (w : world) : world :=
  let w1 := with_temp (upload_path n (next w)) w in
  set_writers (insert (next w1) (mkBlobWriter h (upload_path n (next w)) (next w) [] [] [] 0 false)) (set_next (S (next w1)) w1).

(** [NewBlobWriter] once the bucket has been found. *)
Lemma triple_new_writer T `{!Absorbs T} w0 w h n (Q : nat → world → Prop) (R : error → Prop) :
  world_ok w → kept w0 w → is_open w h n → (∀ e, no_tmp_dir w0 n → R e) →
  (∀ w1, let p := S (next w) in let w' := with_writer h n w1 in
     quiet w w1 → world_ok w' → kept w w' → writing w' p (mkBlobWriter h (upload_path n (next w)) (next w) [] [] [] 0 false) →
     is_open w' h n → Q p w') →
  triple w
    (let* b := load_bucket h in
     let* ' (tmp, ino) := os_CreateTemp (b_dir b ++ ["tmp"]) "upload-" in
     let* p := fresh in
     do* modify (set_writers (insert p (mkBlobWriter h tmp ino [] [] [] 0 false))) in
     ret p) Q (E_rel T w0 R) (C_rel T w0).
Proof.
  intros Hok Hk Ho HR HQ. tsteps.
  destruct (is_open_facts _ _ _ Hok Ho) as (i & d & Hh & _ & Hv & _).
  eapply triple_load_bucket; [exact Hh|]. tsteps.
  change (b_dir (mkBucket n [n] i true) ++ ["tmp"]) with [n; "tmp"].
  apply triple_CreateTemp_ok; [apply _|done..|auto| |auto|].
  { intros m k Hlt E. change (temp_path [n; "tmp"] "upload-" (next w)) with (upload_path n (next w)) in E.
    apply upload_path_inj in E. lia. }
  intros w2 p Hok2 Hk2 Hq2. tsteps. specialize (HQ w2). unfold with_writer in HQ.
  fold (upload_path n (next w)) in p. fold p in HQ.
  assert (handles w2 = handles w ∧ writers w2 = writers w ∧ next w2 = next w) as (Hh2 & Hw2 & Hn2) by (by destruct Hq2 as (fs & _ & ->)).
  rewrite Hn2 in HQ. fold p in HQ. set (w3 := with_temp p w2) in *.
  assert (handles w3 = handles w ∧ writers w3 = writers w ∧ next w3 = S (next w)) as (Hh3 & Hw3 & Hn3).
  { unfold w3, with_temp. cbn. by rewrite Hn2. }
  assert (∀ q bw, writers w !! q = Some bw → q < next w ∧ w_ino bw < next w) as Hold.
  { intros q bw Hbw. destruct (ok_writers _ (wok_proc _ Hok) _ _ Hbw) as (? & ? & _). done. }
  assert (handles (set_next (S (next w3)) w3) !! h = Some (mkBucket n [n] i true)) as Hopen by (cbn; by rewrite Hh2).
  rewrite Hn3 in *. apply HQ; [done| |exact Hk2|split; [apply lookup_insert_eq|done]|by eexists].
  apply (world_ok_new_writer (S (next w)) (next w) h (mkBucket n [n] i true) (set_next (S (S (next w))) w3));
    [apply world_ok_next; [done|lia]|cbn; lia|change (next w < S (S (next w))); lia|cbn; rewrite Hn2; apply lookup_insert_eq|exact Hopen|
     cbn; rewrite Hn2; apply lookup_insert_eq|..].
  - change (writers w3 !! S (next w) = None). rewrite Hw3. destruct (writers w !! S (next w)) eqn:E; [|done]. apply Hold in E. lia.
  - intros q bw Hq. change (writers w3 !! q = Some bw) in Hq. rewrite Hw3 in Hq. apply Hold in Hq. lia.
Qed.

Lemma triple_NewBlobWriter w n :
  world_ok w →
  triple w (NewBlobWriter n)
    (λ p w', world_ok w' ∧ kept w w' ∧ ∃ bw, writing w' p bw ∧ w_sha bw = [] ∧ is_open w' (w_b bw) n)
    (E_rel same_tables w (λ e, no_bucket w n e ∨ no_tmp_dir w n)) (C_rel same_tables w).
Proof.
  intros Hok. unfold NewBlobWriter. tsteps.
  apply triple_with_bucket; [apply _|done|auto|]. intros w1 h Hok1 Hk1 Ho1.
  apply (triple_new_writer same_tables w w1 h n); [done..|auto|]. intros w2 p w' _ Hok' Hk' Hw' Ho'.
  split_and!; [done|by eapply kept_trans|]. by eexists.
Qed.

Lemma triple_TempFile w n :
  world_ok w →
  triple w (TempFile n)
    (λ '(p, i) w', world_ok w' ∧ kept w w' ∧ p = part_path n i ∧ part_at w' p i [] ∧
       ∀ j c, ¬ part_at w p j c)
    (E_rel same_tables w (λ e, no_bucket w n e ∨ no_tmp_dir w n)) (C_rel same_tables w).
Proof.
  intros Hok. unfold TempFile. tsteps.
  apply triple_with_bucket; [apply _|done|auto|]. intros w1 h Hok1 Hk1 Ho1. tsteps.
  destruct (is_open_facts _ _ _ Hok1 Ho1) as (i & d & Hh & _ & Hv & _).
  eapply triple_load_bucket; [exact Hh|]. tsteps.
  change (b_dir (mkBucket n [n] i true) ++ ["tmp"]) with [n; "tmp"].
  apply triple_CreateTemp_ok; [apply _|done..|auto| |auto|].
  { intros m k _ E. unfold upload_path, temp_path in E. discriminate. }
  intros w2 p Hok2 Hk2 Hq2. cbn beta iota.
  assert (next w2 = next w1) as Hn2 by (by destruct Hq2 as (fs & _ & ->)).
  unfold with_temp in *. rewrite Hn2 in *.
  split_and!; [done|by eapply kept_trans|done|split; apply lookup_insert_eq|].
  intros j c Hp. destruct Hk1 as (_ & _ & Hk1). apply Hk1 in Hp as [Hp _].
  unfold part_path in Hp. rewrite (temp_path_free w1 n "part-") in Hp; [done|done|done|by right].
Qed.

(** ** Writing *)

Lemma feed_nil w p bw : world_ok w → writers w !! p = Some bw → feed [] bw = bw.
Proof.
  intros Hok Hbw. destruct (ok_writers _ (wok_proc _ Hok) _ _ Hbw) as (_ & _ & _ & _ & Hsz & _).
  unfold feed. rewrite !app_nil_r. cbn. rewrite Z.add_0_r, Hsz.
  destruct bw; cbn in *. f_equal. rewrite Hsz. unfold int64.
  apply f_equal2; [|done]. rewrite Z.sub_add. apply Zmod_mod.
Qed.

(** The file and the hashes take the same bytes. *)
Definition fed (p : nat) (bw : BlobWriter) (q : bytes) (w : world) : world :=
  set_writers (alter (feed q) p) (set_files (alter (λ c, c ++ q) (w_ino bw)) w).

Lemma fed_ok w p bw q : world_ok w → writing w p bw → world_ok (fed p bw q w) ∧ kept w (fed p bw q w).
Proof.
  intros Hok [Hbw Hnd]. split; [by apply world_ok_write|]. split; [done|]. split; [by intros ?|]. split; [done|].
  intros n k i c [Hp Hi]. split; [done|]. cbn. rewrite lookup_alter_ne; [done|]. intros <-.
  destruct (ok_writers _ (wok_proc _ Hok) _ _ Hbw) as (_ & _ & _ & _ & _ & _ & (b & _ & Htmp & _) & Honly & _).
  pose proof (Honly _ Hnd Hp) as E. rewrite Htmp in E. by destruct (part_not_upload _ _ _ _ E).
Qed.

Lemma fed_nil w p bw : world_ok w → writing w p bw → set_files (alter (λ c, c ++ []) (w_ino bw)) w = fed p bw [] w.
Proof.
  intros Hok [Hbw Hnd]. unfold fed. destruct w as [tr fi db nx ha bu wr no fa]; unfold set_writers, set_files; cbn. f_equal.
  apply map_eq. intros j. destruct (decide (j = p)) as [->|]; [|by rewrite lookup_alter_ne].
  rewrite lookup_alter_eq. cbn in Hbw. rewrite Hbw. cbn. f_equal. symmetry. by eapply feed_nil.
Qed.

Lemma triple_Write T `{!Absorbs T} w0 w p bw q (Q : nat * option error → world → Prop) (E : error → world → Prop) :
  world_ok w → kept w0 w → writing w p bw →
  (∀ w' k err, world_ok w' → kept w w' → handles w' = handles w → writing w' p (feed (take k q) bw) →
     k ≤ length q → (err = None ∧ k = length q ∨ failing w ∧ ∃ e, err = Some e) → Q (k, err) w') →
  triple w (Write p q) Q E (C_rel T w0).
Proof.
  intros Hok Hk Hw HQ. pose proof Hw as [Hbw Hnd]. unfold Write. tsteps.
  eapply triple_load_writer; [exact Hbw|]. rewrite Hnd. tsteps.
  assert (∀ w' k err, quiet w w' → k ≤ length q →
    (err = None ∧ k = length q ∨ failing w ∧ ∃ e, err = Some e) →
    Q (k, err) (fed p bw (take k q) w')) as Hdone.
  { intros w' k err Hq Hle Herr. quiet_facts_as Hq Hok' Hk'.
    assert (writing w' p bw) as Hw' by (by destruct Hq as (fs & _ & ->)).
    destruct (fed_ok w' p bw (take k q) Hok' Hw') as [Hok2 Hk2].
    apply HQ; [done|by eapply kept_trans|by destruct Hq as (fs & _ & ->)| |done..].
    destruct Hw' as [Hbw' _]. split; [|done]. cbn. by rewrite lookup_alter_eq, Hbw'. }
  assert (∀ w' k err, quiet w w' → k ≤ length q →
    (err = None ∧ k = length q ∨ failing w ∧ ∃ e, err = Some e) →
    triple (set_files (alter (λ c, c ++ take k q) (w_ino bw)) w')
      (if 0 <? k then let* _ := modify (set_writers (alter (feed (take k q)) p)) in ret (k, err) else ret (k, err))
      Q E (C_rel T w0)) as Hrest.
  { intros w' k err Hq Hle Herr. pose proof (Hdone w' k err Hq Hle Herr) as Hd.
    destruct (Nat.ltb_spec 0 k); tsteps; [exact Hd|]. replace k with 0 in * by lia.
    cbn [take] in *. rewrite (fed_nil _ p); [exact Hd|eauto with quiet|by destruct Hq as (fs & _ & ->)]. }
  apply triple_file_Write.
  - intros w' Hq. pose proof (Hrest w' (length q) None Hq) as H. rewrite firstn_all in H. cbn beta iota.
    rewrite firstn_all. apply H; auto.
  - intros w' n Hq Hf. pose proof (Hrest w' (length (take n q)) (Some (SysErr EIO)) Hq) as H. cbn beta iota.
    rewrite length_take, <- take_take, firstn_all in *.
    apply H; [lia|eauto].
  - intros w' n Hq Hf. quiet_facts_as Hq Hok' Hk'.
    destruct (fed_ok w' p bw (take n q) Hok') as [Hok2 Hkf]; [by destruct Hq as (fs & _ & ->)|].
    assert (disk_ok (set_files (alter (λ c, c ++ take n q) (w_ino bw)) w')) as Hd.
    { destruct (wok_disk _ Hok2). by split. }
    apply C_rel_same; [done| |eauto with quiet]. exact (kept_trans _ _ _ (kept_trans _ _ _ Hk Hk') Hkf).
Qed.

(** [io.Copy] into a writer. *)
Definition same_writer (bw bw' : BlobWriter) : Prop :=
  w_b bw' = w_b bw ∧ w_tmp bw' = w_tmp bw ∧ w_ino bw' = w_ino bw.

Lemma triple_io_Copy T `{!Absorbs T} w0 (Q : Z * option error → world → Prop) (E : error → world → Prop) p pieces end_ : ∀ w bw n,
  world_ok w → kept w0 w → writing w p bw →
  (∀ w' bw' k err, world_ok w' → kept w0 w' → handles w' = handles w → writing w' p bw' →
     same_writer bw bw' →
     match err with
     | None => end_ = None ∧ w_sha bw' = w_sha bw ++ concat pieces ∧
         (int64 n = n → k = int64 (n + Z.of_nat (length (concat pieces))))
     | Some e => failing w0 ∨ end_ = Some e
     end → Q (k, err) w') →
  triple w (io_Copy p pieces end_ n) Q E (C_rel T w0).
Proof.
  induction pieces as [|q pieces IH]; intros w bw n Hok Hk Hw HQ; cbn [io_Copy].
  { tsteps. eapply HQ; [done..|]. destruct end_; [by right|]. cbn. by rewrite app_nil_r, Z.add_0_r. }
  destruct q as [|a q]; [by eapply IH|]. tsteps.
  apply (triple_Write T w0 w p bw); [done..|]. intros w1 k err Hok1 Hk1 Hh1 Hw1 Hle Herr. cbn beta iota.
  assert (kept w0 w1) as Hk1' by by eapply kept_trans.
  destruct Herr as [[-> ->]|[Hf [e ->]]].
  - rewrite Nat.eqb_refl. cbn [negb]. rewrite firstn_all in Hw1.
    eapply IH; [done..|]. intros w2 bw2 k err ? ? Hh2 ? ? Herr. eapply HQ; [done..|congruence|done|done|].
    destruct err; [done|]. destruct Herr as (? & E' & Hcount). split_and!; [done| |].
    + rewrite E'. cbn. by rewrite <- app_assoc.
    + intros _. rewrite Hcount by apply int64_idem. rewrite int64_add_l. cbn [concat]. rewrite length_app. f_equal. lia.
  - tsteps. eapply HQ; [done..|]. left. eauto with quiet.
Qed.

(** ** Removing the temporary file *)

Lemma writer_bucket w p bw :
  world_ok w → writers w !! p = Some bw →
  ∃ b, handles w !! w_b bw = Some b ∧ validBucketName (b_name b) = true ∧ b_dir b = [b_name b] ∧
    w_tmp bw = upload_path (b_name b) (w_ino bw).
Proof.
  intros Hok Hbw.
  destruct (ok_writers _ (wok_proc _ Hok) _ _ Hbw) as (_ & _ & _ & _ & _ & _ & (b & Hb & Htmp & _) & _).
  exists b. destruct (ok_handles _ (wok_proc _ Hok) _ _ Hb) as (? & _). split_and!; try done.
  by eapply (ok_names _ (wok_proc _ Hok)).
Qed.

(** The temporary file of a finished writer goes away. *)
Lemma remove_tmp_ok w p bw i :
  world_ok w → writers w !! p = Some bw → w_done bw = true → tree w !! w_tmp bw = Some (NFile i) →
  world_ok (set_tree (delete (w_tmp bw)) w) ∧ kept w (set_tree (delete (w_tmp bw)) w).
Proof.
  intros Hok Hbw Hdone Hi. destruct (writer_bucket _ _ _ Hok Hbw) as (b & _ & _ & _ & Htmp). split.
  - apply (world_ok_remove _ i); [done..| |].
    + intros m d s E. by rewrite Htmp in E.
    + intros q bw' Hq' E. destruct (writer_bucket _ _ _ Hok Hq') as (b' & _ & _ & _ & Htmp').
      rewrite Htmp, Htmp' in E. apply upload_path_inj in E as [_ E].
      assert (q = p) as -> by (by eapply (ok_writers_inj _ (wok_proc _ Hok))). congruence.
  - split_and!; [|by intros ?|].
    + intros m. unfold tables, bucket_db; cbn. destruct (validBucketName m); [|done].
      rewrite lookup_delete_ne; [done|]. rewrite Htmp. apply upload_not_db.
    + apply (entries_kept_delete _ _ i); [done|]. intros m k E. rewrite Htmp in E. by destruct (part_not_upload m k (b_name b) (w_ino bw)).
Qed.

Lemma triple_remove_tmp T `{!Absorbs T} w0 w p bw (Q : world → Prop) :
  world_ok w → T w0 w → calm w0 w → writers w !! p = Some bw → w_done bw = true →
  (∀ w', world_ok w' → kept w w' → same_memory w w' → failing w ∨ tree w' !! w_tmp bw = None → Q w') →
  triple w (os_Remove (w_tmp bw)) (λ _, Q) (λ _, Q) (C_rel T w0).
Proof.
  intros Hok HT Hc Hbw Hdone HQ.
  destruct (writer_bucket _ _ _ Hok Hbw) as (b & _ & Hv & _ & Htmp).
  assert (∀ nd, tree w !! w_tmp bw = Some nd → ∃ i, nd = NFile i) as Hnode.
  { intros nd Hnd. rewrite Htmp in Hnd. pose proof (ok_layout _ (wok_disk _ Hok) _ _ _ Hv Hnd) as Hl.
    inversion Hl; subst. eauto. }
  apply triple_os_Remove.
  - intros w' nd Hq Hnd Hne. quiet_facts_as Hq Hok' Hk'. destruct (Hnode _ Hnd) as [i ->].
    destruct (remove_tmp_ok w' p bw i) as [? ?]; [done|by destruct Hq as (fs & _ & ->)|done|by destruct Hq as (fs & _ & ->)|].
    apply HQ; [done|by eapply kept_trans| |right; cbn; apply lookup_delete_eq].
    by destruct Hq as (fs & _ & ->).
  - intros e w' Hq Hr. quiet_facts_as Hq Hok' Hk'. apply HQ; [done..|by apply quiet_same_memory|].
    destruct Hr as [?|[?|Hd]]; [by left|right|].
    + by destruct Hq as (fs & _ & ->).
    + by destruct (Hnode _ Hd).
  - intros w' Hq Hf. quiet_facts_as Hq Hok' Hk'. split_and!; [by apply wok_disk| |eauto with quiet].
    eapply absorbs_post; [done|]. by destruct Hk'.
Qed.

Lemma triple_Abort w p bw :
  world_ok w → writing w p bw →
  triple w (Abort_ p)
    (λ _ w', world_ok w' ∧ kept w w' ∧ writers w' !! p = Some (set_done bw) ∧
       (failing w ∨ tree w' !! w_tmp bw = None))
    (λ _ _, False) (C_rel same_tables w).
Proof.
  intros Hok [Hbw Hnd]. unfold Abort_. tsteps. eapply triple_load_writer; [exact Hbw|].
  rewrite Hnd. tsteps. set (w1 := set_writers (alter set_done p) w).
  assert (world_ok w1) as Hok1 by by apply world_ok_done.
  assert (kept w w1) as Hk1 by (split_and!; [by intros ?..|by apply entries_kept_same]).
  assert (writers w1 !! p = Some (set_done bw)) as Hbw1 by (cbn; by rewrite lookup_alter_eq, Hbw).
  assert (∀ w2, quiet w1 w2 → triple w2 (ignore (os_Remove (w_tmp bw)))
    (λ _ w', world_ok w' ∧ kept w w' ∧ writers w' !! p = Some (set_done bw) ∧
       (failing w ∨ tree w' !! w_tmp bw = None)) (λ _ _, False) (C_rel same_tables w)) as Hrest.
  { intros w2 Hq2. quiet_facts_as Hq2 Hok2 Hk2. assert (kept w w2) as Hk2' by exact (kept_trans _ _ _ Hk1 Hk2).
    tsteps. apply (triple_remove_tmp same_tables w w2 p (set_done bw)); [done|by destruct Hk2'|
      by destruct Hk2' as (_ & ? & _)|by destruct Hq2 as (fs & _ & ->)|done|].
    intros w3 Hok3 Hk3 (_ & _ & Hw3) Hf. split_and!; [done|by eapply kept_trans|rewrite Hw3; by destruct Hq2 as (fs & _ & ->)|].
    destruct Hf as [Hf|?]; [left|by right]. eauto with quiet. }
  unfold file_Close. apply triple_call; [|intros; by apply Hrest|].
  - intros w2 Hq2. apply triple_ret. by apply Hrest.
  - intros w2 Hq2 Hf. eauto with quiet.
Qed.

Lemma triple_Abort_done w p bw (Q : unit → world → Prop) E C :
  writers w !! p = Some bw → w_done bw = true → Q tt w → triple w (Abort_ p) Q E C.
Proof.
  intros Hbw Hd HQ. unfold Abort_. tsteps. eapply triple_load_writer; [exact Hbw|]. rewrite Hd. by tsteps.
Qed.

(** ** Installing the blob *)

(** [w'] is [w] with some directories added. *)
Record more_dirs (w w' : world) : Prop := {
  md_calm : calm w w';
  md_next : next w' = next w;
  md_memory : same_memory w w';
  md_files : files w' = files w;
  md_dbs : dbs w' = dbs w;
  md_nodes p nd : nd ≠ NDir → tree w' !! p = Some nd ↔ tree w !! p = Some nd;
  md_dirs : entries_kept w w';
}.

Lemma more_dirs_quiet w w' : quiet w w' → more_dirs w w'.
Proof. intros Hq. pose proof (quiet_calm _ _ Hq). destruct Hq as (fs & _ & ->). split; try done. Qed.

Lemma more_dirs_trans w1 w2 w3 : more_dirs w1 w2 → more_dirs w2 w3 → more_dirs w1 w3.
Proof.
  intros [? ? (? & ? & ?) ? ? Hn1 ?] [? ? (? & ? & ?) ? ? Hn2 ?]. split; try congruence.
  - by eapply calm_trans.
  - split_and!; congruence.
  - intros p nd Hnd. by rewrite Hn2, Hn1.
  - by eapply entries_kept_trans.
Qed.

Lemma more_dirs_bucket_db w w' n : more_dirs w w' → bucket_db w' n = bucket_db w n.
Proof.
  intros [_ _ _ _ Hdbs Hn _]. unfold bucket_db. rewrite Hdbs.
  destruct (tree w' !! db_path n) as [[|i|i]|] eqn:E'.
  - destruct (tree w !! db_path n) as [[|j|j]|] eqn:E; try done.
    apply Hn in E; [congruence|done].
  - apply Hn in E'; [by rewrite E'|done].
  - apply Hn in E'; [by rewrite E'|done].
  - destruct (tree w !! db_path n) as [[|j|j]|] eqn:E; try done.
    apply Hn in E; [congruence|done].
Qed.

Lemma more_dirs_kept w w' : more_dirs w w' → kept w w'.
Proof.
  intros H. split_and!; [|apply H..]. intros n. unfold tables.
  destruct (validBucketName n); [|done]. by rewrite (more_dirs_bucket_db w w').
Qed.

Lemma triple_mkdir_missing T `{!Absorbs T} w0 w n rest (Q : unit → world → Prop) R :
  world_ok w → kept w0 w → validBucketName n = true → layout rest NDir →
  (∀ nd, layout rest nd → nd = NDir) → is_dir (tree w) (parent (n :: rest)) = true →
  (∀ w', world_ok w' → more_dirs w w' → is_dir (tree w') (n :: rest) = true → Q tt w') →
  triple w (mkdir_missing (n :: rest)) Q (E_rel T w0 R) (C_rel T w0).
Proof.
  intros Hok Hk Hn Hl Honly Hpar HQ. unfold mkdir_missing. tsteps.
  destruct (is_dir (tree w) (n :: rest)) eqn:Hd; tsteps.
  { apply HQ; [done|apply more_dirs_quiet, quiet_refl|done]. }
  destruct (tree w !! (n :: rest)) as [nd|] eqn:Hnd.
  { rewrite (Honly nd) in Hnd by by eapply (ok_layout _ (wok_disk _ Hok) n).
    unfold is_dir in Hd. apply bool_decide_eq_false in Hd. done. }
  apply triple_os_Mkdir_ok; [done..| | |tfault].
  - intros w' Hok' Hk' _ (fs & ->). apply HQ; [done| |apply bool_decide_eq_true, lookup_insert_eq].
    destruct Hk' as (_ & ? & ?). split; try done. intros p nd Hne. cbn.
    destruct (decide (n :: rest = p)) as [<-|]; [rewrite lookup_insert_eq, Hnd; naive_solver|by rewrite lookup_insert_ne].
  - intros e w' Hq [Hf|[[_ Hs]|(_ & _ & Hp)]]; [eauto with quiet| |congruence].
    rewrite Hnd in Hs. by destruct Hs.
Qed.

Lemma triple_mkdir_blob T `{!Absorbs T} w0 w n hh (Q : unit → world → Prop) R :
  world_ok w → kept w0 w → validBucketName n = true →
  (∀ w', world_ok w' → more_dirs w w' → is_dir (tree w') [n; "objects"; hh] = true → Q tt w') →
  triple w (os_MkdirAll [n; "objects"; hh]) Q (E_rel T w0 R) (C_rel T w0).
Proof.
  intros Hok Hk Hn HQ. unfold os_MkdirAll. cbn [mkdir_all app]. tsteps.
  apply (triple_mkdir_missing T w0); [done|done|done|constructor|by inversion 1|done|].
  intros w1 Hok1 Hm1 Hd1. tsteps.
  assert (kept w0 w1) as Hk1 by (eapply kept_trans; [exact Hk|by apply more_dirs_kept]).
  apply (triple_mkdir_missing T w0); [done|done|done|constructor|by inversion 1|done|].
  intros w2 Hok2 Hm2 Hd2. tsteps.
  assert (kept w0 w2) as Hk2 by (eapply kept_trans; [exact Hk1|by apply more_dirs_kept]).
  apply (triple_mkdir_missing T w0); [done|done|done|constructor|by inversion 1|done|].
  intros w3 Hok3 Hm3 Hd3. tsteps. apply HQ; [done| |done].
  by do 2 (eapply more_dirs_trans; [eassumption|]).
Qed.

(** The file of a finished writer becomes a blob. *)
Definition renamed (bw : BlobWriter) (n : string) (w : world) : world :=
  set_tree (λ t, <[blob_path n (sha_hex (w_sha bw)) := NFile (w_ino bw)]> (delete (w_tmp bw) t)) w.

Lemma renamed_ok w p bw b :
  let n := b_name b in let w' := renamed bw n w in
  world_ok w → writers w !! p = Some bw → w_done bw = true → handles w !! w_b bw = Some b →
  tree w !! w_tmp bw = Some (NFile (w_ino bw)) → is_dir (tree w) (parent (blob_path n (sha_hex (w_sha bw)))) = true →
  tree w !! blob_path n (sha_hex (w_sha bw)) ≠ Some NDir →
  world_ok w' ∧ kept w w' ∧ is_Some (blob_content w' n (sha_hex (w_sha bw))) ∧ ∀ m, bucket_db w' m = bucket_db w m.
Proof.
  intros n w' Hok Hbw Hdone Hb Hi Hdir Hdst.
  destruct (writer_bucket _ _ _ Hok Hbw) as (b' & Hb' & Hv & _ & Htmp). replace b' with b in * by congruence. fold n in Htmp.
  destruct (ok_writers _ (wok_proc _ Hok) _ _ Hbw) as (_ & _ & _ & _ & _ & Hf & _).
  assert (∀ m, bucket_db w' m = bucket_db w m) as Hdb.
  { intros m. unfold bucket_db; cbn. rewrite lookup_insert_ne by done. rewrite lookup_delete_ne; [done|].
    rewrite Htmp. apply upload_not_db. }
  split_and!; [| | |done].
  - unfold w', renamed. rewrite Htmp in *. apply (world_ok_rename n (w_ino bw) (w_ino bw) (w_sha bw)); try done.
    intros q bw' Hq' E.
    assert (q = p) as -> by (by eapply (ok_writers_inj _ (wok_proc _ Hok))). congruence.
  - split_and!; [|by intros ?|].
    + intros m. unfold tables. by rewrite Hdb.
    + split; unfold part_at.
      * intros q Hq'. cbn. rewrite lookup_insert_ne, lookup_delete_ne; [done|..]; congruence.
      * intros m k j c [Hq' Hj]. split; [|done]. cbn. rewrite lookup_insert_ne, lookup_delete_ne; [done| |done].
        rewrite Htmp. intros E. by destruct (part_not_upload m k n (w_ino bw)).
  - unfold blob_content, w', renamed. cbn. rewrite lookup_insert_eq, Hf. by eexists.
Qed.

(** A finished writer whose bucket is usable gets its content in place. *)
Lemma triple_install_blob T `{!Absorbs T} w0 w p bw b (Q : unit → world → Prop) (R : error → Prop) :
  world_ok w → kept w0 w → writers w !! p = Some bw → w_done bw = true →
  handles w !! w_b bw = Some b →
  (tree w !! w_tmp bw ≠ Some (NFile (w_ino bw)) → ∀ e, R e) →
  (∀ w', world_ok w' → kept w w' → same_memory w w' →
     is_Some (blob_content w' (b_name b) (sha_hex (w_sha bw))) →
     (∀ n, bucket_db w' n = bucket_db w n) → Q tt w') →
  triple w (install_blob (w_tmp bw) (blob_path (b_name b) (sha_hex (w_sha bw)))) Q (E_rel T w0 R) (C_rel T w0).
Proof.
  intros Hok Hk Hbw Hdone Hb HR HQ. unfold install_blob. tsteps.
  destruct (writer_bucket _ _ _ Hok Hbw) as (b' & Hb' & Hv & _ & Htmp). replace b' with b in * by congruence.
  set (n := b_name b) in *. set (sha := sha_hex (w_sha bw)) in *.
  apply triple_os_Stat; [intros w1 nd Hq Hnd|intros e w1 Hq _|tfault]; quiet_facts_as Hq Hok1 Hk1; tsteps.
  { apply HQ; [done|done|by apply quiet_same_memory| |by destruct Hq as (fs & _ & ->)].
    pose proof (ok_layout _ (wok_disk _ Hok) _ _ _ Hv Hnd) as Hl. inversion Hl; subst.
    assert (tree w1 !! blob_path n sha = Some (NFile i)) as Hi by (by destruct Hq as (fs & _ & ->)).
    unfold blob_content. rewrite Hi. by destruct (ok_file _ (wok_disk _ Hok1) _ _ Hi). }
  assert (kept w0 w1) as Hk1' by exact (kept_trans _ _ _ Hk Hk1).
  change (parent (blob_path n sha)) with [n; "objects"; str_take 2 sha].
  apply (triple_mkdir_blob T w0); [done..|]. intros w2 Hok2 Hm2 Hd2.
  assert (more_dirs w w2) as Hm by (eapply more_dirs_trans; [by apply more_dirs_quiet|done]).
  assert (kept w0 w2) as Hk2 by (eapply kept_trans; [exact Hk|by apply more_dirs_kept]).
  destruct (md_memory _ _ Hm) as (Hmh & _ & Hmw).
  assert (writers w2 !! p = Some bw) as Hbw2 by by rewrite Hmw.
  apply triple_os_Rename; [| |tfault].
  - intros w3 i Hq3 Hi _ Hdst. quiet_facts_as Hq3 Hok3 Hk3.
    destruct (ok_writers _ (wok_proc _ Hok2) _ _ Hbw2) as (_ & _ & _ & _ & _ & _ & _ & _ & Hw2 & _).
    pose proof (Hw2 i Hi) as ->.
    assert (tree w3 = tree w2 ∧ handles w3 = handles w2 ∧ writers w3 = writers w2) as (Ht3 & Hh3 & Hw3) by (by destruct Hq3 as (fs & _ & ->)).
    destruct (renamed_ok w3 p bw b) as (Hok4 & Hk4 & Hc4 & Hdb4);
      [done|by rewrite Hw3|done|by rewrite Hh3, Hmh|by rewrite Ht3|by rewrite Ht3|by rewrite Ht3|].
    apply HQ; [exact Hok4| | |exact Hc4|].
    + eapply kept_trans; [by apply more_dirs_kept|]. by eapply kept_trans.
    + destruct (quiet_same_memory _ _ Hq3) as (? & ? & ?), (md_memory _ _ Hm) as (? & ? & ?). split_and!; cbn; congruence.
    + intros m. etrans; [apply Hdb4|]. transitivity (bucket_db w2 m); [by destruct Hq3 as (fs & _ & ->)|].
      by apply more_dirs_bucket_db.
  - intros e' w3 Hq3 Hr. quiet_facts_as Hq3 Hok3 Hk3. assert (kept w0 w3) as Hk03 by exact (kept_trans _ _ _ Hk2 Hk3).
    destruct Hr as [Hf|[Hsrc|[Hd|Hdst]]].
    + eauto with quiet.
    + apply E_rel_same; [done..|]. right. apply HR. intros Hi. apply (Hsrc (w_ino bw)). by apply Hm.
    + change (parent (blob_path n sha)) with [n; "objects"; str_take 2 sha] in Hd. congruence.
    + pose proof (ok_layout _ (wok_disk _ Hok2) _ _ _ Hv Hdst) as Hl. inversion Hl.
Qed.

(** ** Committing *)

(** The row a commit writes at clock reading [t]. *)
Definition committed_row (existing : option ObjectInfo) (c : bytes) (opts : PutOptions) (t : Time) : objectRow :=
  new_row (next_generation existing t) (sha_hex c) (int64 (Z.of_nat (length c))) (md5_sum c) (crc32c_sum c)
    (po_ContentType opts) (po_Metadata opts) (UnixMicro_of t).

(** What it returns. *)
Definition committed_info (n name : string) (existing : option ObjectInfo) (c : bytes) (opts : PutOptions)
    (t : Time) : ObjectInfo :=
  mkObjectInfo n name (next_generation existing t) 1 (int64 (Z.of_nat (length c))) (sha_hex c) (md5_sum c)
    (crc32c_sum c) (po_ContentType opts) (po_Metadata opts) t t.

(** The live version before a write, as the transaction reads it. *)
Definition reads (n name : string) (tbl : gmap string objectRow) (existing : option ObjectInfo) : Prop :=
  match tbl !! name, existing with
  | None, None => True
  | Some r, Some o => scanObject n name r = inr o
  | _, _ => False
  end.

(** A committed write of the content [c]. *)
Definition commits (n name : string) (c : bytes) (opts : PutOptions) (oi : ObjectInfo)
    (tbl tbl' : gmap string objectRow) : Prop :=
  ∃ existing t, validObjectName name = true ∧ reads n name tbl existing ∧
    check (po_Conditions opts) existing = None ∧
    oi = committed_info n name existing c opts t ∧
    tbl' = <[name := committed_row existing c opts t]> tbl.

(** Why nothing was committed: the transaction's reasons. *)
Definition tx_error (w : world) (n name : string) (opts : PutOptions) (e : error) : Prop :=
  object_corrupt w n name e ∨
  (e = ErrPreconditionFailed ∧ ∃ tbl existing, tables w n = Some tbl ∧ reads n name tbl existing ∧
     check (po_Conditions opts) existing ≠ None).

Lemma next_generation_range existing t : is_int64 (next_generation existing t).
Proof.
  unfold next_generation. destruct existing as [o|]; [case_match; [apply int64_range|]|]; apply UnixMicro_of_range.
Qed.

Lemma committed_row_ok name existing c opts t :
  validObjectName name = true → row_ok name (committed_row existing c opts t).
Proof.
  intros Hn. split; cbn; [done|by exists c|by eexists|done|apply next_generation_range|split; apply UnixMicro_of_range].
Qed.

Lemma commit_tx_bucket_info name row d : bucket_info (commit_tx name row d).1 = bucket_info d.
Proof.
  unfold commit_tx. destruct (objects d !! name) as [old|]; [|done].
  pose proof (decref_bucket_info (r_sha256 old) (sql_insert_blob (r_sha256 row) (r_size row) d)) as H.
  by destruct (decref _ _).
Qed.

Lemma commit_tx_blobs name row d sha :
  is_Some (blobs (commit_tx name row d).1 !! sha) → is_Some (blobs d !! sha) ∨ sha = r_sha256 row.
Proof.
  assert (is_Some (blobs (sql_insert_blob (r_sha256 row) (r_size row) d) !! sha) →
    is_Some (blobs d !! sha) ∨ sha = r_sha256 row) as H.
  { cbn. destruct (decide (sha = r_sha256 row)); [by right|]. rewrite lookup_partial_alter_ne by done. by left. }
  unfold commit_tx. destruct (objects d !! name) as [old|]; [|exact H].
  pose proof (decref_blobs (r_sha256 old) (sql_insert_blob (r_sha256 row) (r_size row) d) sha) as Hb.
  destruct (decref _ _). cbn in *. auto.
Qed.

(** The tables after a write can be committed once the blob is in place. *)
Lemma commit_tx_facts w n d name row :
  world_ok w → bucket_db w n = Some d → initialized d → row_ok name row →
  is_Some (blob_content w n (r_sha256 row)) →
  let '(tx, orphan) := commit_tx name row d in
  db_ok tx ∧ initialized tx ∧ objects tx = <[name := row]> (objects d) ∧
  (∀ sha, is_Some (blobs tx !! sha) → is_Some (blob_content w n sha)) ∧
  (∀ sha, orphan = Some sha → blobs tx !! sha = None).
Proof.
  intros Hok Hbd Hi Hrow Hblob.
  assert (db_ok d) as Hd.
  { unfold bucket_db in Hbd. destruct (tree w !! db_path n) as [[|j|j]|]; try done.
    by eapply ok_dbs; [apply Hok|]. }
  destruct (commit_tx_ok name row d Hd Hrow) as (Htx & _ & Horph).
  pose proof (commit_tx_objects name row d) as Hobj.
  pose proof (commit_tx_bucket_info name row d) as Hbi.
  pose proof (commit_tx_blobs name row d) as Hbl.
  destruct (commit_tx name row d) as [tx orphan]. cbn [fst snd] in *. split_and!; try done.
  - unfold initialized. by rewrite Hbi.
  - intros sha Hs. destruct (Hbl sha Hs) as [?| ->]; [|done]. by eapply (ok_stored _ (wok_disk _ Hok)).
  - intros sha Hs. by destruct (Horph _ Hs).
Qed.

(** The statements of the transaction compute [commit_tx]. *)
Lemma triple_commit_statements T `{!Absorbs T} w0 w n tx name existing row (Q : database * option string → world → Prop) R :
  world_ok w → kept w0 w → reads n name (objects tx) existing →
  (∀ w', world_ok w' → quiet w w' → Q (commit_tx name row tx) w') →
  triple w (commit_statements tx name existing row) Q (E_rel T w0 R) (C_rel T w0).
Proof.
  intros Hok Hk Hr HQ. unfold commit_statements. tsteps.
  apply triple_tx_Exec; [|tfault..]. intros w1 Hq1. quiet_facts_as Hq1 Hok1 Hkq1. tsteps.
  assert (kept w0 w1) as Hk1 by exact (kept_trans _ _ _ Hk Hkq1).
  revert HQ. unfold commit_tx. cbv zeta. intros HQ. unfold reads in Hr.
  destruct (objects tx !! name) as [r|], existing as [old|]; try done; tsteps.
  - rewrite <- (scanObject_sha _ _ _ _ Hr) in HQ. apply (triple_decrefBlob T w0); [done..|].
    intros w2 Hok2 Hq2. quiet_facts_as Hq2 Hok2' Hkq2.
    assert (kept w0 w2) as Hk2 by exact (kept_trans _ _ _ Hk1 Hkq2).
    destruct (decref (oi_SHA256 old) _) as [tx2 orphaned]. tsteps.
    apply triple_tx_Exec; [|tfault..]. intros w3 Hq3. tsteps.
    apply HQ; eauto with quiet.
  - apply triple_tx_Exec; [|tfault..]. intros w3 Hq3. tsteps. apply HQ; eauto with quiet.
Qed.

Lemma triple_commit_in_tx w0 w p bw b n name opts (Q : ObjectInfo * option string → world → Prop) :
  let T := changed n (λ t t', ∃ oi, commits n name (w_sha bw) opts oi t t') in
  world_ok w → kept w0 w → validObjectName name = true → writers w !! p = Some bw →
  handles w !! w_b bw = Some b → b_name b = n → is_Some (blob_content w n (sha_hex (w_sha bw))) →
  (∀ w' oi orphan, world_ok w' → calm w w' → calm w0 w' → T w0 w' → is_open w' (w_b bw) n →
     (∃ t t', tables w0 n = Some t ∧ tables w' n = Some t' ∧ commits n name (w_sha bw) opts oi t t') →
     writers w' = writers w →
     (∀ sha d, orphan = Some sha → bucket_db w' n = Some d → blobs d !! sha = None) →
     Q (oi, orphan) w') →
  triple w (commit_in_tx (w_b bw) b bw name opts) Q
    (E_rel same_tables w0 (λ e, tx_error w0 n name opts e ∨ b_open b = false)) (C_rel T w0).
Proof.
  intros T Hok Hk Hname Hbw Hb Hbn Hblob HQ. unfold commit_in_tx.
  destruct (ok_writers _ (wok_proc _ Hok) _ _ Hbw) as (_ & _ & Hmd & Hcrc & Hsz & _).
  unfold Checksums. rewrite Hmd, Hcrc, Hsz. fold (sha_hex (w_sha bw)). tsteps.
  apply triple_db_Query.
  2: { intros e w1 Hq [Hf|[_ Hno]]; [eauto with quiet|]. quiet_facts_as Hq Hok1 Hk1.
       apply E_rel_same; [done|exact (kept_trans _ _ _ Hk Hk1)|]. right. right.
       destruct (b_open b) eqn:Ho; [|done].
       destruct (is_open_facts w (w_b bw) n Hok) as (? & ? & _ & _ & _ & _ & _ & _ & _ & Hd & _); [by exists b|].
       congruence. }
  2: tfault.
  intros w1 d Hq1 Hd. quiet_facts_as Hq1 Hok1 Hkq1.
  assert (kept w0 w1) as Hk1 by exact (kept_trans _ _ _ Hk Hkq1).
  assert (is_open w (w_b bw) n) as Ho.
  { exists b. split_and!; [done..|]. unfold handle_db in Hd. rewrite Hb in Hd. by destruct (b_open b). }
  destruct (is_open_facts _ _ _ Hok Ho) as (i & d' & _ & _ & _ & _ & _ & Hinit & Hbd & Hd' & Ht).
  replace d' with d in * by congruence. clear d' Hd'.
  rewrite (kept_tables _ _ _ Hk) in Ht. tsteps.
  apply triple_weaken_C; [apply _|]. apply (triple_tx_existing same_tables w0 _ _ n); [done|done|done|done| |].
  { intros e He. left. by left. }
  intros w2 existing Hok2 Hq2 Hr. change (reads n name (objects d) existing) in Hr.
  assert (kept w0 w2) as Hk2 by eauto with quiet.
  destruct (check (po_Conditions opts) existing) as [e|] eqn:Hc; tsteps.
  { apply E_rel_same; [done..|]. right. left. right.
    destruct (check_cases (po_Conditions opts) existing); [congruence|]. split; [congruence|].
    exists (objects d), existing. split_and!; [done..|congruence]. }
  set (t := now w2).
  change (new_row _ _ _ _ _ _ _ _) with (committed_row existing (w_sha bw) opts t).
  apply triple_weaken_C; [apply _|]. apply (triple_commit_statements same_tables w0 _ n); [done..|]. intros w3 Hok3 Hq3.
  assert (kept w0 w3) as Hk3 by eauto with quiet.
  assert (quiet w w3) as Hq03 by eauto with quiet.
  assert (bucket_db w3 n = Some d ∧ is_Some (blob_content w3 n (sha_hex (w_sha bw))) ∧ writers w3 = writers w) as (Hbd3 & Hblob3 & Hw3).
  { by destruct Hq03 as (fs & _ & ->). }
  pose proof (commit_tx_facts w3 n d name (committed_row existing (w_sha bw) opts t) Hok3 Hbd3 Hinit
    (committed_row_ok _ _ _ _ _ Hname) Hblob3) as Hfacts.
  destruct (commit_tx name _ d) as [tx orphan]. destruct Hfacts as (Htx & Hti & Hobj & Hst & Horph). tsteps.
  assert (commits n name (w_sha bw) opts (committed_info n name existing (w_sha bw) opts t) (objects d) (objects tx)) as Hcm.
  { exists existing, t. done. }
  apply (triple_tx_Commit_changed _ w0 w3 (w_b bw) n d);
    [done|done|eauto with quiet|done|done|done|done|by eexists|].
  intros w4 Hok4 Hc4 Hc04 Hch Ho4 Hbd4 _ Ht4 (fs & j & Hw4). tsteps.
  rewrite Hbn. apply HQ; [done| |done|done|done| | |].
  - eapply calm_trans; [by eapply quiet_calm|done].
  - exists (objects d), (objects tx). done.
  - by rewrite Hw4, <- Hw3.
  - intros sha d' Hs Hd'. rewrite Hbd4 in Hd'. simplify_eq. by apply Horph.
Qed.

(** *** The heap of writers during a commit *)
Section frame.
Context (W : gmap nat BlobWriter).

Lemma mkdir_all_writers d p : preserves (writers_are W) (mkdir_all d p).
Proof.
  revert d. induction p as [|c p IH]; intros d; cbn [mkdir_all]; repeat writers_step; [|apply IH].
  unfold mkdir_missing, os_Mkdir, syscall. repeat writers_step.
Qed.

Lemma install_blob_writers src dst : preserves (writers_are W) (install_blob src dst).
Proof.
  unfold install_blob, os_MkdirAll, os_Rename, os_Stat, syscall. repeat writers_step. apply mkdir_all_writers.
Qed.

Lemma commit_in_tx_writers h b bw name opts : preserves (writers_are W) (commit_in_tx h b bw name opts).
Proof.
  unfold commit_in_tx, Checksums, commit_statements, tx_existing, decrefBlob, db_Begin, db_Query,
    tx_QueryRow, tx_Exec, tx_Commit, scan, time_Now, sqlcall. repeat writers_step.
Qed.
End frame.

(** Everything [Commit] does before the deferred removal of the temporary
    file. *)
Definition commit_body (bw : BlobWriter) (name : string) (opts : PutOptions) : M world ObjectInfo :=
  if negb (validObjectName name) then
    do* ignore file_Close in
    throw (Wrap [] ErrInvalidName [Lit ": object "; Quote name])
  else
    let* r := try file_Sync in
    match r with
    | inl e =>
      do* ignore file_Close in
      throw e
    | inr _ =>
      do* file_Close in
      let h := w_b bw in
      let* b := load_bucket h in
      do* install_blob (w_tmp bw) (blobPath b (hex_EncodeToString (sha256_sum (w_sha bw)))) in
      let* ' (oi, orphan) := commit_in_tx h b bw name opts in
      match orphan with
      | Some sha =>
        do* ignore (os_Remove (blobPath b sha)) in
        ret oi
      | None => ret oi
      end
    end.

Lemma commit_body_writers W bw name opts : preserves (writers_are W) (commit_body bw name opts).
Proof.
  unfold commit_body, file_Close, file_Sync, load_bucket, os_Remove, syscall. repeat writers_step.
  - apply install_blob_writers.
  - apply commit_in_tx_writers.
Qed.

(** Why a commit fails when nothing failed. *)
Definition commit_error (w : world) (b : Bucket) (name : string) (opts : PutOptions) (e : error) : Prop :=
  (validObjectName name = false ∧ e = Wrap [] ErrInvalidName [Lit ": object "; Quote name]) ∨
  (validObjectName name = true ∧ (tx_error w (b_name b) name opts e ∨ b_open b = false)).

(** How a commit changes the tables. *)
Definition committing (bw : BlobWriter) (n name : string) (opts : PutOptions) : world → world → Prop :=
  changed n (λ t t', ∃ oi, commits n name (w_sha bw) opts oi t t').

Lemma triple_commit_body w0 w p bw b name opts :
  let n := b_name b in
  world_ok w → kept w0 w → writers w !! p = Some bw → w_done bw = true → handles w !! w_b bw = Some b →
  (b_open b = true → tree w !! w_tmp bw = Some (NFile (w_ino bw))) →
  triple w (commit_body bw name opts)
    (λ oi w', world_ok w' ∧ calm w0 w' ∧ committing bw n name opts w0 w' ∧
       ∃ t t', tables w0 n = Some t ∧ tables w' n = Some t' ∧ commits n name (w_sha bw) opts oi t t')
    (E_rel same_tables w0 (commit_error w0 b name opts))
    (C_rel (committing bw n name opts) w0).
Proof.
  intros n Hok Hk Hbw Hdone Hb Hsrc. unfold commit_body, commit_error.
  destruct (validObjectName name) eqn:Hname; cbn [negb].
  2: { tsteps. apply triple_ret_call; [|tfault..]. intros. tsteps.
       apply E_rel_same; [eauto with quiet..|]. by right; left. }
  tsteps. apply triple_ret_call; intros w1 Hq1; quiet_facts_as Hq1 Hok1 Hk1; tsteps.
  2: { intros Hf. tsteps. apply triple_ret_call; tfault. }
  2: tfault.
  apply triple_ret_call; [|tfault..]. intros w2 Hq2. quiet_facts_as Hq2 Hok2 Hk2. tsteps.
  assert (quiet w w2) as Hq by eauto with quiet. assert (kept w0 w2) as Hk02 by eauto with quiet.
  assert (handles w2 = handles w ∧ writers w2 = writers w ∧ tree w2 = tree w) as (Hh2 & Hw2 & Ht2) by (by destruct Hq as (fs & _ & ->)).
  eapply triple_load_bucket; [by rewrite Hh2|]. tsteps.
  destruct (writer_bucket _ _ _ Hok Hbw) as (b' & Hb' & Hv & Hdir & _). replace b' with b in * by congruence.
  rewrite (blobPath_eq b) by done. fold (sha_hex (w_sha bw)).
  apply triple_weaken_C; [apply _|]. apply (triple_install_blob same_tables w0 w2 p bw b); [done|done|by rewrite Hw2|done|by rewrite Hh2|..].
  { rewrite Ht2. intros Hno e. right. split; [done|]. right. destruct (b_open b); [|done]. by destruct Hno; apply Hsrc. }
  intros w3 Hok3 Hk3 (Hmh & _ & Hmw) Hblob Hdb3. tsteps.
  assert (kept w0 w3) as Hk03 by exact (kept_trans _ _ _ Hk02 Hk3).
  eapply triple_conseq; [| |apply (triple_commit_in_tx w0 w3 p bw b n name opts)];
    [|done|done|done|done|by rewrite Hmw, Hw2|by rewrite Hmh, Hh2|done|done|].
  { intros e w4 (? & ? & ? & Hr). split_and!; [done..|]. destruct Hr as [?|Hr]; [by left|right; right; auto]. }
  intros w4 oi orphan Hok4 Hc34 Hc4 HT4 Ho4 Hch4 _ Horph. cbn beta iota. destruct orphan as [sha|]; tsteps; [|done].
  rewrite (blobPath_eq b) by done.
  apply (triple_remove_blob _ w0 w4 n sha); [done..|by intros; eapply Horph|].
  intros w5 Hok5 Hk5 _ _. split_and!; [done|by eauto with quiet|eapply absorbs_post; [exact HT4|by destruct Hk5]|].
  destruct Hch4 as (t & t' & ? & ? & ?). exists t, t'. by rewrite (kept_tables _ _ _ Hk5).
Qed.

(** The temporary file is not left behind. *)
Definition no_leftover (w w' : world) (bw : BlobWriter) : Prop :=
  failing w ∨ tree w' !! w_tmp bw = None.

Lemma triple_Commit w p bw b name opts :
  let n := b_name b in
  world_ok w → writing w p bw → handles w !! w_b bw = Some b →
  triple w (Commit p name opts)
    (λ oi w', world_ok w' ∧ calm w w' ∧ committing bw n name opts w w' ∧
       (∃ t t', tables w n = Some t ∧ tables w' n = Some t' ∧ commits n name (w_sha bw) opts oi t t') ∧
       writers w' !! p = Some (set_done bw) ∧ no_leftover w w' bw)
    (λ e w', E_rel same_tables w (commit_error w b name opts) e w' ∧
       writers w' !! p = Some (set_done bw) ∧ no_leftover w w' bw)
    (C_rel (committing bw n name opts) w).
Proof.
  intros n Hok [Hbw Hnd] Hb. unfold Commit. tsteps.
  eapply triple_load_writer; [exact Hbw|]. rewrite Hnd. tsteps.
  set (w1 := set_writers (alter set_done p) w).
  assert (world_ok w1) as Hok1 by by apply world_ok_done.
  assert (kept w w1) as Hk1 by (split_and!; [by intros ?..|by apply entries_kept_same]).
  assert (writers w1 !! p = Some (set_done bw)) as Hbw1 by (cbn; by rewrite lookup_alter_eq, Hbw).
  assert (b_open b = true → tree w !! w_tmp bw = Some (NFile (w_ino bw))) as Hsrc.
  { destruct (ok_writers _ (wok_proc _ Hok) _ _ Hbw) as (_ & _ & _ & _ & _ & _ & (b' & Hb' & _ & Hin) & _).
    intros. apply Hin; [congruence|done]. }
  (* the deferred removal, from either end of the body *)
  assert (∀ w2 (Q : world → Prop), writers_are (writers w1) w2 → world_ok w2 →
    committing bw n name opts w w2 → calm w w2 →
    (∀ w3, world_ok w3 → kept w2 w3 → writers w3 !! p = Some (set_done bw) → no_leftover w w3 bw → Q w3) →
    triple w2 (os_Remove (w_tmp bw)) (λ _, Q) (λ _, Q) (C_rel (committing bw n name opts) w)) as Hclean.
  { intros w2 Q Hw2 Hok2 HT Hc HQ. unfold writers_are in Hw2.
    apply (triple_remove_tmp _ w w2 p (set_done bw)); [done|done|done|by rewrite Hw2|done|].
    intros w3 Hok3 Hk3 (_ & _ & Hw3) Hl. apply HQ; [done|done|by rewrite Hw3, Hw2|].
    destruct Hl as [?|?]; [left; eauto with quiet|by right]. }
  fold (commit_body bw name opts).
  eapply triple_mono; [eapply (triple_frame (writers_are (writers w1))); [apply commit_body_writers|done|]|..].
  { apply (triple_commit_body w w1 p (set_done bw) b name opts); done. }
  - intros oi w2 [(Hok2 & Hc2 & HT2 & t & t' & Ht & Ht' & Hcm) Hw2]. tsteps. apply Hclean; [done..|].
    intros w3 Hok3 Hk3 Hbw3 Hl. split_and!; [done|eauto with quiet|eapply absorbs_post; [exact HT2|by destruct Hk3]| |done|done].
    exists t, t'. by rewrite (kept_tables _ _ _ Hk3).
  - intros e w2 [(Hok2 & HT2 & Hc2 & Hr) Hw2]. tsteps. apply Hclean; [done|done|by apply absorbs_same|done|].
    intros w3 Hok3 Hk3 Hbw3 Hl. split_and!; [|done|done].
    split_and!; [done|eapply absorbs_post; [exact HT2|by destruct Hk3]|eauto with quiet|done].
  - by intros w2 [? _].
Qed.

(** Why a complete upload fails when nothing failed. *)
Definition put_error (w : world) (n name : string) (r : reader) (opts : PutOptions) (e : error) : Prop :=
  no_bucket w n e ∨ no_tmp_dir w n ∨ r.2 = Some e ∨
  (validObjectName name = false ∧ e = Wrap [] ErrInvalidName [Lit ": object "; Quote name]) ∨
  tx_error w n name opts e.

Lemma commit_error_put w w2 b n name r opts e :
  kept w w2 → b_name b = n → b_open b = true → commit_error w2 b name opts e → put_error w n name r opts e.
Proof.
  intros Hk <- Ho Hr. do 3 right. destruct Hr as [?|(_ & [Hr|?])]; [by left| |congruence].
  right. unfold tx_error, object_corrupt in *. by rewrite (kept_tables _ _ _ Hk) in Hr.
Qed.

(** [PutObject] is all of it; also when it is cut short, only a complete body is
    committed. *)
Lemma triple_PutObject_complete w n name (r : reader) opts :
  world_ok w →
  let T := changed n (λ t t', r.2 = None ∧ ∃ oi, commits n name (concat r.1) opts oi t t') in
  triple w (PutObject n name r opts)
    (λ oi w', world_ok w' ∧ calm w w' ∧ T w w' ∧
       ∃ t t', tables w n = Some t ∧ tables w' n = Some t' ∧ r.2 = None ∧
         commits n name (concat r.1) opts oi t t')
    (E_rel same_tables w (put_error w n name r opts))
    (C_rel T w).
Proof.
  intros Hok T. unfold PutObject. tsteps. apply triple_weaken_C; [apply _|].
  eapply triple_mono; [by apply triple_NewBlobWriter|..|done].
  2: { intros e w1 He. eapply E_rel_then; [done|apply calm_refl|exact He|unfold put_error; tauto]. }
  intros p w1 (Hok1 & Hk1 & bw & Hw1 & Hsha & Ho1). tsteps. apply triple_weaken_C; [apply _|].
  apply (triple_io_Copy same_tables w _ _ p r.1 r.2 w1 bw); [done..|].
  intros w2 bw2 k err Hok2 Hk2 Hh2 Hw2 (Hb2 & _) Herr. cbn beta iota.
  destruct err as [e|]; tsteps.
  - apply triple_weaken_C; [apply _|]. eapply triple_mono; [by apply (triple_Abort w2 p bw2)|..].
    + intros [] w3 (Hok3 & Hk3 & _). tsteps. apply E_rel_same; [done|exact (kept_trans _ _ _ Hk2 Hk3)|].
      destruct Herr as [?|?]; [by left|right; unfold put_error; tauto].
    + done.
    + intros w3. by apply C_rel_pre.
  - destruct Herr as (Hend & Hsha2 & _). rewrite Hsha in Hsha2. cbn [app] in Hsha2.
    destruct Ho1 as (b & Hb & Hn & Hopen).
    assert (∀ w' w'', committing bw2 n name opts w' w'' → T w' w'') as HT.
    { intros w' w''. unfold T, committing. rewrite Hsha2. by apply changed_mono. }
    eapply triple_mono; [apply (triple_Commit w2 p bw2 b); [done|done|by rewrite Hh2, Hb2]|..].
    + intros oi w3 (Hok3 & Hc3 & HT3 & (t & t' & Ht & Ht' & Hcm) & _). rewrite (kept_tables _ _ _ Hk2) in Ht.
      rewrite Hn, Hsha2 in *. split_and!; [done|eauto with quiet| |by exists t, t'].
      eapply absorbs_pre; [by destruct Hk2|]. by apply HT.
    + intros e w3 [He _]. eapply E_rel_pre; [exact Hk2| |exact He]. intros e0. by apply commit_error_put.
    + intros w3 (Hd3 & HT3 & Hf3). apply (C_rel_pre w w2); [done|]. rewrite Hn in HT3. split_and!; [done|by apply HT|done].
Qed.

Lemma triple_PutObject w n name (r : reader) opts :
  world_ok w →
  let T := changed n (λ t t', ∃ oi, commits n name (concat r.1) opts oi t t') in
  triple w (PutObject n name r opts)
    (λ oi w', world_ok w' ∧ calm w w' ∧ T w w' ∧
       ∃ t t', tables w n = Some t ∧ tables w' n = Some t' ∧ r.2 = None ∧
         commits n name (concat r.1) opts oi t t')
    (E_rel same_tables w (put_error w n name r opts))
    (C_rel T w).
Proof.
  intros Hok T. assert (∀ w', changed n (λ t t', r.2 = None ∧ ∃ oi, commits n name (concat r.1) opts oi t t') w w' → T w w') as HT.
  { intros w'. apply changed_mono. by intros t t' [_ ?]. }
  eapply triple_mono; [by apply triple_PutObject_complete|..].
  - intros oi w' (? & ? & HT' & ?). split_and!; [done|done|by apply HT|done].
  - done.
  - intros w' (? & HT' & ?). split_and!; [done|by apply HT|done].
Qed.
