(* ===== verification/Listing.v ===== *)
(** [Store.ListObjects] ([pkg/store/bucket.go]): range queries in batches, common
    prefixes and paging; and a reference listing that walks the objects in
    name order once. *)

From S2P Require Import Prelude Errors GoMonad GoStd Types Names Hash Database World Bucket Store.
From stdpp Require Import options.

Definition defaultMaxResults : Z := 1000.
Definition batchSize : nat := Z.to_nat 1000.
#[global] Arguments batchSize : simpl never.

(** [prefixSuccessor(prefix)]: the loop looks for the last byte that is not
    0xff; [rest] is the prefix up to there, reversed. *)
Fixpoint successor_loop (rest : bytes) : string :=
  match rest with
  | [] => ""
  | b :: rest =>
    if (byte_val b =? 255)%Z then successor_loop rest
    else string_of_bytes (rev rest) +:+ string_of_rune_byte (byte_val b + 1)
  end.
Definition prefixSuccessor (prefix : string) : string := successor_loop (rev (bytes_of_string prefix)).

(** The rows of one batch, decoded: the first corrupt one fails the request. *)
Fixpoint scan_rows (b : Bucket) (rows : list (string * objectRow)) : error + list ObjectInfo :=
  match rows with
  | [] => inr []
  | (name, r) :: rows =>
    match scanObject (b_name b) name r with
    | inl e => inl e
    | inr info =>
      match scan_rows b rows with
      | inl e => inl e
      | inr batch => inr (info :: batch)
      end
    end
  end.

(** The common prefix an object is rolled up into, if any. *)
Definition common_prefix (req : ListRequest) (rest : string) : option string :=
  if String.eqb (lr_Delimiter req) "" then None
  else match strings_Index rest (lr_Delimiter req) with
       | Some idx => Some (lr_Prefix req +:+ str_take (idx + String.length (lr_Delimiter req)) rest)
       | None => None
       end.

Definition add_object (o : ObjectInfo) (res : ListResult) : ListResult :=
  mkListResult (Objects res ++ [o]) (Prefixes res) (NextPageToken res).
Definition add_prefix (cp : string) (res : ListResult) : ListResult :=
  mkListResult (Objects res) (Prefixes res ++ [cp]) (NextPageToken res).
Definition set_token (t : string) (res : ListResult) : ListResult :=
  mkListResult (Objects res) (Prefixes res) t.

(** How the loop over a batch ends: [break scan], [continue scan] at a new lower
    bound, or at the end of the batch. *)
Inductive batch_end :=
  | BreakScan
  | ContinueScan (next : string)
  | BatchDone.

(** The loop over a batch; [None] is the panic of the slice expression
    [info.Name[len(req.Prefix):]]. *)
Fixpoint walk_batch (req : ListRequest) (maxResults : Z) (batch : list ObjectInfo) (count : Z)
    (res : ListResult) : option (batch_end * Z * ListResult) :=
  match batch with
  | [] => Some (BatchDone, count, res)
  | info :: batch =>
    if (maxResults <=? count)%Z then Some (BreakScan, count, set_token (oi_Name info) res)
    else if String.length (oi_Name info) <? String.length (lr_Prefix req) then None
    else
      let rest := str_drop (String.length (lr_Prefix req)) (oi_Name info) in
      match common_prefix req rest with
      | Some cp =>
        let next := prefixSuccessor cp in
        Some (if String.eqb next "" then BreakScan else ContinueScan next, (count + 1)%Z, add_prefix cp res)
      | None => walk_batch req maxResults batch (count + 1)%Z (add_object info res)
      end
  end.

(** The scan loop; [fuel] bounds its iterations. *)
Fixpoint scan_loop (fuel : nat) (h : nat) (b : Bucket) (req : ListRequest) (maxResults : Z)
    (end_ next : string) (count : Z) (res : ListResult) : M world ListResult :=
  match fuel with
  | 0 => diverge
  | S fuel =>
    let* rows := db_Query h (λ d, sql_select_range d next end_ batchSize) in
    match scan_rows b rows with
    | inl e => throw e
    | inr batch =>
      match walk_batch req maxResults batch count res with
      | None => panic [Lit "slice bounds out of range"]
      | Some (BreakScan, _, res) => ret res
      | Some (ContinueScan next, count, res) => scan_loop fuel h b req maxResults end_ next count res
      | Some (BatchDone, count, res) =>
        if length batch <? batchSize then ret res
        else match last batch with
             | Some info => scan_loop fuel h b req maxResults end_ (oi_Name info +:+ String "000" "") count res
             | None => panic [Lit "index out of range"]
             end
      end
    end
  end.

Definition max_results (req : ListRequest) : Z :=
  if (lr_MaxResults req <=? 0)%Z || (defaultMaxResults <? lr_MaxResults req)%Z
  then defaultMaxResults else lr_MaxResults req.

(** Where the scan starts. *)
Definition scan_start (req : ListRequest) : string :=
  if decide (lr_Prefix req <ₛ lr_PageToken req) then lr_PageToken req else lr_Prefix req.

(** One more iteration than results always suffices (see [scan_loop_spec]). *)
Definition ListObjects (bucketName : string) (req : ListRequest) : M world ListResult :=
  let* h := bucket bucketName in
  let* b := load_bucket h in
  let maxResults := max_results req in
  scan_loop (S (Z.to_nat maxResults)) h b req maxResults (prefixSuccessor (lr_Prefix req))
    (scan_start req) 0 (mkListResult [] [] "").

(** ** The reference listing *)

Inductive item :=
  | Object (o : ObjectInfo)
  | Prefix (cp : string).

(** What an object whose name starts with the prefix shows as. *)
Definition item_of (req : ListRequest) (o : ObjectInfo) : item :=
  match common_prefix req (str_drop (String.length (lr_Prefix req)) (oi_Name o)) with
  | Some cp => Prefix cp
  | None => Object o
  end.

(** Walk the objects in name order: every object is an item, those under one
    common prefix are a single item together; after [n] items, the name of the
    first object not covered is the token of the next page.  [prev] is the
    common prefix of the last item, if it is one. *)
Fixpoint walk (req : ListRequest) (prev : option string) (n : nat) (l : list ObjectInfo)
    : list item * string :=
  match l with
  | [] => ([], "")
  | o :: l =>
    match item_of req o with
    | Prefix cp =>
      if decide (prev = Some cp) then walk req prev n l
      else match n with
           | 0 => ([], oi_Name o)
           | S n => let '(its, tok) := walk req (Some cp) n l in (Prefix cp :: its, tok)
           end
    | Object o' =>
      match n with
      | 0 => ([], oi_Name o)
      | S n => let '(its, tok) := walk req None n l in (Object o' :: its, tok)
      end
    end
  end.

(** A page of items as a [ListResult]. *)
Definition objects_of (its : list item) : list ObjectInfo :=
  omap (λ i, match i with Object o => Some o | Prefix _ => None end) its.
Definition prefixes_of (its : list item) : list string :=
  omap (λ i, match i with Prefix cp => Some cp | Object _ => None end) its.
Definition page (its_tok : list item * string) : ListResult :=
  mkListResult (objects_of its_tok.1) (prefixes_of its_tok.1) its_tok.2.

(** The live objects a request is about, in name order. *)
Definition listed_objects (n : string) (req : ListRequest) (t : gmap string objectRow) : list ObjectInfo :=
  omap (λ p, match scanObject n p.1 p.2 with inr o => Some o | inl _ => None end)
    (filter (λ p, String.prefix (lr_Prefix req) p.1 = true ∧ lr_PageToken req ≤ₛ p.1) (order_by_name t)).

(** The specification of [ListObjects]. *)
Definition list_spec (n : string) (req : ListRequest) (t : gmap string objectRow) : ListResult :=
  page (walk req None (Z.to_nat (max_results req)) (listed_objects n req t)).
