(* ===== verification/ListingSpec.v ===== *)
(** [ListObjects] implements the reference listing, and pages fit together. *)

From S2P Require Import Prelude Errors GoMonad GoStd Types Names Hash Database World Bucket Store BlobWriter StoreInv Triple StoreSafe StoreOps ObjectOps Listing.
From stdpp Require Import options.

(** ** [prefixSuccessor] *)

(** The last byte is ASCII, and not DEL. *)
Definition ascii_end (p : string) : Prop := ∃ q b, p = q +:+ String b "" ∧ (byte_val b < 127)%Z.

Lemma bytes_of_string_app s t : bytes_of_string (s +:+ t) = bytes_of_string s ++ bytes_of_string t.
Proof. induction s as [|a s IH]; [done|]. rewrite str_app_cons. cbn. by rewrite IH. Qed.

Lemma prefixSuccessor_ascii q b :
  (byte_val b < 127)%Z →
  prefixSuccessor (q +:+ String b "") = q +:+ String (byte_of (byte_val b + 1)) "".
Proof.
  intros Hb. unfold prefixSuccessor. rewrite bytes_of_string_app. cbn. rewrite rev_app_distr. cbn.
  destruct (Z.eqb_spec (byte_val b) 255); [lia|]. rewrite rev_involutive.
  rewrite String.string_of_list_ascii_of_string. unfold string_of_rune_byte.
  destruct (Z.ltb_spec (byte_val b + 1) 128); [done|lia].
Qed.

Lemma prefixSuccessor_not_empty p : ascii_end p → prefixSuccessor p ≠ "".
Proof.
  intros (q & b & -> & Hb). rewrite prefixSuccessor_ascii by done. destruct q; done.
Qed.

(** The smallest string above everything with the prefix. *)
Lemma prefixSuccessor_spec p s :
  ascii_end p → p ≤ₛ s → s <ₛ prefixSuccessor p ↔ String.prefix p s = true.
Proof.
  intros (q & b & -> & Hb) Hps. rewrite prefixSuccessor_ascii by done.
  pose proof (byte_val_range b).
  assert (byte_val (byte_of (byte_val b + 1)) = byte_val b + 1)%Z as Hb' by (apply byte_val_of; lia).
  split.
  - intros Hlt.
    assert (String.prefix q s = true) as [u ->]%prefix_spec.
    { eapply prefix_between; [|by apply str_lt_le|apply prefix_app].
      etrans; [|exact Hps]. rewrite <- (str_app_nil_r q) at 1. apply str_app_le, str_le_nil. }
    apply str_app_lt in Hlt. apply str_app_le in Hps. apply prefix_spec.
    destruct u as [|c u]; [by apply str_le_nil_inv in Hps|].
    apply str_le_cons in Hps. apply str_lt_cons in Hlt.
    assert (c = b) as ->.
    { destruct Hlt as [Hlt|[_ ?%str_lt_nil]]; [|done].
      destruct Hps as [?|[? _]]; [|done]. rewrite Hb' in Hlt. lia. }
    exists u. by rewrite str_app_assoc, str_app_cons.
  - intros [u ->]%prefix_spec. rewrite str_app_assoc, str_app_cons. apply str_app_lt, str_lt_cons.
    left. rewrite Hb'. lia.
Qed.

(** ** Common prefixes *)

Lemma prefix_take p s : String.prefix p s = String.eqb (str_take (String.length p) s) p.
Proof.
  revert s. induction p as [|a p IH]; intros [|b s]; try done. cbn.
  destruct (ascii_dec a b) as [->|Hne].
  - by rewrite IH, Ascii.eqb_refl.
  - by destruct (Ascii.eqb_spec b a); subst.
Qed.

Lemma str_take_take_app n m s u :
  n ≤ m → m ≤ String.length s → str_take n (str_take m s +:+ u) = str_take n s.
Proof.
  revert m s. induction n as [|n IH]; intros [|m] [|a s] Hnm Hm; cbn in *; try lia; try done.
  rewrite str_app_cons. cbn. f_equal. apply IH; lia.
Qed.

Lemma str_take_add n m s : n ≤ String.length s → str_take (n + m) s = str_take n s +:+ str_take m (str_drop n s).
Proof.
  revert s. induction n as [|n IH]; intros [|a s] Hn; cbn in *; try lia; try done.
  rewrite str_app_cons. f_equal. apply IH; lia.
Qed.

(** What comes after the separator does not matter to where it is. *)
Lemma strings_Index_take s sep i u :
  strings_Index s sep = Some i →
  strings_Index (str_take (i + String.length sep) s +:+ u) sep = Some i.
Proof.
  revert i. induction s as [|a s IH]; intros i Hi; cbn [strings_Index] in Hi.
  - destruct (String.prefix sep "") eqn:E; [|done]. simplify_eq. destruct sep; [|done]. by destruct u.
  - destruct (String.prefix sep (String a s)) eqn:E.
    + simplify_eq. cbn [Nat.add]. apply prefix_spec in E as [t ->]. rewrite str_take_app.
      pose proof (prefix_app sep u) as Hp. by destruct (sep +:+ u); cbn [strings_Index]; rewrite Hp.
    + destruct (strings_Index s sep) as [j|] eqn:Ej; [|done]. cbn in Hi. simplify_eq.
      cbn [Nat.add str_take]. rewrite str_app_cons. cbn [strings_Index].
      destruct (strings_Index_spec _ _ _ Ej) as (Hlen & _ & _).
      assert (String.prefix sep (String a (str_take (j + String.length sep) s +:+ u)) = false) as ->.
      { rewrite <- E, !prefix_take.
        pose proof (str_take_take_app (String.length sep) (S (j + String.length sep)) (String a s) u) as Ht.
        cbn [str_take] in Ht. rewrite str_app_cons in Ht. rewrite Ht; [done|lia|cbn; lia]. }
      by rewrite (IH _ eq_refl).
Qed.

(** The name of an object without the request's prefix. *)
Abbreviation rest_of req name := (str_drop (String.length (lr_Prefix req)) name).

Lemma common_prefix_spec req name cp :
  String.prefix (lr_Prefix req) name = true → common_prefix req (rest_of req name) = Some cp →
  String.prefix cp name = true ∧
  (ascii_end (lr_Delimiter req) → ascii_end cp) ∧
  ∀ name', String.prefix (lr_Prefix req) name' = true →
    common_prefix req (rest_of req name') = Some cp ↔ String.prefix cp name' = true.
Proof.
  intros [r ->]%prefix_spec. rewrite str_drop_app. unfold common_prefix.
  set (p := lr_Prefix req). set (d := lr_Delimiter req).
  destruct (String.eqb_spec d "") as [|Hd]; [done|].
  destruct (strings_Index r d) as [i|] eqn:Hi; [|done]. intros [= <-].
  destruct (strings_Index_spec _ _ _ Hi) as (Hlen & [t Ht]%prefix_spec & _).
  set (k := i + String.length d).
  assert (r = str_take k r +:+ str_drop k r) as Hr by by rewrite str_take_drop.
  assert (str_take k r = str_take i r +:+ d) as Hk.
  { unfold k. rewrite str_take_add by lia. by rewrite Ht, str_take_app. }
  split_and!.
  - apply prefix_spec. exists (str_drop k r). by rewrite str_app_assoc, <- Hr.
  - intros (q & b & Hq & Hb). exists (p +:+ (str_take i r +:+ q)), b. split; [|done].
    by rewrite Hk, Hq, !str_app_assoc.
  - intros name' [r' ->]%prefix_spec. rewrite str_drop_app. split.
    + destruct (strings_Index r' d) as [i'|] eqn:Hi'; [|done]. intros [= E].
      rewrite <- E. apply prefix_spec. exists (str_drop (i' + String.length d) r').
      by rewrite str_app_assoc, str_take_drop.
    + intros [u Hu]%prefix_spec. rewrite str_app_assoc in Hu. apply (inj (String.app p)) in Hu as ->.
      unfold k. rewrite (strings_Index_take _ _ _ u Hi). f_equal. f_equal.
      rewrite str_take_take_app by lia. done.
Qed.

(** ** Lists of objects in name order *)

Definition name_lt (o o' : ObjectInfo) : Prop := oi_Name o <ₛ oi_Name o'.
Definition from (lo : string) (l : list ObjectInfo) : list ObjectInfo := filter (λ o, lo ≤ₛ oi_Name o) l.

Lemma from_all lo l : Forall (λ o, lo ≤ₛ oi_Name o) l → from lo l = l.
Proof. induction 1 as [|o l Ho _ IH]; [done|]. unfold from in *. by rewrite filter_cons_True, IH. Qed.

Lemma from_none lo l : Forall (λ o, oi_Name o <ₛ lo) l → from lo l = [].
Proof.
  induction 1 as [|o l Ho _ IH]; [done|]. unfold from in *. rewrite filter_cons_False; [done|].
  by rewrite str_nle.
Qed.

Lemma from_app lo l l' : from lo (l ++ l') = from lo l ++ from lo l'.
Proof. apply filter_app. Qed.

Lemma from_from lo lo' l : lo ≤ₛ lo' → from lo' (from lo l) = from lo' l.
Proof.
  intros Hle. apply list_filter_filter_l. intros o H. by etrans.
Qed.

Lemma from_sorted lo l : StronglySorted name_lt l → StronglySorted name_lt (from lo l).
Proof.
  induction 1 as [|o l _ IH Ho]; [constructor|]. unfold from in *. rewrite filter_cons. case_decide; [|done].
  constructor; [done|]. apply Forall_forall. intros o' [_ Ho']%list_elem_of_filter. rewrite Forall_forall in Ho. by apply Ho.
Qed.

Lemma sorted_app_l (l l' : list ObjectInfo) : StronglySorted name_lt (l ++ l') → StronglySorted name_lt l'.
Proof. apply StronglySorted_app_1_r. Qed.

(** After a common prefix the walk goes on with the objects beyond it. *)
Lemma walk_skip req cp n l :
  ascii_end cp → (∀ o, String.prefix (lr_Prefix req) (oi_Name o) = true → item_of req o = Prefix cp ↔ String.prefix cp (oi_Name o) = true) →
  StronglySorted name_lt l → Forall (λ o, cp ≤ₛ oi_Name o) l →
  Forall (λ o, String.prefix (lr_Prefix req) (oi_Name o) = true) l →
  walk req (Some cp) n l = walk req None n (from (prefixSuccessor cp) l).
Proof.
  intros Hcp Hitem. induction 1 as [|o l Hs IH Hlt]; intros Hle Hp; [done|].
  apply Forall_cons in Hle as [Hle Hle'], Hp as [Hp Hp'].
  pose proof (prefixSuccessor_spec cp (oi_Name o) Hcp Hle) as Hsucc.
  destruct (String.prefix cp (oi_Name o)) eqn:E.
  - unfold from. rewrite filter_cons_False by (rewrite str_nle; by apply Hsucc).
    cbn [walk]. rewrite (proj2 (Hitem o Hp) E). rewrite decide_True by done. by apply IH.
  - assert (prefixSuccessor cp ≤ₛ oi_Name o) as Hge by (apply str_nlt; by rewrite Hsucc).
    rewrite from_all.
    2: { constructor; [done|]. eapply Forall_impl; [exact Hlt|]. intros o' Ho'. etrans; [exact Hge|]. by apply str_lt_le. }
    cbn [walk]. destruct (item_of req o) as [|cp'] eqn:Ei; [done|].
    rewrite decide_False; [by rewrite decide_False|]. intros [= ->]. apply Hitem in Ei; [congruence|done].
Qed.

(** Putting what was found before in front. *)
Definition extend (res : ListResult) (r : list item * string) : ListResult :=
  mkListResult (Objects res ++ objects_of r.1) (Prefixes res ++ prefixes_of r.1) r.2.

Lemma extend_nil res : NextPageToken res = "" → extend res ([], "") = res.
Proof. destruct res. cbn. intros ->. unfold extend. cbn. by rewrite !app_nil_r. Qed.

Lemma extend_empty r : extend (mkListResult [] [] "") r = page r.
Proof. done. Qed.

(** One batch, as a piece of the walk. *)
Lemma walk_batch_spec req maxResults bt : ∀ count res,
  (0 ≤ count)%Z → NextPageToken res = "" → ascii_end (lr_Delimiter req) ∨ lr_Delimiter req = "" →
  Forall (λ o, String.prefix (lr_Prefix req) (oi_Name o) = true) bt →
  match walk_batch req maxResults bt count res with
  | None => False
  | Some (BreakScan, _, res') =>
    ∀ tl, res' = extend res (walk req None (Z.to_nat (maxResults - count)) (bt ++ tl))
  | Some (BatchDone, count', res') =>
    NextPageToken res' = "" ∧ count' = (count + Z.of_nat (length bt))%Z ∧ (bt = [] ∨ count' ≤ maxResults)%Z ∧
    ∀ tl, extend res (walk req None (Z.to_nat (maxResults - count)) (bt ++ tl)) =
          extend res' (walk req None (Z.to_nat (maxResults - count')) tl)
  | Some (ContinueScan next, count', res') =>
    NextPageToken res' = "" ∧ (count < count' ≤ maxResults)%Z ∧
    ∃ pre o post cp, bt = pre ++ o :: post ∧ item_of req o = Prefix cp ∧ next = prefixSuccessor cp ∧
      ∀ tl, extend res (walk req None (Z.to_nat (maxResults - count)) (bt ++ tl)) =
            extend res' (walk req (Some cp) (Z.to_nat (maxResults - count')) (post ++ tl))
  end.
Proof.
  induction bt as [|o bt IH]; intros count res Hc Htok Hdel Hp; cbn [walk_batch].
  { split_and!; [done|cbn; lia|by left|]. intros tl. cbn. do 3 f_equal. }
  apply Forall_cons in Hp as [Hpo Hp].
  destruct (Z.leb_spec maxResults count) as [Hmax|Hmax].
  { intros tl. replace (Z.to_nat (maxResults - count)) with 0 by lia. cbn [app walk].
    destruct res as [ob pr tk]. unfold set_token, extend. cbn.
    destruct (item_of req o); [|rewrite decide_False by done]; cbn; by rewrite !app_nil_r. }
  destruct (Nat.ltb_spec (String.length (oi_Name o)) (String.length (lr_Prefix req))) as [Hlen|_].
  { apply prefix_spec in Hpo as [t Ht]. rewrite Ht, str_length_app in Hlen. lia. }
  assert (Z.to_nat (maxResults - count) = S (Z.to_nat (maxResults - (count + 1)))) as Hn by lia.
  destruct (common_prefix req _) as [cp|] eqn:Ecp.
  - destruct (common_prefix_spec _ _ _ Hpo Ecp) as (_ & Hasc & _).
    assert (lr_Delimiter req ≠ "") as Hdne.
    { intros E. unfold common_prefix in Ecp. by rewrite E in Ecp. }
    destruct Hdel as [Hdel|]; [|done].
    destruct (String.eqb_spec (prefixSuccessor cp) "") as [E|_]; [by apply prefixSuccessor_not_empty in E; auto|].
    assert (item_of req o = Prefix cp) as Hit by (unfold item_of; by rewrite Ecp).
    split_and!; [done|lia|lia|]. exists [], o, bt, cp. split_and!; try done.
    intros tl. rewrite Hn. cbn [app walk]. rewrite Hit, decide_False by done.
    destruct (walk req (Some cp) _ (bt ++ tl)) as [its tok]. unfold extend, add_prefix. cbn.
    by rewrite <- app_assoc.
  - assert (item_of req o = Object o) as Hit by (unfold item_of; by rewrite Ecp).
    assert (∀ tl, extend res (walk req None (Z.to_nat (maxResults - count)) ((o :: bt) ++ tl)) =
      extend (add_object o res) (walk req None (Z.to_nat (maxResults - (count + 1))) (bt ++ tl))) as Hstep.
    { intros tl. rewrite Hn. cbn [app walk]. rewrite Hit.
      destruct (walk req None _ (bt ++ tl)) as [its tok]. unfold extend, add_object. cbn. by rewrite <- app_assoc. }
    specialize (IH (count + 1)%Z (add_object o res) ltac:(lia) Htok Hdel Hp).
    destruct (walk_batch req maxResults bt (count + 1) (add_object o res)) as [[[[|next|] count'] res']|]; [..|done].
    + intros tl. rewrite Hstep. apply IH.
    + destruct IH as (? & ? & pre & o' & post & cp & -> & Hi & Hx & Htl). split_and!; [done|lia|lia|].
      exists (o :: pre), o', post, cp. split_and!; try done. intros tl. by rewrite Hstep, Htl.
    + destruct IH as (? & Hcount & Hle & Htl). split_and!; [done|cbn; lia| |].
      * right. destruct Hle as [->|?]; [cbn in Hcount; lia|lia].
      * intros tl. by rewrite Hstep, Htl.
Qed.

(** ** The rows behind the objects *)

(** Every row can be decoded. *)
Definition scannable (n : string) (t : gmap string objectRow) : Prop :=
  ∀ name r, t !! name = Some r → ∃ o, scanObject n name r = inr o.

Lemma world_scannable w n t : world_ok w → tables w n = Some t → scannable n t.
Proof. intros Hok Ht name r Hr. eapply row_ok_scans. by eapply world_rows. Qed.

Definition dummy_info : ObjectInfo := mkObjectInfo "" "" 0 0 0 "" [] 0 "" ∅ 0 0.
Definition decode (n : string) (p : string * objectRow) : ObjectInfo :=
  match scanObject n p.1 p.2 with inr o => o | inl _ => dummy_info end.

Lemma scanObject_name bn name r o : scanObject bn name r = inr o → oi_Name o = name.
Proof. unfold scanObject. by repeat case_match; intros ?; simplify_eq. Qed.

Lemma order_by_name_spec t p : p ∈ order_by_name t ↔ t !! p.1 = Some p.2.
Proof. unfold order_by_name. rewrite merge_sort_Permutation. destruct p. apply elem_of_map_to_list. Qed.

Lemma order_by_name_sorted t : StronglySorted (λ p q, p.1 <ₛ q.1) (order_by_name t).
Proof.
  assert (StronglySorted by_name (order_by_name t)) as Hs.
  { apply StronglySorted_merge_sort; [intros x y z; apply (transitivity (R:=String.le))|].
    intros x y. apply (total String.le). }
  assert (NoDup (order_by_name t).*1) as Hnd.
  { unfold order_by_name. rewrite merge_sort_Permutation. apply NoDup_fst_map_to_list. }
  induction Hs as [|p l Hs IH Hp]; [constructor|]. apply NoDup_cons in Hnd as [Hnp Hnd].
  constructor; [by apply IH|]. rewrite Forall_forall in Hp |- *. intros q Hq.
  specialize (Hp q Hq). split; [done|]. intros Hle. apply Hnp.
  assert (p.1 = q.1) as -> by (apply (anti_symm String.le); done).
  apply list_elem_of_fmap. by exists q.
Qed.

Section rows.
Context (n : string) (t : gmap string objectRow) (Hscan : scannable n t).
#[local] Set Default Proof Using "Type*".

Lemma decode_row p : t !! p.1 = Some p.2 → scanObject n p.1 p.2 = inr (decode n p) ∧ oi_Name (decode n p) = p.1.
Proof.
  intros Hp. destruct (Hscan _ _ Hp) as [o Ho]. unfold decode. rewrite Ho. split; [done|].
  by eapply scanObject_name.
Qed.

Lemma scan_rows_decode b l :
  b_name b = n → Forall (λ p, t !! p.1 = Some p.2) l → scan_rows b l = inr (decode n <$> l).
Proof.
  intros Hb. induction 1 as [|[name r] l Hp _ IH]; [done|]. cbn [scan_rows]. rewrite Hb.
  destruct (decode_row (name, r) Hp) as [Hd _]. cbn in Hd. by rewrite Hd, IH.
Qed.

Lemma omap_decode l :
  Forall (λ p, t !! p.1 = Some p.2) l →
  omap (λ p, match scanObject n p.1 p.2 with inr o => Some o | inl _ => None end) l = decode n <$> l.
Proof.
  induction 1 as [|p l Hp _ IH]; [done|]. destruct (decode_row p Hp) as [Hd _]. cbn. rewrite Hd. cbn. by f_equal.
Qed.

Lemma from_decode lo l :
  Forall (λ p, t !! p.1 = Some p.2) l →
  decode n <$> filter (λ p, lo ≤ₛ p.1) l = from lo (decode n <$> l).
Proof.
  induction 1 as [|p l Hp _ IH]; [done|]. destruct (decode_row p Hp) as [_ Hn]. unfold from in *.
  rewrite fmap_cons, !filter_cons, Hn. case_decide; [by rewrite fmap_cons, IH|done].
Qed.

Lemma order_rows (P : string * objectRow → Prop) `{!∀ p, Decision (P p)} :
  Forall (λ p, t !! p.1 = Some p.2) (filter P (order_by_name t)).
Proof. apply Forall_forall. intros p [_ Hp]%list_elem_of_filter. by apply order_by_name_spec. Qed.

(** The objects with the request's prefix, in name order. *)
Definition with_prefix (req : ListRequest) : list ObjectInfo :=
  decode n <$> filter (λ p, String.prefix (lr_Prefix req) p.1 = true) (order_by_name t).

Lemma with_prefix_sorted req : StronglySorted name_lt (with_prefix req).
Proof.
  unfold with_prefix. pose proof (order_by_name_sorted t) as Hs.
  assert (Forall (λ p, t !! p.1 = Some p.2) (order_by_name t)) as Hf.
  { apply Forall_forall. intros p. by apply order_by_name_spec. }
  induction Hs as [|p l _ IH Hp]; [constructor|]. apply Forall_cons in Hf as [Hpt Hf].
  rewrite filter_cons. case_decide; [|by apply IH]. rewrite fmap_cons. constructor; [by apply IH|].
  apply Forall_forall. intros o (q & -> & [_ Hq]%list_elem_of_filter)%list_elem_of_fmap. unfold name_lt.
  rewrite Forall_forall in Hp, Hf. rewrite (proj2 (decode_row _ Hpt)), (proj2 (decode_row q (Hf _ Hq))). by apply Hp.
Qed.

Lemma with_prefix_prefix req : Forall (λ o, String.prefix (lr_Prefix req) (oi_Name o) = true) (with_prefix req).
Proof.
  apply Forall_forall. intros o (p & -> & [Hp Hin]%list_elem_of_filter)%list_elem_of_fmap.
  apply order_by_name_spec in Hin. by rewrite (proj2 (decode_row _ Hin)).
Qed.

Lemma listed_objects_from req : listed_objects n req t = from (lr_PageToken req) (with_prefix req).
Proof.
  unfold listed_objects, with_prefix. rewrite omap_decode by apply order_rows.
  rewrite <- from_decode by apply order_rows. f_equal. rewrite list_filter_filter. apply list_filter_iff.
  intros p. tauto.
Qed.

(** The query of one iteration. *)
Lemma select_range d req next :
  objects d = t → ascii_end (lr_Prefix req) ∨ lr_Prefix req = "" → lr_Prefix req ≤ₛ next →
  ∃ rows, sql_select_range d next (prefixSuccessor (lr_Prefix req)) batchSize = rows ∧
    Forall (λ p, t !! p.1 = Some p.2) rows ∧
    decode n <$> rows = take batchSize (from next (with_prefix req)).
Proof.
  intros Hd Hp Hnext. eexists. split; [done|]. unfold sql_select_range. rewrite Hd. split.
  { apply Forall_take, order_rows. }
  rewrite fmap_take. f_equal. unfold with_prefix. rewrite <- from_decode by apply order_rows.
  f_equal. rewrite list_filter_filter. apply list_filter_iff. intros [name r]. unfold in_bounds. cbn.
  split; (intros [Hle Hhi]; split; [done|]).
  - destruct Hp as [Hp|Hp]; [|by rewrite Hp; destruct name]. apply prefixSuccessor_spec; [done|by transitivity next|].
    apply Hhi. by apply prefixSuccessor_not_empty.
  - intros Hne. destruct Hp as [Hp|Hp]; [|by rewrite Hp in Hne].
    apply prefixSuccessor_spec; [done|by transitivity next|done].
Qed.
End rows.

(** ** The scan loop *)

(** The requests the byte arithmetic of [prefixSuccessor] is right for. *)
Definition ascii_request (req : ListRequest) : Prop :=
  (ascii_end (lr_Prefix req) ∨ lr_Prefix req = "") ∧ (ascii_end (lr_Delimiter req) ∨ lr_Delimiter req = "").

(** How the remaining objects split at a batch. *)
Lemma after_prefix req lo l pre o post tl cp :
  StronglySorted name_lt l → Forall (λ o, String.prefix (lr_Prefix req) (oi_Name o) = true) l →
  ascii_end (lr_Delimiter req) ∨ lr_Delimiter req = "" →
  from lo l = (pre ++ o :: post) ++ tl → item_of req o = Prefix cp →
  lo ≤ₛ prefixSuccessor cp ∧ lr_Prefix req ≤ₛ prefixSuccessor cp ∧
  ∀ k, walk req (Some cp) k (post ++ tl) = walk req None k (from (prefixSuccessor cp) l).
Proof.
  intros Hs Hp Hdel Hfrom Hit.
  assert (StronglySorted name_lt ((pre ++ o :: post) ++ tl)) as Hs' by (rewrite <- Hfrom; by apply from_sorted).
  rewrite <- app_assoc in Hfrom, Hs'. cbn [app] in Hfrom, Hs'.
  assert (∀ o', o' ∈ pre ++ o :: post ++ tl → lo ≤ₛ oi_Name o' ∧ String.prefix (lr_Prefix req) (oi_Name o') = true) as Hin.
  { rewrite <- Hfrom. intros o' [? Ho']%list_elem_of_filter. rewrite Forall_forall in Hp. auto. }
  destruct (Hin o) as [Hlo Hpo]; [set_solver|].
  assert (common_prefix req (rest_of req (oi_Name o)) = Some cp) as Hcp.
  { unfold item_of in Hit. destruct (common_prefix _ _); congruence. }
  destruct (common_prefix_spec _ _ _ Hpo Hcp) as (Hcpo & Hasc & Hiff).
  assert (ascii_end cp) as Ha.
  { destruct Hdel as [?|E]; [by apply Hasc|]. unfold common_prefix in Hcp. by rewrite E in Hcp. }
  assert (cp ≤ₛ oi_Name o) as Hle by by apply prefix_le.
  assert (oi_Name o <ₛ prefixSuccessor cp) as Hlt by (by apply prefixSuccessor_spec).
  assert (lo ≤ₛ prefixSuccessor cp) as Hlos by (transitivity (oi_Name o); [done|by apply str_lt_le]).
  split_and!; [done|transitivity (oi_Name o); [by apply prefix_le|by apply str_lt_le]|]. intros k.
  rewrite <- (from_from lo _ l Hlos), Hfrom, from_app. pose proof Hs' as Hs2.
  apply StronglySorted_app in Hs2 as (Hcross & _ & Hs2). inversion_clear Hs2 as [|? ? Hs3 Hafter].
  rewrite from_none.
  2: { apply Forall_forall. intros o' Ho'. eapply str_le_lt_trans; [|exact Hlt]. apply str_lt_le.
       apply Hcross; [done|by left]. }
  cbn [app]. unfold from at 1. rewrite filter_cons_False by (by rewrite str_nle).
  apply walk_skip; [done| |done|..].
  - intros o' Ho'. unfold item_of. rewrite <- (Hiff _ Ho').
    destruct (common_prefix req (rest_of req (oi_Name o'))); split; congruence.
  - eapply Forall_impl; [exact Hafter|]. intros o' Ho'. transitivity (oi_Name o); [done|by apply str_lt_le].
  - apply Forall_forall. intros o' Ho'. apply Hin. set_solver.
Qed.

(** After a full batch the scan goes on behind its last object. *)
Lemma after_batch lo l bt tl o :
  StronglySorted name_lt l → from lo l = bt ++ tl → last bt = Some o →
  lo ≤ₛ oi_Name o +:+ String "000" "" ∧ from (oi_Name o +:+ String "000" "") l = tl.
Proof.
  intros Hs Hfrom Hlast. apply last_Some in Hlast as [bt' ->].
  assert (StronglySorted name_lt ((bt' ++ [o]) ++ tl)) as Hs' by (rewrite <- Hfrom; by apply from_sorted).
  assert (lo ≤ₛ oi_Name o) as Hlo.
  { assert (o ∈ from lo l) as [? _]%list_elem_of_filter; [|done]. rewrite Hfrom. set_solver. }
  assert (oi_Name o ≤ₛ oi_Name o +:+ String "000" "") as Hnul by (apply prefix_le, prefix_app).
  assert (lo ≤ₛ oi_Name o +:+ String "000" "") as Hle by by transitivity (oi_Name o).
  split; [done|]. rewrite <- (from_from lo _ l Hle), Hfrom, from_app.
  apply StronglySorted_app in Hs' as (Hcross & Hs1 & _).
  rewrite from_none, from_all; [done|..].
  - apply Forall_forall. intros o' Ho'. apply str_succ_nul. apply Hcross; [set_solver|done].
  - apply Forall_forall. intros o' Ho'. apply str_nle. rewrite str_succ_nul. intros Hlt.
    apply elem_of_app in Ho' as [Ho'| ->%list_elem_of_singleton]; [|by apply str_lt_irrefl in Hlt].
    apply StronglySorted_app in Hs1 as (Hc & _ & _). specialize (Hc o' o Ho' ltac:(by left)).
    apply (str_lt_irrefl (oi_Name o)). eapply str_le_lt_trans; [by apply str_lt_le|]. by destruct Hc.
Qed.

Lemma triple_scan_loop w0 h b n t req maxResults (Q : ListResult → world → Prop) R fuel : ∀ w next count res,
  world_ok w → kept w0 w → is_open w h n → b_name b = n → tables w0 n = Some t → scannable n t →
  ascii_request req → lr_Prefix req ≤ₛ next → (0 ≤ count)%Z → NextPageToken res = "" →
  Z.to_nat (maxResults - count) < fuel →
  (∀ w', world_ok w' → kept w0 w' →
     Q (extend res (walk req None (Z.to_nat (maxResults - count)) (from next (with_prefix n t req)))) w') →
  triple w (scan_loop fuel h b req maxResults (prefixSuccessor (lr_Prefix req)) next count res)
    Q (E_rel same_tables w0 R) (C_rel same_tables w0).
Proof.
  induction fuel as [|fuel IH]; intros w next count res Hok Hk Ho Hb Ht Hscan [Hpre Hdel] Hnext Hcount Htok Hfuel HQ; [lia|].
  destruct (is_open_facts _ _ _ Hok Ho) as (i & d & Hh & _ & _ & _ & _ & _ & _ & Hhd & Htw).
  rewrite (kept_tables _ _ _ Hk), Ht in Htw. injection Htw as Hd.
  cbn [scan_loop]. tsteps.
  apply triple_db_Query; [|intros e w' Hq [?|[_ ?]]; [eauto with quiet|congruence]|tfault].
  intros w1 d' Hq Hd'. replace d' with d by congruence. clear d' Hd'. quiet_facts_as Hq Hok1 Hkq.
  assert (kept w0 w1) as Hk1 by exact (kept_trans _ _ _ Hk Hkq).
  destruct (select_range n t Hscan d req next (eq_sym Hd) Hpre Hnext) as (rows & -> & Hrows & Hbt).
  cbn beta. rewrite (scan_rows_decode n t Hscan b rows Hb Hrows), Hbt.
  set (l := with_prefix n t req) in *. set (bt := take batchSize (from next l)).
  set (tl := drop batchSize (from next l)).
  assert (from next l = bt ++ tl) as Hsplit by (unfold bt, tl; by rewrite take_drop).
  pose proof (with_prefix_sorted n t Hscan req) as Hs. pose proof (with_prefix_prefix n t Hscan req) as Hp.
  assert (Forall (λ o, String.prefix (lr_Prefix req) (oi_Name o) = true) bt) as Hpb.
  { apply Forall_take. apply Forall_forall. intros o [_ Ho']%list_elem_of_filter. rewrite Forall_forall in Hp. by apply Hp. }
  pose proof (walk_batch_spec req maxResults bt count res Hcount Htok Hdel Hpb) as Hw.
  rewrite Hsplit in HQ.
  destruct (walk_batch req maxResults bt count res) as [[[[|nx|] count'] res']|]; [..|done].
  - tsteps. rewrite (Hw tl). by apply HQ.
  - destruct Hw as (Htok' & Hc' & pre & o & post & cp & Hbteq & Hit & -> & Hwalk).
    rewrite Hbteq in Hsplit. fold l in Hs, Hp.
    destruct (after_prefix req next l pre o post tl cp Hs Hp Hdel Hsplit Hit) as (_ & Hpn & Hskip).
    eapply IH; try done; [eauto with quiet|lia|lia|]. fold l. rewrite <- Hskip, <- Hwalk. done.
  - destruct Hw as (Htok' & -> & Hcnt & Hwalk).
    destruct (Nat.ltb_spec (length bt) batchSize) as [Hlt|Hge]; tsteps.
    + assert (tl = []) as Htl.
      { unfold tl. apply drop_ge. unfold bt in Hlt. rewrite length_take in Hlt. lia. }
      rewrite Hwalk, Htl in HQ. cbn [walk] in HQ. rewrite extend_nil in HQ by done. by apply HQ.
    + destruct (last bt) as [o|] eqn:Hlast.
      2: { apply last_None in Hlast. rewrite Hlast in Hge. unfold batchSize in Hge. cbn in Hge. lia. }
      destruct (after_batch next l bt tl o Hs Hsplit Hlast) as [Hle Htl].
      assert (0 < length bt) as Hpos by (unfold batchSize in Hge; lia).
      eapply IH; try done; [eauto with quiet|by transitivity next|lia|..].
      * destruct Hcnt as [E|?]; [rewrite E in Hpos; cbn in Hpos; lia|lia].
      * fold l. rewrite Htl, <- Hwalk. done.
Qed.

Lemma list_from_start n t req :
  scannable n t → from (scan_start req) (with_prefix n t req) = listed_objects n req t.
Proof.
  intros Hscan. rewrite (listed_objects_from n t Hscan). unfold scan_start. case_decide as Hd; [done|].
  apply str_nlt in Hd. pose proof (with_prefix_prefix n t Hscan req) as Hp. rewrite !from_all; [done|..].
  - eapply Forall_impl; [exact Hp|]. intros o Ho. cbn in Ho. transitivity (lr_Prefix req); [done|by apply prefix_le].
  - eapply Forall_impl; [exact Hp|]. intros o Ho. by apply prefix_le.
Qed.

Lemma triple_ListObjects w n req :
  world_ok w → ascii_request req →
  triple w (ListObjects n req)
    (λ res w', world_ok w' ∧ kept w w' ∧ ∃ t, tables w n = Some t ∧ res = list_spec n req t)
    (E_rel same_tables w (no_bucket w n)) (C_rel same_tables w).
Proof.
  intros Hok Hreq.
  assert (∀ t, tables w n = Some t → scannable n t) as Hscan by (intros; by eapply world_scannable).
  unfold ListObjects. tsteps.
  apply triple_with_bucket; [apply _|done|auto|]. intros w1 h Hok1 Hk1 Ho1. tsteps.
  destruct (is_open_facts _ _ _ Hok1 Ho1) as (i & d & Hh & _ & _ & _ & _ & _ & _ & _ & Ht).
  rewrite (kept_tables _ _ _ Hk1) in Ht.
  eapply triple_load_bucket; [exact Hh|]. tsteps.
  assert (lr_Prefix req ≤ₛ scan_start req) as Hstart.
  { unfold scan_start. case_decide; [by apply str_lt_le|done]. }
  apply (triple_scan_loop w h _ n (objects d) req); try done; [by apply Hscan|lia|].
  intros w2 Hok2 Hk2. split_and!; [done..|]. exists (objects d). split; [done|].
  rewrite extend_empty, list_from_start by by apply Hscan. unfold list_spec.
  by rewrite Z.sub_0_r.
Qed.

(** Whatever the request, listing only opens the bucket. *)
Lemma scan_loop_quiet fuel h b req maxResults e : ∀ w next count res,
  wp (scan_loop fuel h b req maxResults e next count res) (λ _ w', quiet w w') w.
Proof.
  induction fuel as [|fuel IH]; intros w next count res; [apply quiet_refl|]. cbn [scan_loop].
  apply wp_bind. unfold db_Query, sqlcall. apply wp_external.
  - intros fs Hfs. assert (quiet w (set_faults fs w)) as Hq by by exists fs.
    unfold wp at 1. destruct (handle_db h (set_faults fs w)); cbn; [|done].
    destruct (scan_rows b _) as [|batch]; [done|].
    assert (∀ next count res, wp (scan_loop fuel h b req maxResults e next count res)
      (λ _ w', quiet w w') (set_faults fs w)) as Hrec.
    { intros. eapply wp_mono; [apply IH|]. intros o w' ?. by eapply quiet_trans. }
    destruct (walk_batch _ _ _ _ _) as [[[[|nx|] c] r]|]; [done|apply Hrec| |done].
    repeat case_match; first [exact Hq|apply Hrec].
  - intros fs ?? Hf. exists fs. by split; [intros ?|].
  - intros fs ?? Hf. exists fs. by split; [intros ?|].
Qed.

(** ** Pages *)

Lemma walk_token req prev n l : (walk req prev n l).2 = "" ∨ ∃ o, o ∈ l ∧ oi_Name o = (walk req prev n l).2.
Proof.
  revert prev n. induction l as [|o l IH]; intros prev n; [by left|]. cbn [walk].
  assert (∀ prev n, (walk req prev n l).2 = "" ∨ ∃ o', o' ∈ o :: l ∧ oi_Name o' = (walk req prev n l).2) as IH'.
  { intros prev' n'. destruct (IH prev' n') as [?|(o' & ? & ?)]; [by left|right]. exists o'. split; [by right|done]. }
  assert (∃ o', o' ∈ o :: l ∧ oi_Name o' = oi_Name o) as Hhere by (exists o; split; [by left|done]).
  destruct (item_of req o) as [o'|cp]; [|case_decide; [by apply IH'|]]; (destruct n as [|n]; [by right|]).
  - specialize (IH' None n). by destruct (walk req None n l).
  - specialize (IH' (Some cp) n). by destruct (walk req (Some cp) n l).
Qed.

(** With room for everything there is no next page. *)
Lemma walk_all req prev n l : length l ≤ n → (walk req prev n l).2 = "".
Proof.
  revert prev n. induction l as [|o l IH]; intros prev n Hn; [done|]. cbn in Hn. cbn [walk].
  destruct n as [|n]; [lia|].
  destruct (item_of req o) as [o'|cp]; [|case_decide; [apply IH; lia|]].
  - specialize (IH None n). destruct (walk req None n l). apply IH. lia.
  - specialize (IH (Some cp) n). destruct (walk req (Some cp) n l). apply IH. lia.
Qed.

Lemma from_head o l : StronglySorted name_lt (o :: l) → from (oi_Name o) (o :: l) = o :: l.
Proof.
  intros Hs. apply from_all. inversion_clear Hs as [|? ? _ Hl]. constructor; [done|].
  eapply Forall_impl; [exact Hl|]. intros o'. apply str_lt_le.
Qed.

Lemma from_tail o l tok :
  StronglySorted name_lt (o :: l) → tok = "" ∨ (∃ o', o' ∈ l ∧ oi_Name o' = tok) → tok ≠ "" →
  from tok (o :: l) = from tok l.
Proof.
  intros Hs [?|(o' & Ho' & <-)] Hne; [done|]. unfold from. rewrite filter_cons_False; [done|].
  inversion_clear Hs as [|? ? _ Hl]. rewrite Forall_forall in Hl. apply str_nle. by apply Hl.
Qed.

(** The next page takes up exactly where this one stops. *)
Lemma walk_resume req l : ∀ prev n m,
  StronglySorted name_lt l → Forall (λ o, oi_Name o ≠ "") l →
  (walk req prev (n + m) l).1 =
  (walk req prev n l).1 ++
    (if String.eqb (walk req prev n l).2 "" then [] else (walk req None m (from (walk req prev n l).2 l)).1).
Proof.
  induction l as [|o l IH]; intros prev n m Hs Hne; [done|].
  apply Forall_cons in Hne as [Hno Hne]. pose proof Hs as Hs'. inversion_clear Hs' as [|? ? Hsl Hol].
  assert (∀ prev' n' i, (walk req prev' (n' + m) l).1 = (walk req prev' n' l).1 ++
     (if String.eqb (walk req prev' n' l).2 "" then [] else (walk req None m (from (walk req prev' n' l).2 (o :: l))).1) →
     i :: (walk req prev' (n' + m) l).1 = (i :: (walk req prev' n' l).1) ++
     (if String.eqb (walk req prev' n' l).2 "" then [] else (walk req None m (from (walk req prev' n' l).2 (o :: l))).1)) as Hcons.
  { intros prev' n' i ->. done. }
  assert (∀ prev' n', (walk req prev' (n' + m) l).1 = (walk req prev' n' l).1 ++
     (if String.eqb (walk req prev' n' l).2 "" then [] else (walk req None m (from (walk req prev' n' l).2 (o :: l))).1)) as IH'.
  { intros prev' n'. rewrite IH by done. f_equal.
    destruct (String.eqb_spec (walk req prev' n' l).2 "") as [|Htok]; [done|].
    rewrite (from_tail o); [done|done|apply walk_token|done]. }
  pose proof (from_head o l Hs) as Hhead.
  cbn [walk]. destruct (item_of req o) as [o'|cp] eqn:Eo.
  - destruct n as [|n]; cbn [Nat.add fst snd].
    + destruct (String.eqb_spec (oi_Name o) ""); [done|]. rewrite Hhead. cbn [walk app]. by rewrite Eo.
    + specialize (Hcons None n (Object o') (IH' None n)).
      destruct (walk req None (n + m) l), (walk req None n l). exact Hcons.
  - case_decide as Hprev; [apply IH'|]. destruct n as [|n]; cbn [Nat.add fst snd].
    + destruct (String.eqb_spec (oi_Name o) ""); [done|]. rewrite Hhead. cbn [walk app]. by rewrite Eo, decide_False.
    + specialize (Hcons (Some cp) n (Prefix cp) (IH' (Some cp) n)).
      destruct (walk req (Some cp) (n + m) l), (walk req (Some cp) n l). exact Hcons.
Qed.

(** What the items are, when there is room for all. *)
Lemma walk_objects req l : ∀ prev n, length l ≤ n →
  objects_of (walk req prev n l).1 = filter (λ o, common_prefix req (rest_of req (oi_Name o)) = None) l.
Proof.
  induction l as [|o l IH]; intros prev n Hn; [done|]. cbn in Hn. cbn [walk]. rewrite filter_cons.
  unfold item_of. destruct n as [|n]; [lia|].
  destruct (common_prefix req (rest_of req (oi_Name o))) as [cp|].
  - rewrite (decide_False (P:=Some cp = None)) by done. case_decide; [apply IH; lia|].
    specialize (IH (Some cp) n). destruct (walk req (Some cp) n l). cbn. apply IH. lia.
  - rewrite decide_True by done. specialize (IH None n). destruct (walk req None n l). cbn. f_equal. apply IH. lia.
Qed.

Lemma walk_prefix_sound req l cp : ∀ prev n,
  cp ∈ prefixes_of (walk req prev n l).1 → ∃ o, o ∈ l ∧ item_of req o = Prefix cp.
Proof.
  induction l as [|o l IH]; intros prev n; cbn [walk]; [by intros ?%elem_of_nil|].
  assert (∀ prev' n', cp ∈ prefixes_of (walk req prev' n' l).1 → ∃ o', o' ∈ o :: l ∧ item_of req o' = Prefix cp) as IH'.
  { intros prev' n' H. destruct (IH _ _ H) as (o' & ? & ?). exists o'. split; [by right|done]. }
  destruct (item_of req o) as [o'|cp'] eqn:Eo; [|case_decide; [by apply IH'|]];
    (destruct n as [|n]; [by intros ?%elem_of_nil|]).
  - specialize (IH' None n). destruct (walk req None n l). apply IH'.
  - specialize (IH' (Some cp') n). destruct (walk req (Some cp') n l). cbn.
    intros [->|?]%elem_of_cons; [exists o; split; [by left|done]|by apply IH'].
Qed.

Lemma walk_prefix_complete req l cp : ∀ prev n, length l ≤ n →
  (∃ o, o ∈ l ∧ item_of req o = Prefix cp) → prev = Some cp ∨ cp ∈ prefixes_of (walk req prev n l).1.
Proof.
  induction l as [|o l IH]; intros prev n Hn (o' & Ho' & Hi); [by apply elem_of_nil in Ho'|].
  cbn in Hn. destruct n as [|n]; [lia|]. cbn [walk].
  apply elem_of_cons in Ho' as [->|Ho'].
  - rewrite Hi. case_decide; [by left|right]. destruct (walk req (Some cp) n l). by left.
  - assert (∃ o, o ∈ l ∧ item_of req o = Prefix cp) as Hex by eauto.
    destruct (item_of req o) as [o''|cp'] eqn:Eo; [|case_decide; [apply IH; [lia|done]|]]; right.
    + destruct (IH None n) as [?|Hx]; [lia|done|done|]. by destruct (walk req None n l).
    + destruct (IH (Some cp') n) as [[= ->]|Hx]; [lia|done| |]; destruct (walk req (Some _) n l); cbn; [by left|by right].
Qed.

(** Objects under one common prefix are consecutive. *)
Lemma item_between req o1 o2 o3 cp :
  String.prefix (lr_Prefix req) (oi_Name o1) = true → String.prefix (lr_Prefix req) (oi_Name o2) = true →
  String.prefix (lr_Prefix req) (oi_Name o3) = true →
  oi_Name o1 ≤ₛ oi_Name o2 → oi_Name o2 ≤ₛ oi_Name o3 →
  cp ≤ₛ oi_Name o1 → item_of req o3 = Prefix cp → item_of req o2 = Prefix cp.
Proof.
  intros H1 H2 H3 H12 H23 Hle Hi. unfold item_of in *.
  destruct (common_prefix req (rest_of req (oi_Name o3))) as [c|] eqn:E; [|done]. simplify_eq.
  destruct (common_prefix_spec _ _ _ H3 E) as (Hc & _ & Hiff).
  assert (String.prefix cp (oi_Name o2) = true) as Hx.
  { eapply prefix_between; [|exact H23|exact Hc]. by transitivity (oi_Name o1). }
  apply Hiff in Hx; [|done]. by rewrite Hx.
Qed.

Lemma item_prefix_le req o cp :
  String.prefix (lr_Prefix req) (oi_Name o) = true → item_of req o = Prefix cp → cp ≤ₛ oi_Name o.
Proof.
  intros Hp Hi. unfold item_of in Hi. destruct (common_prefix req _) eqn:E; [|done]. simplify_eq.
  destruct (common_prefix_spec _ _ _ Hp E) as (Hc & _). by apply prefix_le.
Qed.

#[export] Instance item_eq_dec : EqDecision item.
Proof. solve_decision. Defined.

Section sorted.
Context (req : ListRequest).
Abbreviation prefixed o := (String.prefix (lr_Prefix req) (oi_Name o) = true).

Lemma walk_prefix_new o cp l : ∀ n,
  StronglySorted name_lt (o :: l) → Forall (λ o, prefixed o) (o :: l) → item_of req o = Prefix cp →
  cp ∉ prefixes_of (walk req (Some cp) n l).1.
Proof.
  intros n Hs Hp Hi. inversion_clear Hs as [|? ? Hsl Hol]. apply Forall_cons in Hp as [Hpo Hp].
  induction l as [|o1 l IH]; [by intros ?%elem_of_nil|].
  inversion_clear Hsl as [|? ? Hsl' Ho1]. apply Forall_cons in Hol as [Hoo1 Hol], Hp as [Hp1 Hp].
  assert (item_of req o1 ≠ Prefix cp → ∀ o', o' ∈ o1 :: l → item_of req o' ≠ Prefix cp) as Hno.
  { intros Hne o' Ho' Hi'. apply Hne. apply elem_of_cons in Ho' as [->|Ho']; [done|].
    rewrite Forall_forall in Ho1, Hp.
    apply (item_between req o o1 o'); try done;
      [by apply Hp|by apply str_lt_le|by apply str_lt_le, Ho1|by apply (item_prefix_le req)]. }
  destruct (decide (item_of req o1 = Prefix cp)) as [E1|Hne].
  - cbn [walk]. rewrite E1, decide_True by done. by apply IH.
  - intros (o' & Ho' & Hi')%walk_prefix_sound. by apply (Hno Hne o').
Qed.

(** Common prefixes come in order, each once. *)
Lemma walk_prefixes_sorted l : ∀ prev n,
  StronglySorted name_lt l → Forall (λ o, prefixed o) l →
  StronglySorted str_lt (prefixes_of (walk req prev n l).1).
Proof.
  induction l as [|o l IH]; intros prev n Hs Hp; [constructor|].
  pose proof (walk_prefix_new o) as Hnew. pose proof Hs as Hs0. pose proof Hp as Hp0.
  inversion_clear Hs as [|? ? Hsl Hol]. apply Forall_cons in Hp as [Hpo Hp]. cbn [walk].
  destruct (item_of req o) as [o'|cp] eqn:Eo; [|case_decide; [by apply IH|]];
    (destruct n as [|n]; [constructor|]).
  - specialize (IH None n Hsl Hp). by destruct (walk req None n l).
  - specialize (IH (Some cp) n Hsl Hp). specialize (Hnew cp l n Hs0 Hp0 eq_refl).
    assert (∀ cp', cp' ∈ prefixes_of (walk req (Some cp) n l).1 → cp <ₛ cp') as Hlt.
    { intros cp' Hin. pose proof Hin as Hin'. apply walk_prefix_sound in Hin as (o' & Ho' & Hi').
      rewrite Forall_forall in Hol, Hp. apply str_nle. intros Hle.
      assert (item_of req o = Prefix cp') as Hx; [|congruence].
      apply (item_between req o o o'); try done; [by apply Hp|by apply str_lt_le, Hol|].
      transitivity cp; [done|by apply (item_prefix_le req)]. }
    destruct (walk req (Some cp) n l). cbn in *. constructor; [done|]. by apply Forall_forall.
Qed.
End sorted.

(** A page holds at most as many items as asked for. *)
Lemma walk_length req l : ∀ prev n, length (walk req prev n l).1 ≤ n.
Proof.
  induction l as [|o l IH]; intros prev n; cbn [walk]; [cbn; lia|].
  destruct (item_of req o) as [o'|cp]; [|case_decide; [apply IH|]]; (destruct n as [|n]; [cbn; lia|]).
  - specialize (IH None n). destruct (walk req None n l). cbn in *. lia.
  - specialize (IH (Some cp) n). destruct (walk req (Some cp) n l). cbn in *. lia.
Qed.

Lemma items_length its : length (objects_of its) + length (prefixes_of its) = length its.
Proof. induction its as [|[o|cp] its IH]; [done|..]; cbn; unfold objects_of, prefixes_of in IH; lia. Qed.
