(* ===== verification/Run.v ===== *)
(** The store as a state machine: calls of the API, one after the other, in an
    environment that sets the clock, makes calls of the operating system fail
    and kills the process; and the invariant of its reachable states. *)

From S2P Require Import Prelude Errors GoMonad GoStd Types Names Hash Database World Bucket Store BlobWriter StoreInv Triple StoreSafe StoreOps ObjectOps WriterOps Listing ListingSpec.
From stdpp Require Import options.
From stdpp Require Import relations.

(** The API of [pkg/store]. *)
Inductive op :=
  | OpCreateBucket (name : string)
  | OpGetBucket (name : string)
  | OpListBuckets
  | OpDeleteBucket (name : string)
  | OpGetObject (bucketName name : string)
  | OpOpenObject (bucketName name : string)
  | OpDeleteObject (bucketName name : string) (conds : Conditions)
  | OpListObjects (bucketName : string) (req : ListRequest)
  | OpNewBlobWriter (bucketName : string)
  | OpWrite (p : nat) (q : bytes)
  | OpAbort (p : nat)
  | OpCommit (p : nat) (name : string) (opts : PutOptions)
  | OpTempFile (bucketName : string)
  | OpPutObject (bucketName name : string) (r : reader) (opts : PutOptions)
  | OpClose.

(** A call whose result nobody looks at. *)
Definition void {A} (m : M world A) : M world unit := do* m in ret tt.

Definition exec (o : op) : M world unit :=
  match o with
  | OpCreateBucket n => void (CreateBucket n)
  | OpGetBucket n => void (GetBucket n)
  | OpListBuckets => void ListBuckets
  | OpDeleteBucket n => void (DeleteBucket n)
  | OpGetObject n name => void (GetObject n name)
  | OpOpenObject n name => void (OpenObject n name)
  | OpDeleteObject n name conds => void (DeleteObject n name conds)
  | OpListObjects n req => void (ListObjects n req)
  | OpNewBlobWriter n => void (NewBlobWriter n)
  | OpWrite p q => void (Write p q)
  | OpAbort p => Abort_ p
  | OpCommit p name opts => void (Commit p name opts)
  | OpTempFile n => void (TempFile n)
  | OpPutObject n name r opts => void (PutObject n name r opts)
  | OpClose => Close
  end.

(** A method is called on a writer that [NewBlobWriter] returned. *)
Definition enabled (w : world) (o : op) : Prop :=
  match o with
  | OpWrite p _ | OpAbort p | OpCommit p _ _ => is_Some (writers w !! p)
  | _ => True
  end.

(** A process starts on the directory: [Open] succeeds, or the process ends and
    another one is started. *)
Inductive starts : world → world → Prop :=
  | starts_ok w w' : Open w = (Ret tt, w') → starts w w'
  | starts_again w w' : (Open w).1 ≠ Ret tt → starts (died (Open w).2) w' → starts w w'.

Inductive step : world → world → Prop :=
  | step_call o w : enabled w o → (exec o w).1 ≠ Crash → step w (exec o w).2
  | step_die o w w' : enabled w o → (exec o w).1 = Crash → starts (died (exec o w).2) w' → step w w'
  | step_restart w w' : starts (died w) w' → step w w'
  | step_clock t w : step w (set_now t w)
  | step_faults fs w : step w (set_faults fs w).

(** An empty data directory, before the process is started. *)
Definition init_world (t : Time) : world := mkWorld ∅ ∅ ∅ 0 ∅ ∅ ∅ t [].

Definition reachable (w : world) : Prop := ∃ t w0, starts (init_world t) w0 ∧ rtc step w0 w.

Lemma init_world_ok t : world_ok (init_world t).
Proof. split; split; cbn; try done; intros; try (by rewrite lookup_empty in *). Qed.

(** [Open] changes nothing but the script of failures and the map of handles. *)
Lemma Open_world w : ∃ fs, (Open w).2 = set_faults fs w ∨ (Open w).2 = set_buckets (λ _, ∅) (set_faults fs w).
Proof.
  unfold Open, bind, try, syscall, external. destruct (faults w) as [|[|n k|n k] fs] eqn:E; cbn; eauto.
Qed.

(** A process that has not opened anything. *)
Definition idle (w : world) : Prop := handles w = ∅ ∧ writers w = ∅.

Lemma Open_ok w : world_ok w → idle w → world_ok (Open w).2.
Proof.
  intros Hok [Hh Hw]. destruct (Open_world w) as [fs [->| ->]]; [by apply world_ok_faults|].
  destruct (world_ok_faults fs w Hok) as [[] []]. split; split; cbn; try done. by rewrite Hh.
Qed.

Lemma Open_same w : same_tables w (Open w).2.
Proof. by destruct (Open_world w) as [fs [->| ->]]. Qed.

Lemma starts_ok_same w w' : world_ok w → idle w → starts w w' → world_ok w' ∧ same_tables w w'.
Proof.
  intros Hok Hi Hs. induction Hs as [w w' E|w w' _ _ IH].
  - pose proof (Open_ok w Hok Hi) as H. pose proof (Open_same w) as H'. by rewrite E in H, H'.
  - destruct IH as [? Hs]; [by apply world_ok_died, wok_disk, Open_ok|done|]. split; [done|].
    intros n. by rewrite (Hs n), <- (Open_same w n).
Qed.

(** After a death the disk's invariant is enough. *)
Lemma died_starts w w' : disk_ok w → starts (died w) w' → world_ok w' ∧ same_tables w w'.
Proof. intros Hd%world_ok_died Hs. by apply starts_ok_same in Hs. Qed.

(** However a call ends, the invariant holds of what it leaves. *)
Definition safe (o : outcome unit) (w : world) : Prop :=
  match o with Crash => disk_ok w | _ => world_ok w end.

Lemma triple_safe {A} w (m : M world A) T T' R (Q : A → world → Prop) :
  triple w m Q (E_rel T w R) (C_rel T' w) → (∀ a w', Q a w' → world_ok w') → wp (void m) safe w.
Proof.
  intros Hm HQ. unfold void. apply wp_bind. eapply wp_mono; [exact Hm|].
  intros [a|e|x| |] w'; cbn; [apply HQ|by intros (? & _)|done|done|by intros (? & _)].
Qed.

Lemma ListObjects_safe w n req : world_ok w → wp (void (ListObjects n req)) safe w.
Proof.
  intros Hok. unfold void, ListObjects. apply wp_bind, wp_bind.
  assert (triple w (bucket n) (λ h w', world_ok w' ∧ is_open w' h n)
    (E_rel same_tables w (no_bucket w n)) (C_rel same_tables w)) as Hb by (apply triple_bucket; auto).
  eapply wp_mono; [exact Hb|]. intros [h|e|x| |] w1; cbn [post bind_post]; [|by intros (? & _)|done|done|by intros (? & _)].
  intros [Hok1 Ho]. destruct (is_open_facts _ _ _ Hok1 Ho) as (i & d & Hh & _).
  apply wp_bind. unfold load_bucket, wp at 1. rewrite Hh. cbn [fst snd bind_post]. cbv zeta.
  eapply wp_mono; [apply scan_loop_quiet|]. intros [] w2 Hq; cbn; try (by eapply quiet_ok); apply wok_disk; by eapply quiet_ok.
Qed.

(** Methods of a writer that is still taking content, or is done. *)
Lemma writer_cases w p : is_Some (writers w !! p) → ∃ bw, writers w !! p = Some bw ∧ (w_done bw = true ∨ writing w p bw).
Proof. intros [bw Hbw]. exists bw. split; [done|]. destruct (w_done bw) eqn:E; [by left|right; by split]. Qed.

Lemma Write_safe w p q : world_ok w → is_Some (writers w !! p) → wp (void (Write p q)) safe w.
Proof.
  intros Hok (bw & Hbw & [Hd|Hw])%writer_cases.
  - unfold void, Write, load_writer, bind, wp. rewrite Hbw, Hd. done.
  - eapply (triple_safe _ _ same_tables same_tables (λ _, False) (λ _ w', world_ok w')); [|done].
    apply (triple_Write same_tables w w p bw); [done|apply kept_refl|done|]. by intros.
Qed.

Lemma Abort_safe w p : world_ok w → is_Some (writers w !! p) → wp (Abort_ p) safe w.
Proof.
  intros Hok (bw & Hbw & [Hd|Hw])%writer_cases.
  - unfold Abort_, load_writer, bind, wp. by rewrite Hbw, Hd.
  - eapply wp_mono; [by apply (triple_Abort w p bw)|]. intros [] ?; cbn; first [done|by intros (? & _)].
Qed.

Lemma Commit_safe w p name opts : world_ok w → is_Some (writers w !! p) → wp (void (Commit p name opts)) safe w.
Proof.
  intros Hok (bw & Hbw & [Hd|Hw])%writer_cases.
  - unfold void, Commit, load_writer, bind, wp. by rewrite Hbw, Hd.
  - destruct (writer_bucket _ _ _ Hok Hbw) as (b & Hb & _).
    unfold void. apply wp_bind. eapply wp_mono; [by apply (triple_Commit w p bw b)|].
    intros [] w'; cbn; first [done|by intros (? & _)|by intros ((? & _) & _)].
Qed.

Lemma exec_safe w o : world_ok w → enabled w o → wp (exec o) safe w.
Proof.
  intros Hok He. destruct o; cbn [exec] in *; cbn [enabled] in He.
  - eapply triple_safe; [by apply triple_CreateBucket|]. by intros ?? (? & _).
  - eapply triple_safe; [by apply triple_GetBucket|]. by intros ?? (? & _).
  - eapply triple_safe; [by apply triple_ListBuckets|]. by intros ?? (? & _).
  - eapply triple_safe; [by apply triple_DeleteBucket|]. by intros ?? (? & _).
  - eapply triple_safe; [by apply triple_GetObject|]. by intros ?? (? & _).
  - eapply triple_safe; [by apply triple_OpenObject|]. by intros [] ? (? & _).
  - eapply triple_safe; [by apply triple_DeleteObject|]. by intros ?? (? & _).
  - by apply ListObjects_safe.
  - eapply triple_safe; [by apply triple_NewBlobWriter|]. by intros ?? (? & _).
  - by apply Write_safe.
  - by apply Abort_safe.
  - by apply Commit_safe.
  - eapply triple_safe; [by apply triple_TempFile|]. by intros [] ? (? & _).
  - eapply triple_safe; [by apply triple_PutObject|]. by intros ?? (? & _).
  - eapply wp_mono; [by apply triple_Close|]. intros [] ?; cbn; first [done|by intros (? & _)].
Qed.

Theorem reachable_ok w : reachable w → world_ok w.
Proof.
  intros (t & w0 & Hst & Hr). assert (world_ok w0) as Hok0 by (apply (starts_ok_same (init_world t)); [apply init_world_ok|done|done]). clear Hst.
  induction Hr as [|w0 w1 w2 Hs _ IH]; [done|]. apply IH.
  destruct Hs as [o w1 He Hn|o w1 w1' He Hn Hst|w1 w1' Hst|t' w1|fs w1].
  - pose proof (exec_safe w1 o Hok0 He) as H. unfold wp in H. by destruct (exec o w1) as [[] ?].
  - pose proof (exec_safe w1 o Hok0 He) as H. unfold wp in H. rewrite Hn in H.
    by apply (died_starts _ _ H).
  - apply (died_starts w1); [by apply wok_disk|done].
  - by apply world_ok_now.
  - by apply world_ok_faults.
Qed.
