(* ===== verification/Frame.v ===== *)
(** What a call of the store leaves alone: the files, the writers and the part
    files that it has not made itself and was not given.  This is what makes
    the calls of concurrent requests independent. *)

From S2P Require Import Prelude Errors GoMonad GoStd Types Names Hash Database World Bucket Store BlobWriter Listing StoreInv Triple StoreSafe ListingSpec Run.
From stdpp Require Import options.

(** ** Judgements *)

(** [I] holds again however the call ends, and [Q] of what it returns. *)
Definition yields {S A} (I : S → Prop) (m : M S A) (Q : A → Prop) : Prop :=
  ∀ s, I s → wp m (λ o s', I s' ∧ match o with Ret a => Q a | _ => True end) s.

Section yields.
Context {S : Type} (I : S → Prop).

Lemma yields_ret {A} (a : A) (Q : A → Prop) : Q a → yields I (ret a) Q.
Proof. by intros ? s. Qed.
Lemma yields_throw {A} e (Q : A → Prop) : yields I (throw e) Q.
Proof. by intros s. Qed.
Lemma yields_panic {A} x (Q : A → Prop) : yields I (panic x) Q.
Proof. by intros s. Qed.
Lemma yields_bind {A B} (m : M S A) (f : A → M S B) Q R :
  yields I m Q → (∀ a, Q a → yields I (f a) R) → yields I (bind m f) R.
Proof.
  intros Hm Hf s Hs. apply wp_bind. eapply wp_mono; [by apply Hm|].
  intros [] s' [HI HQ]; cbn; try done. by apply Hf.
Qed.
Lemma yields_mono {A} (m : M S A) (Q Q' : A → Prop) :
  yields I m Q → (∀ a, Q a → Q' a) → yields I m Q'.
Proof. intros Hm HQ s Hs. eapply wp_mono; [by apply Hm|]. intros [] s' [??]; auto. Qed.
Lemma yields_try {A} (m : M S A) (Q : error + A → Prop) :
  yields I m (λ a, Q (inr a)) → (∀ e, Q (inl e)) → yields I (try m) Q.
Proof. intros Hm He s Hs. apply wp_try. eapply wp_mono; [by apply Hm|]. intros [] s' [??]; auto. Qed.
Lemma yields_ignore {A} (m : M S A) (Q : A → Prop) (R : unit → Prop) : yields I m Q → R tt → yields I (ignore m) R.
Proof. intros Hm HR s Hs. apply wp_ignore. eapply wp_mono; [by apply Hm|]. intros [] s' [??]; auto. Qed.
Lemma yields_defer {A} (c : M S unit) (m : M S A) Q : yields I c (λ _, True) → yields I m Q → yields I (defer c m) Q.
Proof.
  intros Hc Hm s Hs. apply wp_defer. eapply wp_mono; [by apply Hm|].
  intros [] s' [HI HQ]; try done; (eapply wp_mono; [by eapply (yields_ignore c _ (λ _, True))|]); by intros [] s'' [??]; split.
Qed.
Lemma yields_get {A} (f : S → M S A) Q : (∀ s, I s → yields I (f s) Q) → yields I (bind get f) Q.
Proof. intros Hf s Hs. by apply (Hf s Hs s). Qed.
(** A step that is a function of the state. *)
Lemma yields_step {A} (f : S → outcome A * S) (Q : A → Prop) :
  (∀ s, I s → I (f s).2 ∧ match (f s).1 with Ret a => Q a | _ => True end) → yields I f Q.
Proof. intros Hf s Hs. by apply Hf. Qed.
Lemma yields_preserves {A} (m : M S A) Q : yields I m Q → preserves I m.
Proof. intros Hm s Hs. eapply wp_mono; [by apply Hm|]. by intros ?? [??]. Qed.
End yields.

(** ** The frame *)

(** From [w0] to [w] only the files and the writers in [X] have been touched,
    and new ones. *)
Record touches (X : gset nat) (w0 w : world) : Prop := {
  to_next : next w0 ≤ next w;
  to_files : ∀ x, x < next w0 → x ∉ X → files w !! x = files w0 !! x;
  to_writers : ∀ x, x < next w0 → x ∉ X → writers w !! x = writers w0 !! x;
  to_parts : ∀ n x, x < next w0 → tree w !! part_path n x = tree w0 !! part_path n x ∨ tree w !! part_path n x = None;
  to_handles : ∀ h b, handles w0 !! h = Some b → ∃ b', handles w !! h = Some b' ∧ b_name b' = b_name b;
  to_fresh_handles : ∀ h, is_Some (handles w !! h) → h < next w;
  to_dirs : ∀ h b, handles w !! h = Some b → b_dir b = [b_name b];
  to_inode : ∀ p bw', p < next w0 → writers w !! p = Some bw' → ∃ bw, writers w0 !! p = Some bw ∧ w_ino bw' = w_ino bw;
  to_mine : ∀ p bw, writers w !! p = Some bw → p ∈ X ∨ next w0 ≤ p → w_ino bw ∈ X ∨ next w0 ≤ w_ino bw;
}.

(** [X] has the file of each writer in it. *)
Definition owns (X : gset nat) (w : world) : Prop :=
  ∀ p bw, writers w !! p = Some bw → p ∈ X → w_ino bw ∈ X.

Lemma owns_empty w : owns ∅ w.
Proof. intros p bw _ Hp. set_solver. Qed.

Lemma touches_refl X w : world_ok w → owns X w → touches X w w.
Proof.
  intros Hok Hx. split; try done; auto.
  - eauto.
  - intros h [b Hb]. by apply (ok_handles _ (wok_proc _ Hok) _ _ Hb).
  - intros h b Hb. by apply (ok_handles _ (wok_proc _ Hok) _ _ Hb).
  - intros p bw _ Hp. by exists bw.
  - intros p bw Hp [?|Hn]; [left; by eapply Hx|]. exfalso.
    destruct (ok_writers _ (wok_proc _ Hok) _ _ Hp) as (? & _). lia.
Qed.

Section frame.
Context (X : gset nat) (w0 : world).
Abbreviation I := (touches X w0).

(** A pointer or inode the call may use. *)
Definition mine (x : nat) : Prop := x ∈ X ∨ next w0 ≤ x.

Lemma touches_faults fs w : I w → I (set_faults fs w).
Proof. intros []. by split. Qed.
Lemma touches_now t w : I w → I (set_now t w).
Proof. intros []. by split. Qed.
Lemma touches_buckets f w : I w → I (set_buckets f w).
Proof. intros []. by split. Qed.
Lemma touches_dbs f w : I w → I (set_dbs f w).
Proof. intros []. by split. Qed.
Lemma touches_next n w : I w → next w ≤ n → I (set_next n w).
Proof. intros [] Hn. split; try done; cbn; [lia|]. intros h Hh. specialize (to_fresh_handles0 h Hh). lia. Qed.

(** The tree changes, but not at the path of an old part, or an old part goes. *)
Lemma touches_tree f w :
  I w → (∀ n x, x < next w0 → f (tree w) !! part_path n x = tree w !! part_path n x ∨ f (tree w) !! part_path n x = None) →
  I (set_tree f w).
Proof.
  intros [] Hf. split; try done; cbn. intros n x Hx.
  destruct (Hf n x Hx) as [->|E]; [auto|by right].
Qed.
Lemma touches_insert p nd w : I w → (∀ n x, x < next w0 → p ≠ part_path n x) → I (set_tree (insert p nd) w).
Proof. intros HI Hp. apply touches_tree; [done|]. intros n x Hx. left. by rewrite lookup_insert_ne by (by apply Hp). Qed.
Lemma touches_delete p w : I w → I (set_tree (delete p) w).
Proof.
  intros HI. apply touches_tree; [done|]. intros n x _. destruct (decide (p = part_path n x)) as [->|];
    [right; apply lookup_delete_eq|left; by rewrite lookup_delete_ne].
Qed.
Lemma touches_remove_below p keep w : I w → I (set_tree (remove_below p keep) w).
Proof.
  intros HI. apply touches_tree; [done|]. intros n x _. unfold remove_below. rewrite map_lookup_filter.
  destruct (tree w !! part_path n x); cbn; [case_guard; auto|auto].
Qed.

Lemma touches_files f i w : mine i → I w → I (set_files (alter f i) w).
Proof.
  intros Hi []. split; try done; cbn. intros x Hx HX. rewrite lookup_alter_ne; [auto|]. intros ->. by destruct Hi; [|lia].
Qed.
Lemma touches_writer f p w : mine p → (∀ bw, w_ino (f bw) = w_ino bw) → I w → I (set_writers (alter f p) w).
Proof.
  intros Hp Hf []. split; try done; cbn.
  - intros x Hx HX. rewrite lookup_alter_ne; [auto|]. intros ->. by destruct Hp; [|lia].
  - intros q bw Hlt Hq. apply lookup_alter_Some in Hq as [(<- & bw2 & Hq & ->)|[_ Hq]]; [rewrite Hf|]; by eapply to_inode0.
  - intros q bw Hq. apply lookup_alter_Some in Hq as [(<- & bw' & Hq & ->)|[_ Hq]]; [rewrite Hf|]; by eapply to_mine0.
Qed.

(** *** Primitives *)
Lemma yields_external {A} e part (step : M world A) Q :
  (∀ n keep w, I w → I (part n keep w)) → yields I step Q → yields I (external e part step) Q.
Proof.
  intros Hp Hs w Hw. apply wp_external; intros.
  - by apply Hs, touches_faults.
  - split; [|done]. by apply Hp, touches_faults.
  - split; [|done]. by apply Hp, touches_faults.
Qed.
Lemma yields_call {A} e (step : M world A) Q : yields I step Q → yields I (external e nothing step) Q.
Proof. by apply yields_external. Qed.
(** A call that only looks at the world. *)
Lemma yields_look {A} (f : world → outcome A * world) : (∀ w, (f w).2 = w) → yields I f (λ _, True).
Proof. intros Hf. apply yields_step. intros w Hw. rewrite Hf. split; [done|]. by destruct (f w).1. Qed.

Lemma yields_load_bucket h : yields I (load_bucket h) (λ b, b_dir b = [b_name b]).
Proof.
  apply yields_step. intros w Hw. unfold load_bucket. destruct (handles w !! h) eqn:E; cbn; [|done].
  split; [done|]. by eapply to_dirs.
Qed.
Lemma yields_load_writer p : mine p → yields I (load_writer p) (λ bw, mine (w_ino bw)).
Proof.
  intros Hp. apply yields_step. intros w Hw. unfold load_writer. destruct (writers w !! p) eqn:E; cbn; [|done].
  split; [done|]. by eapply to_mine.
Qed.
Lemma yields_fresh : yields I fresh (λ p, next w0 ≤ p).
Proof. apply yields_step. intros w Hw. cbn. split; [apply touches_next; [done|lia]|apply Hw]. Qed.

Lemma temp_not_part b pre y n x :
  next w0 ≤ y → x < next w0 → pre = "upload-" ∨ pre = "part-" → temp_path [b; "tmp"] pre y ≠ part_path n x.
Proof.
  intros Hy Hx [->| ->] E.
  - by eapply part_not_upload.
  - fold (part_path b y) in E. unfold part_path in E. assert (b = n) as -> by (unfold temp_path in E; by simplify_eq).
    apply (inj (temp_path [n; "tmp"] "part-")) in E. lia.
Qed.

Lemma yields_CreateTemp b pre :
  pre = "upload-" ∨ pre = "part-" → yields I (os_CreateTemp [b; "tmp"] pre) (λ r, r.1 = temp_path [b; "tmp"] pre r.2 ∧ next w0 ≤ r.2).
Proof.
  intros Hpre. apply yields_call, yields_step. intros w Hw. destruct (is_dir (tree w) [b; "tmp"]); [|done].
  cbv zeta. set (q := temp_path [b; "tmp"] pre (next w)).
  destruct (tree w !! q); cbn [fst snd]; [by split|]. pose proof (to_next _ _ _ Hw). split; [|done].
  apply (touches_insert (temp_path [b; "tmp"] pre (next w)) (NFile (next w))) in Hw as [];
    [|intros n x Hx; by apply temp_not_part].
  cbn in *. split; try done; cbn.
  - lia.
  - intros x Hx HX. rewrite lookup_insert_ne by lia. auto.
  - intros h Hh. specialize (to_fresh_handles0 h Hh). lia.
Qed.

Lemma yields_file_Write i p : mine i → yields I (file_Write i p) (λ _, True).
Proof.
  intros Hi. apply yields_step. intros w Hw. unfold file_Write.
  destruct (faults w) as [|[|n keep|n keep] fs]; cbn; (split; [|done]); apply touches_files; auto using touches_faults.
Qed.

Lemma yields_os_Mkdir p : (∀ n x, p ≠ part_path n x) → yields I (os_Mkdir p) (λ _, True).
Proof.
  intros Hp. apply yields_call, yields_step. intros w Hw. destruct (tree w !! p); [done|].
  destruct (is_dir _ _); cbn; [|done]. split; [|done]. by apply touches_insert; auto.
Qed.
Lemma yields_os_Remove p : yields I (os_Remove p) (λ _, True).
Proof.
  apply yields_call, yields_step. intros w Hw. destruct (tree w !! p) as [[]|]; cbn; (split; [|done]); auto using touches_delete.
Qed.
Lemma yields_os_Rename src dst : (∀ n x, dst ≠ part_path n x) → yields I (os_Rename src dst) (λ _, True).
Proof.
  intros Hd. apply yields_call, yields_step. intros w Hw. destruct (tree w !! src) as [[|i|]|]; try done.
  destruct (is_dir _ _); [|done].
  assert (I (set_tree (λ t, <[dst:=NFile i]> (delete src t)) w)) as HI.
  { apply (touches_delete src), (touches_insert dst (NFile i)) in Hw; auto. }
  by destruct (tree w !! dst) as [[]|]; cbn.
Qed.
Lemma yields_os_RemoveAll p : yields I (os_RemoveAll p) (λ _, True).
Proof.
  apply yields_external; [intros; by apply touches_remove_below|]. apply yields_step. intros w Hw. cbn.
  split; [by apply touches_remove_below|done].
Qed.
Lemma yields_os_Stat p : yields I (os_Stat p) (λ _, True).
Proof. apply yields_call, yields_look. intros w. by destruct (tree w !! p). Qed.
Lemma yields_os_Open p : yields I (os_Open p) (λ _, True).
Proof. apply yields_call, yields_look. intros w. by destruct (tree w !! p) as [[]|]. Qed.
Lemma yields_db_Query {A} h (q : database → A) : yields I (db_Query h q) (λ _, True).
Proof. apply yields_call, yields_look. intros w. by destruct (handle_db h w). Qed.
Lemma yields_pure_call {A} e (a : A) : yields I (external e nothing (ret a)) (λ _, True).
Proof. by apply yields_call, yields_look. Qed.
Lemma touches_close h w : I w → I (close_handle h w).
Proof.
  intros []. split; try done; cbn.
  - intros h' b Hb. destruct (to_handles0 h' b Hb) as (b' & Hb' & En). destruct (decide (h' = h)) as [->|].
    + rewrite lookup_alter_eq, Hb'. by eexists.
    + rewrite lookup_alter_ne by done. by eexists.
  - intros h' Hh'. apply to_fresh_handles0. destruct (decide (h' = h)) as [->|].
    + rewrite lookup_alter_eq in Hh'. by destruct (handles w !! h); [eexists|destruct Hh'].
    + by rewrite lookup_alter_ne in Hh'.
  - intros h' b Hb. apply lookup_alter_Some in Hb as [(-> & b' & Hb & ->)|[_ Hb]]; cbn; by eapply to_dirs0.
Qed.
Lemma yields_db_Close h : yields I (db_Close h) (λ _, True).
Proof. apply yields_external; [intros; by apply touches_close|]. apply yields_step. intros w Hw. split; [by apply touches_close|done]. Qed.
Lemma yields_tx_Commit h tx : yields I (tx_Commit h tx) (λ _, True).
Proof.
  apply yields_call, yields_step. intros w Hw. destruct (handles w !! h); [|done]. destruct (b_open _); [|done].
  split; [by apply touches_dbs|done].
Qed.
Lemma yields_modify f : (∀ w, I w → I (f w)) → yields I (modify f) (λ _, True).
Proof. intros Hf. apply yields_step. intros w Hw. split; [by apply Hf|done]. Qed.

End frame.

(** Proves that a call only touches what it may, from its text. *)
Ltac frame_step :=
  lazymatch goal with
  | H : ?P |- ?P => exact H
  | |- yields _ (bind get _) _ => apply yields_get; intros
  | |- yields _ (bind (load_bucket _) _) _ => eapply yields_bind; [apply yields_load_bucket|intros ? Hdir]
  | |- yields _ (bind fresh _) _ => fail
  | |- yields _ (bind (os_CreateTemp _ _) _) _ => fail
  | |- yields _ (bind _ _) _ => eapply (yields_bind _ _ _ (λ _, True)); [|intros]
  | |- yields _ (try _) _ => apply yields_try; [|done]
  | |- yields _ (ignore _) _ => eapply (yields_ignore _ _ (λ _, True)); [|done]
  | |- yields _ (defer _ _) _ => apply yields_defer
  | |- yields _ (ret _) _ => apply yields_ret; done
  | |- yields _ (throw _) _ => apply yields_throw
  | |- yields _ (panic _) _ => apply yields_panic
  | |- yields _ (gets _) _ => apply yields_look; done
  | |- yields _ time_Now _ => apply yields_look; done
  | |- yields _ (db_Query _ _) _ => apply yields_db_Query
  | |- yields _ (db_Begin _) _ => apply yields_db_Query
  | |- yields _ (db_Close _) _ => apply yields_db_Close
  | |- yields _ (tx_Commit _ _) _ => apply yields_tx_Commit
  | |- yields _ (tx_Exec _ _) _ => apply yields_pure_call
  | |- yields _ (tx_QueryRow _ _) _ => apply yields_pure_call
  | |- yields _ (os_Remove _) _ => apply yields_os_Remove
  | |- yields _ (os_RemoveAll _) _ => apply yields_os_RemoveAll
  | |- yields _ (os_Stat _) _ => apply yields_os_Stat
  | |- yields _ (os_Open _) _ => apply yields_os_Open
  | |- yields _ file_Close _ => apply yields_pure_call
  | |- yields _ file_Sync _ => apply yields_pure_call
  | |- yields _ (external _ nothing (ret _)) _ => apply yields_pure_call
  | |- yields _ (sqlcall (ret _)) _ => apply yields_pure_call
  | |- yields _ (modify (set_buckets _)) _ => apply yields_modify; intros; by apply touches_buckets
  | |- yields _ (match ?x with _ => _ end) _ => destruct x
  end.

(** ** The operations of the store *)
Section operations.
Context (X : gset nat) (w0 : world).
Abbreviation I := (touches X w0).
Abbreviation ours := (mine X w0).
Abbreviation frames m := (yields I m (λ _, True)).

Lemma short_not_part p n x : length p ≠ 3 → p ≠ part_path n x.
Proof. intros Hp ->. by apply Hp. Qed.

Lemma frames_openBucket name : frames (openBucket name [name]).
Proof.
  unfold openBucket. repeat frame_step.
  - apply yields_call, yields_step. intros w Hw. set (q := data_sqlite [name]).
    destruct (tree w !! q) as [[]|]; cbn [fst snd]; [done..|]. destruct (is_dir _ _); [|done]. split; [|done].
    apply (touches_insert X w0 q (NDb (next w))) in Hw; [|intros n x _; by apply short_not_part]. destruct Hw.
    cbn in *. split; try done; cbn; [lia|]. intros h Hh. specialize (to_fresh_handles0 h Hh). lia.
  - apply yields_call, yields_modify. intros w Hw. by apply touches_dbs.
  - apply yields_step. intros w []. unfold fresh, bind, modify, ret. cbn. split; [|done]. split; cbn; try done.
    + lia.
    + intros h b Hb. destruct (decide (h = next w)) as [->|]; [|rewrite lookup_insert_ne by done; by apply to_handles0].
      exfalso. destruct (to_handles0 _ _ Hb) as (b' & Hb' & _). assert (next w < next w); [|lia]. apply to_fresh_handles0. by eexists.
    + intros h Hh. destruct (decide (h = next w)) as [->|]; [lia|]. rewrite lookup_insert_ne in Hh by done.
      specialize (to_fresh_handles0 h Hh). lia.
    + intros h b Hb. apply lookup_insert_Some in Hb as [[<- <-]|[_ Hb]]; [done|by eapply to_dirs0].
Qed.

Lemma frames_Store_openBucket name : frames (Store_openBucket name).
Proof. unfold Store_openBucket. repeat frame_step. apply frames_openBucket. Qed.

Lemma frames_bucket name : frames (bucket name).
Proof. unfold bucket. repeat frame_step. apply frames_Store_openBucket. Qed.

Lemma frames_info h : frames (info h).
Proof. unfold info. repeat frame_step. Qed.

Lemma frames_CreateBucket name : frames (CreateBucket name).
Proof.
  unfold CreateBucket. repeat frame_step; try apply yields_os_Mkdir; try (intros; by apply short_not_part).
  - apply frames_Store_openBucket.
  - apply frames_info.
Qed.

Lemma frames_GetBucket name : frames (GetBucket name).
Proof. unfold GetBucket. repeat frame_step; [apply frames_bucket|apply frames_info]. Qed.

Lemma frames_list_entries es infos : frames (list_entries es infos).
Proof.
  revert infos. induction es as [|[name d] es IH]; intros infos; cbn [list_entries]; repeat frame_step; try apply IH;
    [apply frames_bucket|apply frames_info].
Qed.

Lemma frames_ListBuckets : frames ListBuckets.
Proof.
  unfold ListBuckets. repeat frame_step; [|apply frames_list_entries]. by apply yields_call, yields_look.
Qed.

Lemma frames_DeleteBucket name : frames (DeleteBucket name).
Proof. unfold DeleteBucket. repeat frame_step. apply frames_bucket. Qed.

Lemma frames_scan b name row : frames (scan b name row).
Proof. unfold scan. repeat frame_step. Qed.

Lemma frames_getObject h name : frames (getObject h name).
Proof. unfold getObject. repeat frame_step. apply frames_scan. Qed.

Lemma frames_GetObject n name : frames (GetObject n name).
Proof. unfold GetObject. repeat frame_step; [apply frames_bucket|apply frames_getObject]. Qed.

Lemma frames_OpenObject n name : frames (OpenObject n name).
Proof. unfold OpenObject. repeat frame_step; [apply frames_bucket|apply frames_getObject]. Qed.

Lemma frames_tx_existing b name tx : frames (tx_existing b name tx).
Proof. unfold tx_existing. repeat frame_step. apply frames_scan. Qed.

Lemma frames_decrefBlob tx sha : frames (decrefBlob tx sha).
Proof. unfold decrefBlob. repeat frame_step. Qed.

Lemma frames_DeleteObject n name conds : frames (DeleteObject n name conds).
Proof.
  unfold DeleteObject. repeat frame_step; [apply frames_bucket|apply frames_tx_existing|apply frames_decrefBlob].
Qed.

Lemma frames_ListObjects n req : frames (ListObjects n req).
Proof.
  unfold ListObjects. repeat frame_step; [apply frames_bucket|]. intros w Hw.
  eapply wp_mono; [apply scan_loop_quiet|]. intros o w' (fs & _ & ->). split; [by apply touches_faults|by destruct o].
Qed.

Lemma frames_close_all hs e : frames (close_all hs e).
Proof. revert e. induction hs as [|[name h] hs IH]; intros e; cbn [close_all]; repeat frame_step; apply IH. Qed.

Lemma frames_Close : frames Close.
Proof. unfold Close. repeat frame_step. apply frames_close_all. Qed.

(** *** Writers *)
Lemma frames_temp n pre : pre = "upload-" ∨ pre = "part-" →
  yields I (let* h := bucket n in let* b := load_bucket h in os_CreateTemp (b_dir b ++ ["tmp"]) pre)
    (λ r, (∃ b, r.1 = temp_path [b; "tmp"] pre r.2) ∧ next w0 ≤ r.2).
Proof. intros Hpre. repeat frame_step; [apply frames_bucket|]. rewrite Hdir.
  eapply yields_mono; [by apply yields_CreateTemp|]. intros r [E ?]. split; [by eexists|done].
Qed.

Lemma frames_TempFile n : yields I (TempFile n) (λ r, (∃ b, r.1 = part_path b r.2) ∧ next w0 ≤ r.2).
Proof. apply frames_temp. by right. Qed.

Lemma frames_NewBlobWriter n : yields I (NewBlobWriter n) (λ p, next w0 ≤ p).
Proof.
  unfold NewBlobWriter. repeat frame_step; [apply frames_bucket|]. rewrite Hdir.
  eapply yields_bind; [apply yields_CreateTemp; by left|]. intros [tmp ino] [_ Hino]. cbn in Hino.
  eapply yields_bind; [apply yields_fresh|]. cbn beta. intros p Hp.
  eapply (yields_bind _ _ _ (λ _, True)); [|intros; by apply yields_ret]. apply yields_modify.
  intros w []. split; try done; cbn.
  - intros x Hx HX. rewrite lookup_insert_ne by lia. auto.
  - intros q bw Hlt Hq. rewrite lookup_insert_ne in Hq by lia. by eapply to_inode0.
  - intros q bw Hq. apply lookup_insert_Some in Hq as [[<- <-]|[_ Hq]]; [by right|by eapply to_mine0].
Qed.

Lemma frames_Write p q : ours p → frames (Write p q).
Proof.
  intros Hp. unfold Write. eapply yields_bind; [by apply yields_load_writer|]. intros bw Hbw.
  repeat frame_step; [by apply yields_file_Write|]. apply yields_modify. intros w. by apply touches_writer.
Qed.

Lemma frames_Abort p : ours p → frames (Abort_ p).
Proof.
  intros Hp. unfold Abort_. eapply yields_bind; [by apply yields_load_writer|]. intros bw Hbw.
  repeat frame_step. apply yields_modify. intros w. by apply touches_writer.
Qed.

Lemma objects_not_part c rest n x : c :: "objects" :: rest ≠ part_path n x.
Proof. unfold part_path, temp_path. cbn. by intros [=]. Qed.

Lemma frames_mkdir_missing p : (∀ n x, p ≠ part_path n x) → frames (mkdir_missing p).
Proof. intros Hp. unfold mkdir_missing. repeat frame_step. by apply yields_os_Mkdir. Qed.

Lemma frames_install_blob src n hh sha : frames (install_blob src [n; "objects"; hh; sha]).
Proof.
  unfold install_blob, os_MkdirAll. cbn [parent removelast mkdir_all app]. repeat frame_step.
  - apply frames_mkdir_missing. intros. by apply short_not_part.
  - apply frames_mkdir_missing. intros. by apply short_not_part.
  - apply frames_mkdir_missing. intros. apply objects_not_part.
  - apply yields_os_Rename. intros. apply objects_not_part.
Qed.

Lemma frames_commit_in_tx h b bw name opts : frames (commit_in_tx h b bw name opts).
Proof.
  unfold commit_in_tx, Checksums, commit_statements. repeat frame_step;
    [apply frames_tx_existing|apply frames_decrefBlob].
Qed.

Lemma frames_Commit p name opts : ours p → frames (Commit p name opts).
Proof.
  intros Hp. unfold Commit. eapply yields_bind; [by apply yields_load_writer|]. intros bw Hbw. repeat frame_step.
  - apply yields_modify. intros w. by apply touches_writer.
  - unfold blobPath. rewrite Hdir. apply frames_install_blob.
  - apply frames_commit_in_tx.
Qed.

Lemma frames_io_Copy p ps e : ours p → ∀ n, frames (io_Copy p ps e n).
Proof.
  intros Hp. induction ps as [|[|a q] ps IH]; intros n; cbn [io_Copy]; repeat frame_step; try apply IH.
  by apply frames_Write.
Qed.

Lemma frames_PutObject n name r opts : frames (PutObject n name r opts).
Proof.
  unfold PutObject. eapply yields_bind; [apply frames_NewBlobWriter|]. cbn beta. intros p Hfresh.
  assert (ours p) as Hp by by right. repeat frame_step.
  - by apply frames_io_Copy.
  - by apply frames_Abort.
  - by apply frames_Commit.
Qed.
End operations.

(** The calls that are given no writer. *)
Definition no_writer (o : op) : Prop :=
  match o with OpWrite _ _ | OpAbort _ | OpCommit _ _ _ => False | _ => True end.

(** A call that is given no writer touches nothing. *)
Lemma exec_touches X w0 o : no_writer o → yields (touches X w0) (exec o) (λ _, True).
Proof.
  intros Ho. assert (∀ A (m : M world A) Q, yields (touches X w0) m Q → yields (touches X w0) (void m) (λ _, True)) as Hv.
  { intros A m Q Hm. unfold void. eapply yields_bind; [exact Hm|]. intros. by apply yields_ret. }
  destruct o; cbn [exec no_writer] in *; try done; try (eapply Hv).
  - apply frames_CreateBucket.
  - apply frames_GetBucket.
  - apply frames_ListBuckets.
  - apply frames_DeleteBucket.
  - apply frames_GetObject.
  - apply frames_OpenObject.
  - apply frames_DeleteObject.
  - apply frames_ListObjects.
  - apply frames_NewBlobWriter.
  - apply frames_TempFile.
  - apply frames_PutObject.
  - apply frames_Close.
Qed.
