(* ===== verification/Refine.v ===== *)
(** The abstract store: a map from bucket names to maps from object names to
    object rows, changed by four atomic actions.  Every step of the real store
    is one of these actions or none. *)

From S2P Require Import Prelude Errors GoMonad GoStd Types Names Hash Database World Bucket Store BlobWriter StoreInv Triple StoreSafe StoreOps ObjectOps WriterOps Listing ListingSpec Run.
From stdpp Require Import options.

Definition astate : Type := string → option (gmap string objectRow).

(** [s] and [s'] differ at most at bucket [n], where [s'] has [v]. *)
Definition updates (n : string) (v : option (gmap string objectRow)) (s s' : astate) : Prop :=
  s' n = v ∧ ∀ m, m ≠ n → s' m = s m.

Inductive astep (s s' : astate) : Prop :=
  | a_nothing : (∀ n, s' n = s n) → astep s s'
  | a_create n : validBucketName n = true → s n = None → updates n (Some ∅) s s' → astep s s'
  | a_drop n : s n = Some ∅ → updates n None s s' → astep s s'
  | a_put n name c opts oi t t' :
      s n = Some t → commits n name c opts oi t t' → updates n (Some t') s s' → astep s s'
  | a_delete n name conds t t' :
      s n = Some t → deletes name conds n t t' → updates n (Some t') s s' → astep s s'.

(** ** The relations of the triples as abstract steps *)

Lemma astep_same w w' : same_tables w w' → astep (tables w) (tables w').
Proof. apply a_nothing. Qed.

Lemma tables_valid w n t : tables w n = Some t → validBucketName n = true.
Proof. by intros (? & _)%tables_db. Qed.

Lemma astep_after w1 w w' :
  astep (tables w) (tables w1) → same_tables w1 w' → astep (tables w) (tables w').
Proof.
  intros Ha Hs. assert (∀ n v, updates n v (tables w) (tables w1) → updates n v (tables w) (tables w')) as Hu.
  { intros n v [H1 H2]. split; [by rewrite (Hs n)|]. intros m Hm. rewrite (Hs m). by apply H2. }
  destruct Ha as [H|n ???|n ??|n name c opts oi t t' ???|n name conds t t' ???].
  - apply a_nothing. intros n. by rewrite (Hs n), H.
  - apply (a_create _ _ n); auto.
  - apply (a_drop _ _ n); auto.
  - apply (a_put _ _ n name c opts oi t t'); auto.
  - apply (a_delete _ _ n name conds t t'); auto.
Qed.

Lemma astep_opened n w w' : opened n w w' → astep (tables w) (tables w').
Proof.
  intros H. destruct (H n) as [E|(_ & Hn & Hn')].
  - apply a_nothing. intros m. destruct (H m) as [?|(-> & _)]; done.
  - apply (a_create _ _ n); [by eapply tables_valid|done|]. split; [done|].
    intros m Hm. by destruct (H m) as [?|(? & _)].
Qed.

Lemma astep_dropped n w w' : dropped n w w' → astep (tables w) (tables w').
Proof.
  intros H. destruct (H n) as [E|(_ & Hn & Hn')].
  - apply a_nothing. intros m. destruct (H m) as [?|(-> & _)]; done.
  - apply (a_drop _ _ n); [done|]. split; [done|]. intros m Hm. by destruct (H m) as [?|(? & _)].
Qed.

Lemma changed_cases n P w w' :
  changed n P w w' →
  same_tables w w' ∨ ∃ t t', tables w n = Some t ∧ P t t' ∧ updates n (Some t') (tables w) (tables w').
Proof.
  intros H. destruct (H n) as [E|(_ & t & t' & Ht & Ht' & HP)].
  - left. intros m. destruct (H m) as [?|(-> & _)]; done.
  - right. exists t, t'. split_and!; [done..|]. split; [done|]. intros m Hm. by destruct (H m) as [?|(? & _)].
Qed.

Lemma astep_puts n name c opts w w' :
  changed n (λ t t', ∃ oi, commits n name c opts oi t t') w w' → astep (tables w) (tables w').
Proof.
  intros [?|(t & t' & Ht & (oi & Hc) & Hu)]%changed_cases; [by apply astep_same|].
  by eapply (a_put _ _ n name c opts oi).
Qed.

Lemma astep_deletes n name conds w w' :
  changed n (deletes name conds n) w w' → astep (tables w) (tables w').
Proof.
  intros [?|(t & t' & Ht & Hd & Hu)]%changed_cases; [by apply astep_same|].
  by eapply (a_delete _ _ n name conds).
Qed.

(** ** Simulation *)

Lemma triple_sim {A} w (m : M world A) T T' R (Q : A → world → Prop) :
  triple w m Q (E_rel T w R) (C_rel T' w) →
  (∀ w', T w w' → astep (tables w) (tables w')) → (∀ w', T' w w' → astep (tables w) (tables w')) →
  (∀ a w', Q a w' → astep (tables w) (tables w')) →
  wp (void m) (λ _ w', astep (tables w) (tables w')) w.
Proof.
  intros Hm HT HT' HQ. unfold void. apply wp_bind. eapply wp_mono; [exact Hm|].
  intros [a|e|x| |] w'; cbn; [apply HQ|intros (_ & ? & _); auto|done|done|intros (_ & ? & _); auto].
Qed.

Lemma kept_same w w' : kept w w' → astep (tables w) (tables w').
Proof. intros (? & _). by apply astep_same. Qed.

Lemma ListObjects_sim w n req :
  world_ok w → wp (void (ListObjects n req)) (λ _ w', astep (tables w) (tables w')) w.
Proof.
  intros Hok. unfold void, ListObjects. apply wp_bind, wp_bind.
  assert (triple w (bucket n) (λ h w', world_ok w' ∧ kept w w' ∧ is_open w' h n)
    (E_rel same_tables w (no_bucket w n)) (C_rel same_tables w)) as Hb by (apply triple_bucket; auto).
  eapply wp_mono; [exact Hb|]. intros [h|e|x| |] w1; cbn [post bind_post];
    [|intros (_ & ? & _); by apply astep_same|done|done|intros (_ & ? & _); by apply astep_same].
  intros (Hok1 & Hk & Ho). destruct (is_open_facts _ _ _ Hok1 Ho) as (i & d & Hh & _).
  apply wp_bind. unfold load_bucket, wp at 1. rewrite Hh. cbn [fst snd bind_post]. cbv zeta.
  eapply wp_mono; [apply scan_loop_quiet|]. intros o w2 Hq.
  assert (astep (tables w) (tables w2)) by (apply kept_same; by eapply kept_quiet).
  by destruct o.
Qed.

Lemma exec_sim w o :
  world_ok w → enabled w o → wp (exec o) (λ _ w', astep (tables w) (tables w')) w.
Proof.
  intros Hok He. destruct o; cbn [exec] in *; cbn [enabled] in He.
  - eapply triple_sim; [by apply triple_CreateBucket|apply astep_opened..|].
    intros ?? (_ & _ & ? & _). by eapply astep_opened.
  - eapply triple_sim; [by apply triple_GetBucket|apply astep_same..|]. intros ?? (_ & ? & _). by apply kept_same.
  - eapply triple_sim; [by apply triple_ListBuckets|apply astep_same..|]. intros ?? (_ & ? & _). by apply kept_same.
  - eapply triple_sim; [by apply triple_DeleteBucket|apply astep_dropped..|].
    intros ?? (_ & _ & ? & _). by eapply astep_dropped.
  - eapply triple_sim; [by apply triple_GetObject|apply astep_same..|]. intros ?? (_ & ? & _). by apply kept_same.
  - eapply triple_sim; [by apply triple_OpenObject|apply astep_same..|]. intros [] ? (_ & ? & _). by apply kept_same.
  - eapply triple_sim; [by apply triple_DeleteObject|apply astep_same|apply astep_deletes|].
    intros ?? (_ & _ & ? & _). by eapply astep_deletes.
  - by apply ListObjects_sim.
  - eapply triple_sim; [by apply triple_NewBlobWriter|apply astep_same..|]. intros ?? (_ & ? & _). by apply kept_same.
  - apply writer_cases in He as (bw & Hbw & [Hd|Hw]).
    + unfold void, Write, load_writer, bind, wp. rewrite Hbw, Hd. by apply astep_same.
    + eapply (triple_sim _ _ same_tables same_tables (λ _, False) (λ _ w', kept w w')); [|apply astep_same..|intros; by apply kept_same].
      apply (triple_Write same_tables w w p bw); [done|apply kept_refl|done|]. by intros.
  - apply writer_cases in He as (bw & Hbw & [Hd|Hw]).
    + unfold Abort_, load_writer, bind, wp. rewrite Hbw, Hd. by apply astep_same.
    + eapply wp_mono; [by apply (triple_Abort w p bw)|].
      intros [] ?; cbn; [intros (_ & ? & _); by apply kept_same|done..|intros (_ & ? & _); by apply astep_same].
  - apply writer_cases in He as (bw & Hbw & [Hd|Hw]).
    + unfold void, Commit, load_writer, bind, wp. rewrite Hbw, Hd. by apply astep_same.
    + destruct (writer_bucket _ _ _ Hok Hbw) as (b & Hb & _).
      unfold void. apply wp_bind. eapply wp_mono; [by apply (triple_Commit w p bw b)|].
      intros [] w'; cbn; [intros (_ & _ & ? & _); by eapply astep_puts|intros ((_ & ? & _) & _); by apply astep_same|done|done|].
      intros (_ & ? & _). by eapply astep_puts.
  - eapply triple_sim; [by apply triple_TempFile|apply astep_same..|]. intros [] ? (_ & ? & _). by apply kept_same.
  - eapply triple_sim; [by apply triple_PutObject|apply astep_same|apply astep_puts|].
    intros ?? (_ & _ & ? & _). by eapply astep_puts.
  - eapply wp_mono; [by apply triple_Close|].
    intros [] ?; cbn; [intros (_ & ? & _); by apply kept_same|intros (_ & ? & _); by apply kept_same|done|done|intros (_ & ? & _); by apply astep_same].
Qed.

Lemma step_sim w w' : world_ok w → step w w' → astep (tables w) (tables w').
Proof.
  intros Hok Hs. destruct Hs as [o w He Hn|o w w' He Hn Hst|w w' Hst|t w|fs w].
  - by apply (exec_sim w o).
  - pose proof (exec_safe w o Hok He) as Hsafe. unfold wp in Hsafe. rewrite Hn in Hsafe.
    destruct (died_starts _ _ Hsafe Hst) as [_ Hs].
    apply (astep_after (exec o w).2); [by apply (exec_sim w o)|exact Hs].
  - apply astep_same, (died_starts w); [by apply wok_disk|done].
  - by apply astep_same.
  - by apply astep_same.
Qed.
