(* ===== verification/Samples.v ===== *)
(** Sample worlds for the witnesses of the properties, each the result of running
    the model from an empty data directory, and the helpers that decide facts
    about them by running. *)

From S2P Require Import Prelude Errors GoMonad GoStd Types Names Hash Json JsonProofs Database World Bucket Store BlobWriter StoreInv Triple StoreSafe StoreOps ObjectOps WriterOps Listing ListingSpec Run Refine.
From stdpp Require Import options.

(** The world after a call. *)
Definition after (o : op) (w : world) : world := (exec o w).2.

Definition sample_opts : PutOptions := mkPutOptions "text/plain" {["owner" := "ann"]} noConditions.
Definition sample_text : bytes := bytes_of_string "hello".

(** A started server, one bucket in it, one object in that, a writer with half
    of the next version. *)
Definition w_start : world := (Open (init_world 1700000000000000123)).2.
Definition w_bucket : world := after (OpCreateBucket "photos") w_start.
Definition w_object : world := after (OpPutObject "photos" "a/b.txt" ([sample_text], None) sample_opts) w_bucket.
Definition w_writer : world := after (OpNewBlobWriter "photos") w_object.
Definition sample_pointer : nat := Nat.pred (next w_writer).
Definition w_written : world := after (OpWrite sample_pointer (bytes_of_string "bye")) w_writer.

Definition no_crash {A} (o : outcome A) : bool := match o with Crash => false | _ => true end.

(** Facts that are decided by running the model. *)
Definition is_some {A} (o : option A) : bool := match o with Some _ => true | None => false end.
Lemma is_some_ex {A} (o : option A) : is_some o = true → ∃ a, o = Some a.
Proof. destruct o; [by eexists|done]. Qed.
Definition returns {A} (o : outcome A) : bool := match o with Ret _ => true | _ => false end.
Lemma run_ret {A} (m : M world A) w : returns (m w).1 = true → ∃ a w', m w = (Ret a, w').
Proof. destruct (m w) as [[] w']; cbn; intros; [by eauto|done..]. Qed.
Lemma triple_ran {A} w (m : M world A) Q E C a w' : triple w m Q E C → m w = (Ret a, w') → Q a w'.
Proof. intros H Hm. unfold triple, wp in H. by rewrite Hm in H. Qed.
Ltac by_running := vm_compute; reflexivity.

Lemma no_crash_ne {A} (o : outcome A) : no_crash o = true → o ≠ Crash.
Proof. by destruct o. Qed.

Lemma reachable_after w o :
  reachable w → enabled w o → no_crash (exec o w).1 = true → reachable (after o w).
Proof.
  intros (t & w0 & Hs & Hr) He Hc. exists t, w0. split; [exact Hs|]. eapply rtc_r; [exact Hr|]. apply step_call; [done|].
  intros E. by rewrite E in Hc.
Qed.

Lemma reachable_start : reachable w_start.
Proof. exists 1700000000000000123%Z, w_start. split; [by apply starts_ok|apply rtc_refl]. Qed.
Lemma reachable_bucket : reachable w_bucket.
Proof. apply reachable_after; [apply reachable_start|done|]. by_running. Qed.
Lemma reachable_object : reachable w_object.
Proof. apply reachable_after; [apply reachable_bucket|done|]. by_running. Qed.
Lemma reachable_writer : reachable w_writer.
Proof. apply reachable_after; [apply reachable_object|done|]. by_running. Qed.
Lemma reachable_written : reachable w_written.
Proof.
  apply reachable_after; [apply reachable_writer| |by_running].
  apply is_some_ex. by_running.
Qed.

(** The writer of [w_written] and its bucket. *)
Lemma sample_writer :
  ∃ bw b, writing w_written sample_pointer bw ∧ w_sha bw = bytes_of_string "bye" ∧
    handles w_written !! w_b bw = Some b ∧ b_name b = "photos" ∧ b_open b = true.
Proof.
  destruct (is_some_ex (writers w_written !! sample_pointer)) as [bw E]; [by_running|].
  assert ((λ bw, (w_sha bw, w_done bw)) <$> writers w_written !! sample_pointer = Some (bytes_of_string "bye", false)) as Hbw by by_running.
  rewrite E in Hbw. cbn [fmap option_fmap option_map] in Hbw. injection Hbw as Hsha Hd.
  assert ((λ bw, (λ b, (b_name b, b_open b)) <$> handles w_written !! w_b bw) <$> writers w_written !! sample_pointer =
    Some (Some ("photos", true))) as Hb by by_running.
  rewrite E in Hb. cbn [fmap option_fmap option_map] in Hb. apply (inj Some) in Hb.
  destruct (handles w_written !! w_b bw) as [b|] eqn:Eb; [|exfalso; cbn in Hb; discriminate Hb].
  cbn [option_map] in Hb. injection Hb as Hn Ho.
  exact (ex_intro _ bw (ex_intro _ b (conj (conj E Hd) (conj Hsha (conj Eb (conj Hn Ho)))))).
Qed.
