(* ===== verification/StoreProps.v ===== *)
(** The properties of the store: integrity of its content-addressed blobs under
    every failure, the specification of each operation, and what a client sees
    of a sequence of them. *)

From S2P Require Import Prelude Errors GoMonad GoStd Types Names Hash Json JsonProofs Database World Bucket Store BlobWriter StoreInv Triple StoreSafe StoreOps ObjectOps WriterOps Listing ListingSpec Run Refine Samples.
From stdpp Require Import options.

(** ** Integrity and refinement *)

(** C1: Whatever calls were made, failed half-way or were cut short by the death
    of the process, in every bucket the reference count of a blob is exactly the
    number of objects with that content, blobs without objects have no row, and
    the content file of every live object is in place and hashes to the recorded
    sha256. *)
Theorem blob_store_integrity w n d :
  reachable w → bucket_db w n = Some d →
  (∀ sha, match blobs d !! sha with
          | Some b => b_refcount b = Z.of_nat (references sha (objects d)) ∧ (0 < b_refcount b)%Z
          | None => references sha (objects d) = 0
          end) ∧
  (∀ name r, objects d !! name = Some r →
     ∃ c, blob_content w n (r_sha256 r) = Some c ∧ sha_hex c = r_sha256 r).
Proof.
  intros Hr Hd. pose proof (reachable_ok _ Hr) as Hok.
  assert (db_ok d) as Hdb.
  { unfold bucket_db in Hd. destruct (tree w !! db_path n) as [[|j|j]|]; try done. by eapply ok_dbs; [apply Hok|]. }
  split; [apply (db_refs _ Hdb)|]. intros name r Hnr.
  destruct (ok_stored _ (wok_disk _ Hok) n d (r_sha256 r) Hd) as [c Hc]; [by eapply db_ok_object_blob|].
  exists c. split; [done|]. unfold blob_content in Hc.
  destruct (tree w !! blob_path n (r_sha256 r)) as [[|i|]|] eqn:Hi; try done. by eapply (ok_hash _ (wok_disk _ Hok)).
Qed.

Lemma blob_store_integrity_witness :
  ∃ d, bucket_db w_object "photos" = Some d ∧
    (∀ name r, objects d !! name = Some r →
       ∃ c, blob_content w_object "photos" (r_sha256 r) = Some c ∧ sha_hex c = r_sha256 r).
Proof.
  destruct (is_some_ex (bucket_db w_object "photos")) as [d E]; [by_running|].
  exists d. split; [exact E|]. apply (blob_store_integrity w_object "photos" d reachable_object E).
Defined.

(** C2: The store refines the abstract store: every step of it, a call that
    returns, fails or is cut short, a restart, a change of the clock, is one
    atomic action on the objects, or changes none of them. *)
Theorem store_refines_abstract w w' :
  reachable w → step w w' → astep (tables w) (tables w').
Proof. intros Hr. apply step_sim. by apply reachable_ok. Qed.

Lemma store_refines_abstract_witness : astep (tables w_bucket) (tables w_object).
Proof.
  apply (store_refines_abstract w_bucket w_object reachable_bucket).
  apply (step_call (OpPutObject "photos" "a/b.txt" ([sample_text], None) sample_opts) w_bucket); [exact I|].
  apply no_crash_ne. by_running.
Defined.

(** C19: No call of the store other than a listing panics or runs forever, whatever the
    environment does, and no listing whose prefix and delimiter are empty or end
    in a byte below 0x7f; other listings may panic. *)
Theorem calls_return w o :
  reachable w → enabled w o → (∀ n req, o = OpListObjects n req → ascii_request req) →
  match (exec o w).1 with Panic _ | Diverge => False | _ => True end.
Proof.
  intros Hr He Hreq. apply reachable_ok in Hr.
  assert (∀ A (m : M world A) Q E C, triple w m Q E C →
    match (void m w).1 with Panic _ | Diverge => False | _ => True end) as Hv.
  { intros A m Q E C Hm. unfold triple, wp, void, bind in *. by destruct (m w) as [[] ?]. }
  assert (∀ (m : M world unit) Q E C, triple w m Q E C →
    match (m w).1 with Panic _ | Diverge => False | _ => True end) as Hv'.
  { intros m Q E C Hm. unfold triple, wp in *. by destruct (m w) as [[] ?]. }
  destruct o; cbn [exec enabled] in *.
  - eapply Hv. by apply triple_CreateBucket.
  - eapply Hv. by apply triple_GetBucket.
  - eapply Hv. by apply triple_ListBuckets.
  - eapply Hv. by apply triple_DeleteBucket.
  - eapply Hv. by apply triple_GetObject.
  - eapply Hv. by apply triple_OpenObject.
  - eapply Hv. by apply triple_DeleteObject.
  - eapply Hv. apply triple_ListObjects; [done|by eapply Hreq].
  - eapply Hv. by apply triple_NewBlobWriter.
  - apply writer_cases in He as (bw & Hbw & [Hd|Hw]).
    + unfold void, Write, load_writer, bind. by rewrite Hbw, Hd.
    + eapply Hv. apply (triple_Write same_tables w w p bw _ (λ _ _, True) (λ _ _, False)); [done|apply kept_refl|done|done].
  - apply writer_cases in He as (bw & Hbw & [Hd|Hw]).
    + unfold Abort_, load_writer, bind. by rewrite Hbw, Hd.
    + eapply Hv'. by apply (triple_Abort w p bw).
  - apply writer_cases in He as (bw & Hbw & [Hd|Hw]).
    + unfold void, Commit, load_writer, bind. by rewrite Hbw, Hd.
    + destruct (writer_bucket _ _ _ Hr Hbw) as (b & Hb & _). eapply Hv. by apply (triple_Commit w p bw b).
  - eapply Hv. by apply triple_TempFile.
  - eapply Hv. by apply triple_PutObject.
  - eapply Hv'. by apply triple_Close.
Qed.

Lemma calls_return_witness :
  match (exec OpListBuckets w_object).1 with Panic _ | Diverge => False | _ => True end.
Proof. apply (calls_return w_object OpListBuckets reachable_object I). intros n req E. discriminate. Defined.

(** ** Writing *)

(** A write of [c] took effect, and described itself as [oi]. *)
Definition wrote (n name : string) (c : bytes) (opts : PutOptions) (oi : ObjectInfo) (w w' : world) : Prop :=
  ∃ t t', tables w n = Some t ∧ commits n name c opts oi t t' ∧ updates n (Some t') (tables w) (tables w').

(** Why a write of an existing bucket is refused: the name, or the
    preconditions on the version that is live. *)
Definition refused (w : world) (n name : string) (opts : PutOptions) (e : error) : Prop :=
  (validObjectName name = false ∧ errors_Is e ErrInvalidName = true) ∨
  (e = ErrPreconditionFailed ∧ ∃ t existing, tables w n = Some t ∧ reads n name t existing ∧
     ¬ conditions_hold (po_Conditions opts) existing).

Lemma tx_error_refused w n name opts e : world_ok w → tx_error w n name opts e → refused w n name opts e.
Proof.
  intros Hok [Hc|(-> & t & ex & Ht & Hr & Hne)]; [by apply not_corrupt in Hc|].
  right. split; [done|]. exists t, ex. split_and!; [done..|]. by rewrite <- check_spec.
Qed.

Lemma commits_wrote n name c opts oi w w' t t' :
  changed n (λ t t', ∃ oi, commits n name c opts oi t t') w w' →
  tables w n = Some t → tables w' n = Some t' → commits n name c opts oi t t' → wrote n name c opts oi w w'.
Proof.
  intros Hch Ht Ht' Hc. exists t, t'. split_and!; [done..|]. split; [done|].
  intros m Hm. by destruct (Hch m) as [?|(-> & _)].
Qed.

Lemma changed_wrote n name c opts w w' :
  changed n (λ t t', ∃ oi, commits n name c opts oi t t') w w' → same_tables w w' ∨ ∃ oi, wrote n name c opts oi w w'.
Proof.
  intros [?|(t & t' & Ht & (oi & Hc) & Hu)]%changed_cases; [by left|right]. exists oi, t, t'. done.
Qed.

(** The tables may be seen before or after steps that do not change them. *)
Lemma wrote_pre n name c opts oi w w' w'' :
  same_tables w w' → wrote n name c opts oi w' w'' → wrote n name c opts oi w w''.
Proof.
  intros Hs (t & t' & Ht & Hc & Hu & Hn). exists t, t'. rewrite <- (Hs n). split_and!; [done..|].
  split; [done|]. intros m Hm. rewrite <- (Hs m). by apply Hn.
Qed.

Lemma wrote_post n name c opts oi w w' w'' :
  wrote n name c opts oi w w' → same_tables w' w'' → wrote n name c opts oi w w''.
Proof.
  intros (t & t' & Ht & Hc & Hu & Hn) Hs. exists t, t'. split_and!; [done..|]. split; [by rewrite Hs|].
  intros m Hm. rewrite Hs. by apply Hn.
Qed.

(** C3: [Commit] installs the bytes written to the writer as the new version of
    the object, or changes no object: on success the tables differ in that row
    only, an error means nothing changed and has one of the documented reasons
    unless the environment failed, a crash leaves the one or the other; a call
    that comes back leaves no temporary file. *)
Theorem Commit_atomic w p bw b name opts :
  reachable w → writing w p bw → handles w !! w_b bw = Some b →
  triple w (Commit p name opts)
    (λ oi w', wrote (b_name b) name (w_sha bw) opts oi w w' ∧ no_leftover w w' bw)
    (λ e w', same_tables w w' ∧ no_leftover w w' bw ∧
       (failing w ∨ b_open b = false ∨ refused w (b_name b) name opts e))
    (λ w', same_tables w w' ∨ ∃ oi, wrote (b_name b) name (w_sha bw) opts oi w w').
Proof.
  intros Hr%reachable_ok Hw Hb. eapply triple_mono; [by apply (triple_Commit w p bw b)|..].
  - intros oi w' (_ & _ & Hch & (t & t' & Ht & Ht' & Hc) & _ & Hl). split; [by eapply commits_wrote|done].
  - intros e w' ((_ & ? & _ & He) & _ & Hl). split_and!; [done..|].
    destruct He as [?|[(? & ->)|(_ & [He|?])]]; [by left|right; right; by left| |by right; left].
    right; right. by apply tx_error_refused.
  - intros w' (_ & Hch & _). by apply changed_wrote.
Qed.

Lemma Commit_atomic_witness :
  ∃ bw, w_sha bw = bytes_of_string "bye" ∧
  triple w_written (Commit sample_pointer "a/b.txt" sample_opts)
    (λ oi w', wrote "photos" "a/b.txt" (w_sha bw) sample_opts oi w_written w' ∧ no_leftover w_written w' bw)
    (λ e w', same_tables w_written w' ∧ no_leftover w_written w' bw ∧
       (failing w_written ∨ true = false ∨ refused w_written "photos" "a/b.txt" sample_opts e))
    (λ w', same_tables w_written w' ∨ ∃ oi, wrote "photos" "a/b.txt" (w_sha bw) sample_opts oi w_written w').
Proof.
  destruct sample_writer as (bw & b & Hw & Hsha & Hb & Hn & Ho). exists bw. split; [exact Hsha|].
  pose proof (Commit_atomic w_written sample_pointer bw b "a/b.txt" sample_opts reachable_written Hw Hb) as H.
  rewrite Hn, Ho in H. exact H.
Defined.

(** C7: [PutObject] stores exactly the concatenation of what the reader
    delivers: it succeeds only if the reader came to a proper end, and an error,
    the reader's own included, leaves every object as it was. *)
Theorem PutObject_stores_all w n name (r : reader) opts :
  reachable w →
  triple w (PutObject n name r opts)
    (λ oi w', r.2 = None ∧ wrote n name (concat r.1) opts oi w w')
    (λ e w', same_tables w w' ∧
       (failing w ∨ no_bucket w n e ∨ no_tmp_dir w n ∨ r.2 = Some e ∨ refused w n name opts e))
    (λ w', same_tables w w' ∨ ∃ oi, wrote n name (concat r.1) opts oi w w').
Proof.
  intros Hr%reachable_ok. eapply triple_mono; [by apply (triple_PutObject w n name r opts)|..].
  - intros oi w' (_ & _ & Hch & t & t' & Ht & Ht' & ? & Hc). split; [done|by eapply commits_wrote].
  - intros e w' (_ & ? & _ & He). split; [done|].
    destruct He as [?|[?|[?|[?|[(? & ->)|He]]]]]; [tauto..|by do 4 right; left|].
    do 4 right. by apply tx_error_refused.
  - intros w' (_ & Hch & _). by apply changed_wrote.
Qed.

Lemma PutObject_stores_all_witness :
  ∃ oi w', PutObject "photos" "c" ([sample_text; sample_text], None) sample_opts w_object = (Ret oi, w') ∧
    wrote "photos" "c" (concat [sample_text; sample_text]) sample_opts oi w_object w'.
Proof.
  destruct (run_ret (PutObject "photos" "c" ([sample_text; sample_text], None) sample_opts) w_object)
    as (oi & w' & E); [by_running|].
  exists oi, w'. split; [exact E|].
  exact (proj2 (triple_ran _ _ _ _ _ _ _ (PutObject_stores_all w_object "photos" "c" _ sample_opts reachable_object) E)).
Defined.

(** ** Reading and deleting *)

(** C17: [OpenObject] returns the live version's description together with a
    file whose bytes hash to the description's sha256, and changes no object;
    when the environment does not fail it, it reports [ErrBucketNotFound] or
    [ErrObjectNotFound] exactly when there is no such bucket or object. *)
Theorem OpenObject_reads w n name :
  reachable w →
  triple w (OpenObject n name)
    (λ '(oi, f) w', same_tables w w' ∧ has_object w n name oi ∧
       ∃ c, files w' !! f = Some c ∧ sha_hex c = oi_SHA256 oi)
    (λ e w', same_tables w w' ∧ (failing w ∨ no_bucket w n e ∨ object_missing w n name e))
    (λ w', same_tables w w').
Proof.
  intros Hr%reachable_ok. eapply triple_mono; [by apply triple_OpenObject|..].
  - intros [oi f] w' (_ & (? & _) & ? & ?). done.
  - intros e w' (_ & ? & _ & [?|[?|[?|Hc]]]); [tauto..|]. by apply not_corrupt in Hc.
  - by intros w' (_ & ? & _).
Qed.

Lemma OpenObject_reads_witness :
  ∃ oi f w', OpenObject "photos" "a/b.txt" w_object = (Ret (oi, f), w') ∧
    ∃ c, files w' !! f = Some c ∧ sha_hex c = oi_SHA256 oi.
Proof.
  destruct (run_ret (OpenObject "photos" "a/b.txt") w_object) as ([oi f] & w' & E); [by_running|].
  exists oi, f, w'. split; [exact E|].
  exact (proj2 (proj2 (triple_ran _ _ _ _ _ _ _ (OpenObject_reads w_object "photos" "a/b.txt" reachable_object) E))).
Defined.

(** C18: [DeleteObject] removes the live version and nothing else, only if the
    preconditions hold of it; an error means nothing changed; and when nothing
    failed the blob file is gone with its last object. *)
Theorem DeleteObject_atomic w n name conds :
  reachable w →
  triple w (DeleteObject n name conds)
    (λ _ w', ∃ t r o, tables w n = Some t ∧ t !! name = Some r ∧ has_object w n name o ∧
       conditions_hold conds (Some o) ∧ updates n (Some (delete name t)) (tables w) (tables w') ∧
       (failing w ∨ (references (r_sha256 r) (delete name t) = 0 → tree w' !! blob_path n (r_sha256 r) = None)))
    (λ e w', same_tables w w' ∧
       (failing w ∨ no_bucket w n e ∨ (object_missing w n name e ∧ conditions_hold conds None) ∨
        (e = ErrPreconditionFailed ∧ ∃ t existing, tables w n = Some t ∧ reads n name t existing ∧
           ¬ conditions_hold conds existing)))
    (λ w', same_tables w w' ∨ ∃ t, tables w n = Some t ∧ updates n (Some (delete name t)) (tables w) (tables w')).
Proof.
  intros Hr%reachable_ok. eapply triple_mono; [by apply triple_DeleteObject|..].
  - intros [] w' (Hok' & _ & Hch & t & t' & Ht & Ht' & (r & o & Hn & Hs & Hc & ->) & Hcol).
    exists t, r, o. split_and!; [done|done|by exists t, r|by apply check_spec| |].
    + split; [done|]. intros m Hm. by destruct (Hch m) as [?|(-> & _)].
    + destruct Hcol as [?|Hcol]; [by left|right]. intros Hrefs.
      apply tables_db in Ht' as (_ & d & Hd & Hobj). apply (Hcol r Hn d Hd).
      assert (db_ok d) as Hdb.
      { unfold bucket_db in Hd. destruct (tree w' !! db_path n) as [[|j|j]|]; try done. by eapply ok_dbs; [apply Hok'|]. }
      pose proof (db_refs _ Hdb (r_sha256 r)) as Hc'. rewrite <- Hobj, Hrefs in Hc'.
      destruct (blobs d !! r_sha256 r); [lia|done].
  - intros e w' (_ & ? & _ & He). split; [done|]. unfold delete_error in He.
    destruct He as [?|[?|[Hc|[[? Hc]|(-> & [(o & (t & r & Ht & Hn & Hs) & Hc)|((t & Ht & Hn) & Hc)])]]]]; [by left|by right; left|by apply not_corrupt in Hc|..].
    + right; right; left. split; [done|by apply check_spec].
    + do 3 right. split; [done|]. exists t, (Some o). rewrite <- check_spec. split_and!; [done| |done].
      unfold reads. by rewrite Hn.
    + do 3 right. split; [done|]. exists t, None. rewrite <- check_spec. split_and!; [done| |done].
      unfold reads. by rewrite Hn.
  - intros w' (_ & [?|(t & t' & Ht & (r & o & _ & _ & _ & ->) & Hu)]%changed_cases & _); [by left|right; by exists t].
Qed.

Lemma DeleteObject_atomic_witness :
  ∃ w', DeleteObject "photos" "a/b.txt" noConditions w_object = (Ret tt, w') ∧
    ∃ t r o, tables w_object "photos" = Some t ∧ t !! "a/b.txt" = Some r ∧
       has_object w_object "photos" "a/b.txt" o ∧ conditions_hold noConditions (Some o) ∧
       updates "photos" (Some (delete "a/b.txt" t)) (tables w_object) (tables w') ∧
       (failing w_object ∨ (references (r_sha256 r) (delete "a/b.txt" t) = 0 →
          tree w' !! blob_path "photos" (r_sha256 r) = None)).
Proof.
  destruct (run_ret (DeleteObject "photos" "a/b.txt" noConditions) w_object) as ([] & w' & E); [by_running|].
  exists w'. split; [exact E|].
  exact (triple_ran _ _ _ _ _ _ _ (DeleteObject_atomic w_object "photos" "a/b.txt" noConditions reachable_object) E).
Defined.

Lemma commits_raises_generation n name c opts oi t t' r :
  commits n name c opts oi t t' → t !! name = Some r → (- 2 ^ 63 ≤ r_generation r < 2 ^ 63 - 1)%Z →
  (r_generation r < oi_Generation oi)%Z ∧ ∃ r', t' !! name = Some r' ∧ r_generation r' = oi_Generation oi.
Proof.
  intros (ex & tm & _ & Hr & _ & -> & ->) Hn Hg. unfold reads in Hr. rewrite Hn in Hr.
  destruct ex as [o|]; [|done]. assert (oi_Generation o = r_generation r) as Eg.
  { unfold scanObject in Hr. by repeat case_match; simplify_eq. }
  split; [|eexists; split; [apply lookup_insert_eq|done]]. cbn. unfold next_generation. rewrite Eg.
  destruct (Z.leb_spec (UnixMicro_of tm) (r_generation r)); [|lia]. rewrite int64_small by lia. lia.
Qed.

(** C28: A [Commit] over a live version gives the object a higher generation, whatever
    the clock says, until generations run out of 63 bits; the row holds the generation
    that is answered. *)
Theorem overwrite_raises_generation w p bw b name opts t r oi w' :
  reachable w → writing w p bw → handles w !! w_b bw = Some b →
  tables w (b_name b) = Some t → t !! name = Some r → (- 2 ^ 63 ≤ r_generation r < 2 ^ 63 - 1)%Z →
  Commit p name opts w = (Ret oi, w') →
  (r_generation r < oi_Generation oi)%Z ∧
  ∃ t' r', tables w' (b_name b) = Some t' ∧ t' !! name = Some r' ∧ r_generation r' = oi_Generation oi.
Proof.
  intros Hr%reachable_ok Hw Hb Ht Hn Hg Hrun.
  pose proof (triple_Commit w p bw b name opts Hr Hw Hb) as H. unfold triple, wp in H. rewrite Hrun in H.
  destruct H as (_ & _ & _ & (t1 & t' & Ht1 & Ht' & Hc) & _). rewrite Ht in Ht1. apply (inj Some) in Ht1 as <-.
  destruct (commits_raises_generation _ _ _ _ _ _ _ _ Hc Hn Hg) as [? (r' & ? & ?)]. split; [done|]. by exists t', r'.
Qed.

(** The clock has gone back to 1970. *)
Definition w_early : world := set_now 1000000 w_written.
Lemma reachable_early : reachable w_early.
Proof.
  destruct reachable_written as (t & w0 & Hs & Hr). exists t, w0. split; [exact Hs|].
  eapply rtc_r; [exact Hr|]. apply step_clock.
Qed.

Lemma writing_at_any_time t w p bw : writing w p bw → writing (set_now t w) p bw.
Proof. done. Qed.
Lemma handles_at_any_time t w h b : handles w !! h = Some b → handles (set_now t w) !! h = Some b.
Proof. done. Qed.

Lemma overwrite_raises_generation_witness :
  ∃ t r oi w', tables w_early "photos" = Some t ∧ t !! "a/b.txt" = Some r ∧
    Commit sample_pointer "a/b.txt" sample_opts w_early = (Ret oi, w') ∧ (r_generation r < oi_Generation oi)%Z.
Proof.
  destruct sample_writer as (bw & b & Hw & _ & Hb & Hn & _).
  destruct (run_ret (Commit sample_pointer "a/b.txt" sample_opts) w_early) as (oi & w' & E); [by_running|].
  assert ((λ t, r_generation <$> t !! "a/b.txt") <$> tables w_early "photos" = Some (Some 1700000000000000%Z)) as Hg by by_running.
  destruct (tables w_early "photos") as [t|] eqn:Et; [|exfalso; cbn in Hg; discriminate Hg].
  apply (inj Some) in Hg. destruct (t !! "a/b.txt") as [r|] eqn:Er; [|exfalso; cbn in Hg; discriminate Hg].
  apply (inj Some) in Hg. exists t, r, oi, w'. split; [reflexivity|]. split; [exact Er|]. split; [exact E|].
  assert (tables w_early (b_name b) = Some t) as Et' by (rewrite Hn; exact Et).
  apply (overwrite_raises_generation w_early sample_pointer bw b "a/b.txt" sample_opts t r oi w' reachable_early
    (writing_at_any_time 1000000 _ _ _ Hw) (handles_at_any_time 1000000 _ _ _ Hb) Et' Er); [|exact E].
  rewrite Hg. lia.
Defined.

(** A description as it is read back: the times have microseconds. *)
Definition as_stored (oi : ObjectInfo) : ObjectInfo :=
  mkObjectInfo (oi_Bucket oi) (oi_Name oi) (oi_Generation oi) (oi_Metageneration oi) (oi_Size oi)
    (oi_SHA256 oi) (oi_MD5 oi) (oi_CRC32C oi) (oi_ContentType oi) (oi_Metadata oi)
    (time_UnixMicro (UnixMicro_of (oi_Created oi))) (time_UnixMicro (UnixMicro_of (oi_Updated oi))).

Lemma commits_has_object n name c opts oi w' t t' :
  utf8_map (po_Metadata opts) → commits n name c opts oi t t' → tables w' n = Some t' →
  has_object w' n name (as_stored oi) ∧ oi_SHA256 oi = sha_hex c.
Proof.
  intros Hmd (ex & tm & _ & _ & _ & -> & ->) Ht'. split; [|done].
  eexists _, _. split; [exact Ht'|]. split; [apply lookup_insert_eq|].
  unfold committed_row. rewrite scanObject_new_row; [done|apply crc32c_sum_range|done].
Qed.

Lemma has_object_inj w n name o o' : has_object w n name o → has_object w n name o' → o = o'.
Proof. intros (t & r & ? & ? & ?) (t' & r' & ? & ? & ?). simplify_eq. congruence. Qed.

Lemma sha_hex_inj c c' : sha_hex c = sha_hex c' → sha256_sum c = sha256_sum c'.
Proof. apply hex_inj. Qed.

(** What was written can be opened. *)
Lemma open_after_wrote w n name c opts oi w1 :
  world_ok w1 → faults w1 = [] → utf8_map (po_Metadata opts) → wrote n name c opts oi w w1 →
  oi_ContentType oi = po_ContentType opts ∧ oi_Metadata oi = po_Metadata opts ∧
  oi_MD5 oi = md5_sum c ∧ oi_CRC32C oi = crc32c_sum c ∧
  ∃ f w2 c', OpenObject n name w1 = (Ret (as_stored oi, f), w2) ∧ files w2 !! f = Some c' ∧ faults w2 = [] ∧
    (c' = c ∨ c' ≠ c ∧ sha256_sum c' = sha256_sum c).
Proof.
  intros Hok1 Hf Hmd (t & t' & _ & Hcm & [Ht' _]).
  pose proof Hcm as (ex & tm & _ & _ & _ & Hoi & _). split_and!; [by rewrite Hoi..|].
  destruct (commits_has_object _ _ _ _ _ w1 _ _ Hmd Hcm Ht') as [Hobj Hsha].
  pose proof (triple_OpenObject w1 n name Hok1) as Hopen. unfold triple, wp in Hopen.
  destruct (OpenObject n name w1) as [[[oi' f]|e|x| |] w2]; cbn in Hopen.
  - destruct Hopen as (_ & (_ & Hc2 & _) & Hobj' & c' & Hc & Hcs).
    assert (oi' = as_stored oi) as -> by by eapply has_object_inj.
    exists f, w2, c'. split_and!; [done|done|by apply Hc2|]. cbn in Hcs. rewrite Hsha in Hcs.
    destruct (decide (c' = c)); [by left|right]. split; [done|]. by apply sha_hex_inj.
  - exfalso. destruct Hopen as (_ & _ & _ & [Hx|[[_ Hx]|[(_ & t2 & Hx & Hy)|Hx]]]).
    + by apply Hx.
    + congruence.
    + destruct Hobj as (t3 & r & ? & ? & _). congruence.
    + by apply not_corrupt in Hx.
  - done.
  - done.
  - exfalso. destruct Hopen as (_ & _ & Hx). by apply Hx.
Qed.

Lemma open_after_put w n name ps opts oi w1 :
  world_ok w → faults w = [] → utf8_map (po_Metadata opts) →
  PutObject n name (ps, None) opts w = (Ret oi, w1) →
  oi_ContentType oi = po_ContentType opts ∧ oi_Metadata oi = po_Metadata opts ∧
  oi_MD5 oi = md5_sum (concat ps) ∧ oi_CRC32C oi = crc32c_sum (concat ps) ∧
  ∃ f w2 c, OpenObject n name w1 = (Ret (as_stored oi, f), w2) ∧ files w2 !! f = Some c ∧ faults w2 = [] ∧
    (c = concat ps ∨ c ≠ concat ps ∧ sha256_sum c = sha256_sum (concat ps)).
Proof.
  intros Hr Hf Hmd Hput.
  destruct (triple_ran _ _ _ _ _ _ _ (triple_PutObject w n name (ps, None) opts Hr) Hput)
    as (Hok1 & Hc1 & Hch & t & t' & Ht & Ht' & _ & Hcm).
  apply (open_after_wrote w); [done|by apply Hc1|done|by eapply commits_wrote].
Qed.

(** What [PutObject] stored [OpenObject] gives back: the same description,
    with times in microseconds, and the same bytes (unless SHA-256 collides). *)
Theorem put_then_open w n name ps opts oi w1 :
  reachable w → faults w = [] → utf8_map (po_Metadata opts) →
  PutObject n name (ps, None) opts w = (Ret oi, w1) →
  ∃ f w2 c, OpenObject n name w1 = (Ret (as_stored oi, f), w2) ∧ files w2 !! f = Some c ∧
    (c = concat ps ∨ c ≠ concat ps ∧ sha256_sum c = sha256_sum (concat ps)).
Proof.
  intros Hr%reachable_ok Hf Hmd Hput.
  destruct (open_after_put w n name ps opts oi w1) as (_ & _ & _ & _ & f & w2 & c & ? & ? & _ & ?); [done..|]. by exists f, w2, c.
Qed.

Lemma put_then_open_witness :
  ∃ oi w1 f w2 c, PutObject "photos" "c" ([sample_text], None) sample_opts w_object = (Ret oi, w1) ∧
    OpenObject "photos" "c" w1 = (Ret (as_stored oi, f), w2) ∧ files w2 !! f = Some c ∧
    (c = concat [sample_text] ∨ c ≠ concat [sample_text] ∧ sha256_sum c = sha256_sum (concat [sample_text])).
Proof.
  destruct (run_ret (PutObject "photos" "c" ([sample_text], None) sample_opts) w_object) as (oi & w1 & E); [by_running|].
  assert (faults w_object = []) as Hf by by_running.
  assert (utf8_map (po_Metadata sample_opts)) as Hmd.
  { apply map_Forall_singleton. split.
    - apply (utf8_valid_rune ["o"%char]); [discriminate|reflexivity|].
      apply (utf8_valid_rune ["w"%char]); [discriminate|reflexivity|].
      apply (utf8_valid_rune ["n"%char]); [discriminate|reflexivity|].
      apply (utf8_valid_rune ["e"%char]); [discriminate|reflexivity|].
      apply (utf8_valid_rune ["r"%char]); [discriminate|reflexivity|constructor].
    - apply (utf8_valid_rune ["a"%char]); [discriminate|reflexivity|].
      apply (utf8_valid_rune ["n"%char]); [discriminate|reflexivity|].
      apply (utf8_valid_rune ["n"%char]); [discriminate|reflexivity|constructor]. }
  destruct (put_then_open w_object "photos" "c" [sample_text] sample_opts oi w1 reachable_object Hf Hmd E)
    as (f & w2 & c & H).
  exists oi, w1, f, w2, c. split; [exact E|exact H].
Defined.

Definition create_only : Conditions := mkConditions (Some 0%Z) None None None.

(** A write with [GenerationMatch] 0 never replaces a live version, however
    the call ends; live versions have generation 0 only if the clock reads the
    first microsecond of 1970. *)
Theorem create_only_never_replaces w n name r opts t row o w' :
  reachable w → po_Conditions opts = create_only →
  tables w n = Some t → t !! name = Some row → r_generation row ≠ 0%Z →
  PutObject n name r opts w = (o, w') →
  same_tables w w' ∧ match o with Ret _ => False | _ => True end.
Proof.
  intros Hr%reachable_ok Hcond Ht Hrow Hgen Hput.
  assert (∀ oi t', ¬ commits n name (concat r.1) opts oi t t') as Hno.
  { intros oi t' (ex & tm & _ & Hrd & Hc & _). unfold reads in Hrd. rewrite Hrow in Hrd.
    destruct ex as [ob|]; [|done]. rewrite Hcond in Hc. apply check_create_only in Hc; [done|].
    intros o' [= ->]. destruct (row_ok_scans n name row); [by eapply world_rows|].
    unfold scanObject in Hrd. by repeat case_match; simplify_eq. }
  pose proof (triple_PutObject w n name r opts Hr) as H. unfold triple, wp in H. rewrite Hput in H. cbn in H.
  assert (∀ t1, tables w n = Some t1 → t1 = t) as Hu by congruence.
  destruct o as [oi|e|x| |]; [| |done|done|].
  - destruct H as (_ & _ & _ & t1 & t1' & Ht1 & _ & _ & Hc). rewrite (Hu _ Ht1) in Hc. by destruct (Hno _ _ Hc).
  - by destruct H as (_ & ? & _).
  - split; [|done]. destruct H as (_ & [?|(t1 & t1' & Ht1 & (oi & Hc) & _)]%changed_cases & _); [done|].
    rewrite (Hu _ Ht1) in Hc. by destruct (Hno _ _ Hc).
Qed.

Lemma create_only_never_replaces_witness :
  let opts := mkPutOptions "" ∅ create_only in
  ∃ o w', PutObject "photos" "a/b.txt" ([sample_text], None) opts w_object = (o, w') ∧
    same_tables w_object w' ∧ match o with Ret _ => False | _ => True end.
Proof.
  intros opts. destruct (PutObject "photos" "a/b.txt" ([sample_text], None) opts w_object) as [o w'] eqn:E.
  exists o, w'. split; [reflexivity|].
  assert ((λ t, (λ r, negb (r_generation r =? 0)%Z) <$> t !! "a/b.txt") <$> tables w_object "photos" = Some (Some true)) as Ht by by_running.
  destruct (tables w_object "photos") as [t|] eqn:Et; [|exfalso; cbn in Ht; discriminate Ht].
  apply (inj Some) in Ht. destruct (t !! "a/b.txt") as [row|] eqn:Er; [|exfalso; cbn in Ht; discriminate Ht].
  apply (inj Some) in Ht. apply negb_true_iff, Z.eqb_neq in Ht.
  exact (create_only_never_replaces w_object "photos" "a/b.txt" _ opts t row o w' reachable_object eq_refl Et Er Ht E).
Defined.
