(* ===== verification/StoreProgress.v ===== *)
(** What the store can be relied on for: well-typed rows that can always be read
    back, and calls that succeed when nothing stands in their way. *)

From S2P Require Import Prelude Errors GoMonad GoStd Types Names Hash Json JsonProofs Database World Bucket Store BlobWriter StoreInv Triple StoreSafe StoreOps ObjectOps WriterOps Listing ListingSpec Run Refine Samples StoreProps.
From stdpp Require Import options.

(** C24: Every object row of every reachable state has the types and the widths of its
    columns: valid names, an [int64] generation, size, creation and update time, a
    [uint32] CRC32C, 16 bytes of MD5, 64 digits of SHA-256, the metageneration 1;
    and [scanObject] can read it back under its own names: no call ever fails on a
    corrupt row. *)
Theorem rows_well_typed w n t name r :
  reachable w → tables w n = Some t → t !! name = Some r →
  validBucketName n = true ∧ validObjectName name = true ∧
  is_int64 (r_generation r) ∧ is_int64 (r_created r) ∧ is_int64 (r_updated r) ∧
  is_int64 (r_size r) ∧ (0 ≤ r_crc32c r < 2 ^ 32)%Z ∧
  length (r_md5 r) = 16 ∧ String.length (r_sha256 r) = 64 ∧ r_metageneration r = 1%Z ∧
  ∃ o, scanObject n name r = inr o ∧ oi_Bucket o = n ∧ oi_Name o = name.
Proof.
  intros Hok%reachable_ok Ht Hr. pose proof (world_rows _ _ _ _ _ Hok Ht Hr) as Hrow.
  destruct (row_ok_scans n name r Hrow) as [o Ho].
  destruct Hrow as [Hname (c & Hsha & Hmd5 & Hcrc & Hsize) _ Hmeta Hgen [Hcr Hup]].
  rewrite Hsize, Hcrc, Hmd5, Hsha.
  split; [by eapply tables_valid|]. do 4 (split; [done|]). split; [apply int64_range|]. split; [apply crc32c_sum_range|].
  split; [apply length_md5_sum|]. split; [apply length_sha256_hex|]. split; [done|].
  exists o. split; [done|]. unfold scanObject in Ho. by repeat case_match; simplify_eq.
Qed.

Lemma rows_well_typed_witness :
  ∃ t r, tables w_object "photos" = Some t ∧ t !! "a/b.txt" = Some r ∧ length (r_md5 r) = 16.
Proof.
  assert ((λ t, is_some (t !! "a/b.txt")) <$> tables w_object "photos" = Some true) as Hs by by_running.
  destruct (tables w_object "photos") as [t|] eqn:Et; [|exfalso; cbn in Hs; discriminate Hs].
  apply (inj Some) in Hs. destruct (t !! "a/b.txt") as [r|] eqn:Er; [|exfalso; cbn in Hs; discriminate Hs].
  exists t, r. split; [reflexivity|]. split; [exact Er|].
  exact (proj1 (proj2 (proj2 (proj2 (proj2 (proj2 (proj2 (proj2 (rows_well_typed w_object "photos" t "a/b.txt" r reachable_object Et Er))))))))).
Defined.

(** The environment fails no call any more. *)
Lemma calm_ends {A} w (m : M world A) Q T T' R :
  triple w m Q (E_rel T w R) (C_rel T' w) → faults w = [] → (∀ e, ¬ R e) → ∃ a w', m w = (Ret a, w') ∧ Q a w'.
Proof.
  intros H Hf HR. destruct (calm_run w m Q T T' R H Hf) as [?|(e & w' & _ & He & _)]; [done|by destruct (HR e)].
Qed.

(** C23: When the environment fails nothing, a complete body is stored: in a bucket whose
    directories are there, under a valid name, if the preconditions hold of the live
    version. *)
Theorem complete_write_succeeds w n name ps opts t :
  reachable w → faults w = [] → tables w n = Some t → intact w n → validObjectName name = true →
  (∀ existing, reads n name t existing → conditions_hold (po_Conditions opts) existing) →
  ∃ oi w', PutObject n name (ps, None) opts w = (Ret oi, w') ∧ wrote n name (concat ps) opts oi w w'.
Proof.
  intros Hok%reachable_ok Hf Ht [_ Htmp] Hname Hconds.
  destruct (calm_ends w _ _ _ _ _ (triple_PutObject w n name (ps, None) opts Hok) Hf) as (oi & w' & E & HQ).
  - intros e [[_ Hno]|[Hno|[He|[[Hv _]|[Hc|(_ & t' & ex & Ht' & Hr & Hne)]]]]].
    + congruence.
    + by apply Hno.
    + done.
    + congruence.
    + by apply not_corrupt in Hc.
    + rewrite Ht in Ht'. apply (inj Some) in Ht' as <-. apply Hne, check_spec. by apply Hconds.
  - exists oi, w'. split; [done|]. destruct HQ as (_ & _ & Hch & t1 & t2 & Ht1 & Ht2 & _ & Hc). by eapply commits_wrote.
Qed.

Lemma complete_write_succeeds_witness :
  ∃ oi w', PutObject "photos" "c" ([sample_text], None) sample_opts w_object = (Ret oi, w') ∧
    wrote "photos" "c" (concat [sample_text]) sample_opts oi w_object w'.
Proof.
  assert (is_some (tables w_object "photos") = true) as Hs by by_running.
  destruct (is_some_ex _ Hs) as [t Et].
  assert (faults w_object = []) as Hf by by_running.
  assert (intact w_object "photos") as Hint by (split; by_running).
  apply (complete_write_succeeds w_object "photos" "c" [sample_text] sample_opts t reachable_object Hf Et Hint); [reflexivity|].
  intros existing _. apply check_spec. reflexivity.
Defined.

(** When the environment fails nothing, an object that is live can be opened and
    deleted: no object gets stuck. *)
Theorem live_object_usable w n t name r :
  reachable w → faults w = [] → tables w n = Some t → t !! name = Some r →
  (∃ oi f w', OpenObject n name w = (Ret (oi, f), w') ∧ has_object w n name oi) ∧
  (∃ w', DeleteObject n name noConditions w = (Ret tt, w') ∧ updates n (Some (delete name t)) (tables w) (tables w')).
Proof.
  intros Hok%reachable_ok Hf Ht Hr.
  assert (∀ e, ¬ no_bucket w n e) as Hnb by (intros e [_ ?]; congruence).
  assert (∀ e, ¬ object_missing w n name e) as Hnm by (intros e (_ & t' & ? & ?); congruence).
  split.
  - destruct (calm_ends w _ _ _ _ _ (triple_OpenObject w n name Hok) Hf) as ([oi f] & w' & E & HQ).
    + intros e [?|[?|Hc]]; [by eapply Hnb|by eapply Hnm|by apply not_corrupt in Hc].
    + exists oi, f, w'. split; [done|]. by destruct HQ as (_ & _ & ? & _).
  - destruct (calm_ends w _ _ _ _ _ (triple_DeleteObject w n name noConditions Hok) Hf) as ([] & w' & E & HQ).
    + intros e [?|[Hc|[[? _]|(_ & [(o & _ & Hne)|((t' & ? & ?) & _)])]]]; [by eapply Hnb|by apply not_corrupt in Hc|by eapply Hnm| |congruence].
      by apply Hne, check_spec.
    + exists w'. split; [done|]. destruct HQ as (_ & _ & Hch & t1 & t2 & Ht1 & Ht2 & (r1 & o1 & _ & _ & _ & ->) & _).
      rewrite Ht in Ht1. apply (inj Some) in Ht1 as <-. split; [done|]. intros m Hm. by destruct (Hch m) as [?|(-> & _)].
Qed.

Lemma live_object_usable_witness :
  ∃ t w', tables w_object "photos" = Some t ∧ DeleteObject "photos" "a/b.txt" noConditions w_object = (Ret tt, w') ∧
    updates "photos" (Some (delete "a/b.txt" t)) (tables w_object) (tables w').
Proof.
  assert ((λ t, is_some (t !! "a/b.txt")) <$> tables w_object "photos" = Some true) as Hs by by_running.
  destruct (tables w_object "photos") as [t|] eqn:Et; [|exfalso; cbn in Hs; discriminate Hs].
  apply (inj Some) in Hs. destruct (t !! "a/b.txt") as [r|] eqn:Er; [|exfalso; cbn in Hs; discriminate Hs].
  assert (faults w_object = []) as Hf by by_running.
  destruct (proj2 (live_object_usable w_object "photos" t "a/b.txt" r reachable_object Hf Et Er)) as (w' & E & Hu).
  exists t, w'. exact (conj eq_refl (conj E Hu)).
Defined.
