(* ===== verification/Paging.v ===== *)
(** Paging: what the pages of a listing are parts of, and the one argument by which
    every client that follows cursors, of the store's or of a front end's,
    collects the whole listing. *)

From S2P Require Import Prelude Errors GoMonad GoStd Types Names Hash Database World Bucket Store BlobWriter StoreInv Triple StoreSafe StoreOps ObjectOps WriterOps Listing ListingSpec Run.
From stdpp Require Import options.

(** ** Following the tokens *)

(** The request for the page that starts at [token]. *)
Definition at_token (req : ListRequest) (token : string) : ListRequest :=
  mkListRequest (lr_Prefix req) (lr_Delimiter req) token (lr_MaxResults req).

Lemma walk_at_token req tok prev n l : walk (at_token req tok) prev n l = walk req prev n l.
Proof.
  revert prev n. induction l as [|o l IH]; intros prev n; [done|]. cbn [walk].
  change (item_of (at_token req tok) o) with (item_of req o).
  destruct (item_of req o); [|case_decide; [apply IH|]]; destruct n as [|n]; try done; by rewrite IH.
Qed.

(** Enough room for every object is as good as more. *)
Lemma walk_enough req prev n l :
  StronglySorted name_lt l → Forall (λ o, oi_Name o ≠ "") l → length l ≤ n →
  (walk req prev n l).1 = (walk req prev (length l) l).1.
Proof.
  intros Hs Hne Hn. replace n with (length l + (n - length l)) by lia. rewrite walk_resume by done.
  rewrite walk_all by done. cbn. by rewrite app_nil_r.
Qed.

(** A token leaves fewer objects to list. *)
Lemma walk_token_shorter req prev n l tok :
  StronglySorted name_lt l → (walk req prev (S n) l).2 = tok → tok ≠ "" → length (from tok l) < length l.
Proof.
  intros Hs Htok Hne. destruct l as [|o l]; [by subst|].
  assert (tok = "" ∨ ∃ o', o' ∈ l ∧ oi_Name o' = tok) as Hin.
  { cbn [walk] in Htok. destruct (item_of req o) as [o'|cp]; [|case_decide].
    - pose proof (walk_token req None n l) as Ht. destruct (walk req None n l). by subst.
    - pose proof (walk_token req prev (S n) l) as Ht. rewrite Htok in Ht. done.
    - pose proof (walk_token req (Some cp) n l) as Ht. destruct (walk req (Some cp) n l). by subst. }
  rewrite from_tail by done. cbn. unfold from. pose proof (length_filter (λ o, tok ≤ₛ oi_Name o) l) as Hl. lia.
Qed.

Lemma max_results_pos req : ∃ k, Z.to_nat (max_results req) = S k.
Proof.
  exists (Nat.pred (Z.to_nat (max_results req))). unfold max_results, defaultMaxResults.
  destruct (Z.leb_spec (lr_MaxResults req) 0), (Z.ltb_spec 1000 (lr_MaxResults req)); cbn [orb]; lia.
Qed.

Lemma Forall_from (P : ObjectInfo → Prop) lo l : Forall P l → Forall P (from lo l).
Proof. rewrite !Forall_forall. intros H o [_ ?]%list_elem_of_filter. auto. Qed.

Section pages.
#[local] Set Default Proof Using "Type*".
Context (n : string) (t : gmap string objectRow) (req : ListRequest).
Context (Hscan : scannable n t).
Abbreviation prefixed_objects := (with_prefix n t req).

Lemma listed_at_token tok : listed_objects n (at_token req tok) t = from tok prefixed_objects.
Proof. by rewrite (listed_objects_from n t Hscan). Qed.

Lemma prefixed_objects_sorted : StronglySorted name_lt prefixed_objects.
Proof. by apply with_prefix_sorted. Qed.

(** The rest of the pages, from one token on. *)
Definition rest_items (tok : string) : list item :=
  (walk req None (length (from tok prefixed_objects)) (from tok prefixed_objects)).1.

(** A page and the rest after it. *)
Lemma rest_items_page tok k :
  Forall (λ o, oi_Name o ≠ "") prefixed_objects →
  let '(its, next) := walk req None (S k) (from tok prefixed_objects) in
  if String.eqb next "" then rest_items tok = its
  else tok ≤ₛ next ∧ length (from next prefixed_objects) < length (from tok prefixed_objects) ∧
    rest_items tok = its ++ rest_items next.
Proof.
  intros Hne. set (l := from tok prefixed_objects).
  assert (StronglySorted name_lt l) as Hs by apply from_sorted, prefixed_objects_sorted.
  assert (Forall (λ o, oi_Name o ≠ "") l) as Hl by by by apply Forall_from.
  assert (rest_items tok = (walk req None (S k + length l) l).1) as -> by (symmetry; apply walk_enough; [done..|lia]).
  rewrite walk_resume by done.
  pose proof (walk_token req None (S k) l) as Htok. pose proof (walk_token_shorter req None k l) as Hshort.
  destruct (walk req None (S k) l) as [its next]. cbn [fst snd] in *.
  destruct (String.eqb_spec next "") as [|Hn]; [by rewrite app_nil_r|].
  assert (tok ≤ₛ next) as Hle.
  { destruct Htok as [?|(o & [? _]%list_elem_of_filter & <-)]; done. }
  assert (from next l = from next prefixed_objects) as Hnext by by apply from_from.
  specialize (Hshort next Hs eq_refl Hn). rewrite Hnext in *. split_and!; [done..|]. f_equal.
  apply walk_enough; [apply from_sorted, prefixed_objects_sorted|by apply Forall_from|]. apply Nat.lt_le_incl, Hshort.
Qed.

Lemma rest_items_all tok :
  ascii_request req →
  objects_of (rest_items tok) = filter (λ o, common_prefix req (rest_of req (oi_Name o)) = None) (from tok prefixed_objects) ∧
  StronglySorted str_lt (prefixes_of (rest_items tok)) ∧
  ∀ cp, cp ∈ prefixes_of (rest_items tok) ↔ ∃ o, o ∈ from tok prefixed_objects ∧ item_of req o = Prefix cp.
Proof.
  intros Hreq. unfold rest_items. split_and!; [by apply walk_objects|..].
  - apply walk_prefixes_sorted; [apply from_sorted, prefixed_objects_sorted|apply Forall_from, with_prefix_prefix, Hscan].
  - intros cp. split; [apply walk_prefix_sound|]. intros Hex.
    by destruct (walk_prefix_complete req _ cp None (length (from tok prefixed_objects)) (reflexivity _) Hex).
Qed.
End pages.

Lemma with_prefix_names n t req :
  map_Forall row_ok t → Forall (λ o, oi_Name o ≠ "") (with_prefix n t req).
Proof.
  intros Hrows. assert (scannable n t) as Hscan by (intros name r Hr; by eapply row_ok_scans, Hrows).
  apply Forall_forall. intros o (p & -> & [_ Hp]%list_elem_of_filter)%list_elem_of_fmap.
  apply order_by_name_spec in Hp. rewrite (proj2 (decode_row n t Hscan p Hp)).
  destruct (Hrows _ _ Hp) as [Hv _ _ _]. apply validObjectName_spec in Hv as [Hv _]. destruct p.1; cbn in Hv; [lia|done].
Qed.

Lemma with_prefix_length n t req : length (with_prefix n t req) ≤ size t.
Proof.
  unfold with_prefix. rewrite length_fmap.
  pose proof (length_filter (λ p, String.prefix (lr_Prefix req) p.1 = true) (order_by_name t)) as H.
  unfold order_by_name in *. rewrite (Permutation_length (merge_sort_Permutation _ _)) in H.
  by rewrite length_map_to_list in H.
Qed.


(** ** A client that follows cursors

    [fetch c] is the page that the client gets for the cursor [c]: entries, common
    prefixes, and the next cursor unless the page is the last. *)
Section client.
Context {St X C : Type} (fetch : C → M St (list X * list string * option C)).

Fixpoint collect (fuel : nat) (c : C) : M St (list X * list string) :=
  match fuel with
  | 0 => diverge
  | S fuel =>
    let* ' (os, ps, next) := fetch c in
    match next with
    | None => ret (os, ps)
    | Some c =>
      let* ' (os', ps') := collect fuel c in
      ret (os ++ os', ps ++ ps')
    end
  end.
End client.

Section collected.
#[local] Set Default Proof Using "Type*".
Context {St X C : Type} (fetch : C → M St (list X * list string * option C)).
Context (n : string) (t : gmap string objectRow) (req : ListRequest) (Hscan : scannable n t).
Context (Hne : Forall (λ o, oi_Name o ≠ "") (with_prefix n t req)).
(* the entry of an object; the page token that a cursor stands for; the cursors
   that the client gets to *)
Context (entry : ObjectInfo → X) (token : C → string) (P : C → Prop).
(* the states between the requests, and how a request may fail *)
Context (I : St → Prop) (failed : outcome unit → St → Prop).

(** The page of the reference listing at [c], with a cursor that stands for the
    same objects as the page's token. *)
Definition is_page (k : nat) (c : C) (r : list X * list string * option C) : Prop :=
  let '(its, tok) := walk req None (S k) (from (token c) (with_prefix n t req)) in
  r.1 = (entry <$> objects_of its, prefixes_of its) ∧
  match r.2 with
  | None => tok = ""
  | Some c' => tok ≠ "" ∧ P c' ∧ from (token c') (with_prefix n t req) = from tok (with_prefix n t req)
  end.

(** How a call of the client may end. *)
Definition ends {A} (Q : A → Prop) (o : outcome A) (s : St) : Prop :=
  match o with
  | Ret a => I s ∧ Q a
  | Err e => failed (Err e) s
  | Crash => failed Crash s
  | _ => False
  end.

Lemma rest_items_from tok tok' :
  from tok (with_prefix n t req) = from tok' (with_prefix n t req) → rest_items n t req tok = rest_items n t req tok'.
Proof. intros E. unfold rest_items. by rewrite E. Qed.

Lemma wp_collect k :
  (∀ c s, P c → I s → wp (fetch c) (ends (is_page k c)) s) →
  ∀ fuel c s, P c → I s → length (from (token c) (with_prefix n t req)) < fuel →
  wp (collect fetch fuel c)
    (ends (λ r, r = (entry <$> objects_of (rest_items n t req (token c)), prefixes_of (rest_items n t req (token c))))) s.
Proof.
  intros Hfetch. induction fuel as [|fuel IH]; intros c s HP Hs Hfuel; [lia|]. cbn [collect].
  apply wp_bind. eapply wp_mono; [by apply Hfetch|]. intros [[[os ps] next]|e|x| |] s1; cbn [ends bind_post]; [|done..].
  intros [Hs1 Hpage]. unfold is_page in Hpage.
  pose proof (rest_items_page n t req Hscan (token c) k Hne) as Hrest.
  destruct (walk req None (S k) (from (token c) (with_prefix n t req))) as [its tok].
  destruct Hpage as [[= -> ->] Hnext]. cbn [snd] in Hnext. destruct next as [c'|].
  - destruct Hnext as (Hn & HP' & Hfrom). apply String.eqb_neq in Hn. rewrite Hn in Hrest. destruct Hrest as (_ & Hshort & Hrest).
    apply wp_bind. eapply wp_mono; [apply (IH c' s1); [done|done|rewrite Hfrom; lia]|].
    intros [[os' ps']|e|x| |] s2; cbn [ends bind_post]; [|done..]. intros [Hs2 [= -> ->]]. apply wp_ret. split; [done|].
    rewrite (rest_items_from _ tok Hfrom), Hrest. unfold objects_of, prefixes_of. by rewrite !omap_app, fmap_app.
  - apply String.eqb_eq in Hnext. rewrite Hnext in Hrest. rewrite Hrest. apply wp_ret. done.
Qed.
End collected.

(** ** The pages of the store *)

(** What a client that collects everything gets: the objects that have no
    delimiter after the prefix, in order, and the common prefixes of the others,
    each once and in order. *)
Definition whole_listing (n : string) (t : gmap string objectRow) (req : ListRequest)
    (os : list ObjectInfo) (ps : list string) : Prop :=
  os = filter (λ o, common_prefix req (rest_of req (oi_Name o)) = None) (listed_objects n req t) ∧
  StronglySorted str_lt ps ∧
  ∀ cp, cp ∈ ps ↔ ∃ o, o ∈ listed_objects n req t ∧ item_of req o = Prefix cp.

Section pages_of_bucket.
#[local] Set Default Proof Using "Type*".
Context (w0 : world) (n : string) (t : gmap string objectRow) (req : ListRequest).
Context (Hok0 : world_ok w0) (Ht : tables w0 n = Some t) (Hreq : ascii_request req).

(** The worlds between the pages, and how one can fail. *)
Definition between (w : world) : Prop := world_ok w ∧ kept w0 w.
Definition page_failed {A} (o : outcome A) (w : world) : Prop := same_tables w0 w ∧ failing w0.

Lemma bucket_rows : map_Forall row_ok t.
Proof. intros ???. by eapply world_rows. Qed.
Lemma bucket_scannable : scannable n t.
Proof. by eapply world_scannable. Qed.
Lemma bucket_names : Forall (λ o, oi_Name o ≠ "") (with_prefix n t req).
Proof. apply with_prefix_names, bucket_rows. Qed.

(** The page of the store at a token. *)
Lemma page_at_token tok w :
  between w →
  triple w (ListObjects n (at_token req tok))
    (λ res w', between w' ∧ res = page (walk req None (Z.to_nat (max_results req)) (from tok (with_prefix n t req))))
    (λ e w', page_failed (Err (A:=unit) e) w') (λ w', page_failed (Crash (A:=unit)) w').
Proof.
  intros [Hok Hk]. pose proof (kept_calm _ _ Hk) as Hcalm. destruct Hk as (Hs & Hk').
  eapply triple_mono; [by apply (triple_ListObjects w n (at_token req tok))|..].
  - intros res w' (Hok' & Hk1 & t1 & Ht1 & ->). rewrite (Hs n), Ht in Ht1. apply (inj Some) in Ht1 as <-.
    split; [split; [done|]; exact (kept_trans _ _ _ (conj Hs Hk') Hk1)|]. unfold list_spec.
    by rewrite (listed_at_token n t req bucket_scannable), walk_at_token.
  - intros e w' (_ & Hs' & _ & Hwhy). split; [by eapply same_tables_trans|].
    destruct Hwhy as [Hf|[_ Hno]]; [by eapply calm_failing|]. rewrite (Hs n) in Hno. congruence.
  - intros w' (_ & Hs' & Hf). split; [by eapply same_tables_trans|by eapply calm_failing].
Qed.

(** Following cursors from the one of the request on, everything is collected. *)
Lemma wp_collect_all {St X C} (fetch : C → M St (list X * list string * option C)) (entry : ObjectInfo → X)
    (token : C → string) (P : C → Prop) (I : St → Prop) failed k fuel c s :
  (∀ c s, P c → I s → wp (fetch c) (ends I failed (is_page n t req entry token P k c)) s) →
  P c → I s → token c = lr_PageToken req → size t < fuel →
  wp (collect fetch fuel c)
    (ends I failed (λ r, ∃ os, r.1 = entry <$> os ∧ whole_listing n t req os r.2)) s.
Proof.
  intros Hfetch HP Hs Hc Hfuel.
  eapply wp_mono; [apply (wp_collect fetch n t req bucket_scannable bucket_names entry token P I failed k Hfetch fuel c s HP Hs)|].
  - pose proof (with_prefix_length n t req). pose proof (length_filter (λ o, token c ≤ₛ oi_Name o) (with_prefix n t req)).
    unfold from. lia.
  - intros [r|e|x| |] s' H; cbn [ends] in *; try done. destruct H as [HI ->]. split; [done|].
    exists (objects_of (rest_items n t req (token c))). split; [done|]. unfold whole_listing. cbn [snd].
    rewrite (listed_objects_from n t bucket_scannable req : listed_objects n req t = _), <- Hc.
    by apply rest_items_all, Hreq; apply bucket_scannable.
Qed.
End pages_of_bucket.
