(* ===== verification/ListProps.v ===== *)
(** The properties of listing: one page against the reference listing, the
    pages a client collects by following the tokens, and [prefixSuccessor]
    against its comment. *)

From S2P Require Import Prelude Errors GoMonad GoStd Types Names Hash Database World Bucket Store BlobWriter StoreInv Triple StoreSafe StoreOps ObjectOps WriterOps Listing ListingSpec Run Refine Samples Paging.
From stdpp Require Import options.

(** ** Following the tokens *)

(** One page for a client: objects, common prefixes, and the next page's token. *)
Definition store_page (bucketName : string) (req : ListRequest) (token : string) : M world (list ObjectInfo * list string * option string) :=
  let* res := ListObjects bucketName (at_token req token) in
  ret (Objects res, Prefixes res, if String.eqb (NextPageToken res) "" then None else Some (NextPageToken res)).

(** A client that collects the pages until there is no next token. *)
Definition list_all (fuel : nat) (bucketName : string) (req : ListRequest) : M world (list ObjectInfo * list string) :=
  collect (store_page bucketName req) fuel (lr_PageToken req).

(** ** Properties *)

(** C9: For a request whose prefix and delimiter are empty or end in a byte below 0x7f,
    [ListObjects] computes, in batches and with skips over the rest of each common
    prefix, exactly the page that one walk over the objects in name order gives:
    the objects without a delimiter after the prefix, one entry per common prefix,
    at most as many as asked for, and as token the first name not covered. *)
Theorem ListObjects_lists w n req :
  reachable w → ascii_request req →
  triple w (ListObjects n req)
    (λ res w', same_tables w w' ∧ ∃ t, tables w n = Some t ∧ res = list_spec n req t ∧
       (Z.of_nat (length (Objects res) + length (Prefixes res)) ≤ max_results req)%Z)
    (λ e w', same_tables w w' ∧ (failing w ∨ no_bucket w n e))
    (λ w', same_tables w w').
Proof.
  intros Hr%reachable_ok Hreq. eapply triple_mono; [by apply triple_ListObjects|..].
  - intros res w' (_ & (? & _) & t & Ht & ->). split; [done|]. exists t. split_and!; [done..|]. cbn.
    rewrite items_length. pose proof (walk_length req (listed_objects n req t) None (Z.to_nat (max_results req))).
    destruct (max_results_pos req). lia.
  - by intros e w' (_ & ? & _ & ?).
  - by intros w' (_ & ? & _).
Qed.

Definition by_folder : ListRequest := mkListRequest "" "/" "" 10.

Lemma ListObjects_lists_witness :
  ∃ res w', ListObjects "photos" by_folder w_object = (Ret res, w') ∧ Prefixes res = ["a/"] ∧
    ∃ t, tables w_object "photos" = Some t ∧ res = list_spec "photos" by_folder t.
Proof.
  destruct (run_ret (ListObjects "photos" by_folder) w_object) as (res & w' & E); [by_running|].
  exists res, w'. split; [exact E|].
  assert (ascii_request by_folder) as Hreq.
  { split; [by right|left]. exists "", "/"%char. split; reflexivity. }
  pose proof (triple_ran _ _ _ _ _ _ _ (ListObjects_lists w_object "photos" by_folder reachable_object Hreq) E) as H.
  destruct H as (_ & t & Ht & Hres & _).
  split; [|exists t; split; [exact Ht|exact Hres]].
  assert (match (ListObjects "photos" by_folder w_object).1 with Ret r => Prefixes r | _ => [] end = ["a/"]) as Hp by by_running.
  rewrite E in Hp. exact Hp.
Defined.

(** A page of the store is a page for a client. *)
Lemma store_page_ends w0 n t req k c w :
  world_ok w0 → tables w0 n = Some t → ascii_request req → Z.to_nat (max_results req) = S k → between w0 w →
  wp (store_page n req c) (ends (between w0) (page_failed w0) (is_page n t req id id (λ _, True) k c)) w.
Proof.
  intros Hok0 Ht Hreq Hk Hw. unfold store_page. apply wp_bind.
  eapply wp_mono; [by apply (page_at_token w0 n t req Hok0 Ht Hreq c w)|].
  intros [res|e|x| |] w'; cbn [post bind_post]; try done. intros [Hw' ->]. apply wp_ret. split; [done|].
  rewrite Hk. unfold is_page. cbn [id]. destruct (walk req None (S k) (from c (with_prefix n t req))) as [its tok].
  cbn [page Objects Prefixes NextPageToken fst snd]. rewrite list_fmap_id. split; [done|].
  by destruct (String.eqb_spec tok "").
Qed.

(** C8: A client that follows the page tokens of a request whose prefix and delimiter
    are empty or end in a byte below 0x7f gets every object of the bucket with the
    prefix, from the token it starts with, once and in order, either itself or
    through its common prefix, and every common prefix once and in order; the
    client comes to an end after at most one page more than there are objects. *)
Theorem list_all_complete w n req t fuel :
  reachable w → tables w n = Some t → ascii_request req → size t < fuel →
  triple w (list_all fuel n req)
    (λ '(os, ps) w', same_tables w w' ∧ whole_listing n t req os ps)
    (λ e w', same_tables w w' ∧ failing w) (λ w', same_tables w w').
Proof.
  intros Hr%reachable_ok Ht Hreq Hfuel. destruct (max_results_pos req) as [k Hk].
  eapply wp_mono; [eapply (wp_collect_all w n t req Hr Ht Hreq _ id id (λ _, True) (between w) (page_failed w) k)|].
  - intros c w' _. by apply store_page_ends.
  - done.
  - split; [done|apply kept_refl].
  - done.
  - done.
  - intros [[os ps]|e|x| |] w'; cbn [ends post]; try done; [|by intros [? _]].
    intros [[_ [? _]] (os' & Hos & Hl)]. cbn [fst snd] in *. rewrite list_fmap_id in Hos. by subst os'.
Qed.

Lemma list_all_complete_witness :
  ∃ os ps w', list_all 2 "photos" by_folder w_object = (Ret (os, ps), w') ∧ same_tables w_object w' ∧ ps = ["a/"].
Proof.
  destruct (run_ret (list_all 2 "photos" by_folder) w_object) as ([os ps] & w' & E); [by_running|].
  assert (match (list_all 2 "photos" by_folder w_object).1 with Ret r => r.2 | _ => [] end = ["a/"]) as Hp by by_running.
  rewrite E in Hp. cbn [fst snd] in Hp.
  exists os, ps, w'. split; [exact E|].
  assert ((λ t, Nat.ltb (size t) 2) <$> tables w_object "photos" = Some true) as Ht by by_running.
  destruct (tables w_object "photos") as [t|] eqn:Et; [|exfalso; cbn in Ht; discriminate Ht].
  apply (inj Some) in Ht. apply Nat.ltb_lt in Ht.
  assert (ascii_request by_folder) as Hreq.
  { split; [by right|left]. exists "", "/"%char. split; reflexivity. }
  pose proof (triple_ran _ _ _ _ _ _ _ (list_all_complete w_object "photos" by_folder t 2 reachable_object Et Hreq Ht) E) as H.
  split; [exact (proj1 H)|exact Hp].
Defined.

(** For a prefix that ends in an ASCII byte below 0x7f, [prefixSuccessor]
    is what its comment says: above every string with the prefix, and no
    smaller string is. *)
Theorem prefixSuccessor_least p :
  ascii_end p →
  (∀ s, String.prefix p s = true → s <ₛ prefixSuccessor p) ∧
  ∀ u, (∀ s, String.prefix p s = true → s <ₛ u) → prefixSuccessor p ≤ₛ u.
Proof.
  intros Hp. split.
  - intros s Hs. apply prefixSuccessor_spec; [done|by apply prefix_le|done].
  - intros u Hu. apply str_nlt. intros Hlt.
    assert (p ≤ₛ u) as Hpu.
    { apply str_lt_le, Hu. rewrite <- (str_app_nil_r p) at 2. apply prefix_app. }
    apply prefixSuccessor_spec in Hlt; [|done..]. by apply (str_lt_irrefl u), Hu.
Qed.

Lemma prefixSuccessor_least_witness : prefixSuccessor "a/" ≤ₛ "b".
Proof.
  assert (ascii_end "a/") as Hp by (exists "a", "/"%char; split; reflexivity).
  destruct (prefixSuccessor_least "a/" Hp) as [_ H]. apply H. intros s Hs.
  apply prefix_spec in Hs as [t ->]. rewrite !str_app_cons. apply str_lt_cons. left. reflexivity.
Defined.
