(* ===== verification/BucketProps.v ===== *)
(** The properties of buckets and of names: creating, deleting and listing
    buckets, why a bucket's name is a safe directory name, and what the
    preconditions of an operation mean. *)

From S2P Require Import Prelude Errors GoMonad GoStd Types Names Hash Database World Bucket Store BlobWriter StoreInv Triple StoreSafe StoreOps ObjectOps WriterOps Listing ListingSpec Run Refine Samples.
From stdpp Require Import options.

(** C29: [CreateBucket] of a name that has no bucket makes an empty one, and
    changes nothing else; it reports an invalid name or a name taken exactly in
    these cases, unless the environment fails it. *)
Theorem CreateBucket_creates w n :
  reachable w →
  triple w (CreateBucket n)
    (λ bi w', bi_Name bi = n ∧ validBucketName n = true ∧ tables w n = None ∧
       updates n (Some ∅) (tables w) (tables w'))
    (λ e w', (same_tables w w' ∨ tables w n = None ∧ updates n (Some ∅) (tables w) (tables w')) ∧
       (failing w ∨
        (validBucketName n = false ∧ same_tables w w' ∧ errors_Is e ErrInvalidName = true) ∨
        (e = ErrBucketExists ∧ is_Some (tree w !! [n]))))
    (λ w', same_tables w w' ∨ tables w n = None ∧ updates n (Some ∅) (tables w) (tables w')).
Proof.
  intros Hr%reachable_ok.
  assert (∀ w', opened n w w' → same_tables w w' ∨ tables w n = None ∧ updates n (Some ∅) (tables w) (tables w')) as Hop.
  { intros w' H. destruct (H n) as [E|(_ & Hn & Hn')].
    - left. intros m. destruct (H m) as [?|(-> & _)]; done.
    - right. split; [done|]. split; [done|]. intros m Hm. by destruct (H m) as [?|(-> & _)]. }
  eapply triple_mono; [by apply triple_CreateBucket|..].
  - intros bi w' (_ & _ & Ho & Hn & Hn' & _ & Hv & Hb). split_and!; [done..|].
    destruct (Hop w' Ho) as [Hs|(_ & Hu)]; [|done]. rewrite (Hs n), Hn in Hn'. by destruct Hn'.
  - intros e w' (_ & Ho & _ & [?|[(Hv & ->)|(_ & -> & ?)]]); (split; [by apply Hop|]); [by left|right; left|by right; right].
    split_and!; [done| |done]. destruct (Hop w' Ho) as [?|(_ & [Hs _])]; [done|].
    apply tables_valid in Hs. congruence.
  - intros w' (_ & Ho & _). by apply Hop.
Qed.

Lemma CreateBucket_creates_witness :
  ∃ bi w', CreateBucket "videos" w_object = (Ret bi, w') ∧ updates "videos" (Some ∅) (tables w_object) (tables w').
Proof.
  destruct (run_ret (CreateBucket "videos") w_object) as (bi & w' & E); [by_running|].
  exists bi, w'. split; [exact E|].
  exact (proj2 (proj2 (proj2 (triple_ran _ _ _ _ _ _ _ (CreateBucket_creates w_object "videos" reachable_object) E)))).
Defined.

(** C30: [DeleteBucket] deletes only a bucket without objects, with everything
    in its directory, and changes no other bucket. *)
Theorem DeleteBucket_deletes w n :
  reachable w →
  triple w (DeleteBucket n)
    (λ _ w', tables w n = Some ∅ ∧ updates n None (tables w) (tables w') ∧ ∀ rest, tree w' !! (n :: rest) = None)
    (λ e w', (same_tables w w' ∨ tables w n = Some ∅ ∧ updates n None (tables w) (tables w')) ∧
       (failing w ∨ no_bucket w n e ∨ (e = ErrBucketNotEmpty ∧ ∃ t, tables w n = Some t ∧ t ≠ ∅)))
    (λ w', same_tables w w' ∨ tables w n = Some ∅ ∧ updates n None (tables w) (tables w')).
Proof.
  intros Hr%reachable_ok.
  assert (∀ w', dropped n w w' → same_tables w w' ∨ tables w n = Some ∅ ∧ updates n None (tables w) (tables w')) as Hop.
  { intros w' H. destruct (H n) as [E|(_ & Hn & Hn')].
    - left. intros m. destruct (H m) as [?|(-> & _)]; done.
    - right. split; [done|]. split; [done|]. intros m Hm. by destruct (H m) as [?|(-> & _)]. }
  eapply triple_mono; [by apply triple_DeleteBucket|..].
  - intros _ w' (_ & _ & Ho & Hn & Hgone). split_and!; [done| |done].
    destruct (Hop w' Ho) as [Hs|(_ & Hu)]; [|done]. exfalso.
    assert (tables w' n = Some ∅) as Ht by by rewrite (Hs n). apply tables_db in Ht as (_ & d & Hd & _).
    unfold bucket_db, db_path in Hd. by rewrite Hgone in Hd.
  - intros e w' (_ & Ho & _ & He). split; [by apply Hop|done].
  - intros w' (_ & Ho & _). by apply Hop.
Qed.

Definition w_two : world := after (OpCreateBucket "videos") w_object.
Lemma reachable_two : reachable w_two.
Proof. apply reachable_after; [apply reachable_object|done|]. by_running. Qed.

Lemma DeleteBucket_deletes_witness :
  ∃ w', DeleteBucket "videos" w_two = (Ret tt, w') ∧ updates "videos" None (tables w_two) (tables w').
Proof.
  destruct (run_ret (DeleteBucket "videos") w_two) as ([] & w' & E); [by_running|].
  exists w'. split; [exact E|].
  exact (proj1 (proj2 (triple_ran _ _ _ _ _ _ _ (DeleteBucket_deletes w_two "videos" reachable_two) E))).
Defined.

(** C31: [ListBuckets] returns the buckets in order of name, each once; all of
    them, unless the environment fails; a directory with a database under a name
    no bucket can have is the one other reason for an error. *)
Theorem ListBuckets_lists w :
  reachable w →
  triple w ListBuckets
    (λ l w', same_tables w w' ∧ StronglySorted String.le (map bi_Name l) ∧ NoDup (map bi_Name l) ∧
       (∀ n, n ∈ map bi_Name l → is_Some (tables w n)) ∧
       (failing w ∨ ∀ n, is_Some (tables w n) → n ∈ map bi_Name l))
    (λ e w', same_tables w w' ∧ (failing w ∨ e = ErrBucketNotFound ∧ stray_dir w))
    (λ w', same_tables w w').
Proof.
  intros Hr%reachable_ok. eapply triple_mono; [by apply triple_ListBuckets|..].
  - by intros l w' (_ & (? & _) & ? & ? & ? & ?).
  - by intros e w' (_ & ? & _ & ?).
  - by intros w' (_ & ? & _).
Qed.

Lemma ListBuckets_lists_witness :
  ∃ l w', ListBuckets w_two = (Ret l, w') ∧ map bi_Name l = ["photos"; "videos"] ∧
    StronglySorted String.le (map bi_Name l).
Proof.
  destruct (run_ret ListBuckets w_two) as (l & w' & E); [by_running|].
  exists l, w'. split; [exact E|].
  assert (match (ListBuckets w_two).1 with Ret l => map bi_Name l | _ => [] end = ["photos"; "videos"]) as Hp by by_running.
  rewrite E in Hp. split; [exact Hp|].
  exact (proj1 (proj2 (triple_ran _ _ _ _ _ _ _ (ListBuckets_lists w_two reachable_two) E))).
Defined.

(** The bucket names the store accepts are those of the rule in its
    comment: 3 to 63 of the lower-case letters, digits, dashes, underscores and
    dots, a letter or digit at both ends; so a name is one path component that
    stays below the root. *)
Theorem validBucketName_rule name :
  (validBucketName name = true ↔ bucket_name_rule name) ∧
  (validBucketName name = true →
     ("/"%char ∉ bytes_of_string name) ∧ ("000"%char ∉ bytes_of_string name) ∧ name ≠ "" ∧ name ≠ "." ∧ name ≠ "..").
Proof.
  split; [apply validBucketName_spec|]. intros Hv.
  split_and!; [by apply validBucketName_no_slash| |by apply validBucketName_not_dots..].
  by intros H%(validBucketName_chars _ _ Hv).
Qed.

Lemma validBucketName_rule_witness :
  validBucketName "my-bucket.2" = true ∧ ("/"%char ∉ bytes_of_string "my-bucket.2").
Proof. split; [reflexivity|]. by apply (validBucketName_rule "my-bucket.2"). Defined.

(** A call whose preconditions do not hold of the live version is refused;
    a [nil] precondition is none, a missing object has generation and
    metageneration 0, and the negative preconditions hold of it. *)
Theorem check_conditions c existing :
  (check c existing = None ∧ conditions_hold c existing) ∨
  (check c existing = Some ErrPreconditionFailed ∧ ¬ conditions_hold c existing).
Proof.
  rewrite <- check_spec. destruct (check_cases c existing) as [E|E]; rewrite E; [by left|by right].
Qed.
