(* ===== verification/StoreFindings.v ===== *)
(** Runs of the store that do what its comments say it does not: states and
    answers that the model reaches, and the source with it. *)

From S2P Require Import Prelude Errors GoMonad GoStd Types Names Hash Database World Bucket Store BlobWriter Outcomes StoreInv Triple StoreSafe StoreOps ObjectOps WriterOps Listing ListingSpec Run Refine Samples.
From stdpp Require Import options.

(** ** Writes that are refused *)

Definition disk_view (w : world) := (tree w, files w).
Lemma commit_in_tx_disk V h b bw name opts : preserves (looks disk_view V) (commit_in_tx h b bw name opts).
Proof.
  unfold commit_in_tx, Checksums, commit_statements, tx_existing, decrefBlob, db_Begin, db_Query,
    tx_QueryRow, tx_Exec, tx_Commit, scan, time_Now, sqlcall. repeat writers_step.
Qed.

Lemma triple_of_fails {A} (m : M world A) P Q E C w :
  fails_with P m → triple w m Q E C → triple w m Q (λ e w', E e w' ∧ P e) C.
Proof. intros Hp Hm. specialize (Hp w). unfold triple, wp in *. by destruct (m w) as [[] w']; cbn in *. Qed.

Lemma triple_returns {A} (m : M world A) w : fails_with (λ _, True) m → triple w m (λ _ _, True) (λ _ _, True) (λ _, True).
Proof. intros Hm. specialize (Hm w). unfold triple, wp. by destruct (m w) as [[] w']. Qed.

Section refused.
Context (n sha : string).
Definition blob_here (w : world) : Prop := is_Some (blob_content w n sha).

Lemma blob_stays w i :
  blob_here w → triple w (os_Remove (upload_path n i)) (λ _, blob_here) (λ _, blob_here) (λ _, True).
Proof.
  intros Hw. assert (∀ w', quiet w w' → blob_here w') as Hq by (by intros w' (fs & _ & ->)).
  apply triple_os_Remove; [|intros; by apply Hq|intros; exact I]. intros w' nd Hqu _ _. apply Hq in Hqu. unfold blob_here, blob_content in *.
  cbn. by rewrite lookup_delete_ne.
Qed.
(** Other errors do not matter here. *)
Definition refusal (e : error) (w : world) : Prop := e = ErrPreconditionFailed → blob_here w.
Lemma other_error w p e :
  e ≠ ErrPreconditionFailed → triple w (os_Remove p) (λ _, refusal e) (λ _, refusal e) (λ _, True).
Proof. intros He. apply triple_os_Remove; intros; try exact I; by intros ?%He. Qed.
End refused.

(** When the precondition refuses a commit, the blob is in place. *)
Lemma refused_commit w p bw b name opts :
  world_ok w → writing w p bw → handles w !! w_b bw = Some b →
  triple w (Commit p name opts) (λ _ _, True) (refusal (b_name b) (sha_hex (w_sha bw))) (λ _, True).
Proof.
  intros Hok [Hbw Hnd] Hb. destruct (writer_bucket _ _ _ Hok Hbw) as (b' & Hb' & Hv & Hdir & Htmp). replace b' with b in * by congruence.
  unfold Commit. tsteps. eapply triple_load_writer; [exact Hbw|]. rewrite Hnd. tsteps. set (w1 := set_writers _ w).
  assert (world_ok w1) as Hok1 by by apply world_ok_done.
  assert (writers w1 !! p = Some (set_done bw)) as Hbw1 by (cbn; by rewrite lookup_alter_eq, Hbw).
  assert (∀ w2, triple w2 (os_Remove (w_tmp bw)) (λ _ _, True) (λ _ _, True) (λ _, True)) as Hany.
  { intros w2. apply triple_os_Remove; done. }
  destruct (negb (validObjectName name)).
  { tsteps. apply triple_ret_call; intros; tsteps; [by apply other_error..|done]. }
  tsteps. apply triple_ret_call; [|intros; tsteps; apply triple_ret_call; intros; tsteps; by try apply other_error|done].
  intros w2 Hq2. tsteps. apply triple_ret_call; [|intros; tsteps; by apply other_error|done]. intros w3 Hq3.
  assert (quiet w1 w3) as Hq by eauto with quiet. quiet_facts_as Hq Hok3 Hk3.
  assert (handles w3 = handles w ∧ writers w3 = writers w1) as (Hh3 & Hw3) by (by destruct Hq as (fs & _ & ->)).
  tsteps. eapply triple_load_bucket; [by rewrite Hh3|]. tsteps. rewrite (blobPath_eq b) by done. fold (sha_hex (w_sha bw)).
  eapply triple_mono; [apply triple_of_fails with (P := plain); [apply fails_install|];
    apply (triple_install_blob same_tables w3 w3 p (set_done bw) b (λ _, blob_here (b_name b) (sha_hex (w_sha bw))) (λ _, True))|..]; try done.
  - apply kept_refl.
  - by rewrite Hw3.
  - by rewrite Hh3.
  - intros [] w4 Hblob. tsteps. eapply triple_mono; [apply (triple_frame (looks disk_view (disk_view w4)));
      [apply commit_in_tx_disk|done|apply triple_returns, returns_commit_in_tx]|..]; [..|done].
    + intros [oi orphan] w5 _. destruct orphan; tsteps; [|apply Hany].
      apply triple_os_Remove; intros; tsteps; try exact I; apply Hany.
    + intros e w5 [_ [= Ht Hf]]. assert (blob_here (b_name b) (sha_hex (w_sha bw)) w5) as H5.
      { unfold blob_here, blob_content in *. by rewrite Ht, Hf. }
      rewrite Htmp. tsteps. eapply triple_mono; [exact (blob_stays _ _ _ _ H5)|..|done]; by intros ? ? ? _.
  - intros e w4 [_ [_ Hpl]]. tsteps. apply other_error. by intros ->.
Qed.

(** C35: A write that its preconditions refuse leaves its content behind: no object
    changes, but the blob file was put in place before the preconditions were
    checked, and is there, under its hash.  Unless an object has the same content
    the bucket has no row for the blob, so that no later delete of an object
    counts it down to its removal. *)
Theorem refused_write_leaves_blob w p bw b name opts w' :
  reachable w → writing w p bw → handles w !! w_b bw = Some b →
  Commit p name opts w = (Err ErrPreconditionFailed, w') →
  same_tables w w' ∧
  (∃ c, blob_content w' (b_name b) (sha_hex (w_sha bw)) = Some c ∧ sha_hex c = sha_hex (w_sha bw)) ∧
  ∀ d, bucket_db w' (b_name b) = Some d → references (sha_hex (w_sha bw)) (objects d) = 0 →
    blobs d !! sha_hex (w_sha bw) = None.
Proof.
  intros Hr%reachable_ok Hw Hb E.
  pose proof (triple_Commit w p bw b name opts Hr Hw Hb) as Hc. unfold triple, wp in Hc. rewrite E in Hc. cbn [fst snd post] in Hc.
  destruct Hc as [(Hok & Hs & _) _].
  pose proof (refused_commit w p bw b name opts Hr Hw Hb) as Hc. unfold triple, wp in Hc. rewrite E in Hc. cbn [fst snd post] in Hc.
  destruct (Hc eq_refl) as [c Hblob]. split_and!; [done| |].
  - exists c. split; [done|]. unfold blob_content in Hblob. destruct (tree w' !! _) as [[|i|]|] eqn:Hi; try done.
    by eapply (ok_hash _ (wok_disk _ Hok)).
  - intros d Hd Href. unfold bucket_db in Hd. destruct (tree w' !! db_path (b_name b)) as [[|j|j]|]; try done.
    destruct (ok_dbs _ (wok_disk _ Hok) _ _ Hd) as [_ Hdb]. pose proof (db_refs _ Hdb (sha_hex (w_sha bw))) as Hcount.
    destruct (blobs d !! sha_hex (w_sha bw)); [|done]. destruct Hcount. lia.
Qed.

(** A create-only write of an object that exists. *)
Definition if_absent : PutOptions := mkPutOptions "" ∅ (mkConditions (Some 0%Z) None None None).
Lemma refused_write_leaves_blob_witness :
  ∃ w' c, Commit sample_pointer "a/b.txt" if_absent w_written = (Err ErrPreconditionFailed, w') ∧
    blob_content w' "photos" (sha_hex (bytes_of_string "bye")) = Some c ∧ sha_hex c = sha_hex (bytes_of_string "bye").
Proof.
  destruct sample_writer as (bw & b & Hw & Hsha & Hb & Hn & _).
  assert ((Commit sample_pointer "a/b.txt" if_absent w_written).1 = Err ErrPreconditionFailed) as Ho by by_running.
  destruct (Commit sample_pointer "a/b.txt" if_absent w_written) as [o w'] eqn:E. cbn [fst] in Ho. subst o.
  destruct (refused_write_leaves_blob w_written sample_pointer bw b "a/b.txt" if_absent w' reachable_written Hw Hb E)
    as (_ & (c & Hc & Hh) & _).
  exists w', c. rewrite Hsha in Hc, Hh. rewrite Hn in Hc. exact (conj eq_refl (conj Hc Hh)).
Defined.

(** ** Buckets that are deleted under an upload *)

(** The bucket is gone from the disk and from the store, as [DeleteBucket] leaves
    it. *)
Definition bucket_gone (w : world) (n : string) : Prop :=
  buckets w !! n = None ∧ ∀ rest, tree w !! (n :: rest) = None.

(** There is a directory with its name, and no database in it. *)
Definition name_stuck (w : world) (n : string) : Prop :=
  validBucketName n = true ∧ faults w = [] ∧ buckets w !! n = None ∧
  tree w !! [n] = Some NDir ∧ tree w !! data_sqlite [n] = None.

Lemma external_calm {A} e part (step : M world A) w : faults w = [] → external e part step w = step w.
Proof. intros Hf. unfold external. by rewrite Hf. Qed.
(** A call of the operating system when nothing fails. *)
Ltac calm_call := unfold syscall; rewrite external_calm by done.

Lemma stuck_Stat w n : name_stuck w n → os_Stat (data_sqlite [n]) w = (Err (SysErr ENOENT), w).
Proof. intros (_ & Hf & _ & _ & Hd). unfold os_Stat. calm_call. by rewrite Hd. Qed.
Lemma stuck_bucket w n : name_stuck w n → bucket n w = (Err ErrBucketNotFound, w).
Proof.
  intros Hs. pose proof (stuck_Stat w n Hs) as Hstat. destruct Hs as (Hv & _ & Hb & _). unfold bucket. rewrite Hv. cbn [negb].
  unfold bind, get, try. by rewrite Hb, Hstat.
Qed.
Lemma stuck_create w n : name_stuck w n → CreateBucket n w = (Err ErrBucketExists, w).
Proof.
  intros (Hv & Hf & _ & Hd & _). unfold CreateBucket. rewrite Hv. cbn [negb]. cbn zeta.
  unfold bind at 1, try, os_Mkdir. calm_call. by rewrite Hd.
Qed.
Lemma stuck_restart w n : name_stuck w n → name_stuck (Open (died w)).2 n.
Proof.
  intros (Hv & Hf & Hb & Hd & Hq). unfold Open, bind, try, os_MkdirAll. cbn [mkdir_all].
  assert (syscall (ret tt) (died w) = (Ret tt, died w)) as -> by by apply external_calm. by split_and!.
Qed.

(** [MkdirAll] of a blob's directory when the bucket has none. *)
Lemma mkdir_gone w n hh :
  faults w = [] → (∀ rest, tree w !! (n :: rest) = None) →
  os_MkdirAll [n; "objects"; hh] w =
    (Ret tt, set_tree (λ t, <[[n; "objects"; hh] := NDir]> (<[[n; "objects"] := NDir]> (<[[n] := NDir]> t))) w).
Proof.
  intros Hf Hn. unfold os_MkdirAll. cbn [mkdir_all app].
  assert (∀ p w, faults w = [] → tree w !! p = None → is_dir (tree w) (parent p) = true → p ≠ [] →
    mkdir_missing p w = (Ret tt, set_tree (insert p NDir) w)) as Hone.
  { intros p w0 Hf0 Hp Hd Hne. unfold mkdir_missing, bind, get.
    assert (is_dir (tree w0) p = false) as ->. { destruct p; [done|]. cbn. rewrite Hp. by apply bool_decide_eq_false. }
    rewrite Hp. unfold os_Mkdir. calm_call. by rewrite Hp, Hd. }
  unfold bind. rewrite (Hone [n]) by done. cbn beta iota.
  rewrite (Hone [n; "objects"]); [|done|cbn; by rewrite lookup_insert_ne|cbn; by rewrite lookup_insert_eq|done]. cbn beta iota.
  rewrite (Hone [n; "objects"; hh]); [done|done|cbn; by rewrite !lookup_insert_ne|cbn; by rewrite lookup_insert_eq|done].
Qed.

(** The commit makes the directory again, and fails. *)
Lemma commit_gone w p bw b name opts :
  world_ok w → faults w = [] → writing w p bw → handles w !! w_b bw = Some b → bucket_gone w (b_name b) →
  validObjectName name = true →
  ∃ e w', Commit p name opts w = (Err e, w') ∧ name_stuck w' (b_name b).
Proof.
  intros Hok Hf [Hbw Hnd] Hb [Hgone Hn] Hname. destruct (writer_bucket _ _ _ Hok Hbw) as (b' & Hb' & Hv & Hdir & Htmp).
  replace b' with b in * by congruence. clear b' Hb'.
  set (n := b_name b) in *. set (w1 := set_writers (alter set_done p) w).
  set (sha := hex_EncodeToString (sha256_sum (w_sha bw))).
  set (w2 := set_tree (λ t, <[[n; "objects"; str_take 2 sha] := NDir]> (<[[n; "objects"] := NDir]> (<[[n] := NDir]> t))) w1).
  assert (install_blob (w_tmp bw) (blobPath b sha) w1 = (Err (SysErr ENOENT), w2)) as Hinstall.
  { rewrite (blobPath_eq b) by done. fold n. unfold install_blob, bind, try.
    assert (os_Stat (blob_path n sha) w1 = (Err (SysErr ENOENT), w1)) as ->.
    { unfold os_Stat. calm_call. by rewrite (Hn _ : tree w1 !! blob_path n sha = None). }
    change (parent (blob_path n sha)) with [n; "objects"; str_take 2 sha]. rewrite mkdir_gone by done. fold w2.
    unfold os_Rename. calm_call. rewrite Htmp. unfold w2; cbn. rewrite !lookup_insert_ne by done.
      by rewrite (Hn _ : tree w !! upload_path n (w_ino bw) = None). }
  exists (SysErr ENOENT), w2. split.
  - unfold Commit. rewrite run_load_writer, Hbw, Hnd. unfold bind at 1, modify. fold w1. unfold defer. rewrite Hname. cbn [negb].
    assert (file_Close w1 = (Ret tt, w1)) as Hclose by by apply external_calm.
    unfold bind at 1, try. change file_Sync with file_Close. rewrite Hclose. cbn beta iota.
    unfold bind at 1. rewrite Hclose. cbn zeta. rewrite run_load_bucket.
    change (handles w1 !! w_b bw) with (handles w !! w_b bw). rewrite Hb. fold sha. unfold bind at 1. rewrite Hinstall.
    assert (os_Remove (w_tmp bw) w2 = (Err (SysErr ENOENT), w2)) as Hrm.
    { unfold os_Remove. calm_call. rewrite Htmp. unfold w2; cbn. rewrite !lookup_insert_ne by done.
      by rewrite (Hn _ : tree w !! upload_path n (w_ino bw) = None). }
    unfold ignore, bind, try. by rewrite Hrm.
  - split_and!; [done|done|done|..]; unfold w2; cbn.
    + rewrite !lookup_insert_ne by done. by rewrite lookup_insert_eq.
    + rewrite !lookup_insert_ne by done. apply Hn.
Qed.

(** C36: Committing an upload to a bucket that was deleted fails, but not before it has
    made the blob's directory again: afterwards, and after a restart of the
    process, the bucket is neither found, so that it cannot be deleted, nor can a
    bucket of its name be created.  Stated for an environment that fails nothing. *)
Theorem deleted_bucket_name_stuck w p bw b name opts :
  reachable w → faults w = [] → writing w p bw → handles w !! w_b bw = Some b → bucket_gone w (b_name b) →
  validObjectName name = true →
  ∃ e w', Commit p name opts w = (Err e, w') ∧ ∀ w2, w2 = w' ∨ w2 = (Open (died w')).2 →
    GetBucket (b_name b) w2 = (Err ErrBucketNotFound, w2) ∧
    CreateBucket (b_name b) w2 = (Err ErrBucketExists, w2) ∧
    DeleteBucket (b_name b) w2 = (Err ErrBucketNotFound, w2).
Proof.
  intros Hok%reachable_ok Hf Hw Hb Hg Hn. destruct (commit_gone w p bw b name opts Hok Hf Hw Hb Hg Hn) as (e & w' & E & Hs).
  exists e, w'. split; [done|]. intros w2 Hw2. assert (name_stuck w2 (b_name b)) as Hs2.
  { destruct Hw2 as [->| ->]; [done|by apply stuck_restart]. }
  split_and!; [|by apply stuck_create|]; unfold GetBucket, DeleteBucket, bind; by rewrite (stuck_bucket w2 _ Hs2).
Qed.

(** The bucket is deleted while an upload to it is open. *)
Definition w_empty_writer : world := after (OpNewBlobWriter "photos") w_bucket.
Definition open_upload : nat := Nat.pred (next w_empty_writer).
Definition w_deleted : world := after (OpDeleteBucket "photos") w_empty_writer.

Lemma reachable_deleted : reachable w_deleted.
Proof. do 2 (apply reachable_after; [|exact I|by_running]). apply reachable_bucket. Qed.

(** Nothing is left under the root. *)
Lemma deleted_gone : bucket_gone w_deleted "photos".
Proof.
  split; [by_running|]. intros rest.
  assert (forallb (λ pn, match pn.1 with c :: _ => negb (String.eqb c "photos") | [] => true end) (map_to_list (tree w_deleted)) = true) as Hall by by_running.
  destruct (tree w_deleted !! ("photos" :: rest)) as [nd|] eqn:E; [|reflexivity]. exfalso.
  apply elem_of_map_to_list, list_elem_of_In in E. rewrite forallb_forall in Hall. specialize (Hall _ E). discriminate Hall.
Qed.

Lemma deleted_bucket_name_stuck_witness :
  ∃ e w', Commit open_upload "late.txt" sample_opts w_deleted = (Err e, w') ∧
    GetBucket "photos" w' = (Err ErrBucketNotFound, w') ∧ CreateBucket "photos" w' = (Err ErrBucketExists, w').
Proof.
  assert ((λ bw, (w_done bw, b_name <$> handles w_deleted !! w_b bw)) <$> writers w_deleted !! open_upload = Some (false, Some "photos"))
    as Hbw by by_running.
  destruct (writers w_deleted !! open_upload) as [bw|] eqn:E; [|exfalso; cbn in Hbw; discriminate Hbw].
  cbn [fmap option_fmap option_map] in Hbw. apply (inj Some) in Hbw. injection Hbw as Hd Hb.
  destruct (handles w_deleted !! w_b bw) as [b|] eqn:Eb; [|exfalso; cbn in Hb; discriminate Hb].
  cbn [option_map] in Hb. injection Hb as Hb.
  destruct (deleted_bucket_name_stuck w_deleted open_upload bw b "late.txt" sample_opts reachable_deleted
    ltac:(by_running) (conj E Hd) Eb) as (e & w' & Hc & Hw'); [rewrite Hb; exact deleted_gone|by_running|].
  destruct (Hw' w' (or_introl eq_refl)) as (H1 & H2 & _). rewrite Hb in H1, H2. exists e, w'. exact (conj Hc (conj H1 H2)).
Defined.
