(* ===== verification/ListFindings.v ===== *)
(** What listings make of a prefix that does not end in ASCII: [prefixSuccessor]
    takes the byte after its last one for a code point, and encodes it as two
    bytes, so that the range that is scanned is not that of the prefix. *)

From S2P Require Import Prelude Errors GoMonad GoStd Types Names Hash Database World Bucket Store BlobWriter StoreInv Triple StoreSafe StoreOps ObjectOps WriterOps Listing ListingSpec Run Refine Samples.
From stdpp Require Import options.

(** ** One batch *)

(** The rows of the range that a listing scans first. *)
Definition range_rows (req : ListRequest) (t : gmap string objectRow) : list (string * objectRow) :=
  filter (λ p, in_bounds (scan_start req) (prefixSuccessor (lr_Prefix req)) p.1) (order_by_name t).

(** A listing that its first batch completes. *)
Lemma triple_one_batch w n req t c res :
  world_ok w → tables w n = Some t → length (range_rows req t) < batchSize →
  walk_batch req (max_results req) (decode n <$> range_rows req t) 0 (mkListResult [] [] "") = Some (BatchDone, c, res) →
  triple w (ListObjects n req) (λ r w', same_tables w w' ∧ r = res) (λ _ w', same_tables w w' ∧ failing w) (λ w', same_tables w w').
Proof.
  intros Hok Ht Hlen Hwalk. assert (scannable n t) as Hscan by by eapply world_scannable.
  assert (triple w (ListObjects n req) (λ r w', same_tables w w' ∧ r = res) (E_rel same_tables w (λ _, False)) (C_rel same_tables w)) as H.
  { unfold ListObjects. tsteps. apply triple_with_bucket; [apply _|done|by intros e [_ ?]; congruence|].
    intros w1 h Hok1 Hk1 Ho1. tsteps.
    destruct (is_open_facts _ _ _ Hok1 Ho1) as (i & d & Hh & _ & _ & _ & _ & _ & _ & Hhd & Htw).
    rewrite (kept_tables _ _ _ Hk1), Ht in Htw. injection Htw as ->.
    eapply triple_load_bucket; [exact Hh|]. cbn [scan_loop]. tsteps.
    apply triple_db_Query; [|intros e w' Hq [?|[_ ?]]; [eauto with quiet|congruence]|tfault].
    intros w2 d' Hq Hd'. replace d' with d by congruence. quiet_facts_as Hq Hok2 Hkq. cbn beta.
    assert (sql_select_range d (scan_start req) (prefixSuccessor (lr_Prefix req)) batchSize = range_rows req (objects d)) as ->.
    { unfold sql_select_range. apply take_ge. exact (Nat.lt_le_incl _ _ Hlen). }
    rewrite (scan_rows_decode n (objects d) Hscan _ (range_rows req (objects d))) by (done || exact (order_rows n (objects d) Hscan _)). rewrite Hwalk.
    rewrite length_fmap. rewrite (proj2 (Nat.ltb_lt _ _)) by done. tsteps. split; [|done].
    by destruct (kept_trans _ _ _ Hk1 Hkq). }
  eapply triple_mono; [exact H|..].
  - done.
  - by intros e w' (_ & ? & _ & [?|[]]).
  - by intros w' (_ & ? & _).
Qed.

(** Without a delimiter every object of a batch is listed. *)
Lemma walk_flat req m l : ∀ count res,
  lr_Delimiter req = "" → Forall (λ o, String.length (lr_Prefix req) ≤ String.length (oi_Name o)) l →
  (count + Z.of_nat (length l) ≤ m)%Z →
  walk_batch req m l count res =
    Some (BatchDone, (count + Z.of_nat (length l))%Z, mkListResult (Objects res ++ l) (Prefixes res) (NextPageToken res)).
Proof.
  induction l as [|o l IH]; intros count res Hd Hl Hm; cbn [walk_batch length] in *.
  { rewrite app_nil_r. destruct res. do 3 f_equal. lia. }
  apply Forall_cons in Hl as [Ho Hl]. rewrite (proj2 (Z.leb_gt _ _)) by lia.
  rewrite (proj2 (Nat.ltb_ge _ _)) by done. unfold common_prefix. rewrite Hd. cbn [String.eqb].
  rewrite IH by (done || lia). cbn. rewrite <- app_assoc. do 3 f_equal. lia.
Qed.

(** ** Prefixes that end in a byte from 0x7f to 0xfe *)
Section bytes.
Context (p : string) (b : Z).

Lemma successor_of_byte :
  (127 ≤ b < 255)%Z →
  prefixSuccessor (p +:+ String (byte_of b) "") =
    p +:+ String (byte_of (192 + (b + 1) / 64)) (String (byte_of (128 + (b + 1) mod 64)) "").
Proof.
  intros Hb. unfold prefixSuccessor. rewrite bytes_of_string_app. cbn. rewrite rev_app_distr. cbn.
  rewrite byte_val_of by lia. destruct (Z.eqb_spec b 255); [lia|]. rewrite rev_involutive.
  rewrite String.string_of_list_ascii_of_string. unfold string_of_rune_byte.
  by destruct (Z.ltb_spec (b + 1) 128); [lia|].
Qed.

(** The first byte of the successor. *)
Lemma successor_byte : (127 ≤ b < 255)%Z → byte_val (byte_of (192 + (b + 1) / 64)) = (192 + (b + 1) / 64)%Z.
Proof.
  intros Hb. apply byte_val_of. pose proof (Z.div_le_lower_bound (b + 1) 64 0). pose proof (Z.div_lt_upper_bound (b + 1) 64 5). lia.
Qed.

Lemma in_range_longer name :
  (127 ≤ b < 255)%Z → p +:+ String (byte_of b) "" ≤ₛ name →
  name <ₛ prefixSuccessor (p +:+ String (byte_of b) "") → String.length p < String.length name.
Proof.
  intros Hb Hle Hlt. rewrite successor_of_byte in Hlt by done.
  assert (String.prefix p name = true) as [u ->]%prefix_spec.
  { eapply prefix_between; [|by apply str_lt_le|apply prefix_app].
    etrans; [|exact Hle]. rewrite <- (str_app_nil_r p) at 1. apply str_app_le, str_le_nil. }
  apply str_app_le in Hle. rewrite str_length_app. destruct u; [by apply str_le_nil_inv in Hle|cbn; lia].
Qed.

(** From 0xc4 on the successor is below the prefix. *)
Lemma successor_below : (196 ≤ b < 255)%Z → prefixSuccessor (p +:+ String (byte_of b) "") <ₛ p +:+ String (byte_of b) "".
Proof.
  intros Hb. rewrite successor_of_byte by lia. apply str_app_lt, str_lt_cons. left.
  rewrite successor_byte, byte_val_of by lia. pose proof (Z.div_lt_upper_bound (b + 1) 64 4). lia.
Qed.
End bytes.

Lemma successor_nonempty p b : (127 ≤ b < 255)%Z → prefixSuccessor (p +:+ String (byte_of b) "") ≠ "".
Proof. intros Hb. rewrite successor_of_byte by done. by destruct p. Qed.

(** ** Properties *)

(** C37: A listing without a delimiter of the names with a prefix that ends in a byte
    from 0x7f to 0xc1, such as the last of a letter outside ASCII, also returns
    every name with the next byte in its place, which does not have the prefix;
    stated for a bucket that fits on a page. *)
Theorem listing_escapes_prefix w n t req p b s :
  reachable w → tables w n = Some t → (127 ≤ b < 194)%Z → lr_Prefix req = p +:+ String (byte_of b) "" →
  lr_Delimiter req = "" → lr_PageToken req = "" → size t < 1000 → (Z.of_nat (size t) ≤ max_results req)%Z →
  let name := p +:+ String (byte_of (b + 1)) s in
  is_Some (t !! name) →
  String.prefix (lr_Prefix req) name = false ∧
  triple w (ListObjects n req) (λ res w', same_tables w w' ∧ name ∈ oi_Name <$> Objects res)
    (λ e w', same_tables w w' ∧ failing w) (λ w', same_tables w w').
Proof.
  intros Hr%reachable_ok Ht Hb Hp Hd Htok Hsize Hmax name [r Hname]. split.
  { destruct (String.prefix (lr_Prefix req) name) eqn:E; [|done]. apply prefix_spec in E as [u E]. unfold name in E.
    rewrite Hp, str_app_assoc in E. apply (inj (String.app p)) in E. rewrite str_app_cons in E. injection E as E _.
    apply (f_equal byte_val) in E. rewrite !byte_val_of in E by lia. lia. }
  assert (scannable n t) as Hscan by by eapply world_scannable.
  assert (length (range_rows req t) ≤ size t) as Hlen.
  { unfold range_rows. etrans; [apply length_filter|]. unfold order_by_name. rewrite merge_sort_Permutation.
    by rewrite length_map_to_list. }
  assert (lr_Prefix req ≤ₛ scan_start req) as Hstart.
  { unfold scan_start. case_decide; [by apply str_lt_le|done]. }
  eapply triple_mono; [eapply triple_one_batch; [done|exact Ht| |apply walk_flat]|..]; try done.
  - unfold batchSize. lia.
  - apply Forall_forall. intros o (q & -> & [[Hle Hlt] Hq]%list_elem_of_filter)%list_elem_of_fmap.
    apply order_by_name_spec in Hq. rewrite (proj2 (decode_row n t Hscan q Hq)).
    rewrite Hp in *. specialize (Hlt (successor_nonempty p b ltac:(lia))).
    pose proof (in_range_longer p b q.1 ltac:(lia) ltac:(by etrans) Hlt). rewrite str_length_app. cbn. lia.
  - rewrite length_fmap. lia.
  - intros res w' [Hs ->]. split; [done|]. cbn. apply list_elem_of_fmap. exists (decode n (name, r)).
    rewrite (proj2 (decode_row n t Hscan (name, r) Hname)). split; [done|]. apply list_elem_of_fmap. exists (name, r).
    split; [done|]. apply list_elem_of_filter. split; [|by apply order_by_name_spec]. split; cbn.
    + unfold scan_start. rewrite Htok, decide_False by apply str_lt_nil. rewrite Hp. apply str_app_le, str_le_cons. left.
      rewrite !byte_val_of by lia. lia.
    + intros _. rewrite Hp, successor_of_byte by lia. apply str_app_lt, str_lt_cons. left.
      rewrite successor_byte, byte_val_of by lia. pose proof (Z.div_le_lower_bound (b + 1) 64 2). pose proof (Z.div_le_lower_bound (b + 1) 64 3). lia.
Qed.

(** C38: A listing of the names with a prefix that ends in a byte from 0xc4 to 0xfe is
    empty, whatever objects have the prefix: the upper bound of the range is
    below the prefix. *)
Theorem listing_misses_prefix w n t req p b :
  reachable w → tables w n = Some t → (196 ≤ b < 255)%Z → lr_Prefix req = p +:+ String (byte_of b) "" →
  triple w (ListObjects n req) (λ res w', same_tables w w' ∧ res = mkListResult [] [] "")
    (λ e w', same_tables w w' ∧ failing w) (λ w', same_tables w w').
Proof.
  intros Hr%reachable_ok Ht Hb Hp.
  assert (range_rows req t = []) as Hnone.
  { apply elem_of_nil_inv. intros q [[Hle Hlt] _]%list_elem_of_filter. rewrite Hp in Hlt. specialize (Hlt (successor_nonempty p b ltac:(lia))).
    apply (str_lt_irrefl q.1). eapply str_lt_le_trans; [exact Hlt|]. etrans; [apply str_lt_le, successor_below; lia|].
    rewrite <- Hp. etrans; [|exact Hle]. unfold scan_start. case_decide; [by apply str_lt_le|done]. }
  eapply triple_one_batch; [done|exact Ht|rewrite Hnone; unfold batchSize; cbn; lia|by rewrite Hnone].
Qed.

(** ** Names in UTF-8 *)

(** A-umlaut is c3 84, A-ring is c3 85. *)
Definition a_umlaut : string := String "195" (String "132" "").
Definition a_ring : string := String "195" (String "133" "").
Definition w_ring : world := after (OpPutObject "photos" a_ring ([sample_text], None) sample_opts) w_bucket.

Lemma reachable_ring : reachable w_ring.
Proof. apply reachable_after; [apply reachable_bucket|exact I|by_running]. Qed.
Lemma ring_tables : ∃ t, tables w_ring "photos" = Some t ∧ size t = 1 ∧ is_Some (t !! a_ring).
Proof.
  assert ((λ t, (size t, is_some (t !! a_ring))) <$> tables w_ring "photos" = Some (1, true)) as H by by_running.
  destruct (tables w_ring "photos") as [t|]; [|exfalso; cbn in H; discriminate H].
  cbn [fmap option_fmap option_map] in H. injection H as Hs Hn. exists t. split; [done|]. split; [exact Hs|].
  by apply is_some_ex.
Qed.

Lemma listing_escapes_prefix_witness :
  prefixSuccessor a_umlaut = String "195" (String "194" (String "133" "")) ∧ String.prefix a_umlaut a_ring = false ∧
  triple w_ring (ListObjects "photos" (mkListRequest a_umlaut "" "" 10))
    (λ res w', same_tables w_ring w' ∧ a_ring ∈ oi_Name <$> Objects res)
    (λ e w', same_tables w_ring w' ∧ failing w_ring) (λ w', same_tables w_ring w').
Proof.
  split; [by_running|]. destruct ring_tables as (t & Ht & Hs & Hn).
  refine (listing_escapes_prefix w_ring "photos" t (mkListRequest a_umlaut "" "" 10) (String "195" "") 132 ""
    reachable_ring Ht _ eq_refl eq_refl eq_refl _ _ Hn); [lia|rewrite Hs; lia|rewrite Hs; discriminate].
Defined.

(** A-macron is c4 80; its first byte alone is a prefix of it. *)
Definition a_macron : string := String "196" (String "128" "").
Definition w_macron : world := after (OpPutObject "photos" a_macron ([sample_text], None) sample_opts) w_bucket.

Lemma listing_misses_prefix_witness :
  String.prefix (String "196" "") a_macron = true ∧ ∃ t, tables w_macron "photos" = Some t ∧ is_some (t !! a_macron) = true ∧
  triple w_macron (ListObjects "photos" (mkListRequest (String "196" "") "" "" 10))
    (λ res w', same_tables w_macron w' ∧ res = mkListResult [] [] "")
    (λ e w', same_tables w_macron w' ∧ failing w_macron) (λ w', same_tables w_macron w').
Proof.
  split; [reflexivity|].
  assert ((λ t, is_some (t !! a_macron)) <$> tables w_macron "photos" = Some true) as H by by_running.
  destruct (tables w_macron "photos") as [t|] eqn:Ht; [|exfalso; cbn in H; discriminate H].
  cbn [fmap option_fmap option_map] in H. injection H as Hn. exists t. split; [reflexivity|]. split; [exact Hn|].
  refine (listing_misses_prefix w_macron "photos" t (mkListRequest (String "196" "") "" "" 10) "" 196 _ Ht _ eq_refl); [|lia].
  apply reachable_after; [apply reachable_bucket|exact I|by_running].
Defined.

(** With a prefix that ends in 0xff, which [prefixSuccessor] passes over, a name in
    the range can be shorter than the prefix, and cutting the prefix off panics. *)
Definition w_byte : world := after (OpPutObject "photos" (String "128" "") ([sample_text], None) sample_opts) w_bucket.
Lemma short_name_panics :
  reachable w_byte ∧
  (ListObjects "photos" (mkListRequest (String "127" (String "255" "")) "" "" 10) w_byte).1 =
    Panic [Lit "slice bounds out of range"].
Proof. split; [apply reachable_after; [apply reachable_bucket|exact I|by_running]|by_running]. Qed.
