(* ===== verification/StoreProgs.v ===== *)
(** The calls of the store as programs that lock the store's mutexes: what
    [pkg/store] does between [s.mu.Lock()] and [s.mu.Unlock()], and under a
    bucket's [commitMu].  Every call of the operating system and of SQLite is a
    step of its own, except those that are made under [s.mu] while a bucket is
    opened, and the statements of a transaction, which see only its own copy of
    the tables. *)

From S2P Require Import Prelude Errors GoMonad Pool GoStd Types Names Hash Database World Bucket Store BlobWriter Outcomes Listing.
From stdpp Require Import options.

(** [s.mu], and [commitMu] of the bucket behind a handle. *)
Definition store_mu : nat := 0.
Definition commit_mu (h : nat) : nat := S h.

(** What a call returns. *)
Inductive reply :=
  | Failed (e : error)
  | Done
  | BucketIs (bi : BucketInfo)
  | ObjectIs (oi : ObjectInfo)
  | FileIs (oi : ObjectInfo) (f : nat)
  | BucketsAre (infos : list BucketInfo)
  | ListIs (res : ListResult)
  | WriterIs (wp : nat)
  | Wrote (n : nat) (err : option error)
  | TempIs (name : path) (f : nat)
  | Panicked.

Abbreviation store_prog := (prog world reply).

(** [v, err := m; if err != nil { fail }; k]. *)
Definition Try {A} (m : M world A) (fail : error → store_prog) (k : A → store_prog) : store_prog :=
  Call (try m) (λ r, match r with inl e => fail e | inr v => k v end).

(** A call whose error is dropped. *)
Definition Quietly (m : M world unit) (k : store_prog) : store_prog := Call (ignore m) (λ _, k).

Definition failed (e : error) : store_prog := Answer (Failed e).

(** [s.openBucket(name)]: the deferred [s.mu.Unlock()] runs on both ways out. *)
Definition openBucket_prog (name : string) (fail : error → store_prog) (k : nat → store_prog) : store_prog :=
  Lock store_mu (Try (Store_openBucket name)
    (λ e, Unlock store_mu (fail e)) (λ h, Unlock store_mu (k h))).

(** [s.bucket(name)]. *)
Definition bucket_prog (name : string) (fail : error → store_prog) (k : nat → store_prog) : store_prog :=
  if negb (validBucketName name) then fail ErrBucketNotFound
  else
    Lock store_mu (Call (gets (λ w, buckets w !! name)) (λ o,
    match o with
    | Some h => Unlock store_mu (k h)
    | None =>
      Unlock store_mu (Try (os_Stat (data_sqlite [name])) (λ _, fail ErrBucketNotFound)
        (λ _, openBucket_prog name fail k))
    end)).

Definition CreateBucket_prog (name : string) : store_prog :=
  if negb (validBucketName name) then failed (Wrap [] ErrInvalidName [Lit ": bucket "; Quote name])
  else
    let dir := [name] in
    Try (os_Mkdir dir) (λ e, failed (if os_IsExist e then ErrBucketExists else e)) (λ _,
    Try (os_Mkdir (dir ++ ["objects"])) failed (λ _,
    Try (os_Mkdir (dir ++ ["tmp"])) failed (λ _,
    openBucket_prog name failed (λ h,
    Try (info h) failed (λ bi, Answer (BucketIs bi)))))).

Definition GetBucket_prog (name : string) : store_prog :=
  bucket_prog name failed (λ h, Try (info h) failed (λ bi, Answer (BucketIs bi))).

(** [s.DeleteBucket(name)] holds [commitMu] while it takes [s.mu]. *)
Definition DeleteBucket_prog (name : string) : store_prog :=
  bucket_prog name failed (λ h,
  let finish resp := Unlock (commit_mu h) (Answer resp) in
  Lock (commit_mu h) (
  Try (db_Query h sql_count_objects) (λ e, finish (Failed e)) (λ count,
  if (0 <? count)%Z then finish (Failed ErrBucketNotEmpty)
  else
    Lock store_mu (Call (modify (set_buckets (delete name))) (λ _, Unlock store_mu (
    Try (db_Close h) (λ e, finish (Failed e)) (λ _,
    Try (os_RemoveAll [name]) (λ e, finish (Failed e)) (λ _, finish Done)))))))).

Definition GetObject_prog (bucketName name : string) : store_prog :=
  bucket_prog bucketName failed (λ h, Try (getObject h name) failed (λ oi, Answer (ObjectIs oi))).

Definition OpenObject_prog (bucketName name : string) : store_prog :=
  bucket_prog bucketName failed (λ h,
  Try (getObject h name) failed (λ oi,
  Call (load_bucket h) (λ b,
  Try (os_Open (blobPath b (oi_SHA256 oi)))
    (λ e, failed (Wrap [Lit "opening blob for "; Lit bucketName; Lit "/"; Lit name; Lit ": "] e []))
    (λ f, Answer (FileIs oi f))))).

(** The transaction of [DeleteObject] before [tx.Commit()]: the tables to
    install, and the blob whose reference was dropped, if that orphans it. *)
Definition delete_plan (b : Bucket) (name : string) (conds : Conditions) (tx : database)
    : M world (database * option string) :=
  let* existing := tx_existing b name tx in
  match check conds existing with
  | Some e => throw e
  | None =>
    match existing with
    | None => throw ErrObjectNotFound
    | Some old =>
      let* tx := tx_Exec (sql_delete_object name) tx in
      let* ' (tx, orphan) := decrefBlob tx (oi_SHA256 old) in
      ret (tx, if orphan : bool then Some (oi_SHA256 old) else None)
    end
  end.

(** The transaction is committed and an orphaned blob removed. *)
Definition finish_prog (h : nat) (b : Bucket) (tx : database) (orphan : option string)
    (fail : error → store_prog) (k : store_prog) : store_prog :=
  Try (tx_Commit h tx) fail (λ _,
  match orphan with
  | Some sha => Quietly (os_Remove (blobPath b sha)) k
  | None => k
  end).

Definition DeleteObject_prog (bucketName name : string) (conds : Conditions) : store_prog :=
  bucket_prog bucketName failed (λ h,
  let finish resp := Unlock (commit_mu h) (Answer resp) in
  Lock (commit_mu h) (
  Call (load_bucket h) (λ b,
  Try (db_Begin h) (λ e, finish (Failed e)) (λ tx,
  Try (delete_plan b name conds tx) (λ e, finish (Failed e)) (λ '(tx, orphan),
  finish_prog h b tx orphan (λ e, finish (Failed e)) (finish Done)))))).

(** ** Writers *)

(** [s.NewBlobWriter(bucket)] after the bucket was found. *)
Definition new_writer (h : nat) : M world nat :=
  let* b := load_bucket h in
  let* ' (tmp, ino) := os_CreateTemp (b_dir b ++ ["tmp"]) "upload-" in
  let* p := fresh in
  do* modify (set_writers (insert p (mkBlobWriter h tmp ino [] [] [] 0 false))) in
  ret p.

(** [io.Copy(w, r)]; the continuation gets its error. *)
Fixpoint copy_prog (wp : nat) (pieces : list bytes) (end_ : option error) (k : option error → store_prog) : store_prog :=
  match pieces with
  | [] => k end_
  | [] :: pieces => copy_prog wp pieces end_ k
  | p :: pieces =>
    Call (Write wp p) (λ '(n, err),
    match err with
    | Some e => k (Some e)
    | None =>
      if negb (n =? length p) then k (Some (Other [Lit "short write"]))
      else copy_prog wp pieces end_ k
    end)
  end.

Definition Abort_prog (wp : nat) (k : store_prog) : store_prog :=
  Call (load_writer wp) (λ bw,
  if w_done bw then k
  else
    Call (modify (set_writers (alter set_done wp))) (λ _,
    Quietly file_Close (
    Quietly (os_Remove (w_tmp bw)) k))).

(** The transaction of [Commit] before [tx.Commit()]: the tables to install, the
    description of the new version and the blob that it orphans. *)
Definition commit_plan (b : Bucket) (bw : BlobWriter) (name : string) (opts : PutOptions) (tx : database)
    : M world (database * (ObjectInfo * option string)) :=
  let '(shaHex, md5Sum, crc32c) := Checksums bw in
  let* existing := tx_existing b name tx in
  match check (po_Conditions opts) existing with
  | Some e => throw e
  | None =>
    let* t := time_Now in
    let generation := next_generation existing t in
    let row := new_row generation shaHex (w_size bw) md5Sum crc32c
                 (po_ContentType opts) (po_Metadata opts) (UnixMicro_of t) in
    let* ' (tx, orphan) := commit_statements tx name existing row in
    ret (tx, (mkObjectInfo (b_name b) name generation 1 (w_size bw) shaHex md5Sum crc32c
                (po_ContentType opts) (po_Metadata opts) t t, orphan))
  end.

(** The part of [Commit] under [commitMu]. *)
Definition install_prog (tmpName blob : path) (fail : error → store_prog) (k : store_prog) : store_prog :=
  Try (os_Stat blob)
    (λ _, Try (os_MkdirAll (parent blob)) fail (λ _, Try (os_Rename tmpName blob) fail (λ _, k)))
    (λ _, k).

Definition commit_locked (h : nat) (b : Bucket) (bw : BlobWriter) (name : string) (opts : PutOptions)
    (finish : reply → store_prog) : store_prog :=
  let finish resp := Unlock (commit_mu h) (finish resp) in
  let fail e := finish (Failed e) in
  Lock (commit_mu h) (
  install_prog (w_tmp bw) (blobPath b (hex_EncodeToString (sha256_sum (w_sha bw)))) fail (
  Try (db_Begin h) fail (λ tx,
  Try (commit_plan b bw name opts tx) fail (λ '(tx, (oi, orphan)),
  finish_prog h b tx orphan fail (finish (ObjectIs oi)))))).

(** The deferred removal of the temporary file comes last, after the mutex was
    released; it also runs when the handle is a nil pointer. *)
Definition Commit_prog (wp : nat) (name : string) (opts : PutOptions) : store_prog :=
  Call (load_writer wp) (λ bw,
  if w_done bw then failed (Other [Lit "commit on finished BlobWriter"])
  else
    Call (modify (set_writers (alter set_done wp))) (λ _,
    let finish resp := Quietly (os_Remove (w_tmp bw)) (Answer resp) in
    if negb (validObjectName name) then
      Quietly file_Close (finish (Failed (Wrap [] ErrInvalidName [Lit ": object "; Quote name])))
    else
      Try file_Sync (λ e, Quietly file_Close (finish (Failed e))) (λ _,
      Try file_Close (λ e, finish (Failed e)) (λ _,
      let h := w_b bw in
      Call (gets (λ w, handles w !! h)) (λ b,
      match b with
      | Some b => commit_locked h b bw name opts finish
      | None =>
        Quietly (os_Remove (w_tmp bw))
          (Call (panic [Lit "invalid memory address or nil pointer dereference"]) (λ _ : unit, Broken))
      end))))).

Definition PutObject_prog (bucketName name : string) (r : list bytes * option error) (opts : PutOptions) : store_prog :=
  bucket_prog bucketName failed (λ h,
  Try (new_writer h) failed (λ wp,
  copy_prog wp r.1 r.2 (λ err,
  match err with
  | Some e => Abort_prog wp (failed e)
  | None => Commit_prog wp name opts
  end))).

(** ** Calls whose effects are specified together

    [DeleteBucket] is not among them: it may remove a bucket's directory under
    another call. *)
Inductive store_request :=
  | AskCreateBucket (name : string)
  | AskGetBucket (name : string)
  | AskGetObject (bucketName name : string)
  | AskOpenObject (bucketName name : string)
  | AskDeleteObject (bucketName name : string) (conds : Conditions)
  | AskPutObject (bucketName name : string) (r : list bytes * option error) (opts : PutOptions).

Definition store_serve (q : store_request) : store_prog :=
  match q with
  | AskCreateBucket n => CreateBucket_prog n
  | AskGetBucket n => GetBucket_prog n
  | AskGetObject n name => GetObject_prog n name
  | AskOpenObject n name => OpenObject_prog n name
  | AskDeleteObject n name conds => DeleteObject_prog n name conds
  | AskPutObject n name r opts => PutObject_prog n name r opts
  end.

(** ** The other calls *)

(** [s.ListBuckets()]: the loop over the directory's entries. *)
Fixpoint entries_prog (entries : list (string * bool)) (infos : list BucketInfo) : store_prog :=
  match entries with
  | [] => Answer (BucketsAre (merge_sort (λ i j, String.le (bi_Name i) (bi_Name j)) infos))
  | (name, isDir) :: entries =>
    if negb isDir then entries_prog entries infos
    else
      Try (os_Stat (data_sqlite [name])) (λ _, entries_prog entries infos) (λ _,
      bucket_prog name failed (λ h,
      Try (info h) failed (λ i, entries_prog entries (infos ++ [i]))))
  end.
Definition ListBuckets_prog : store_prog := Try os_ReadDir_root failed (λ entries, entries_prog entries []).

(** The scan loop of [ListObjects], a query after the other; the caller sees a
    panic. *)
Fixpoint scan_prog (fuel : nat) (h : nat) (b : Bucket) (req : ListRequest) (maxResults : Z)
    (end_ next : string) (count : Z) (res : ListResult) : store_prog :=
  match fuel with
  | 0 => Broken
  | S fuel =>
    Try (db_Query h (λ d, sql_select_range d next end_ batchSize)) failed (λ rows,
    match scan_rows b rows with
    | inl e => failed e
    | inr batch =>
      match walk_batch req maxResults batch count res with
      | None => Answer Panicked
      | Some (BreakScan, _, res) => Answer (ListIs res)
      | Some (ContinueScan next, count, res) => scan_prog fuel h b req maxResults end_ next count res
      | Some (BatchDone, count, res) =>
        if length batch <? batchSize then Answer (ListIs res)
        else match last batch with
             | Some info => scan_prog fuel h b req maxResults end_ (oi_Name info +:+ String "000" "") count res
             | None => Answer Panicked
             end
      end
    end)
  end.
Definition ListObjects_prog (bucketName : string) (req : ListRequest) : store_prog :=
  bucket_prog bucketName failed (λ h,
  Call (gets (λ w, handles w !! h)) (λ b,
  match b with
  | None => Answer Panicked
  | Some b =>
  let maxResults := max_results req in
  scan_prog (S (Z.to_nat maxResults)) h b req maxResults (prefixSuccessor (lr_Prefix req))
    (scan_start req) 0 (mkListResult [] [] "")
  end)).

(** [s.Close()] holds [s.mu] throughout. *)
Fixpoint close_prog (hs : list (string * nat)) (firstErr : option error) : store_prog :=
  match hs with
  | [] => Unlock store_mu (Answer (match firstErr with Some e => Failed e | None => Done end))
  | (name, h) :: hs =>
    Call (try (db_Close h)) (λ r,
    Call (modify (set_buckets (delete name))) (λ _,
    close_prog hs (match r, firstErr with inl e, None => Some e | _, _ => firstErr end)))
  end.
Definition Close_prog : store_prog :=
  Lock store_mu (Call (gets (λ w, map_to_list (buckets w))) (λ hs, close_prog hs None)).

Definition TempFile_prog (bucketName : string) : store_prog :=
  bucket_prog bucketName failed (λ h,
  Call (load_bucket h) (λ b,
  Try (os_CreateTemp (b_dir b ++ ["tmp"]) "part-") failed (λ '(tmp, ino), Answer (TempIs tmp ino)))).

Definition NewBlobWriter_prog (bucketName : string) : store_prog :=
  bucket_prog bucketName failed (λ h, Try (new_writer h) failed (λ wp, Answer (WriterIs wp))).

(** A method of a writer; a nil pointer panics. *)
Definition on_writer (wp : nat) (k : store_prog) : store_prog :=
  Call (gets (λ w, writers w !! wp)) (λ bw, match bw with Some _ => k | None => Answer Panicked end).
Definition Write_prog (wp : nat) (p : bytes) : store_prog := Call (Write wp p) (λ '(n, err), Answer (Wrote n err)).

(** Every call of the store, those on a writer included. *)
Inductive store_call :=
  | Basic (q : store_request)
  | AskDeleteBucket (name : string)
  | AskListBuckets
  | AskListObjects (bucketName : string) (req : ListRequest)
  | AskNewBlobWriter (bucketName : string)
  | AskWrite (wp : nat) (p : bytes)
  | AskAbort (wp : nat)
  | AskCommit (wp : nat) (name : string) (opts : PutOptions)
  | AskTempFile (bucketName : string)
  | AskClose.

Definition call_serve (q : store_call) : store_prog :=
  match q with
  | Basic q => store_serve q
  | AskDeleteBucket n => DeleteBucket_prog n
  | AskListBuckets => ListBuckets_prog
  | AskListObjects n req => ListObjects_prog n req
  | AskNewBlobWriter n => NewBlobWriter_prog n
  | AskWrite wp p => on_writer wp (Write_prog wp p)
  | AskAbort wp => on_writer wp (Abort_prog wp (Answer Done))
  | AskCommit wp name opts => on_writer wp (Commit_prog wp name opts)
  | AskTempFile n => TempFile_prog n
  | AskClose => Close_prog
  end.

(** The sequential call, with its result as a reply. *)
Definition replies {A} (m : M world A) (answer : A → reply) : M world reply :=
  let* r := try m in
  ret (match r with inl e => Failed e | inr a => answer a end).

Definition call_of (q : store_request) : M world reply :=
  match q with
  | AskCreateBucket n => replies (CreateBucket n) BucketIs
  | AskGetBucket n => replies (GetBucket n) BucketIs
  | AskGetObject n name => replies (GetObject n name) ObjectIs
  | AskOpenObject n name => replies (OpenObject n name) (λ '(oi, f), FileIs oi f)
  | AskDeleteObject n name conds => replies (DeleteObject n name conds) (λ _, Done)
  | AskPutObject n name r opts => replies (PutObject n name r opts) ObjectIs
  end.

(** ** A call that runs alone is the sequential call *)

(** How a call ends when its result is passed on. *)
Definition ends {A} (m : M world A) (fail : error → M world reply) (k : A → M world reply) : M world reply := λ w,
  match m w with
  | (Ret a, w') => k a w'
  | (Err e, w') => fail e w'
  | (Panic x, w') => (Panic x, w')
  | (Diverge, w') => (Diverge, w')
  | (Crash, w') => (Crash, w')
  end.

Lemma run_Try {A} (m : M world A) fail k w : run (Try m fail k) w = ends m (λ e, run (fail e)) (λ a, run (k a)) w.
Proof. unfold Try, ends. cbn [run]. unfold bind, try. by destruct (m w) as [[] w']. Qed.

Lemma run_Quietly m k w : run (Quietly m k) w = ends m (λ _, run k) (λ _, run k) w.
Proof. unfold Quietly, ends. cbn [run]. unfold bind, ignore, bind, try. by destruct (m w) as [[] w']. Qed.

Lemma replies_ends {A} (m : M world A) answer w : replies m answer w = ends m (λ e, ret (Failed e)) (λ a, ret (answer a)) w.
Proof. unfold replies, ends, bind, try. by destruct (m w) as [[] w']. Qed.

(** Both sides make the same next call. *)
Ltac same_call :=
  match goal with
  | |- context [match ?m ?w with pair _ _ => _ end] =>
      lazymatch type of w with world => idtac end;
      lazymatch m with (fun _ => _) => fail | _ => idtac end;
      destruct (m w) as [[] ?]; cbn beta iota; try done
  end.

Lemma run_openBucket name fail k w :
  run (openBucket_prog name fail k) w = ends (Store_openBucket name) (λ e, run (fail e)) (λ h, run (k h)) w.
Proof. unfold openBucket_prog. cbn [run]. by rewrite run_Try. Qed.

Lemma run_bucket name fail k w :
  run (bucket_prog name fail k) w = ends (bucket name) (λ e, run (fail e)) (λ h, run (k h)) w.
Proof.
  unfold bucket_prog, bucket. destruct (negb (validBucketName name)); [done|]. cbn [run].
  unfold ends, gets, get, bind, ret, throw, try. destruct (buckets w !! name) as [h|] eqn:E; [done|]. cbn [run].
  rewrite run_Try. unfold ends. same_call. exact (run_openBucket name fail k _).
Qed.

Lemma run_bucket_alone {A} name k (f : nat → M world A) answer w :
  (∀ h w, run (k h) w = replies (f h) answer w) →
  run (bucket_prog name failed k) w = replies (bind (bucket name) f) answer w.
Proof.
  intros Hk. rewrite run_bucket, replies_ends. unfold ends, bind. destruct (bucket name w) as [[] w']; try done.
  by rewrite Hk, replies_ends.
Qed.

Ltac alone := rewrite ?run_Try, ?run_Quietly, ?run_openBucket; unfold replies, ends, bind, try, ret, throw, ignore; cbn [run].

Lemma CreateBucket_alone n w : run (CreateBucket_prog n) w = replies (CreateBucket n) BucketIs w.
Proof.
  unfold CreateBucket_prog, CreateBucket. destruct (negb (validBucketName n)); [done|].
  alone. same_call; [|by destruct (os_IsExist _)]. alone. same_call. alone. same_call. alone. same_call. alone. by same_call.
Qed.
Lemma GetBucket_alone n w : run (GetBucket_prog n) w = replies (GetBucket n) BucketIs w.
Proof. apply run_bucket_alone. clear w. intros h w. alone. by same_call. Qed.
Lemma GetObject_alone n name w : run (GetObject_prog n name) w = replies (GetObject n name) ObjectIs w.
Proof. apply run_bucket_alone. clear w. intros h w. alone. by same_call. Qed.
Lemma DeleteBucket_alone n w : run (DeleteBucket_prog n) w = replies (DeleteBucket n) (λ _, Done) w.
Proof.
  apply run_bucket_alone. clear w. intros h w. cbn [run]. alone. same_call. destruct (0 <? a)%Z; [done|].
  cbn [run]. unfold bind, modify. alone. same_call. alone. by same_call.
Qed.
Lemma OpenObject_alone n name w : run (OpenObject_prog n name) w = replies (OpenObject n name) (λ '(oi, f), FileIs oi f) w.
Proof.
  apply run_bucket_alone. clear w. intros h w. rewrite replies_ends, run_Try. unfold ends. unfold bind at 1.
  same_call. cbn [run]. rewrite !run_load_bucket. destruct (handles w0 !! h); [|done]. alone. by same_call.
Qed.
Lemma DeleteObject_alone n name conds w :
  run (DeleteObject_prog n name conds) w = replies (DeleteObject n name conds) (λ _, Done) w.
Proof.
  apply run_bucket_alone. clear w. intros h w. rewrite replies_ends. cbn [run]. unfold ends. rewrite !run_load_bucket.
  destruct (handles w !! h); [|done]. alone. same_call. alone.
  unfold delete_plan. alone. same_call. destruct (check _ _); [done|]. destruct a0; [|done]. alone. same_call. alone. same_call.
  destruct a1 as [tx orphan]. cbn beta iota. destruct orphan; unfold finish_prog; alone; same_call. alone. by same_call.
Qed.

(** The copy ends with the same error as [io_Copy]. *)
Lemma run_copy p pieces end_ k : ∀ n w,
  run (copy_prog p pieces end_ k) w = bind (io_Copy p pieces end_ n) (λ '(_, err), run (k err)) w.
Proof.
  induction pieces as [|q pieces IH]; intros n w; cbn [copy_prog io_Copy]; [done|].
  destruct q as [|a q]; [apply IH|]. cbn [run]. unfold bind.
  destruct (Write p (a :: q) w) as [[[k' err]|e|x| |] w']; try done.
  destruct err as [e|]; [done|]. destruct (negb _); [done|]. by rewrite (IH (int64 (n + Z.of_nat k'))).
Qed.

Lemma Abort_alone p k w : run (Abort_prog p k) w = bind (Abort_ p) (λ _, run k) w.
Proof.
  unfold Abort_prog, Abort_. cbn [run]. rewrite bind_assoc, !run_load_writer.
  destruct (writers w !! p) as [bw|]; [|done]. destruct (w_done bw); [done|]. cbn [run].
  unfold bind at 1, modify. rewrite run_Quietly. unfold ends, bind, ignore, bind, try, ret, modify.
  same_call; rewrite run_Quietly; unfold ends; by same_call.
Qed.

(** The critical section of [Commit]. *)
Definition commit_section (h : nat) (b : Bucket) (bw : BlobWriter) (name : string) (opts : PutOptions) : M world ObjectInfo :=
  do* install_blob (w_tmp bw) (blobPath b (hex_EncodeToString (sha256_sum (w_sha bw)))) in
  let* ' (oi, orphan) := commit_in_tx h b bw name opts in
  match orphan with
  | Some sha =>
    do* ignore (os_Remove (blobPath b sha)) in
    ret oi
  | None => ret oi
  end.

Lemma run_install tmp blob fail k w :
  run (install_prog tmp blob fail k) w = ends (install_blob tmp blob) (λ e, run (fail e)) (λ _, run k) w.
Proof.
  unfold install_prog, install_blob. alone. same_call. alone. same_call. alone. by same_call.
Qed.

Lemma commit_in_tx_plan h b bw name opts w :
  commit_in_tx h b bw name opts w =
  (let* tx := db_Begin h in
   let* ' (tx, (oi, orphan)) := commit_plan b bw name opts tx in
   do* tx_Commit h tx in
   ret (oi, orphan)) w.
Proof.
  unfold commit_in_tx, commit_plan, Checksums, bind, ret, throw. same_call. same_call. destruct (check _ _); [done|].
  unfold time_Now, gets. same_call. by destruct a1.
Qed.

Lemma run_locked h b bw name opts finish w :
  run (commit_locked h b bw name opts finish) w =
  ends (commit_section h b bw name opts) (λ e, run (finish (Failed e))) (λ oi, run (finish (ObjectIs oi))) w.
Proof.
  unfold commit_locked, commit_section. cbn [run]. rewrite run_install. unfold ends. unfold bind at 1.
  same_call. alone. rewrite commit_in_tx_plan. unfold bind. same_call. alone. same_call.
  destruct a1 as [tx [oi orphan]]. unfold finish_prog. alone. same_call.
  destruct orphan; [|done]. alone. by same_call.
Qed.

(** A deferred call comes between the end of a call and the reply. *)
Definition deferred {A} (c : M world unit) (answer : A → reply) (r : outcome A * world) : outcome reply * world :=
  match r with
  | (Ret a, w') => run (Quietly c (Answer (answer a))) w'
  | (Err e, w') => run (Quietly c (Answer (Failed e))) w'
  | (Panic x, w') => run (Quietly c (Call (panic x) (λ _ : unit, Broken))) w'
  | (Diverge, w') => (Diverge, w')
  | (Crash, w') => (Crash, w')
  end.
Lemma ends_defer {A} c (m : M world A) answer w :
  ends (defer c m) (λ e, ret (Failed e)) (λ a, ret (answer a)) w = deferred c answer (m w).
Proof.
  unfold ends, defer, deferred. destruct (m w) as [[] w']; try done; rewrite run_Quietly; unfold ends, ignore, bind, try, ret; by same_call.
Qed.

Lemma commit_section_returns h b bw name opts : fails_with (λ _, True) (commit_section h b bw name opts).
Proof.
  unfold commit_section. fails; [apply plainly_returns, fails_install|apply returns_commit_in_tx].
Qed.

Lemma Commit_alone p name opts w : run (Commit_prog p name opts) w = replies (Commit p name opts) ObjectIs w.
Proof.
  rewrite replies_ends. unfold Commit_prog, Commit. cbn [run]. unfold ends. rewrite !run_load_writer.
  destruct (writers w !! p) as [bw|]; [|done]. destruct (w_done bw); [done|]. cbn [run]. unfold bind at 1 2, modify.
  match goal with |- _ = match defer ?c ?m ?w with _ => _ end => etrans; [|symmetry; exact (ends_defer c m ObjectIs w)] end. unfold deferred.
  assert (∀ w, match file_Close w with (Panic _, _) | (Diverge, _) => False | _ => True end) as Hclose.
  { intros w0. unfold file_Close, syscall, external. by destruct (faults w0) as [|[]]. }
  destruct (negb (validObjectName name)).
  { rewrite run_Quietly. unfold ends, ignore, bind, try, ret, throw.
    pose proof (Hclose (set_writers (alter set_done p) w)). by same_call. }
  alone. change file_Sync with file_Close. pose proof (Hclose (set_writers (alter set_done p) w)).
  same_call. 2: { pose proof (Hclose w0). rewrite run_Quietly. unfold ends, ignore, bind, try, ret. by same_call. }
  alone. pose proof (Hclose w0). same_call. cbn [run]. unfold gets, load_bucket, bind.
  destruct (handles w1 !! w_b bw) as [b|]; cbn beta iota; [|done].
  rewrite run_locked. unfold ends.
  pose proof (commit_section_returns (w_b bw) b bw name opts w1) as Hr.
  match goal with |- ?L = _ => change (L = deferred (os_Remove (w_tmp bw)) ObjectIs (commit_section (w_b bw) b bw name opts w1)) end.
  by destruct (commit_section (w_b bw) b bw name opts w1) as [[] w2].
Qed.

Lemma PutObject_alone n name r opts w : run (PutObject_prog n name r opts) w = replies (PutObject n name r opts) ObjectIs w.
Proof.
  rewrite replies_ends. unfold PutObject_prog, PutObject, NewBlobWriter. rewrite run_bucket. unfold ends, bind at 1 2.
  same_call. fold (new_writer a). rewrite run_Try. unfold ends. same_call. rewrite (run_copy _ _ _ _ 0). unfold bind at 1 2.
  pose proof (io_Copy_no_error a0 r.1 r.2 0 w1) as Hc. same_call; [|by destruct (Hc e w2)]. destruct a1 as [k [e|]].
  - rewrite Abort_alone. unfold bind. pose proof (Abort_no_error a0 w2) as Ha. same_call. by destruct (Ha e0 w3).
  - by rewrite Commit_alone, replies_ends.
Qed.

Lemma run_alone q w : run (store_serve q) w = call_of q w.
Proof.
  destruct q; [apply CreateBucket_alone|apply GetBucket_alone|apply GetObject_alone|apply OpenObject_alone|
    apply DeleteObject_alone|apply PutObject_alone].
Qed.

(** *** The other calls *)

(** A panic is seen by the caller. *)
Definition recovered {A} (m : M world A) (answer : A → reply) : M world reply := λ w,
  match replies m answer w with
  | (Panic _, w') => (Ret Panicked, w')
  | r => r
  end.

Lemma ListBuckets_alone w : run ListBuckets_prog w = replies ListBuckets BucketsAre w.
Proof.
  unfold ListBuckets_prog, ListBuckets. rewrite replies_ends, run_Try. unfold ends, bind at 1 2.
  destruct (os_ReadDir_root w) as [[entries|e|x| |] w1]; cbn; try done.
  generalize ([] : list BucketInfo). revert w1. induction entries as [|[n d] entries IH]; intros w1 infos; [done|].
  cbn [entries_prog list_entries]. destruct (negb d); [apply IH|]. rewrite run_Try. unfold ends, bind, try.
  destruct (os_Stat (data_sqlite [n]) w1) as [[x|e|x| |] w2]; try done.
  rewrite run_bucket. unfold ends. destruct (bucket n w2) as [[h|e|y| |] w3]; try done. rewrite run_Try. unfold ends.
  by destruct (info h w3) as [[i|e|y| |] w4].
Qed.

(** The loop goes on only when it has more results than before. *)
Lemma walk_counts req m batch : ∀ count res e count' res',
  (count ≤ m)%Z → walk_batch req m batch count res = Some (e, count', res') →
  (count' ≤ m)%Z ∧
  match e with
  | BreakScan => True
  | ContinueScan _ => (count < count')%Z
  | BatchDone => count' = (count + Z.of_nat (length batch))%Z
  end.
Proof.
  induction batch as [|o batch IH]; intros count res e count' res' Hm; cbn [walk_batch].
  { intros [= <- <- <-]. cbn. lia. }
  destruct (Z.leb_spec m count); [intros [= <- <- <-]; lia|].
  destruct (_ <? _); [done|]. destruct (common_prefix _ _) as [cp|].
  - intros [= <- <- <-]. destruct (String.eqb _ _); lia.
  - intros Hw. apply IH in Hw as [? He]; [|lia]. split; [done|]. destruct e; cbn [length]; lia.
Qed.

Lemma scan_alone fuel h b req m end_ : ∀ next count res w,
  (count ≤ m < count + Z.of_nat fuel)%Z →
  run (scan_prog fuel h b req m end_ next count res) w =
  recovered (scan_loop fuel h b req m end_ next count res) ListIs w.
Proof.
  induction fuel as [|fuel IH]; intros next count res w Hf; [lia|]. unfold recovered. rewrite replies_ends.
  cbn [scan_prog scan_loop]. rewrite run_Try. unfold ends, bind.
  destruct (db_Query h _ w) as [[rows|e|x| |] w1] eqn:Eq; try done.
  2: { pose proof (fails_db_Query h (λ d, sql_select_range d next end_ batchSize) w) as Hq. by rewrite Eq in Hq. }
  destruct (scan_rows b rows) as [e|batch]; [done|].
  destruct (walk_batch req m batch count res) as [[[[|next'|] count'] res']|] eqn:Ew; try done.
  - apply walk_counts in Ew as [? ?]; [|lia]. rewrite IH by lia. unfold recovered. by rewrite replies_ends.
  - apply walk_counts in Ew as [? ->]; [|lia]. destruct (Nat.ltb_spec (length batch) batchSize); [done|].
    destruct (last batch) as [o|]; [|done].
    rewrite IH by (unfold batchSize in *; lia). unfold recovered. by rewrite replies_ends.
Qed.

Lemma fails_bucket n : fails_with plain (bucket n).
Proof. unfold bucket. fails. apply fails_Store_openBucket. Qed.

Lemma some_results req : (0 < max_results req)%Z.
Proof.
  unfold max_results, defaultMaxResults. destruct (Z.leb_spec (lr_MaxResults req) 0); cbn; [lia|].
  destruct (Z.ltb_spec 1000 (lr_MaxResults req)); lia.
Qed.

Lemma ListObjects_alone n req w : run (ListObjects_prog n req) w = recovered (ListObjects n req) ListIs w.
Proof.
  unfold ListObjects_prog, ListObjects, recovered. rewrite run_bucket, replies_ends. unfold ends. unfold bind at 1.
  pose proof (fails_bucket n w) as Hb. destruct (bucket n w) as [[h|e|x| |] w1]; try done.
  cbn [run]. unfold bind at 1, gets. rewrite run_load_bucket. destruct (handles w1 !! h) as [b|]; [|done].
  cbn zeta. pose proof (some_results req). rewrite scan_alone by lia. unfold recovered. by rewrite replies_ends.
Qed.

Lemma close_alone hs : ∀ e w,
  run (close_prog hs e) w =
  replies (let* e := close_all hs e in match e with Some e => throw e | None => ret tt end) (λ _, Done) w.
Proof.
  induction hs as [|[n h] hs IH]; intros e w; cbn [close_prog close_all run]; rewrite replies_ends; unfold ends.
  { by destruct e. }
  unfold bind, try, modify. destruct (db_Close h w) as [[x|err|x| |] w1]; try done;
    cbn beta iota zeta; by rewrite IH, replies_ends.
Qed.
Lemma Close_alone w : run Close_prog w = replies Close (λ _, Done) w.
Proof. exact (close_alone (map_to_list (buckets w)) None w). Qed.

Lemma TempFile_alone n w : run (TempFile_prog n) w = replies (TempFile n) (λ '(tmp, ino), TempIs tmp ino) w.
Proof.
  apply run_bucket_alone. clear w. intros h w. rewrite replies_ends. cbn [run]. unfold ends. rewrite !run_load_bucket.
  destruct (handles w !! h); [|done]. alone. same_call. by destruct a.
Qed.
Lemma NewBlobWriter_alone n w : run (NewBlobWriter_prog n) w = replies (NewBlobWriter n) WriterIs w.
Proof. apply run_bucket_alone. clear w. intros h w. fold (new_writer h). alone. by same_call. Qed.

Definition call_alone (q : store_call) : M world reply :=
  match q with
  | Basic q => call_of q
  | AskDeleteBucket n => replies (DeleteBucket n) (λ _, Done)
  | AskListBuckets => replies ListBuckets BucketsAre
  | AskListObjects n req => recovered (ListObjects n req) ListIs
  | AskNewBlobWriter n => replies (NewBlobWriter n) WriterIs
  | AskWrite wp p => replies (Write wp p) (λ '(n, err), Wrote n err)
  | AskAbort wp => replies (Abort_ wp) (λ _, Done)
  | AskCommit wp name opts => replies (Commit wp name opts) ObjectIs
  | AskTempFile n => replies (TempFile n) (λ '(tmp, ino), TempIs tmp ino)
  | AskClose => replies Close (λ _, Done)
  end.
Definition present (w : world) (q : store_call) : Prop :=
  match q with AskWrite wp _ | AskAbort wp | AskCommit wp _ _ => is_Some (writers w !! wp) | _ => True end.

(** Run alone, a call returns what the operation returns and leaves the world as
    it does, also when it fails or the process dies in it. *)
Lemma run_call_alone q w : present w q → run (call_serve q) w = call_alone q w.
Proof.
  destruct q as [q|n| |n req|n|wp p|wp|wp name opts|n|]; cbn [present call_serve call_alone]; intros Hp;
    [apply run_alone|apply DeleteBucket_alone|apply ListBuckets_alone|apply ListObjects_alone|apply NewBlobWriter_alone|..
    |apply TempFile_alone|apply Close_alone]; destruct Hp as [bw Hbw]; unfold on_writer; cbn [run]; unfold bind, gets; rewrite Hbw.
  - unfold Write_prog. rewrite replies_ends. cbn [run]. unfold ends, bind.
    pose proof (Write_no_error wp p w) as Hw. destruct (Write wp p w) as [[[k err]|e|x| |] w1]; try done. by destruct (Hw e w1).
  - rewrite Abort_alone, replies_ends. unfold ends, bind. pose proof (Abort_no_error wp w) as Hw.
    destruct (Abort_ wp w) as [[[]|e|x| |] w1]; try done. by destruct (Hw e w1).
  - apply Commit_alone.
Qed.
