(* ===== verification/StoreMoves.v ===== *)
(** What a step of a call may do to the world when other calls are under way:
    the writers and the new bucket names that the call owns, and the bucket whose
    [commitMu] it holds, are its own; everything else only grows. *)

From S2P Require Import Prelude Errors GoMonad Pool GoStd Types Names Hash Database World Bucket Store BlobWriter StoreInv Triple StoreSafe StoreOps ObjectOps WriterOps StoreProgs.
From stdpp Require Import options.

(** The paths that calls take turns at: the temporary files of writers, blobs and
    databases. *)
Definition contested (p : path) : Prop :=
  (∃ n i, p = upload_path n i) ∨ (∃ n sha, p = blob_path n sha) ∨ (∃ n, p = db_path n).

(** The fields of [moves] that a step does not touch. *)
Ltac keeping := split; try done; try (by intros ?).

Section moves.
Context (L : list nat) (X : gset nat) (N : gset string).

(** From [w0] to [w]: the mutexes [L] are held, the writers in [X] and the names in
    [N] are owned. *)
Record moves (w0 w : world) : Prop := {
  mo_calm : calm w0 w;
  mo_next : next w0 ≤ next w;
  mo_handles : handles w0 ⊆ handles w;
  mo_buckets : buckets w0 ⊆ buckets w;
  mo_writers p : p < next w0 → p ∉ X → writers w !! p = writers w0 !! p;
  mo_inodes p bw : writers w !! p = Some bw →
    (∃ bw0, writers w0 !! p = Some bw0 ∧ w_ino bw0 = w_ino bw ∧ (w_done bw0 = true → w_done bw = true)) ∨
    (next w0 ≤ p ∧ next w0 ≤ w_ino bw);
  mo_temps p bw : writers w0 !! p = Some bw → p ∉ X → tree w !! w_tmp bw = tree w0 !! w_tmp bw;
  mo_nodes p nd : tree w0 !! p = Some nd → (∀ i, nd ≠ NFile i) → tree w !! p = Some nd;
  mo_bare n c : n ∉ N → validBucketName n = true → tree w0 !! [n] = Some NDir → tree w0 !! db_path n = None →
    tree w0 !! [n; c] = None → tree w !! [n; c] = None;
  mo_db n h : buckets w0 !! n = Some h → commit_mu h ∉ L → bucket_db w n = bucket_db w0 n;
  mo_blob n h sha : buckets w0 !! n = Some h → commit_mu h ∉ L → tree w !! blob_path n sha = tree w0 !! blob_path n sha;
  mo_files x c : x < next w0 → files w0 !! x = Some c →
    (∀ p bw, p ∈ X → writers w0 !! p = Some bw → w_done bw = false → w_ino bw ≠ x) → files w !! x = Some c;
}.

(** Only pointers that have been allocated are owned. *)
Definition allocated (w : world) : Prop := ∀ p, p ∈ X → p < next w.

Lemma moves_refl w : moves w w.
Proof. keeping. intros p bw Hp. left. by exists bw. Qed.

Lemma moves_trans w0 w1 w2 : world_ok w0 → allocated w0 → moves w0 w1 → moves w1 w2 → moves w0 w2.
Proof.
  intros Hok Hal [] []. split.
  - by eapply calm_trans.
  - lia.
  - by etrans.
  - by etrans.
  - intros p Hp HX. rewrite mo_writers1, mo_writers0; [done..|lia|done].
  - intros p bw Hbw. destruct (mo_inodes1 p bw Hbw) as [(bw1 & H1 & E1 & D1)|]; [|right; lia].
    destruct (mo_inodes0 p bw1 H1) as [(bw0 & H0 & E0 & D0)|]; [left|right; lia]. exists bw0. split_and!; [done|congruence|auto].
  - intros p bw Hp HX. rewrite (mo_temps1 p bw), (mo_temps0 p bw); [done..| |done].
    rewrite mo_writers0; [done| |done]. by destruct (ok_writers _ (wok_proc _ Hok) _ _ Hp).
  - auto.
  - intros n c HnN Hv Hdir Hdb Hc. apply mo_bare1; try done; [|by apply mo_bare0|by apply mo_bare0].
    by apply mo_nodes0.
  - intros n h Hn HL. rewrite (mo_db1 n h), (mo_db0 n h); [done..| |done]. by eapply lookup_weaken.
  - intros n h sha Hn HL. rewrite (mo_blob1 n h), (mo_blob0 n h); [done..| |done]. by eapply lookup_weaken.
  - intros x c Hlt Hx Hno. apply mo_files1; [lia|by apply mo_files0|]. intros p bw Hp Hbw Hnd.
    destruct (mo_inodes0 p bw Hbw) as [(bw0 & H0 & <- & D0)|[? _]]; [|specialize (Hal p Hp); lia].
    eapply Hno; [done..|]. destruct (w_done bw0); [|done]. by rewrite D0 in Hnd.
Qed.

Lemma allocated_next w w' : next w ≤ next w' → allocated w → allocated w'.
Proof. intros Hn Ha p Hp. specialize (Ha p Hp). lia. Qed.

Lemma moves_quiet w w' : quiet w w' → moves w w'.
Proof. intros Hq. pose proof (quiet_calm _ _ Hq). destruct Hq as (fs & _ & ->), (moves_refl w). by split. Qed.
Lemma quiet_moves w0 w1 w2 : quiet w0 w1 → moves w1 w2 → moves w0 w2.
Proof.
  intros Hq []. pose proof (calm_trans _ _ _ (quiet_calm _ _ Hq) mo_calm0). destruct Hq as (fs & _ & ->). by split.
Qed.

Lemma moves_faults fs w w' : moves w w' → faults w = fs → moves w (set_faults fs w').
Proof. intros [] <-. by keeping. Qed.

(** ** Elementary steps *)

(** The tree changes at one path. *)
Lemma moves_tree f w p :
  world_ok w →
  (∀ q, q ≠ p → f (tree w) !! q = tree w !! q) →
  (∀ nd, tree w !! p = Some nd → (∀ i, nd ≠ NFile i) → f (tree w) !! p = Some nd) →
  (∀ q bw, writers w !! q = Some bw → q ∉ X → w_tmp bw ≠ p) →
  (∀ n c, p = [n; c] → n ∉ N → tree w !! db_path n = None → tree w !! p = None → f (tree w) !! p = None) →
  (∀ n h sha, p = blob_path n sha → buckets w !! n = Some h → commit_mu h ∈ L) →
  (∀ n h, p = db_path n → buckets w !! n = Some h → f (tree w) !! p = tree w !! p) →
  moves w (set_tree f w).
Proof.
  intros Hok Hq Hp Htmp Hdb Hblob Hreg. keeping; cbn.
  - intros q bw Hbw. left. by exists bw.
  - intros q bw Hbw HX. apply Hq. by eapply Htmp.
  - intros q nd Hnd Hno. destruct (decide (q = p)) as [->|]; [by apply Hp|by rewrite Hq].
  - intros n c Hn _ _ Hno Hnone. destruct (decide ([n; c] = p)) as [E|]; [|by rewrite Hq]. subst p. by eapply Hdb.
  - intros n h Hn HL. unfold bucket_db; cbn. destruct (decide (db_path n = p)) as [E|]; [|by rewrite Hq]. subst p. by rewrite (Hreg n h).
  - intros n h sha Hn HL. destruct (decide (blob_path n sha = p)) as [E|]; [|by rewrite Hq]. subst p. by destruct HL; eapply Hblob.
Qed.

(** A node appears at a path that no calls take turns at. *)
Lemma moves_insert p nd w :
  world_ok w → tree w !! p = None → ¬ contested p → (∀ n c, p = [n; c] → n ∈ N ∨ tree w !! db_path n ≠ None) →
  moves w (set_tree (insert p nd) w).
Proof.
  intros Hok Hnone Hno Hbare. unfold contested in Hno. apply (moves_tree _ w p); [done|..|naive_solver|naive_solver|naive_solver].
  - intros q Hq. by rewrite lookup_insert_ne.
  - intros nd' Hnd'. congruence.
  - intros q bw Hbw _ E. destruct (writer_bucket _ _ _ Hok Hbw) as (b & _ & _ & _ & Htmp). apply Hno. left. rewrite <- E, Htmp. eauto.
Qed.
End moves.

(** ** The steps of the store *)
Section steps.
Context (L : list nat) (X : gset nat) (N : gset string).
Abbreviation mv := (moves L X N).

Lemma layout_dir_free n rest : layout rest NDir → ¬ contested (n :: rest).
Proof.
  intros Hl [(m & i & E)|[(m & sha & E)|(m & E)]].
  - unfold upload_path, temp_path in E. cbn in E. injection E as <- ->. inversion Hl.
  - unfold blob_path in E. simplify_eq. inversion Hl.
  - unfold db_path in E. simplify_eq. inversion Hl.
Qed.

Lemma moves_mkdir w n rest :
  world_ok w → layout rest NDir → tree w !! (n :: rest) = None → (rest ≠ [] → n ∈ N ∨ tree w !! db_path n ≠ None) →
  mv w (set_tree (insert (n :: rest) NDir) w).
Proof.
  intros ??? Hb. apply moves_insert; [done..|by apply layout_dir_free|]. intros m c E. simplify_eq. by apply Hb.
Qed.

(** The memory of the process and the counters change alone. *)
Lemma moves_next w k : next w ≤ k → mv w (set_next k w).
Proof. intros. destruct (moves_refl L X N w). by keeping. Qed.

(** A new temporary file. *)
Lemma moves_temp w n :
  world_ok w → validBucketName n = true → mv w (with_temp (upload_path n (next w)) w).
Proof.
  intros Hok Hn. assert (tree w !! upload_path n (next w) = None) as Hnone by (by apply temp_path_free; [..|left]).
  assert (mv w (set_tree (insert (upload_path n (next w)) (NFile (next w))) w)) as Hm.
  { apply (moves_tree _ _ _ _ w (upload_path n (next w))); [done|..|done|done|done].
    - intros q Hq. by rewrite lookup_insert_ne.
    - intros nd Hnd. congruence.
    - intros q bw Hbw _ E. destruct (writer_bucket _ _ _ Hok Hbw) as (b & _ & _ & _ & Htmp).
      destruct (ok_writers _ (wok_proc _ Hok) _ _ Hbw) as (_ & Hi & _). rewrite Htmp in E. apply upload_path_inj in E as [_ E]. lia. }
  destruct Hm. keeping; cbn; [lia|].
  intros x c Hlt Hx _. by rewrite lookup_insert_ne by lia.
Qed.

Lemma moves_new_writer w w1 p bw :
  mv w w1 → next w ≤ w_ino bw → next w1 ≤ p → mv w (set_writers (insert p bw) w1).
Proof.
  intros [] Hi Hp. keeping; cbn.
  - intros q Hq ?. rewrite lookup_insert_ne by lia. auto.
  - intros q bw' [[<- <-]|[_ Hq]]%lookup_insert_Some; [right; lia|auto].
Qed.

(** An owned writer changes. *)
Lemma moves_writer f w p :
  p ∈ X → (∀ bw, w_ino (f bw) = w_ino bw ∧ (w_done bw = true → w_done (f bw) = true)) → mv w (set_writers (alter f p) w).
Proof.
  intros Hp Hf. keeping; cbn.
  - intros q _ Hq. rewrite lookup_alter_ne; [done|]. by intros ->.
  - intros q bw [(<- & bw' & Hq & ->)|[_ Hq]]%lookup_alter_Some; left; [exists bw'|by exists bw]. destruct (Hf bw'). by rewrite H.
Qed.

Lemma moves_fed w p bw q : p ∈ X → writing w p bw → mv w (fed p bw q w).
Proof.
  intros Hp [Hbw Hnd]. destruct (moves_writer (feed q) (set_files (alter (λ c, c ++ q) (w_ino bw)) w) p Hp) as []; [done|].
  keeping; cbn. intros x c _ Hx Hno. rewrite lookup_alter_ne; [done|]. by apply (Hno p).
Qed.

(** The blob of the locked bucket is put in place of the owned writer's file. *)
Lemma moves_rename w p bw b sha i :
  world_ok w → p ∈ X → writers w !! p = Some bw → handles w !! w_b bw = Some b → b_open b = true →
  commit_mu (w_b bw) ∈ L →
  tree w !! w_tmp bw = Some (NFile i) →
  tree w !! blob_path (b_name b) sha ≠ Some NDir → (∀ j, tree w !! blob_path (b_name b) sha ≠ Some (NDb j)) →
  mv w (set_tree (λ t, <[blob_path (b_name b) sha := NFile i]> (delete (w_tmp bw) t)) w).
Proof.
  intros Hok Hp Hbw Hb Ho HL Hi Hnd Hndb.
  destruct (writer_bucket _ _ _ Hok Hbw) as (b' & Hb' & _ & _ & Htmp). replace b' with b in * by congruence.
  assert (∀ q bw', writers w !! q = Some bw' → q ∉ X → w_tmp bw' ≠ w_tmp bw) as Hdiff.
  { intros q bw' Hq HX E. destruct (writer_bucket _ _ _ Hok Hq) as (b2 & _ & _ & _ & Htmp').
    rewrite Htmp, Htmp' in E. apply upload_path_inj in E as [_ E]. apply HX.
    replace q with p; [done|]. by eapply (ok_writers_inj _ (wok_proc _ Hok)). }
  keeping; cbn.
  - intros q bw' Hq. left. by exists bw'.
  - intros q bw' Hq HX. destruct (writer_bucket _ _ _ Hok Hq) as (b2 & _ & _ & _ & Htmp').
    rewrite lookup_insert_ne by (by rewrite Htmp'). rewrite lookup_delete_ne; [done|]. apply not_eq_sym. by eapply Hdiff.
  - intros q nd Hq Hno. rewrite lookup_insert_ne.
    + rewrite lookup_delete_ne; [done|]. intros E. subst q. rewrite Hi in Hq. simplify_eq. by destruct (Hno i).
    + intros E. subst q. destruct nd; [done|by destruct (Hno ino)|by destruct (Hndb ino)].
  - intros m c _ _ _ _ Hm. rewrite lookup_insert_ne by done. rewrite lookup_delete_ne; [done|]. by rewrite Htmp.
  - intros m k Hm HLk. unfold bucket_db; cbn. rewrite lookup_insert_ne by done. rewrite lookup_delete_ne; [done|]. rewrite Htmp. apply upload_not_db.
  - intros m k s Hm HLk. rewrite lookup_insert_ne.
    + rewrite lookup_delete_ne; [done|]. by rewrite Htmp.
    + intros [En Es]%blob_path_inj. subst. destruct (ok_handles _ (wok_proc _ Hok) _ _ Hb) as (_ & _ & _ & Hreg).
      destruct (Hreg Ho) as [Hreg' _]. congruence.
Qed.

(** The tables of the locked bucket are replaced. *)
Lemma moves_commit w h n i tx :
  world_ok w → is_open w h n → handles w !! h = Some (mkBucket n [n] i true) → commit_mu h ∈ L →
  mv w (set_dbs (insert i tx) w).
Proof.
  intros Hok Ho Hh HL. destruct (is_open_facts _ _ _ Hok Ho) as (i' & d & Hh' & Hreg & _ & Ht & _).
  rewrite Hh in Hh'. injection Hh' as <-. destruct (moves_refl L X N w). keeping.
  intros m k Hm HLk. unfold bucket_db; cbn. destruct (tree w !! db_path m) as [[|j|j]|] eqn:Ej; try done.
  rewrite lookup_insert_ne; [done|]. intros <-.
  pose proof (ok_db_inj _ (wok_disk _ Hok) _ _ _ Ej Ht) as E. unfold db_path in E. injection E as ->. congruence.
Qed.

(** A blob of the locked bucket is removed, or the file of an owned writer. *)
Lemma moves_remove_blob w h n sha :
  world_ok w → is_open w h n → commit_mu h ∈ L → (∀ nd, tree w !! blob_path n sha = Some nd → ∃ i, nd = NFile i) →
  mv w (set_tree (delete (blob_path n sha)) w).
Proof.
  intros Hok Ho HL Hfile. destruct (is_open_facts _ _ _ Hok Ho) as (i & d & _ & Hreg & _).
  apply (moves_tree _ _ _ _ w (blob_path n sha)); [done|..].
  - intros q Hq. by rewrite lookup_delete_ne.
  - intros nd Hnd Hno. destruct (Hfile _ Hnd) as [j ->]. by destruct (Hno j).
  - intros q bw Hbw _ E. destruct (writer_bucket _ _ _ Hok Hbw) as (b & _ & _ & _ & Htmp). by rewrite Htmp in E.
  - done.
  - intros m k s [-> ->]%blob_path_inj Hk. congruence.
  - done.
Qed.

Lemma moves_remove_temp w p bw :
  world_ok w → p ∈ X → writers w !! p = Some bw → (∀ nd, tree w !! w_tmp bw = Some nd → ∃ i, nd = NFile i) →
  mv w (set_tree (delete (w_tmp bw)) w).
Proof.
  intros Hok Hp Hbw Hfile. destruct (writer_bucket _ _ _ Hok Hbw) as (b & _ & _ & _ & Htmp).
  apply (moves_tree _ _ _ _ w (w_tmp bw)); [done|..].
  - intros q Hq. by rewrite lookup_delete_ne.
  - intros nd Hnd Hno. destruct (Hfile _ Hnd) as [j ->]. by destruct (Hno j).
  - intros q bw' Hq HX E. destruct (writer_bucket _ _ _ Hok Hq) as (b2 & _ & _ & _ & Htmp').
    rewrite Htmp, Htmp' in E. apply upload_path_inj in E as [_ E]. apply HX.
    replace q with p; [done|]. by eapply (ok_writers_inj _ (wok_proc _ Hok)).
  - intros n c E. rewrite Htmp in E. done.
  - intros n h s E. rewrite Htmp in E. done.
  - intros n h E. rewrite Htmp in E. done.
Qed.

(** A bucket gets its database, and its tables their first row. *)
Lemma moves_new_db w n :
  world_ok w → n ∈ N → tree w !! db_path n = None →
  mv w (set_next (S (next w)) (set_dbs (insert (next w) empty_database) (set_tree (insert (db_path n) (NDb (next w))) w))).
Proof.
  intros Hok Hn Hnone.
  assert (∀ m h, buckets w !! m = Some h → m ≠ n) as Hreg.
  { intros m h Hm ->. destruct (is_open_facts w h n Hok) as (i & d & _ & _ & _ & Ht & _); [by apply is_open_registered|]. congruence. }
  assert (mv w (set_tree (insert (db_path n) (NDb (next w))) w)) as Hm.
  { apply (moves_tree _ _ _ _ w (db_path n)); [done|..].
    - intros q Hq. by rewrite lookup_insert_ne.
    - intros nd Hnd. congruence.
    - intros q bw Hbw _ E. destruct (writer_bucket _ _ _ Hok Hbw) as (b & _ & _ & _ & Htmp). by rewrite Htmp in E.
    - intros m c E HmN. unfold db_path in E. by simplify_eq.
    - done.
    - intros m h E Hh. unfold db_path in E. simplify_eq. by destruct (Hreg m h). }
  destruct Hm. keeping; cbn; [lia|].
  intros m h Hm HLh. rewrite <- (mo_db0 m h) by done. unfold bucket_db; cbn.
  destruct (is_open_facts w h m Hok) as (i & d & _ & _ & _ & Ht & Hd & _); [by apply is_open_registered|].
  rewrite lookup_insert_ne by (intros E; unfold db_path in E; simplify_eq; by destruct (Hreg m h)). rewrite Ht.
  rewrite lookup_insert_ne; [done|]. destruct (ok_dbs _ (wok_disk _ Hok) _ _ Hd). lia.
Qed.

Lemma moves_bucket_info w n i t :
  world_ok w → buckets w !! n = None → tree w !! db_path n = Some (NDb i) →
  mv w (set_dbs (alter (sql_insert_bucket_info t) i) w).
Proof.
  intros Hok Hn Ht. destruct (moves_refl L X N w). keeping.
  intros m h Hm _. unfold bucket_db; cbn. destruct (tree w !! db_path m) as [[|j|j]|] eqn:Ej; try done.
  rewrite lookup_alter_ne; [done|]. intros <-.
  pose proof (ok_db_inj _ (wok_disk _ Hok) _ _ _ Ej Ht) as E. unfold db_path in E. injection E as ->. congruence.
Qed.

Lemma moves_register w n b :
  handles w !! next w = None → buckets w !! n = None →
  mv w (set_buckets (insert n (next w)) (set_handles (insert (next w) b) (set_next (S (next w)) w))).
Proof.
  intros Hh Hn. destruct (moves_refl L X N w). keeping; cbn; [lia|by apply insert_subseteq..].
Qed.
End steps.
