(* ===== verification/StoreSteps.v ===== *)
(** Each step of the programs of [StoreProgs]: what it returns, that it keeps the
    invariant, and that it moves the world only as [moves] allows. *)

From S2P Require Import Prelude Errors GoMonad Pool GoStd Types Names Hash Database World Bucket Store BlobWriter Outcomes StoreInv Triple StoreSafe StoreOps ObjectOps WriterOps Frame StoreProgs StoreMoves.
From stdpp Require Import options.

(** ** Steps that only use up verdicts of the environment *)
Abbreviation hushed m := (∀ w0, yields (quiet w0) m (λ _, True)).

Lemma hush_external {A} e (step : M world A) w0 :
  yields (quiet w0) step (λ _, True) → yields (quiet w0) (external e nothing step) (λ _, True).
Proof.
  intros Hs w Hw.
  assert (∀ v fs, faults w = v :: fs → quiet w0 (set_faults fs w)) as Hq.
  { intros v fs Hf. eapply quiet_trans; [exact Hw|]. exists fs. split; [|done]. rewrite Hf. done. }
  unfold wp, external. destruct (faults w) as [|[|n keep|n keep] fs] eqn:Hf.
  - by apply Hs.
  - by eapply Hs, Hq.
  - split; [by eapply Hq|done].
  - split; [by eapply Hq|done].
Qed.
(** A step that only looks. *)
Lemma hush_look {A} w0 (f : world → outcome A * world) : (∀ w, (f w).2 = w) → yields (quiet w0) f (λ _, True).
Proof. intros Hf w Hw. unfold wp. rewrite Hf. by destruct (f w).1. Qed.

Ltac hush_step :=
  lazymatch goal with
  | |- yields _ (bind get _) _ => apply yields_get; intros
  | |- yields _ (bind _ _) _ => eapply (yields_bind _ _ _ (λ _, True)); [|intros]
  | |- yields _ (try _) _ => apply yields_try; [|done]
  | |- yields _ (ret _) _ => by apply yields_ret
  | |- yields _ (throw _) _ => apply yields_throw
  | |- yields _ (gets _) _ => by apply hush_look
  | |- yields _ time_Now _ => by apply hush_look
  | |- yields _ (load_bucket _) _ => apply hush_look; intros; unfold load_bucket; by case_match
  | |- yields _ (db_Begin _) _ => unfold db_Begin
  | |- yields _ (db_Query _ _) _ => apply hush_external, hush_look; intros; by case_match
  | |- yields _ (tx_Exec _ _) _ => by apply hush_external, hush_look
  | |- yields _ (tx_QueryRow _ _) _ => by apply hush_external, hush_look
  | |- yields _ (os_Stat _) _ => apply hush_external, hush_look; intros; by case_match
  | |- yields _ (os_Open _) _ => apply hush_external, hush_look; intros; by repeat case_match
  | |- yields _ file_Sync _ => by apply hush_external, hush_look
  | |- yields _ file_Close _ => by apply hush_external, hush_look
  | |- yields _ (match ?x with _ => _ end) _ => destruct x
  end.
Ltac hush := repeat hush_step.

Lemma hush_scan w0 b name row : yields (quiet w0) (scan b name row) (λ _, True).
Proof. unfold scan. hush. Qed.
Lemma hush_getObject h name : hushed (getObject h name).
Proof. intros w0. unfold getObject. hush. apply hush_scan. Qed.
Lemma hush_info h : hushed (info h).
Proof. intros w0. unfold info. hush. Qed.
Lemma hush_tx_existing b name tx : hushed (tx_existing b name tx).
Proof. intros w0. unfold tx_existing. hush. apply hush_scan. Qed.
Lemma hush_decrefBlob tx sha : hushed (decrefBlob tx sha).
Proof. intros w0. unfold decrefBlob. hush. Qed.
Lemma hush_delete_plan b name conds tx : hushed (delete_plan b name conds tx).
Proof. intros w0. unfold delete_plan. hush; [apply hush_tx_existing|apply hush_decrefBlob]. Qed.
Lemma hush_commit_plan b bw name opts tx : hushed (commit_plan b bw name opts tx).
Proof.
  intros w0. unfold commit_plan, Checksums. hush; [apply hush_tx_existing|].
  unfold commit_statements. hush; apply hush_decrefBlob.
Qed.

(** What is known of the result of a hushed call. *)
Lemma hushed_triple {A} w (m : M world A) Q (E : error → world → Prop) C :
  hushed m → triple w m Q E C → triple w m (λ a w', Q a w' ∧ quiet w w') (λ e w', E e w' ∧ quiet w w') (λ _, True).
Proof.
  intros Hm Ht. pose proof (wp_conj _ _ _ _ Ht (Hm w w (quiet_refl w))) as H. eapply wp_mono; [exact H|].
  intros [] w'; cbn; naive_solver.
Qed.
(** And of its errors. *)
Lemma triple_fails {A} w (m : M world A) P Q (E : error → world → Prop) C :
  fails_with P m → triple w m Q E C → triple w m Q (λ e w', P e ∧ E e w') C.
Proof.
  intros Hm Ht. unfold triple, wp in *. specialize (Hm w). destruct (m w) as [[] w']; cbn in *; done.
Qed.

(** *** Transactions *)

Definition known_blobs (w : world) (n : string) (tx : database) : Prop :=
  ∀ sha, is_Some (blobs tx !! sha) → is_Some (blob_content w n sha).

(** The preconditions do not hold of the live version. *)
Definition denied (n name : string) (conds : Conditions) (t : gmap string objectRow) : Prop :=
  ∃ existing, reads n name t existing ∧ check conds existing ≠ None.

Lemma step_tx_existing w b n name d :
  world_ok w → b_name b = n → tables w n = Some (objects d) →
  triple w (tx_existing b name d) (λ existing w', quiet w w' ∧ reads n name (objects d) existing)
    (λ e w', quiet w w' ∧ plain e ∧ failing w) (λ _, True).
Proof.
  intros Hok Hb Ht. eapply triple_mono;
    [eapply hushed_triple; [intros; apply hush_tx_existing|eapply triple_fails; [apply fails_tx_existing|
       apply (triple_tx_existing same_tables w w b n name d (λ existing _, reads n name (objects d) existing) (object_corrupt w n name))]]|..]; try done.
  - apply kept_refl.
  - by intros existing w' [? ?].
  - intros e w' [[? (_ & _ & _ & [?|Hc])] ?]; [done|]. by destruct (not_corrupt w n name e).
Qed.

(** A call that fails plainly and leaves the world alone. *)
Lemma plain_triple {A} w (m : M world A) (Q : A → world → Prop) R :
  hushed m → fails_with plain m → triple w m Q (E_rel same_tables w R) (C_rel same_tables w) →
  triple w m (λ a w', quiet w w' ∧ Q a w') (λ e w', quiet w w' ∧ plain e ∧ (failing w ∨ R e)) (λ _, True).
Proof.
  intros Hh Hf Hm. eapply triple_mono; [eapply hushed_triple; [done|by eapply triple_fails]|..|done].
  - by intros a w' [? ?].
  - by intros e w' [[? (_ & _ & _ & ?)] ?].
Qed.

Lemma step_delete_plan w b n name conds d :
  world_ok w → b_name b = n → bucket_db w n = Some d → initialized d → tables w n = Some (objects d) →
  triple w (delete_plan b name conds d)
    (λ '(tx, orphan) w', quiet w w' ∧ db_ok tx ∧ initialized tx ∧ deletes name conds n (objects d) (objects tx) ∧
       known_blobs w n tx ∧ ∀ sha, orphan = Some sha → blobs tx !! sha = None)
    (λ e w', quiet w w' ∧ (plain e ∧ failing w ∨ e = ErrPreconditionFailed ∧ denied n name conds (objects d) ∨
       e = ErrObjectNotFound ∧ objects d !! name = None)) (λ _, True).
Proof.
  intros Hok Hb Hd Hi Ht. unfold delete_plan. tsteps.
  eapply triple_mono; [by apply step_tx_existing|..|done]; [|by intros e w' [? ?]; auto].
  intros existing w1 [Hq1 Hr]. destruct (check conds existing) as [e|] eqn:Hc.
  { apply triple_throw. split; [done|]. right. left. destruct (check_cases conds existing); [congruence|].
    split; [congruence|]. exists existing. split; [done|congruence]. }
  unfold reads in Hr. destruct (objects d !! name) as [r|] eqn:Hrow, existing as [o|]; try done.
  2: { apply triple_throw. split; [done|]. auto. }
  pose proof (scanObject_sha _ _ _ _ Hr) as Hsha.
  pose proof (delete_tx_facts w n d name r Hok Hd Hi Hrow) as Hfacts.
  eapply triple_mono; [apply (plain_triple w1 _ (λ r' _, r' = let d' := delete_tx name r d in (d'.1, if d'.2 : bool then Some (oi_SHA256 o) else None)) (λ _, False))|..|done].
  - intros w0. hush. apply hush_decrefBlob.
  - fails. apply fails_decrefBlob.
  - assert (world_ok w1) as Hok1 by by eapply quiet_ok. tsteps. apply triple_tx_Exec; [|tfault..]. intros w2 Hq2. tsteps.
    apply (triple_decrefBlob same_tables w1 w2); [by eapply quiet_ok|auto with quiet|]. intros w3 _ _. rewrite Hsha.
    change (decref (r_sha256 r) (sql_delete_object name d)) with (delete_tx name r d). by destruct (delete_tx name r d).
  - intros [tx orphan] w3 [Hq3 E]. destruct (delete_tx name r d) as [tx' orphan']. cbn in E. injection E as -> ->.
    destruct Hfacts as (Htx & Horph & Hti & Hobj & Hst).
    split_and!; [by eapply quiet_trans|done|done|by exists r, o|done|].
    intros sha. destruct orphan'; [|done]. intros [= <-]. rewrite Hsha. by apply Horph.
  - intros e w3 (Hq3 & He & [Hf|[]]). split; [by eapply quiet_trans|left]. split; [done|]. by eapply calm_failing; [apply quiet_calm|].
Qed.

Lemma step_commit_plan w b bw n name opts d :
  world_ok w → b_name b = n → bucket_db w n = Some d → initialized d → tables w n = Some (objects d) →
  validObjectName name = true → is_Some (blob_content w n (sha_hex (w_sha bw))) →
  w_md5h bw = w_sha bw → w_crc bw = w_sha bw → w_size bw = int64 (Z.of_nat (length (w_sha bw))) →
  triple w (commit_plan b bw name opts d)
    (λ '(tx, (oi, orphan)) w', quiet w w' ∧ db_ok tx ∧ initialized tx ∧ commits n name (w_sha bw) opts oi (objects d) (objects tx) ∧
       known_blobs w n tx ∧ ∀ sha, orphan = Some sha → blobs tx !! sha = None)
    (λ e w', quiet w w' ∧ (plain e ∧ failing w ∨ e = ErrPreconditionFailed ∧ denied n name (po_Conditions opts) (objects d))) (λ _, True).
Proof.
  intros Hok Hb Hd Hi Ht Hname Hblob Hmd Hcrc Hsz. unfold commit_plan, Checksums. rewrite Hmd, Hcrc, Hsz. fold (sha_hex (w_sha bw)). tsteps.
  eapply triple_mono; [by apply step_tx_existing|..|done]; [|by intros e w' [? ?]; auto].
  intros existing w1 [Hq1 Hr]. destruct (check (po_Conditions opts) existing) as [e|] eqn:Hc.
  { apply triple_throw. split; [done|]. right. destruct (check_cases (po_Conditions opts) existing); [congruence|].
    split; [congruence|]. exists existing. split; [done|congruence]. }
  tsteps. set (t := now w1). change (new_row _ _ _ _ _ _ _ _) with (committed_row existing (w_sha bw) opts t).
  pose proof (commit_tx_facts w n d name (committed_row existing (w_sha bw) opts t) Hok Hd Hi (committed_row_ok _ _ _ _ _ Hname) Hblob) as Hfacts.
  assert (world_ok w1) as Hok1 by by eapply quiet_ok.
  eapply triple_mono; [apply (plain_triple w1 _ (λ r' _, r' = commit_tx name (committed_row existing (w_sha bw) opts t) d) (λ _, False))|..|done].
  - intros w0. unfold commit_statements. hush; apply hush_decrefBlob.
  - apply fails_commit_statements.
  - by apply (triple_commit_statements same_tables w1 w1 n); [done|apply kept_refl|..].
  - intros [tx orphan] w3 [Hq3 E]. rewrite <- E in Hfacts. destruct Hfacts as (Htx & Hti & Hobj & Hst & Horph). apply triple_ret.
    rewrite Hb. split_and!; [by eapply quiet_trans|done|done|by exists existing, t|done|done].
  - intros e w3 (Hq3 & He & [Hf|[]]). split; [by eapply quiet_trans|left]. split; [done|]. by eapply calm_failing; [apply quiet_calm|].
Qed.

(** *** Queries *)

Lemma step_Begin w h n :
  world_ok w → is_open w h n →
  triple w (db_Begin h) (λ d w', quiet w w' ∧ bucket_db w n = Some d ∧ initialized d ∧ tables w n = Some (objects d))
    (λ e w', quiet w w' ∧ plain e ∧ failing w) (λ _, True).
Proof.
  intros Hok Ho. destruct (is_open_facts _ _ _ Hok Ho) as (i & d & _ & _ & _ & _ & _ & Hi & Hd & Hq & Ht).
  eapply triple_mono; [eapply triple_fails; [apply fails_Begin|]|..].
  - apply (triple_db_Query w h (λ d, d) (λ d w', quiet w w' ∧ bucket_db w n = Some d ∧ initialized d ∧ tables w n = Some (objects d))
      (λ _ w', quiet w w' ∧ failing w) (λ _, True)); [| |done].
    + intros w' d' Hq' Hd'. replace d' with d by congruence. done.
    + intros e w' Hq' [?|[_ ?]]; [done|congruence].
  - done.
  - by intros e w' [? [? ?]].
  - done.
Qed.

Lemma step_info w h n :
  world_ok w → is_open w h n →
  triple w (info h) (λ bi w', quiet w w' ∧ bi_Name bi = n) (λ e w', quiet w w' ∧ plain e ∧ failing w) (λ _, True).
Proof.
  intros Hok Ho. destruct (is_open_facts _ _ _ Hok Ho) as (i & d & Hh & _ & _ & _ & _ & [[c m] Hi] & _ & Hd & _).
  unfold info. tsteps. eapply triple_load_bucket; [exact Hh|]. tsteps.
  eapply triple_mono; [eapply triple_fails; [apply fails_db_Query|]|..].
  - apply (triple_db_Query w h bucket_info (λ r w', quiet w w' ∧ r = Some (c, m)) (λ _ w', quiet w w' ∧ failing w) (λ _, True)); [| |done].
    + intros w' d' Hq' Hd'. replace d' with d by congruence. done.
    + intros e w' Hq' [?|[_ ?]]; [done|congruence].
  - intros r w' [Hq ->]. by apply triple_ret.
  - intros e w' [He [Hq ?]]. split; [done|]. by destruct He as [-> | ->].
  - done.
Qed.

Lemma step_getObject w h n name :
  world_ok w → is_open w h n →
  triple w (getObject h name) (λ oi w', quiet w w' ∧ has_object w n name oi)
    (λ e w', quiet w w' ∧ (plain e ∧ failing w ∨ e = ErrObjectNotFound ∧ ∃ t, tables w n = Some t ∧ t !! name = None)) (λ _, True).
Proof.
  intros Hok Ho. destruct (is_open_facts _ _ _ Hok Ho) as (i & d & Hh & _ & _ & _ & _ & _ & _ & Hd & Ht).
  unfold getObject. tsteps. eapply triple_load_bucket; [exact Hh|]. tsteps.
  eapply triple_mono; [eapply triple_fails; [apply fails_db_Query|]|..].
  - apply (triple_db_Query w h (λ d, objects d !! name) (λ r w', quiet w w' ∧ r = objects d !! name) (λ _ w', quiet w w' ∧ failing w) (λ _, True)); [| |done].
    + intros w' d' Hq' Hd'. replace d' with d by congruence. done.
    + intros e w' Hq' [?|[_ ?]]; [done|congruence].
  - intros r w' [Hq ->]. pose proof (fails_scan (mkBucket n [n] i true) name (objects d !! name) w') as Hf. unfold scan in *. cbn [b_name] in *.
    destruct (objects d !! name) as [row|] eqn:Hrow.
    + destruct (scanObject n name row) as [e|oi] eqn:Hs; tsteps.
      * destruct (not_corrupt w n name e Hok). by exists (objects d), row.
      * split; [done|]. by exists (objects d), row.
    + tsteps. split; [done|]. right. split; [done|]. by exists (objects d).
  - intros e w' [He [Hq ?]]. cbn beta iota. assert (plain e ∧ errors_Is e ErrNoRows = false) as [Hp ->] by (by destruct He as [-> | ->]).
    apply triple_throw. auto.
  - done.
Qed.

Lemma step_Stat w p :
  triple w (os_Stat p) (λ nd w', quiet w w' ∧ tree w !! p = Some nd)
    (λ e w', quiet w w' ∧ plain e ∧ (failing w ∨ tree w !! p = None)) (λ _, True).
Proof.
  eapply triple_mono; [eapply triple_fails; [apply fails_Stat|]|..].
  - apply (triple_os_Stat w p (λ nd w', quiet w w' ∧ tree w !! p = Some nd) (λ _ w', quiet w w' ∧ (failing w ∨ tree w !! p = None)) (λ _, True));
      [done| |done]. intros e w' Hq [?|[_ ?]]; auto.
  - done.
  - by intros e w' [? [? ?]].
  - done.
Qed.

(** The blob of an object is opened: if it is there, its content has the hash. *)
Lemma step_open_blob w n sha :
  world_ok w →
  triple w (os_Open (blob_path n sha))
    (λ f w', quiet w w' ∧ tree w !! blob_path n sha = Some (NFile f) ∧ ∃ c, files w !! f = Some c ∧ sha_hex c = sha)
    (λ e w', quiet w w') (λ _, True).
Proof.
  intros Hok. apply triple_os_Open; [|done..]. intros w' f Hq Hf. split_and!; [done..|].
  destruct (ok_file _ (wok_disk _ Hok) _ _ Hf) as [_ [c Hc]]. exists c. split; [done|]. by eapply (ok_hash _ (wok_disk _ Hok)).
Qed.

(** ** The steps *)
Section steps.
Context (L : list nat) (X : gset nat) (N : gset string).
Abbreviation mv := (moves L X N).

(** The invariant holds again, and the step was allowed. *)
Definition goes (w w' : world) : Prop := world_ok w' ∧ mv w w'.

Lemma goes_quiet w w' : world_ok w → quiet w w' → goes w w'.
Proof. intros Hok Hq. split; [by eapply quiet_ok|by apply moves_quiet]. Qed.

(** A hushed call. *)
Lemma step_hushed {A} w (m : M world A) Q (E : error → world → Prop) C :
  world_ok w → hushed m → triple w m Q E C →
  triple w m (λ a w', Q a w' ∧ quiet w w' ∧ goes w w') (λ e w', E e w' ∧ quiet w w' ∧ goes w w') (λ _, True).
Proof.
  intros Hok Hm Ht. eapply triple_mono; [by eapply hushed_triple|..|done];
    [intros a w' [? ?]|intros e w' [? ?]]; split_and!; try done; by apply goes_quiet.
Qed.

Lemma goes_after w w1 w2 : world_ok w → allocated X w → mv w w1 → goes w1 w2 → goes w w2.
Proof. intros Hok Ha Hm [? ?]. split; [done|by eapply moves_trans]. Qed.
Lemma goes_quietly w w1 w2 : quiet w w1 → goes w1 w2 → goes w w2.
Proof. intros Hq [? ?]. split; [done|by eapply quiet_moves]. Qed.

(** [os.Mkdir] in the layout of a bucket. *)
Lemma step_Mkdir w n rest :
  world_ok w → layout rest NDir → (rest ≠ [] → n ∈ N ∨ tree w !! db_path n ≠ None) →
  triple w (os_Mkdir (n :: rest))
    (λ _ w', goes w w' ∧ same_tables w w' ∧ tree w !! (n :: rest) = None ∧ ∃ w1, quiet w w1 ∧ w' = set_tree (insert (n :: rest) NDir) w1)
    (λ e w', goes w w' ∧ same_tables w w' ∧
       (failing w ∨ e = SysErr EEXIST ∧ is_Some (tree w !! (n :: rest)) ∨ is_dir (tree w) (parent (n :: rest)) = false))
    (λ _, True).
Proof.
  intros Hok Hl Hb. apply triple_os_Mkdir; [| |done].
  2: { intros e w' Hq Hr. split; [by apply goes_quiet|]. split; [by apply quiet_same_tables|]. destruct Hr as [?|[[]|(_ & _ & ?)]]; auto. }
  intros w1 Hq Hnone Hdir. assert (world_ok w1) as Hok1 by eauto with quiet. assert (tree w1 = tree w) as Ht by (by destruct Hq as (fs & _ & ->)).
  split_and!; [|intros m|done|by eexists].
  - eapply goes_quietly; [exact Hq|]. split; [|by apply moves_mkdir; rewrite ?Ht].
    apply world_ok_mkdir; rewrite ?Ht; [done..|]. intros m r Er. by simplify_eq.
  - rewrite <- (quiet_same_tables _ _ Hq m). unfold tables, bucket_db; cbn. destruct (validBucketName m); [|done].
    rewrite lookup_insert_ne; [done|]. intros E'. unfold db_path in E'. simplify_eq. inversion Hl.
Qed.

(** *** Opening a bucket *)

Lemma step_exec_schema w n :
  world_ok w → validBucketName n = true → is_dir (tree w) [n] = true → (tree w !! db_path n = None → n ∈ N) →
  triple w (exec_schema (data_sqlite [n]))
    (λ i w', goes w w' ∧ buckets w' = buckets w ∧ tree w' !! db_path n = Some (NDb i))
    (λ _ w', goes w w') (λ _, True).
Proof.
  intros Hok Hn Hdir HN. apply triple_call; [|intros; by apply goes_quiet|done]. intros w1 Hq.
  assert (world_ok w1) as Hok1 by eauto with quiet.
  assert (tree w1 = tree w ∧ buckets w1 = buckets w) as [Ht Hb] by (by destruct Hq as (fs & _ & ->)).
  unfold triple, wp, exec_schema. change (data_sqlite [n]) with (db_path n).
  destruct (tree w1 !! db_path n) as [nd|] eqn:E.
  - destruct (db_node _ _ _ Hok1 Hn E) as (i & d & -> & _). cbn. split_and!; [by apply goes_quiet|done..].
  - change (parent (db_path n)) with [n]. rewrite Ht, Hdir. cbn. split_and!; [|done|cbn; apply lookup_insert_eq].
    eapply goes_quietly; [exact Hq|]. split; [apply world_ok_new_db; [done|done|by rewrite Ht]|].
    apply moves_new_db; [done|apply HN; congruence|done].
Qed.

Lemma Store_openBucket_moves w n :
  world_ok w → validBucketName n = true → is_dir (tree w) [n] = true → (tree w !! db_path n = None → n ∈ N) → allocated X w →
  triple w (Store_openBucket n) (λ _ w', mv w w') (λ _ w', mv w w') (λ _, True).
Proof.
  intros Hok Hn Hdir HN Hal. unfold Store_openBucket. tstep.
  destruct (buckets w !! n) as [h|] eqn:Hb; [apply triple_ret, moves_refl|].
  assert (∀ w1 w2, mv w w1 → quiet w1 w2 → mv w w2) as Hthen.
  { intros w1 w2 Hm Hq. eapply moves_trans; [done..|by apply moves_quiet]. }
  assert (∀ w1 (e : error) (Q : nat → world → Prop), mv w w1 →
    triple w1 (let* _ := ignore (sqlcall (ret tt)) in throw e) Q (λ _ w', mv w w') (λ _, True)) as Hclose.
  { intros w1 e Q Hm. tsteps; apply triple_ret_call; try done; intros; tsteps; by eapply Hthen. }
  unfold openBucket. tsteps. apply triple_ret_call; [|intros; tsteps; by apply moves_quiet|done]. intros w1 Hq1. tsteps.
  assert (world_ok w1 ∧ tree w1 = tree w ∧ buckets w1 = buckets w) as (Hok1 & Ht1 & Hb1).
  { split; [eauto with quiet|]. by destruct Hq1 as (fs & _ & ->). }
  assert (mv w w1) as Hm1 by by apply moves_quiet.
  eapply triple_mono; [apply step_exec_schema; rewrite ?Ht1; done|..|done].
  2: { intros e w2 [_ Hm2]. apply Hclose. by eapply moves_trans. }
  intros i w2 ([Hok2 Hm2] & Hb2 & Ht2). assert (mv w w2) as Hm02 by by eapply moves_trans. tsteps.
  apply triple_call; [|intros w3 Hq3 _; by eapply Hclose, Hthen|done].
  intros w3 Hq3. assert (world_ok w3) as Hok3 by eauto with quiet.
  assert (tree w3 = tree w2 ∧ buckets w3 = buckets w2) as [Ht3 Hb3] by (by destruct Hq3 as (fs & _ & ->)).
  assert (buckets w3 !! n = None) as Hnone by by rewrite Hb3, Hb2, Hb1.
  assert (mv w w3) as Hm3 by by eapply Hthen.
  apply triple_modify. tsteps.
  pose proof (moves_bucket_info L X N w3 n i (UnixMicro_of (now w2)) Hok3 Hnone ltac:(by rewrite Ht3)) as Hm4.
  eapply moves_trans; [done..|exact Hm3|]. eapply moves_trans; [exact Hok3|by apply (allocated_next X w); [apply Hm3|]|exact Hm4|].
  apply moves_register; [|done]. cbn. destruct (handles w3 !! next w3) as [b|] eqn:E; [|done].
  destruct (ok_handles _ (wok_proc _ Hok3) _ _ E) as (_ & ? & _). lia.
Qed.

Lemma step_openBucket w n :
  world_ok w → validBucketName n = true → is_dir (tree w) [n] = true → (tree w !! db_path n = None → n ∈ N) → allocated X w →
  triple w (Store_openBucket n)
    (λ h w', goes w w' ∧ opened n w w' ∧ is_open w' h n) (λ _ w', goes w w' ∧ opened n w w' ∧ failing w) (λ _, True).
Proof.
  intros Hok Hn Hdir HN Hal. pose proof (Store_openBucket_moves w n Hok Hn Hdir HN Hal) as Hm.
  pose proof (triple_Store_openBucket w n (λ h w', world_ok w' ∧ opened n w w' ∧ is_open w' h n) (λ _, False) Hok Hn Hdir
    ltac:(by intros)) as Ht.
  pose proof (wp_conj _ _ _ _ Hm Ht) as H. eapply wp_mono; [exact H|].
  intros [h|e|x| |] w'; cbn; unfold goes; [naive_solver|intros [? (? & ? & _ & [?|[]])]; auto|naive_solver..].
Qed.

(** *** Writers *)

Lemma with_writer_moves w h n : world_ok w → allocated X w → validBucketName n = true → mv w (with_writer h n w).
Proof.
  intros Hok Hal Hn. unfold with_writer. set (w1 := with_temp (upload_path n (next w)) w).
  set (bw := mkBlobWriter _ _ _ _ _ _ _ _). change (mv w (set_next (S (next w1)) (set_writers (insert (next w1) bw) w1))).
  apply (moves_trans _ _ _ w (set_writers (insert (next w1) bw) w1)); [done|done| |apply moves_next; cbn; lia].
  apply moves_new_writer; [by apply moves_temp|done|done].
Qed.

Lemma step_new_writer w h n :
  world_ok w → is_open w h n → allocated X w →
  triple w (new_writer h)
    (λ p w', goes w w' ∧ same_tables w w' ∧ next w ≤ p < next w' ∧
       ∃ bw, writing w' p bw ∧ w_sha bw = [] ∧ w_b bw = h)
    (λ e w', plain e ∧ goes w w' ∧ same_tables w w' ∧ (failing w ∨ no_tmp_dir w n)) (λ _, True).
Proof.
  intros Hok Ho Hal. destruct (is_open_facts _ _ _ Hok Ho) as (i & d & Hh & _ & Hv & _).
  assert (triple w (new_writer h) (λ _ _, True) (λ e w', plain e ∧ quiet w w') (λ _, True)) as He.
  { unfold new_writer. tsteps. eapply triple_load_bucket; [exact Hh|]. tsteps.
    apply triple_fails; [fails|]. apply triple_os_CreateTemp; [by intros; tsteps|by intros|done]. }
  assert (triple w (new_writer h) (λ p w', goes w w' ∧ same_tables w w' ∧ next w ≤ p < next w' ∧
    ∃ bw, writing w' p bw ∧ w_sha bw = [] ∧ w_b bw = h) (E_rel same_tables w (λ _, no_tmp_dir w n)) (C_rel same_tables w)) as Ht.
  { apply (triple_new_writer same_tables w w h n); [done|apply kept_refl|done|done|].
    intros w1 p w' Hq Hok' Hk' Hw' _. assert (next w1 = next w) as Hn1 by (by destruct Hq as (fs & _ & ->)).
    assert (next w' = S (S (next w))) as Hn' by (unfold w'; cbn; by rewrite Hn1).
    split_and!; [|by destruct Hk'|lia|lia|by eexists]. split; [done|]. eapply quiet_moves; [exact Hq|].
    apply with_writer_moves; [by eapply quiet_ok|by eapply allocated_next; [|exact Hal]; lia|done]. }
  eapply wp_mono; [exact (wp_conj _ _ _ _ He Ht)|].
  intros [p|e|x| |] w'; cbn; [naive_solver| |naive_solver..]. intros [[Hp Hq] (_ & _ & _ & Hr)]. split_and!; [done|by apply goes_quiet..|by apply quiet_same_tables|done].
Qed.

(** A piece is written by the owner of the writer. *)
Lemma step_Write w p bw q :
  world_ok w → p ∈ X → writing w p bw →
  triple w (Write p q)
    (λ '(k, err) w', goes w w' ∧ same_tables w w' ∧ writing w' p (feed (take k q) bw) ∧
       (err = None → k = length q) ∧ ∀ e, err = Some e → plain e ∧ failing w)
    (λ _ _, False) (λ _, True).
Proof.
  intros Hok Hp [Hbw Hnd]. unfold Write. tsteps. eapply triple_load_writer; [exact Hbw|]. rewrite Hnd. tsteps.
  assert (∀ w1 k, quiet w w1 → goes w (fed p bw (take k q) w1) ∧ same_tables w (fed p bw (take k q) w1) ∧
    writing (fed p bw (take k q) w1) p (feed (take k q) bw)) as Hfed.
  { intros w1 k Hq. assert (world_ok w1) as Hok1 by eauto with quiet.
    assert (writers w1 !! p = Some bw) as Hbw1 by (by destruct Hq as (fs & _ & ->)).
    destruct (fed_ok w1 p bw (take k q) Hok1) as [Hok2 Hk2]; [by split|]. split_and!.
    - eapply goes_quietly; [exact Hq|]. split; [done|by apply moves_fed].
    - intros m. by rewrite (proj1 Hk2 m), (quiet_same_tables _ _ Hq m).
    - split; [|done]. cbn. by rewrite lookup_alter_eq, Hbw1. }
  assert (∀ w1 k (err : option error), quiet w w1 → k ≤ length q → (err = None → k = length q) → (∀ e, err = Some e → plain e ∧ failing w) →
    triple (set_files (alter (λ c, c ++ take k q) (w_ino bw)) w1)
      (if 0 <? k then let* _ := modify (set_writers (alter (feed (take k q)) p)) in ret (k, err) else ret (k, err))
      (λ '(k, err) w', goes w w' ∧ same_tables w w' ∧ writing w' p (feed (take k q) bw) ∧
         (err = None → k = length q) ∧ ∀ e, err = Some e → plain e ∧ failing w)
      (λ _ _, False) (λ _, True)) as Hrest.
  { intros w1 k err Hq Hle Herr Hpl. destruct (Hfed w1 k Hq) as (H1 & H2 & H3).
    destruct (Nat.ltb_spec 0 k); tsteps; [by split_and!|]. replace k with 0 in * by lia. cbn [take] in *.
    rewrite (fed_nil _ p); [by split_and!|by eapply quiet_ok|]. split; [|done]. by destruct Hq as (fs & _ & ->). }
  apply triple_file_Write; [| |done].
  - intros w1 Hq. pose proof (Hrest w1 (length q) None Hq) as H. rewrite firstn_all in H. cbn beta iota. rewrite firstn_all. by apply H.
  - intros w1 k Hq Hf. pose proof (Hrest w1 (length (take k q)) (Some (SysErr EIO)) Hq) as H. cbn beta iota.
    rewrite length_take, <- take_take, firstn_all in *. apply H; [lia|done|]. intros e [= <-]. done.
Qed.

Lemma step_done w p :
  world_ok w → p ∈ X → goes w (set_writers (alter set_done p) w).
Proof. intros Hok Hp. split; [by apply world_ok_done|by apply moves_writer]. Qed.

Lemma step_remove_temp w p bw :
  world_ok w → p ∈ X → writers w !! p = Some bw → w_done bw = true →
  triple w (os_Remove (w_tmp bw)) (λ _ w', goes w w' ∧ same_tables w w') (λ _ w', goes w w' ∧ same_tables w w') (λ _, True).
Proof.
  intros Hok Hp Hbw Hdone.
  assert (∀ w', quiet w w' → goes w w' ∧ same_tables w w') as Hquiet by (intros; split; [by apply goes_quiet|by apply quiet_same_tables]).
  destruct (writer_bucket _ _ _ Hok Hbw) as (b & _ & Hv & _ & Htmp).
  apply triple_os_Remove; [|auto..]. intros w1 nd Hq Hnd Hne.
  assert (world_ok w1 ∧ tree w1 = tree w ∧ writers w1 = writers w) as (Hok1 & Ht1 & Hw1).
  { split; [eauto with quiet|]. by destruct Hq as (fs & _ & ->). }
  assert (∀ nd, tree w !! w_tmp bw = Some nd → ∃ i, nd = NFile i) as Hfile.
  { intros nd' Hnd'. rewrite Htmp in Hnd'. pose proof (ok_layout _ (wok_disk _ Hok) _ _ _ Hv Hnd') as Hl. inversion Hl; subst. by eexists. }
  destruct (Hfile _ Hnd) as [i ->].
  destruct (remove_tmp_ok w1 p bw i) as [Hok2 Hk2]; [done|by rewrite Hw1|done|by rewrite Ht1|]. split.
  - eapply goes_quietly; [exact Hq|]. split; [done|]. apply (moves_remove_temp _ _ _ w1 p bw); [done|done|by rewrite Hw1|by rewrite Ht1].
  - intros m. by rewrite (proj1 Hk2 m), (quiet_same_tables _ _ Hq m).
Qed.

(** *** Under [commitMu] *)
Section locked.
Context (h : nat) (n : string).

(** A step that changes no object. *)
Definition unchanged (w w' : world) : Prop := goes w w' ∧ same_tables w w'.

Lemma step_mkdir_missing w rest :
  world_ok w → layout rest NDir → tree w !! db_path n ≠ None →
  triple w (mkdir_missing (n :: rest)) (λ _, unchanged w) (λ _, unchanged w) (λ _, True).
Proof.
  intros Hok Hl Hdb. assert (unchanged w w) as Hsame by (split; [apply goes_quiet; [done|apply quiet_refl]|done]).
  unfold mkdir_missing. tsteps. destruct (is_dir _ _); [by apply triple_ret|].
  destruct (tree w !! (n :: rest)); [by apply triple_throw|].
  eapply triple_mono; [by apply step_Mkdir; auto|..|done]; [by intros _ w' (? & ? & _)|by intros e w' (? & ? & _)].
Qed.

Lemma step_MkdirAll w sha i :
  world_ok w → allocated X w → validBucketName n = true → tree w !! db_path n = Some (NDb i) →
  triple w (os_MkdirAll (parent (blob_path n sha)))
    (λ _ w', goes w w' ∧ same_tables w w' ∧ more_dirs w w' ∧ is_dir (tree w') (parent (blob_path n sha)) = true)
    (λ _ w', goes w w' ∧ same_tables w w' ∧ failing w) (λ _, True).
Proof.
  intros Hok Hal Hv Hdb.
  assert (∀ w1 w2, unchanged w w1 → unchanged w1 w2 → unchanged w w2) as Htr.
  { intros w1 w2 [[_ H1] H2] [H3 H4]. split; [by eapply goes_after|by eapply same_tables_trans]. }
  assert (∀ w', unchanged w w' → tree w' !! db_path n ≠ None) as Hdb'.
  { intros w' [[_ H] _]. by rewrite (mo_nodes _ _ _ _ _ H _ _ Hdb). }
  assert (triple w (os_MkdirAll (parent (blob_path n sha))) (λ _, unchanged w) (λ _, unchanged w) (λ _, True)) as Hall.
  { change (parent (blob_path n sha)) with [n; "objects"; str_take 2 sha]. unfold os_MkdirAll. cbn [mkdir_all app]. tsteps.
    eapply triple_mono; [apply step_mkdir_missing; [done|constructor|by rewrite Hdb]|..|done]; [|done]. intros [] w1 H1. tsteps.
    eapply triple_mono; [apply step_mkdir_missing; [apply H1|constructor|by apply Hdb']|..|done]; [|intros e w2; by apply Htr]. intros [] w2 H2. tsteps.
    pose proof (Htr _ _ H1 H2) as H12.
    eapply triple_mono; [apply step_mkdir_missing; [apply H2|constructor|by apply Hdb']|..|done]; [|intros e w3; by apply Htr]. intros [] w3 H3. tsteps.
    by eapply Htr. }
  assert (triple w (os_MkdirAll (parent (blob_path n sha)))
    (λ _ w', more_dirs w w' ∧ is_dir (tree w') (parent (blob_path n sha)) = true)
    (E_rel same_tables w (λ _, False)) (C_rel same_tables w)) as Hd.
  { apply (triple_mkdir_blob same_tables w w n); [done|apply kept_refl|done|]. auto. }
  eapply wp_mono; [apply (wp_conj _ _ _ _ Hall Hd)|]. unfold unchanged, E_rel. intros [] w'; cbn; naive_solver.
Qed.

Lemma step_Rename w p bw :
  commit_mu h ∈ L → world_ok w → is_open w h n → p ∈ X → writers w !! p = Some bw → w_done bw = true → w_b bw = h → 
  triple w (os_Rename (w_tmp bw) (blob_path n (sha_hex (w_sha bw))))
    (λ _ w', goes w w' ∧ same_tables w w' ∧ is_Some (blob_content w' n (sha_hex (w_sha bw))))
    (λ _ w', goes w w' ∧ same_tables w w' ∧
       (failing w ∨ (∀ j, tree w !! w_tmp bw ≠ Some (NFile j)) ∨
        is_dir (tree w) (parent (blob_path n (sha_hex (w_sha bw)))) = false)) (λ _, True).
Proof.
  intros HL Hok Ho Hp Hbw Hdone Hwb.
  assert (∀ w', quiet w w' → goes w w' ∧ same_tables w w') as Hquiet by (intros; split; [by apply goes_quiet|by apply quiet_same_tables]).
  destruct (is_open_facts _ _ _ Hok Ho) as (i & d & Hh & _ & Hv & _).
  apply triple_os_Rename; [| |auto].
  2: { intros e w' Hq Hr. destruct (Hquiet w' Hq). split_and!; [done..|]. destruct Hr as [?|[?|[?|Hd]]]; auto.
       pose proof (ok_layout _ (wok_disk _ Hok) n _ _ Hv Hd) as Hl. inversion Hl. }
  intros w1 j Hq Hj Hdir Hdst.
  assert (world_ok w1 ∧ tree w1 = tree w ∧ writers w1 = writers w ∧ handles w1 = handles w) as (Hok1 & Ht1 & Hw1 & Hh1).
  { split; [eauto with quiet|]. by destruct Hq as (fs & _ & ->). }
  destruct (ok_writers _ (wok_proc _ Hok) _ _ Hbw) as (_ & _ & _ & _ & _ & _ & _ & _ & Hw2 & _).
  pose proof (Hw2 j Hj) as ->.
  destruct (renamed_ok w1 p bw (mkBucket n [n] i true)) as (Hok4 & Hk4 & Hc4 & Hdb4);
    [done|by rewrite Hw1|done|by rewrite Hh1, Hwb|by rewrite Ht1..|]. split_and!; [|intros m|exact Hc4].
  - eapply goes_quietly; [exact Hq|]. split; [done|].
    apply (moves_rename _ _ _ w1 p bw (mkBucket n [n] i true)); [done|done|by rewrite Hw1|by rewrite Hh1, Hwb|done|by rewrite Hwb|by rewrite Ht1..|].
    intros k Hk. rewrite Ht1 in Hk. pose proof (ok_layout _ (wok_disk _ Hok) n _ _ Hv Hk) as Hl. inversion Hl.
  - etrans; [exact (proj1 Hk4 m)|exact (quiet_same_tables _ _ Hq m)].
Qed.

Lemma step_tx_Commit w d tx :
  commit_mu h ∈ L → world_ok w → is_open w h n → bucket_db w n = Some d → db_ok tx → initialized tx →
  (∀ sha, is_Some (blobs tx !! sha) → is_Some (blob_content w n sha)) →
  triple w (tx_Commit h tx)
    (λ _ w', goes w w' ∧ is_open w' h n ∧ bucket_db w' n = Some tx ∧ tables w' n = Some (objects tx) ∧
       ∀ m, m ≠ n → tables w' m = tables w m)
    (λ _ w', goes w w' ∧ same_tables w w' ∧ failing w) (λ _, True).
Proof.
  intros HL Hok Ho Hd Htx Hi Hst.
  assert (∀ w', quiet w w' → goes w w' ∧ same_tables w w') as Hquiet by (intros; split; [by apply goes_quiet|by apply quiet_same_tables]).
  destruct (is_open_facts _ _ _ Hok Ho) as (i & d' & Hh & _).
  apply triple_tx_Commit; [| |auto].
  2: { intros e w' Hq [?|[_ Hc]]; [by destruct (Hquiet w' Hq)|]. by apply Hc in Hh. }
  intros w1 b Hq Hb _. rewrite Hh in Hb. injection Hb as <-. cbn [b_db].
  assert (world_ok w1) as Hok1 by eauto with quiet. assert (is_open w1 h n) as Ho1 by eauto with quiet.
  assert (handles w1 = handles w) as Hh1 by (by destruct Hq as (fs & _ & ->)).
  destruct (tx_Commit_ok w1 h n i tx) as (Hok2 & Ho2 & Hd2 & Ht2 & Hother); [done|done|by rewrite Hh1|done|done| |].
  { intros sha Hs. destruct Hq as (fs & _ & ->). by apply Hst. }
  split_and!; [|done|done|done|].
  - eapply goes_quietly; [exact Hq|]. split; [done|]. apply (moves_commit _ _ _ w1 h n); [done|done|by rewrite Hh1|done].
  - intros m Hm. by rewrite Hother, (quiet_same_tables _ _ Hq m).
Qed.

Lemma step_remove_blob w sha :
  commit_mu h ∈ L → world_ok w → is_open w h n → (∀ d, bucket_db w n = Some d → blobs d !! sha = None) →
  triple w (os_Remove (blob_path n sha)) (λ _ w', goes w w' ∧ same_tables w w') (λ _ w', goes w w' ∧ same_tables w w') (λ _, True).
Proof.
  intros HL Hok Ho Hneed.
  assert (∀ w', quiet w w' → goes w w' ∧ same_tables w w') as Hquiet by (intros; split; [by apply goes_quiet|by apply quiet_same_tables]).
  destruct (is_open_facts _ _ _ Hok Ho) as (_ & _ & _ & _ & Hv & _).
  apply triple_os_Remove; [|auto..]. intros w1 nd Hq Hnd Hne.
  assert (world_ok w1 ∧ tree w1 = tree w) as (Hok1 & Ht1).
  { split; [eauto with quiet|]. by destruct Hq as (fs & _ & ->). }
  destruct (remove_blob_ok w1 n sha nd) as (Hok2 & Hk2 & i & ->); [done|done|by rewrite Ht1|by destruct Hq as (fs & _ & ->)|]. split.
  - eapply goes_quietly; [exact Hq|]. split; [done|]. apply (moves_remove_blob _ _ _ w1 h n); [done|eauto with quiet|done|].
    intros nd Hnd'. rewrite Ht1 in Hnd'. exists i. congruence.
  - intros m. by rewrite (proj1 Hk2 m), (quiet_same_tables _ _ Hq m).
Qed.
End locked.
End steps.
