(* ===== verification/StoreSpec.v ===== *)
(** What concurrent calls of the store promise each other and their callers: the
    abstract store, which changes in single steps, one for each call that
    succeeds, and the protocol by which the calls share the world. *)

From S2P Require Import Prelude Errors GoMonad Pool GoStd Types Names Hash Database World Bucket Store BlobWriter Outcomes StoreInv Triple StoreSafe StoreOps ObjectOps WriterOps Frame Run Refine StoreProgs StoreMoves StoreSteps.
From stdpp Require Import options.
From stdpp Require Import relations.

(** ** The abstract store *)

(** What a call has seen or done, at one instant. *)
Inductive sdeed :=
  | SawBucket (n : string)
  | NoBucket (n : string)
  | SawObject (n name : string) (oi : ObjectInfo)
  | SawNone (n name : string)
  | Denied (n name : string) (conds : Conditions)
  | MadeBucket (n : string)
  | Stored (n name : string) (c : bytes) (opts : PutOptions) (oi : ObjectInfo)
  | Removed (n name : string) (conds : Conditions).

Record sspec := mkSSpec {
  ss_objects : astate;
  ss_deeds : gmap nat sdeed;
}.

Definition same_objects (o o' : astate) : Prop := ∀ n, o' n = o n.

(** The deed is possible: the objects before and after it. *)
Definition happens (d : sdeed) (o o' : astate) : Prop :=
  match d with
  | SawBucket n => is_Some (o n) ∧ same_objects o o'
  | NoBucket n => o n = None ∧ same_objects o o'
  | SawObject n name oi => (∃ t r, o n = Some t ∧ t !! name = Some r ∧ scanObject n name r = inr oi) ∧ same_objects o o'
  | SawNone n name => (∃ t, o n = Some t ∧ t !! name = None) ∧ same_objects o o'
  | Denied n name conds => (∃ t, o n = Some t ∧ denied n name conds t) ∧ same_objects o o'
  | MadeBucket n => validBucketName n = true ∧ o n = None ∧ updates n (Some ∅) o o'
  | Stored n name c opts oi => ∃ t t', o n = Some t ∧ commits n name c opts oi t t' ∧ updates n (Some t') o o'
  | Removed n name conds => ∃ t t', o n = Some t ∧ deletes name conds n t t' ∧ updates n (Some t') o o'
  end.

(** A call does one thing. *)
Inductive sstep : sspec → sspec → Prop :=
  | sstep_deed i d o o' ds :
      ds !! i = None → happens d o o' → sstep (mkSSpec o ds) (mkSSpec o' (<[i := d]> ds)).

(** The bucket that a call is about; making one is different. *)
Definition bucket_of (q : store_request) : option string :=
  match q with
  | AskCreateBucket _ => None
  | AskGetBucket n | AskGetObject n _ | AskOpenObject n _ | AskDeleteObject n _ _ | AskPutObject n _ _ _ => Some n
  end.

(** [peace]: the environment fails nothing, and every bucket has its directories. *)
Section spec.
Context (peace : Prop).

(** The reply to a call tells what it has seen or done; [opened] has the content of
    the files that were handed out.  A bucket may be made although the call
    fails in the end, if the environment makes it, and a file may be gone when
    it is to be opened. *)
Definition tells (opened : gmap nat bytes) (q : store_request) (d : sdeed) (resp : reply) : Prop :=
  match q, d with
  | AskGetBucket n, SawBucket n' => n' = n ∧ ∃ bi, bi_Name bi = n ∧ resp = BucketIs bi
  | AskCreateBucket n, MadeBucket n' =>
      n' = n ∧ ((∃ bi, bi_Name bi = n ∧ resp = BucketIs bi) ∨ ¬ peace ∧ ∃ e, plain e ∧ resp = Failed e)
  | AskGetObject n name, SawObject n' name' oi => n' = n ∧ name' = name ∧ resp = ObjectIs oi
  | AskOpenObject n name, SawObject n' name' oi =>
      n' = n ∧ name' = name ∧
      ((∃ f c, resp = FileIs oi f ∧ opened !! f = Some c ∧ sha_hex c = oi_SHA256 oi) ∨
       ∃ e, resp = Failed (Wrap [Lit "opening blob for "; Lit n; Lit "/"; Lit name; Lit ": "] e []))
  | AskGetObject n name, SawNone n' name' | AskOpenObject n name, SawNone n' name'
  | AskDeleteObject n name _, SawNone n' name' => n' = n ∧ name' = name ∧ resp = Failed ErrObjectNotFound
  | AskDeleteObject n name conds, Removed n' name' conds' => n' = n ∧ name' = name ∧ conds' = conds ∧ resp = Done
  | AskDeleteObject n name conds, Denied n' name' conds' =>
      n' = n ∧ name' = name ∧ conds' = conds ∧ resp = Failed ErrPreconditionFailed
  | AskPutObject n name r opts, Stored n' name' c opts' oi =>
      n' = n ∧ name' = name ∧ opts' = opts ∧ r.2 = None ∧ c = concat r.1 ∧ resp = ObjectIs oi
  | AskPutObject n name r opts, Denied n' name' conds' =>
      n' = n ∧ name' = name ∧ conds' = po_Conditions opts ∧ resp = Failed ErrPreconditionFailed
  | _, NoBucket n => bucket_of q = Some n ∧ resp = Failed ErrBucketNotFound
  | _, _ => False
  end.

(** Errors that are the client's doing. *)
Definition refused (q : store_request) (e : error) : Prop :=
  match q with
  | AskCreateBucket n =>
      (validBucketName n = false ∧ e = Wrap [] ErrInvalidName [Lit ": bucket "; Quote n]) ∨ e = ErrBucketExists
  | AskPutObject n name r opts =>
      (validBucketName n = false ∧ e = ErrBucketNotFound) ∨
      (validObjectName name = false ∧ e = Wrap [] ErrInvalidName [Lit ": object "; Quote name])
  | _ => ∃ n, bucket_of q = Some n ∧ validBucketName n = false ∧ e = ErrBucketNotFound
  end.

(** A call that has done nothing fails: it was refused, or with the error of its
    reader, or, unless there is peace, of the environment. *)
Definition did_nothing (q : store_request) (resp : reply) : Prop :=
  ∃ e, resp = Failed e ∧
    ((plain e ∧ (peace → refused q e)) ∨ ∃ n name r opts, q = AskPutObject n name r opts ∧ r.2 = Some e).

(** ** The protocol *)

(** The abstract store, and the files that were handed out. *)
Record sghost := mkSGhost {
  sspec_of : sspec;
  handed : gmap nat bytes;
}.

(** A call owns the writer it has made, and the name of the bucket it makes. *)
Record owned := mkOwned {
  ow_writers : gset nat;
  ow_names : gset string;
}.

(** Nobody writes to a file that was handed out. *)
Definition handed_ok (w : world) (f : nat) (c : bytes) : Prop :=
  f < next w ∧ files w !! f = Some c ∧
  ∀ p bw, writers w !! p = Some bw → w_done bw = false → w_ino bw ≠ f.

Record store_inv (w : world) (g : sghost) : Prop := {
  sv_world : world_ok w;
  sv_objects : ∀ n, ss_objects (sspec_of g) n = tables w n;
  sv_handed : map_Forall (handed_ok w) (handed g);
  sv_peace : peace → faults w = [] ∧ ∀ n, is_Some (tables w n) → intact w n;
}.

Record owns_ok (r : owned) (w : world) : Prop := {
  oo_writers p : p ∈ ow_writers r → p < next w;
  oo_names n : n ∈ ow_names r → validBucketName n = true ∧ tree w !! [n] = Some NDir;
}.

(** What a step may do; others may also change what the environment will fail. *)
Record acts (i : nat) (L : list nat) (r r' : owned) (w : world) (g : sghost) (w' : world) (g' : sghost) : Prop := {
  ac_moves : moves L (ow_writers r) (ow_names r) w (set_faults (faults w) w');
  ac_spec : rtc sstep (sspec_of g) (sspec_of g');
  ac_deeds j : j ≠ i → ss_deeds (sspec_of g') !! j = ss_deeds (sspec_of g) !! j;
  ac_handed : handed g ⊆ handed g';
  ac_owned : owns_ok r' w';
  ac_writers p : p ∈ ow_writers r' → p ∈ ow_writers r ∨ next w ≤ p;
  ac_names n : n ∈ ow_names r' → n ∈ ow_names r ∨ tree w !! [n] = None;
}.

(** What the steps of others leave alone. *)
Record meanwhile (i : nat) (L : list nat) (r : owned) (w : world) (g : sghost) (w' : world) (g' : sghost) : Prop := {
  me_next : next w ≤ next w';
  me_handles : handles w ⊆ handles w';
  me_buckets : buckets w ⊆ buckets w';
  me_writers p : p ∈ ow_writers r → p < next w → writers w' !! p = writers w !! p;
  me_temps p bw : p ∈ ow_writers r → p < next w → writers w !! p = Some bw → tree w' !! w_tmp bw = tree w !! w_tmp bw;
  me_nodes p nd : tree w !! p = Some nd → (∀ i, nd ≠ NFile i) → tree w' !! p = Some nd;
  me_bare n c : n ∈ ow_names r → validBucketName n = true → tree w !! [n] = Some NDir → tree w !! db_path n = None →
    tree w !! [n; c] = None → tree w' !! [n; c] = None;
  me_db n h : commit_mu h ∈ L → buckets w !! n = Some h → bucket_db w' n = bucket_db w n;
  me_blob n h sha : commit_mu h ∈ L → buckets w !! n = Some h → tree w' !! blob_path n sha = tree w !! blob_path n sha;
  me_deed : ss_deeds (sspec_of g') !! i = ss_deeds (sspec_of g) !! i;
  me_handed : handed g ⊆ handed g';
}.

Definition nothing_own : owned := mkOwned ∅ ∅.

Definition store_protocol : protocol world reply store_request sghost owned := {|
  inv := store_inv;
  guarded _ _ _ := True;
  valid r w _ := owns_ok r w;
  nothing_owned := nothing_own;
  apart r r' := ow_writers r ## ow_writers r' ∧ ow_names r ## ow_names r';
  answered i q resp g :=
    match ss_deeds (sspec_of g) !! i with
    | Some d => tells (handed g) q d resp
    | None => did_nothing q resp
    end;
  Pool.idle i g := ss_deeds (sspec_of g) !! i = None;
  guar := acts;
  rely := meanwhile;
|}.

(** Abstract stores are functions: they are compared at each name. *)
Lemma updates_from n v o t t' : same_objects t o → updates n v t t' → updates n v o t'.
Proof. intros E [H1 H2]. split; [done|]. intros m Hm. by rewrite H2, E. Qed.
Lemma same_from o t t' : same_objects t o → same_objects t t' → same_objects o t'.
Proof. intros E H n. by rewrite H, E. Qed.
Lemma happens_ext d o t t' : same_objects t o → happens d t t' → happens d o t'.
Proof.
  intros E. destruct d; cbn; rewrite ?(E n).
  - intros [? ?]; split; [done|by eapply same_from].
  - intros [? ?]; split; [done|by eapply same_from].
  - intros [? ?]; split; [done|by eapply same_from].
  - intros [? ?]; split; [done|by eapply same_from].
  - intros [? ?]; split; [done|by eapply same_from].
  - intros (? & ? & ?). split_and!; [done..|by eapply updates_from].
  - intros (t1 & t2 & ? & ? & ?). exists t1, t2. split_and!; [done..|by eapply updates_from].
  - intros (t1 & t2 & ? & ? & ?). exists t1, t2. split_and!; [done..|by eapply updates_from].
Qed.

(** *** Its laws *)
Lemma meanwhile_refl i L r w g : meanwhile i L r w g w g.
Proof. by split. Qed.

Lemma meanwhile_trans i L r w1 g1 w2 g2 w3 g3 :
  meanwhile i L r w1 g1 w2 g2 → meanwhile i L r w2 g2 w3 g3 → meanwhile i L r w1 g1 w3 g3.
Proof.
  intros [] []. split.
  - lia.
  - by etrans.
  - by etrans.
  - intros p Hp Hlt. rewrite me_writers1 by (done || lia). auto.
  - intros p bw Hp Hlt Hbw. rewrite (me_temps1 p bw), (me_temps0 p bw); [done..|lia|]. by rewrite me_writers0.
  - auto.
  - intros n c Hn Hv Hdir Hdb Hc. apply me_bare1; try done; [|by apply me_bare0|by apply me_bare0]. by apply me_nodes0.
  - intros n h HL Hn. rewrite (me_db1 n h), (me_db0 n h); [done..|]. by eapply lookup_weaken.
  - intros n h sha HL Hn. rewrite (me_blob1 n h), (me_blob0 n h); [done..|]. by eapply lookup_weaken.
  - congruence.
  - by etrans.
Qed.

Lemma tells_handed m m' q d resp : m ⊆ m' → tells m q d resp → tells m' q d resp.
Proof.
  intros Hm. destruct q; try done. destruct d; try done; cbn. intros (-> & -> & [(f & c & ? & Hf & ?)|?]); split_and!; [done|done| |done|done|by right].
  left. exists f, c. split_and!; [done|by eapply lookup_weaken|done].
Qed.

Lemma acts_meanwhile i L r r' w g w' g' j L' s :
  acts i L r r' w g w' g' → i ≠ j → (∀ p, p ∈ L' → p ∉ L) →
  owns_ok s w → ow_writers r ## ow_writers s → ow_names r ## ow_names s →
  meanwhile j L' s w g w' g' ∧ owns_ok s w' ∧ ow_writers r' ## ow_writers s ∧ ow_names r' ## ow_names s.
Proof.
  intros [Hm _ Hd Hh _ HX HN] Hij HL [Hws Hns] Hdw Hdn. split_and!.
  - split; try apply Hm; try done.
    + intros p Hp Hlt. apply Hm; [done|set_solver].
    + intros p bw Hp Hlt Hbw. apply (mo_temps _ _ _ _ _ Hm p bw); [done|set_solver].
    + intros n c Hn. apply (mo_bare _ _ _ _ _ Hm n c). set_solver.
    + intros n h E Hn. apply (mo_db _ _ _ _ _ Hm n h); [done|by apply HL].
    + intros n h sha E Hn. apply (mo_blob _ _ _ _ _ Hm n h); [done|by apply HL].
    + by apply Hd.
  - split.
    + intros p Hp. specialize (Hws p Hp). pose proof (mo_next _ _ _ _ _ Hm) as Hn. cbn in Hn. lia.
    + intros n Hn. destruct (Hns n Hn) as [Hv Hdir]. split; [done|]. by apply Hm.
  - intros p Hp Hps. destruct (HX p Hp); [set_solver|]. specialize (Hws p Hps). lia.
  - intros n Hn Hns'. destruct (HN n Hn); [set_solver|]. destruct (Hns n Hns'). congruence.
Qed.

#[export] Instance store_protocol_laws : ProtocolLaws store_protocol.
Proof.
  split; cbn.
  - intros. apply meanwhile_refl.
  - intros. by eapply meanwhile_trans.
  - intros w g. split; cbn; set_solver.
  - set_solver.
  - intros r r' []. by split.
  - intros i q L r w g w' g' resp Hm. rewrite (me_deed _ _ _ _ _ _ _ Hm).
    destruct (ss_deeds (sspec_of g) !! i); [|done]. apply tells_handed, Hm.
  - intros i w g w' g' Hm Hd. by rewrite (me_deed _ _ _ _ _ _ _ Hm).
  - intros i L r r' w g w' g' Ha _. apply Ha.
  - done.
  - intros i L r r' w g w' g' j L' s Ha Hij HL _ Hs [? ?].
    destruct (acts_meanwhile _ _ _ _ _ _ _ _ j L' s Ha Hij HL Hs) as (? & ? & ? & ?); [done..|]. done.
Qed.

(** ** Steps *)

(** Files that were handed out stay as they are. *)
Lemma handed_moves L r w w' (m : gmap nat bytes) :
  world_ok w → moves L (ow_writers r) (ow_names r) w w' → map_Forall (handed_ok w) m → map_Forall (handed_ok w') m.
Proof.
  intros Hok Hm Hh f c Hf. destruct (Hh f c Hf) as (Hlt & Hc & Hno). split_and!.
  - pose proof (mo_next _ _ _ _ _ Hm). lia.
  - apply (mo_files _ _ _ _ _ Hm); [done|done|]. intros p bw _. apply Hno.
  - intros p bw Hp Hnd. destruct (mo_inodes _ _ _ _ _ Hm p bw Hp) as [(bw0 & H0 & <- & D)|[_ ?]]; [|lia].
    eapply Hno; [done|]. destruct (w_done bw0); [|done]. by rewrite D in Hnd.
Qed.

(** So does the peace. *)
Lemma moves_peace L r w g w' :
  store_inv w g → moves L (ow_writers r) (ow_names r) w w' →
  (∀ n, is_Some (tables w' n) → is_Some (tables w n) ∨ intact w' n) →
  peace → faults w' = [] ∧ ∀ n, is_Some (tables w' n) → intact w' n.
Proof.
  intros Hinv Hm Ht Hp. destruct (sv_peace _ _ Hinv Hp) as [Hf Hi]. split; [by apply (mo_calm _ _ _ _ _ Hm)|].
  intros n Hn. destruct (Ht n Hn) as [Hn'|?]; [|done]. destruct (Hi n Hn'). by split; apply (mo_nodes _ _ _ _ _ Hm).
Qed.

(** A deed makes no bucket exist but the one it makes. *)
Lemma happens_tables d o o' n : happens d o o' → is_Some (o' n) → is_Some (o n) ∨ d = MadeBucket n.
Proof.
  destruct d as [m|m|m nm oi|m nm|m nm conds|m|m nm c opts oi|m nm conds]; cbn.
  1-5: intros [_ Hs]; rewrite (Hs n); auto.
  - intros (_ & _ & _ & Hu). destruct (decide (n = m)) as [->|]; [auto|]. rewrite (Hu n); auto.
  - intros (t & t' & Ht & _ & _ & Hu). destruct (decide (n = m)) as [->|]; [rewrite Ht; eauto|]. rewrite (Hu n); auto.
  - intros (t & t' & Ht & _ & _ & Hu). destruct (decide (n = m)) as [->|]; [rewrite Ht; eauto|]. rewrite (Hu n); auto.
Qed.

(** The ghost state after a deed, and after a file is handed out. *)
Definition with_deed (i : nat) (d : sdeed) (o : astate) (g : sghost) : sghost :=
  mkSGhost (mkSSpec o (<[i := d]> (ss_deeds (sspec_of g)))) (handed g).
Definition with_objects (o : astate) (g : sghost) : sghost :=
  mkSGhost (mkSSpec o (ss_deeds (sspec_of g))) (handed g).

Definition good (i : nat) (L : list nat) (r r' : owned) (w : world) (g : sghost) (w' : world) (g' : sghost) : Prop :=
  acts i L r r' w g w' g' ∧ store_inv w' g'.

(** A step that changes no object. *)
Lemma same_good i L r r' w g w' :
  store_inv w g → goes L (ow_writers r) (ow_names r) w w' → same_tables w w' → owns_ok r' w' →
  (∀ p, p ∈ ow_writers r' → p ∈ ow_writers r ∨ next w ≤ p) →
  (∀ n, n ∈ ow_names r' → n ∈ ow_names r ∨ tree w !! [n] = None) →
  good i L r r' w g w' g.
Proof.
  intros Hinv [Hok' Hm] Hs Ho HX HN. pose proof (moves_peace L r w g w' Hinv Hm) as Hpeace.
  destruct Hinv as [Hok Hobj Hh Hp]. split.
  - split; try done. by apply moves_faults.
  - split; [done|intros n; by rewrite Hobj, Hs|exact (handed_moves L r w w' _ Hok Hm Hh)|].
    apply Hpeace. intros n. rewrite Hs. auto.
Qed.

(** What is owned stays valid. *)
Lemma owns_kept L r w w' : owns_ok r w → moves L (ow_writers r) (ow_names r) w w' → owns_ok r w'.
Proof.
  intros [Hw Hn] Hm. split.
  - intros p Hp. specialize (Hw p Hp). pose proof (mo_next _ _ _ _ _ Hm). lia.
  - intros n HnN. destruct (Hn n HnN) as [? ?]. split; [done|]. by apply Hm.
Qed.

Lemma still_good i L r w g w' :
  store_inv w g → owns_ok r w → goes L (ow_writers r) (ow_names r) w w' → same_tables w w' → good i L r r w g w' g.
Proof. intros Hinv Ho Hg Hs. apply same_good; auto. eapply owns_kept; [exact Ho|apply Hg]. Qed.

Lemma quiet_good i L r w g w' : store_inv w g → owns_ok r w → quiet w w' → good i L r r w g w' g.
Proof. intros Hinv Ho Hq. apply still_good; [done|done|apply goes_quiet; [apply Hinv|done]|by apply quiet_same_tables]. Qed.

(** A step that is the deed of the call. *)
Lemma deed_good i L r w g w' d :
  store_inv w g → owns_ok r w → goes L (ow_writers r) (ow_names r) w w' → ss_deeds (sspec_of g) !! i = None →
  happens d (tables w) (tables w') → (∀ n, d = MadeBucket n → intact w' n) →
  good i L r r w g w' (with_deed i d (tables w') g).
Proof.
  intros Hinv Ho [Hok' Hm] Hd Hhap Hmade. pose proof (moves_peace L r w g w' Hinv Hm) as Hpeace.
  destruct Hinv as [Hok Hobj Hh Hp]. split.
  - split; try done; cbn.
    + by apply moves_faults.
    + apply rtc_once. destruct g as [[o ds] hs]. cbn in *. apply sstep_deed; [done|by eapply happens_ext].
    + intros j Hj. by rewrite lookup_insert_ne.
    + by eapply owns_kept.
    + auto.
    + auto.
  - split; [done|done|exact (handed_moves L r w w' _ Hok Hm Hh)|].
    apply Hpeace. intros n Hn. destruct (happens_tables _ _ _ _ Hhap Hn); auto.
Qed.
End spec.
