(* ===== verification/StoreLin.v ===== *)
(** Every call of the store, served step by step among others, does at most one
    thing to the abstract store, at one instant, and replies what it did. *)

From S2P Require Import Prelude Errors GoMonad Pool GoStd Types Names Hash Database World Bucket Store BlobWriter Outcomes StoreInv Triple StoreSafe StoreOps ObjectOps WriterOps Frame Run Refine StoreProgs StoreMoves StoreSteps StoreSpec.
From stdpp Require Import options.
From stdpp Require Import relations.

(** ** Knowledge

    What a call knows of the world and nobody else can undo. *)
Definition knowledge : Type := world → sghost → Prop.
Definition stable (i : nat) (L : list nat) (r : owned) (K : knowledge) : Prop :=
  ∀ w g w' g', meanwhile i L r w g w' g' → K w g → world_ok w' → owns_ok r w' → K w' g'.

Section stable.
Context (i : nat) (L : list nat) (r : owned).

Lemma stable_and K K' : stable i L r K → stable i L r K' → stable i L r (λ w g, K w g ∧ K' w g).
Proof. intros H H' w g w' g' Hm [? ?] ??. split; [by eapply H|by eapply H']. Qed.
Lemma stable_pure (P : Prop) : stable i L r (λ _ _, P).
Proof. by intros w g w' g' _ HP. Qed.
Lemma stable_deed d : stable i L r (λ _ g, ss_deeds (sspec_of g) !! i = d).
Proof. intros w g w' g' Hm <- _ _. by rewrite (me_deed _ _ _ _ _ _ _ Hm). Qed.
Lemma stable_open h n : stable i L r (λ w _, is_open w h n).
Proof. intros w g w' g' Hm (b & Hb & ?) _ _. exists b. split; [|done]. by eapply lookup_weaken; [|apply Hm]. Qed.
Lemma stable_handle h b : stable i L r (λ w _, handles w !! h = Some b).
Proof. intros w g w' g' Hm Hb _ _. by eapply lookup_weaken; [|apply Hm]. Qed.
Lemma stable_node p nd : (∀ i, nd ≠ NFile i) → stable i L r (λ w _, tree w !! p = Some nd).
Proof. intros Hnd w g w' g' Hm Hp _ _. by apply (me_nodes _ _ _ _ _ _ _ Hm). Qed.
(** The directory of a bucket that it is making. *)
Definition bare (n c : string) (w : world) (g : sghost) : Prop :=
  tree w !! [n] = Some NDir ∧ tree w !! db_path n = None ∧ tree w !! [n; c] = None.
Lemma stable_bare n c : n ∈ ow_names r → validBucketName n = true → stable i L r (bare n c).
Proof.
  intros Hn Hv w g w' g' Hm (Hdir & Hdb & Hc) _ _. split_and!.
  - by apply (me_nodes _ _ _ _ _ _ _ Hm).
  - by apply (me_bare _ _ _ _ _ _ _ Hm n "data.sqlite").
  - by apply (me_bare _ _ _ _ _ _ _ Hm n c).
Qed.

(** The call owns a writer. *)
Definition has_writer (p : nat) (bw : BlobWriter) (w : world) (g : sghost) : Prop :=
  p < next w ∧ writers w !! p = Some bw.
Lemma stable_writer p bw : p ∈ ow_writers r → stable i L r (has_writer p bw).
Proof.
  intros Hp w g w' g' Hm [Hlt Hbw] _ _. split; [pose proof (me_next _ _ _ _ _ _ _ Hm); lia|].
  by rewrite (me_writers _ _ _ _ _ _ _ Hm).
Qed.

(** It has locked the [commitMu] of a bucket, whose tables are [d]. *)
Definition has_tables (h : nat) (n : string) (d : database) (w : world) (g : sghost) : Prop :=
  is_open w h n ∧ buckets w !! n = Some h ∧ bucket_db w n = Some d.
Lemma stable_tables h n d : commit_mu h ∈ L → stable i L r (has_tables h n d).
Proof.
  intros HL w g w' g' Hm (Ho & Hn & Hd) Hinv Hr. split_and!.
  - by eapply stable_open.
  - by eapply lookup_weaken; [|apply Hm].
  - by rewrite (me_db _ _ _ _ _ _ _ Hm n h).
Qed.
Lemma stable_blob h n sha :
  commit_mu h ∈ L → stable i L r (λ w _, buckets w !! n = Some h ∧ is_Some (blob_content w n sha)).
Proof.
  intros HL w g w' g' Hm [Hn Hc] Hinv _. split; [by eapply lookup_weaken; [|apply Hm]|].
  unfold blob_content in *. rewrite (me_blob _ _ _ _ _ _ _ Hm n h) by done.
  destruct (tree w !! blob_path n sha) as [[|j|]|] eqn:E; try by destruct Hc.
  rewrite <- (me_blob _ _ _ _ _ _ _ Hm n h) in E by done. by destruct (ok_file _ (wok_disk _ Hinv) _ _ E).
Qed.
Lemma stable_known h n tx :
  commit_mu h ∈ L → stable i L r (λ w _, buckets w !! n = Some h ∧ known_blobs w n tx).
Proof.
  intros HL w g w' g' Hm [Hn Hk] Hinv Hr. split; [by eapply lookup_weaken; [|apply Hm]|].
  intros sha Hs. eapply (stable_blob h n sha HL w g w' g'); [done|split; [done|by apply Hk]|done|done].
Qed.
End stable.

Create HintDb stable.
#[export] Hint Resolve stable_and stable_pure stable_deed stable_open stable_handle stable_writer stable_tables stable_blob stable_known : stable.

(** ** Rules *)
Section rules.
Context (peace : Prop) (i : nat) (q : store_request).
Abbreviation safe := (Pool.safe (store_protocol peace) i q).
Abbreviation store_inv := (store_inv peace).
Abbreviation good := (good peace).
Abbreviation tells := (tells peace).
Abbreviation did_nothing := (did_nothing peace).

Lemma Call_safe {A} K L r w g (m : M world A) k :
  stable i L r K → K w g →
  (∀ w g, K w g → store_inv w g → owns_ok r w →
     triple w m (λ a w', ∃ g' r', good i L r r' w g w' g' ∧ safe (k a) L r' w' g') (λ _ _, False) (λ _, True)) →
  safe (Call m k) L r w g.
Proof.
  intros HK Hw Hm w1 g1 Hr Hinv Ho. eapply wp_mono; [apply (Hm w1 g1); [eapply HK; [exact Hr|done|exact (sv_world _ _ _ Hinv)|done]|done|done]|].
  intros [a|e|x| |] w'; cbn; try done. intros (g' & r' & [? ?] & ?). eauto.
Qed.

Lemma Try_safe {A} K L r w g (m : M world A) fail k :
  stable i L r K → K w g →
  (∀ w g, K w g → store_inv w g → owns_ok r w →
     triple w m (λ a w', ∃ g' r', good i L r r' w g w' g' ∧ safe (k a) L r' w' g')
       (λ e w', ∃ g' r', good i L r r' w g w' g' ∧ safe (fail e) L r' w' g') (λ _, True)) →
  safe (Try m fail k) L r w g.
Proof.
  intros HK Hw Hm. unfold Try. apply (Call_safe K); [done..|]. intros w1 g1 Hw1 Hinv Ho. apply triple_try.
  eapply triple_mono; [by apply (Hm w1 g1)|..]; done.
Qed.

Lemma Quietly_safe K L r w g (m : M world unit) k :
  stable i L r K → K w g →
  (∀ w g, K w g → store_inv w g → owns_ok r w →
     let Φ w' := ∃ g' r', good i L r r' w g w' g' ∧ safe k L r' w' g' in
     triple w m (λ _ , Φ) (λ _, Φ) (λ _, True)) →
  safe (Quietly m k) L r w g.
Proof.
  intros HK Hw Hm. unfold Quietly. apply (Call_safe K); [done..|]. intros w1 g1 Hw1 Hinv Ho. apply triple_ignore.
  eapply triple_mono; [by apply (Hm w1 g1)|..]; done.
Qed.

(** Nothing of what others leave alone depends on a mutex that is released. *)
Lemma meanwhile_unlocked L r w g w' g' : meanwhile i L r w g w' g' → meanwhile i [] r w g w' g'.
Proof. intros []. split; try done; intros; exfalso; by eapply not_elem_of_nil. Qed.

Lemma Lock_safe K p r w g k :
  stable i [] r K → K w g →
  (∀ w g, K w g → store_inv w g → safe k [p] r w g) →
  safe (Lock p k) [] r w g.
Proof. intros HK Hw Hk w1 g1 Hr Hinv Ho. split; [by intros ? ?%not_elem_of_nil|]. intros _. apply Hk; [|done]. eapply HK; [exact Hr|done|exact (sv_world _ _ _ Hinv)|done]. Qed.

Lemma Unlock_safe p r w g k : safe k [] r w g → safe (Unlock p k) [p] r w g.
Proof.
  intros Hk w1 g1 Hr Hinv Ho. exists []. split_and!; [done|done|]. eapply (safe_rely (store_protocol peace)); [|exact Hk].
  by eapply meanwhile_unlocked.
Qed.

(** Replies. *)
Lemma tells_safe r w g d resp :
  ss_deeds (sspec_of g) !! i = Some d → tells (handed g) q d resp → safe (Answer resp) [] r w g.
Proof.
  intros Hd Ht w1 g1 Hr _ _. split; [done|]. cbn. rewrite (me_deed _ _ _ _ _ _ _ Hr), Hd. eapply tells_handed; [apply Hr|done].
Qed.
Lemma nothing_safe r w g e :
  ss_deeds (sspec_of g) !! i = None → did_nothing q (Failed e) → safe (failed e) [] r w g.
Proof. intros Hd Ht w1 g1 Hr _ _. split; [done|]. cbn. by rewrite (me_deed _ _ _ _ _ _ _ Hr), Hd. Qed.
Lemma plainly_safe r w g e :
  ss_deeds (sspec_of g) !! i = None → plain e → (peace → refused q e) → safe (failed e) [] r w g.
Proof. intros Hd He Hr. apply nothing_safe; [done|]. exists e. auto. Qed.
(** There is no peace while the environment fails calls. *)
Lemma no_peace w g : store_inv w g → failing w → ¬ peace.
Proof. intros Hinv Hf Hp. by destruct (sv_peace _ _ _ Hinv Hp). Qed.
Lemma unhappy_safe r w g e :
  ss_deeds (sspec_of g) !! i = None → plain e → ¬ peace → safe (failed e) [] r w g.
Proof. intros Hd He Hp. by apply plainly_safe. Qed.

(** Steps of a call that has done nothing so far. *)
Definition undone : knowledge := λ _ g, ss_deeds (sspec_of g) !! i = None.
End rules.
Lemma stable_undone i L r : stable i L r (undone i).
Proof. apply stable_deed. Qed.
#[export] Hint Resolve stable_undone : stable.

(** ** Opening a bucket *)
Lemma quiet_meanwhile i L r w g w' : quiet w w' → meanwhile i L r w g w' g.
Proof. intros (fs & _ & ->). by split. Qed.

Lemma owns_allocated r w : owns_ok r w → allocated (ow_writers r) w.
Proof. intros Ho p. apply Ho. Qed.

Section calls.
Context (peace : Prop) (i : nat) (q : store_request).
Abbreviation safe := (Pool.safe (store_protocol peace) i q).
Abbreviation store_inv := (store_inv peace).
Abbreviation good := (good peace).
Abbreviation tells := (tells peace).

(** A step that leaves the world alone; [K'] is what the call has learned. *)
Lemma Try_quiet {A} K L r w g (m : M world A) Q E fail k :
  stable i L r K → K w g →
  (∀ w g, K w g → store_inv w g → triple w m (λ a w', quiet w w' ∧ Q w a) (λ e w', quiet w w' ∧ E w e) (λ _, True)) →
  (∀ w g w' a, K w' g → store_inv w' g → quiet w w' → Q w a → safe (k a) L r w' g) →
  (∀ w g w' e, K w' g → store_inv w g → quiet w w' → E w e → safe (fail e) L r w' g) →
  safe (Try m fail k) L r w g.
Proof.
  intros HK Hw Hm Hk Hf. apply (Try_safe peace i q K); [done..|]. intros w1 g1 Hw1 Hinv Ho.
  assert (∀ w', quiet w1 w' → K w' g1 ∧ good i L r r w1 g1 w' g1) as Hq.
  { intros w' Hq. pose proof (quiet_good peace i L r _ _ _ Hinv Ho Hq) as Hg. split; [|done].
    eapply HK; [by apply quiet_meanwhile|done|apply Hg|apply Hg]. }
  eapply triple_mono; [by eapply Hm|..|done].
  - intros a w' [Hqw HQ]. destruct (Hq w' Hqw) as [? Hg]. exists g1, r. split; [done|]. eapply Hk; [done|apply Hg|done..].
  - intros e w' [Hqw HE]. destruct (Hq w' Hqw) as [? Hg]. exists g1, r. split; [done|]. by eapply Hf.
Qed.

(** What a call knows of a bucket that it opens; [db] is its database, if it
    has one already. *)
Definition opening (n : string) (db : option nat) : knowledge := λ w g,
  undone i w g ∧
  match db with
  | Some j => tree w !! [n] = Some NDir ∧ tree w !! db_path n = Some (NDb j)
  | None => bare n "data.sqlite" w g ∧ intact w n
  end.

Lemma stable_opening L r n db :
  validBucketName n = true → (db = None → n ∈ ow_names r) → stable i L r (opening n db).
Proof.
  intros Hn Hdb. apply stable_and; [apply stable_deed|]. destruct db as [j|]; cbn.
  - apply stable_and; by apply stable_node.
  - apply stable_and; [apply stable_bare; auto|]. unfold intact. apply stable_and; by apply stable_node.
Qed.

(** Opening a bucket that has no database makes it. *)
Definition may_have_made (n : string) (db : option nat) (g : sghost) : Prop :=
  ss_deeds (sspec_of g) !! i = None ∨ (db = None ∧ ss_deeds (sspec_of g) !! i = Some (MadeBucket n)).
Definition has_made (n : string) (db : option nat) (g : sghost) : Prop :=
  ss_deeds (sspec_of g) !! i = (if db is Some _ then None else Some (MadeBucket n)).

Lemma openBucket_safe r w g n db fail k :
  validBucketName n = true → (db = None → n ∈ ow_names r) → opening n db w g →
  (∀ e w g, plain e → ¬ peace → may_have_made n db g → safe (fail e) [] r w g) →
  (∀ h w g, is_open w h n → has_made n db g → safe (k h) [] r w g) →
  safe (openBucket_prog n fail k) [] r w g.
Proof.
  intros Hn Hdb HK Hfail Hk. unfold openBucket_prog.
  eapply (Lock_safe peace i q (opening n db)); [by apply stable_opening|done|]. clear w g HK. intros w g HK _.
  eapply (Try_safe peace i q (opening n db)); [by apply stable_opening|done|]. clear w g HK. intros w g (Hund & Hdir) Hinv Ho.
  pose proof (sv_world _ _ _ Hinv) as Hok.
  assert (triple w (Store_openBucket n)
    (λ h w', goes [store_mu] (ow_writers r) (ow_names r) w w' ∧ opened n w w' ∧ is_open w' h n)
    (λ e w', plain e ∧ goes [store_mu] (ow_writers r) (ow_names r) w w' ∧ opened n w w' ∧ failing w) (λ _, True)) as Ht.
  { apply triple_fails; [apply fails_Store_openBucket|]. apply step_openBucket; [done|done|apply bool_decide_eq_true| |by apply owns_allocated].
    - by destruct db as [j|]; [destruct Hdir|destruct Hdir as [[] _]].
    - intros E. apply Hdb. destruct db as [j|]; [destruct Hdir; congruence|done]. }
  assert (∀ w', goes [store_mu] (ow_writers r) (ow_names r) w w' → opened n w w' →
    ∃ g', good i [store_mu] r r w g w' g' ∧ may_have_made n db g' ∧ (is_Some (tables w' n) → has_made n db g')) as Hopened.
  { intros w' Hg Hop. destruct (Hop n) as [E|(_ & E & E')].
    - exists g. split_and!; [apply still_good; [done..|]|by left|].
      + intros m. destruct (Hop m) as [?|(-> & _)]; done.
      + rewrite E. intros Hex. unfold has_made. destruct db as [j|]; [done|]. destruct Hdir as [(_ & Hnode & _) _].
        rewrite (tables_no_db _ _ Hn Hnode) in Hex. by destruct Hex.
    - destruct db as [j|].
      { exfalso. destruct Hdir as [_ Hnode]. unfold tables, bucket_db in E. rewrite Hn, Hnode in E. cbn in E.
        destruct (ok_db _ (wok_disk _ Hok) _ _ Hnode) as [_ [d Hd]]. by rewrite Hd in E. }
      exists (with_deed i (MadeBucket n) (tables w') g). assert (ss_deeds (sspec_of (with_deed i (MadeBucket n) (tables w') g)) !! i = Some (MadeBucket n)) as Hdeed by apply lookup_insert_eq.
      split; [|split; [by right|done]]. apply deed_good; [done..| |].
      + split; [done|]. split; [done|]. split; [done|]. intros m Hm. by destruct (Hop m) as [?|(-> & _)].
      + intros m [= <-]. destruct Hdir as [_ []]. by split; apply (mo_nodes _ _ _ _ _ (proj2 Hg)). }
  eapply triple_mono; [exact Ht|..|done].
  - intros h w' (Hg & Hop & Hopen). destruct (Hopened w' Hg Hop) as (g' & Hgood & _ & Hmade). exists g', r. split; [done|].
    apply Unlock_safe, Hk; [done|]. apply Hmade. apply (is_open_tables w' h); [apply Hgood|done].
  - intros e w' (He & Hg & Hop & Hf). destruct (Hopened w' Hg Hop) as (g' & Hgood & Hmay & _). exists g', r. split; [done|].
    apply Unlock_safe. apply Hfail; [done| |done]. by eapply no_peace.
Qed.

(** What is seen of the world at a quiet step. *)
Lemma saw_good L r w g w' d :
  undone i w g → store_inv w g → owns_ok r w → quiet w w' → happens d (tables w) (tables w') → (∀ n, d ≠ MadeBucket n) →
  good i L r r w g w' (with_deed i d (tables w') g).
Proof.
  intros Hund Hinv Ho Hq Hh Hd. apply deed_good; [done|done|apply goes_quiet; [apply Hinv|done]|done|done|].
  intros n E. by destruct (Hd n).
Qed.
Lemma with_deed_deed d o g : ss_deeds (sspec_of (with_deed i d o g)) !! i = Some d.
Proof. apply lookup_insert_eq. Qed.

(** A call finds its bucket, or sees that it is not there. *)
Lemma bucket_safe r w g n k :
  bucket_of q = Some n → undone i w g →
  (∀ h w g, undone i w g → is_open w h n → safe (k h) [] r w g) →
  safe (bucket_prog n failed k) [] r w g.
Proof.
  intros Hq Hund Hk. unfold bucket_prog. destruct (validBucketName n) eqn:Hn; cbn [negb].
  2: { apply plainly_safe; [done|eauto with plain|]. intros _. unfold refused, bucket_of in *. destruct q; simplify_eq; eauto. }
  eapply (Lock_safe peace i q (undone i)); [apply stable_deed|done|]. clear w g Hund. intros w g Hund _.
  eapply (Call_safe peace i q (undone i)); [apply stable_deed|done|]. clear w g Hund. intros w g Hund Hinv Ho.
  apply triple_gets. exists g, r. split; [by apply quiet_good, quiet_refl|].
  destruct (buckets w !! n) as [h|] eqn:Hb; apply Unlock_safe.
  { apply Hk; [done|]. apply is_open_registered; [apply Hinv|done]. }
  clear Hinv Ho Hb. eapply (Try_safe peace i q (undone i)); [apply stable_deed|done|].
  clear w g Hund. intros w g Hund Hinv Ho. eapply triple_mono; [apply step_Stat|..|done].
  2: { intros e w' (Hqw & _ & Hr). destruct (tree w !! db_path n) as [nd|] eqn:E.
       - exists g, r. split; [by apply quiet_good|]. apply unhappy_safe; [done|eauto with plain|].
         destruct Hr as [|Hr]; [by eapply no_peace|]. change (data_sqlite [n]) with (db_path n) in Hr. congruence.
       - exists (with_deed i (NoBucket n) (tables w') g), r. split.
         + apply saw_good; [done..|split; [by apply tables_no_db|by apply quiet_same_tables]|done].
         + eapply tells_safe; [apply with_deed_deed|]. unfold bucket_of in Hq. by destruct q; simplify_eq. }
  intros nd w' [Hqw Hnd]. exists g, r. split; [by apply quiet_good|].
  change (data_sqlite [n]) with (db_path n) in Hnd.
  destruct (db_node _ _ _ (sv_world _ _ _ Hinv) Hn Hnd) as (j & d & -> & _).
  apply (openBucket_safe r w' g n (Some j)); [done|done|..].
  - pose proof (ok_parent _ (wok_disk _ (sv_world _ _ _ Hinv)) _ _ Hnd) as Hp. unfold is_dir in Hp.
    apply bool_decide_eq_true in Hp. destruct Hqw as (fs & _ & ->). done.
  - intros e w1 g1 He Hnp [Hu|[? _]]; [|done]. by apply unhappy_safe.
  - intros h w1 g1 Hopen Hu. by apply Hk.
Qed.

(** ** Buckets *)

(** What a call knows of a bucket that it is making: the directories in [made] are
    there, those in [missing] are not. *)
Definition making (n : string) (made missing : list string) : knowledge := λ w g,
  undone i w g ∧ bare n "data.sqlite" w g ∧
  (∀ c, c ∈ made → tree w !! [n; c] = Some NDir) ∧ (∀ c, c ∈ missing → tree w !! [n; c] = None).

Lemma stable_making L r n made missing :
  validBucketName n = true → n ∈ ow_names r → stable i L r (making n made missing).
Proof.
  intros Hv Hn w g w' g' Hm (Hu & Hb & Hmade & Hmiss) Hok Ho. split_and!.
  - by eapply stable_undone.
  - by eapply (stable_bare i L r n "data.sqlite").
  - intros c Hc. apply (me_nodes _ _ _ _ _ _ _ Hm); [by apply Hmade|done].
  - intros c Hc. apply (me_bare _ _ _ _ _ _ _ Hm n c); [done|done|apply Hb|apply Hb|by apply Hmiss].
Qed.

(** The next directory of a bucket that is being made. *)
Lemma Mkdir_sub_safe r w g n made missing c k :
  validBucketName n = true → n ∈ ow_names r → c = "objects" ∨ c = "tmp" → c ∉ missing → making n made (c :: missing) w g →
  (∀ w g, making n (c :: made) missing w g → safe k [] r w g) →
  safe (Try (os_Mkdir ([n] ++ [c])) failed (λ _, k)) [] r w g.
Proof.
  intros Hn Hr Hc Hnin HK Hk. apply (Try_safe peace i q (making n made (c :: missing))); [by apply stable_making|done|].
  clear w g HK. intros w g (Hund & Hbare & Hmade & Hmiss) Hinv Ho.
  assert (c ≠ "data.sqlite") as Hcdb by (by destruct Hc as [-> | ->]).
  eapply triple_mono; [eapply triple_fails; [apply fails_Mkdir|apply (step_Mkdir [] (ow_writers r) (ow_names r) w n [c])]|..|done].
  - apply Hinv.
  - destruct Hc as [-> | ->]; constructor.
  - auto.
  - intros _ w' (Hg & Hs & Hnone & w1 & Hq & ->). exists g, r. split; [by apply still_good|]. apply Hk.
    destruct Hq as (fs & _ & ->). destruct Hbare as (H1 & H2 & H3). split_and!; [done|..]; cbn; unfold db_path in *; cbn.
    + split_and!; cbn; rewrite lookup_insert_ne; try done; unfold db_path; by intros [= E].
    + intros c' [->|Hc']%elem_of_cons; [apply lookup_insert_eq|]. destruct (decide (c' = c)) as [->|]; [apply lookup_insert_eq|].
      rewrite lookup_insert_ne by (by intros [= E]). by apply Hmade.
    + intros c' Hc'. rewrite lookup_insert_ne by (intros [= E]; by subst). apply Hmiss. by right.
  - intros e w' (He & Hg & Hs & Hr'). exists g, r. split; [by apply still_good|]. apply unhappy_safe; [done|done|].
    destruct Hr' as [?|[[_ Hex]|Hdir]]; [by eapply no_peace|..].
    + rewrite Hmiss in Hex by left. by destruct Hex.
    + change (parent [n; c]) with [n] in Hdir. unfold is_dir in Hdir. rewrite bool_decide_eq_false in Hdir. by destruct Hdir, Hbare.
Qed.

Lemma CreateBucket_safe w g n :
  q = AskCreateBucket n → undone i w g → safe (CreateBucket_prog n) [] nothing_own w g.
Proof.
  intros Hq Hund. unfold CreateBucket_prog. destruct (validBucketName n) eqn:Hn; cbn [negb].
  2: { apply plainly_safe; [done|eauto with plain|]. intros _. rewrite Hq. by left. }
  apply (Try_safe peace i q (undone i)); [apply stable_deed|done|]. clear w g Hund. intros w g Hund Hinv Ho.
  eapply triple_mono; [eapply triple_fails; [apply fails_Mkdir|apply (step_Mkdir [] ∅ ∅ w n [])]|..|done].
  - apply Hinv.
  - constructor.
  - done.
  - intros _ w' (Hg & Hs & Hnone & w1 & Hq1 & ->). exists g, (mkOwned ∅ {[n]}).
    assert (making n [] ["objects"; "tmp"] (set_tree (insert [n] NDir) w1) g) as HK.
    { assert (∀ c, tree w1 !! [n; c] = None) as Hsub.
      { intros c. destruct Hq1 as (fs & _ & ->). apply (no_dir_child w); [apply Hinv|done]. }
      split; [done|]. split; [split_and!; cbn; [apply lookup_insert_eq|..]; unfold db_path; rewrite lookup_insert_ne by done; apply Hsub|].
      split; [by intros c ?%not_elem_of_nil|]. intros c _. cbn. rewrite lookup_insert_ne by done. apply Hsub. }
    split; [apply same_good; try done|].
    + split; cbn; [set_solver|]. intros m ->%elem_of_singleton. split; [done|apply HK].
    + cbn. intros m ->%elem_of_singleton. by right.
    + eapply Mkdir_sub_safe; [done|cbn; set_solver|by left| |exact HK|]; [set_solver|]. clear - Hq Hn. intros w g HK.
      eapply Mkdir_sub_safe; [done|cbn; set_solver|by right| |exact HK|]; [set_solver|]. clear - Hq Hn. intros w g (Hu & Hb & Hm & _).
      apply (openBucket_safe _ _ _ n None); [done|intros; cbn; set_solver|..].
      { split; [done|]. split; [done|]. split; apply Hm; set_solver. }
      * clear w g Hu Hb Hm. intros e w g He Hnp [Hu|[_ Hm]]; [by apply unhappy_safe|]. eapply tells_safe; [done|]. rewrite Hq. cbn. eauto 7.
      * clear w g Hu Hb Hm. intros h w g Hopen Hm.
        apply (Try_quiet (λ w g, ss_deeds (sspec_of g) !! i = Some (MadeBucket n) ∧ is_open w h n) _ _ _ _ _ (λ _ bi, bi_Name bi = n) (λ w e, plain e ∧ failing w));
          [apply stable_and; auto with stable|done|..].
        -- intros w1 g1 [_ Hopen1] Hinv1. apply step_info; [apply Hinv1|done].
        -- intros w1 g1 w2 bi [Hd _] _ _ Hbi. eapply tells_safe; [done|]. rewrite Hq. cbn. eauto.
        -- intros w1 g1 w2 e [Hd _] Hinv1 _ [He Hf]. eapply tells_safe; [done|]. rewrite Hq. cbn.
           pose proof (no_peace peace _ _ Hinv1 Hf). eauto 7.
  - intros e w' (He & Hg & Hs & Hr). exists g, nothing_own. split; [by apply still_good|]. 
    destruct Hr as [Hf|[[-> _]|Hdir]].
    + apply unhappy_safe; [done|destruct (os_IsExist e); eauto with plain|by eapply no_peace].
    + apply plainly_safe; [done|by eauto with plain|]. intros _. rewrite Hq. by right.
    + done.
Qed.

(** A query of the bucket that is the deed of the call. *)
Lemma Try_look {A} r w g h n (m : M world A) Q (E : world → error → Prop) fail k :
  undone i w g → is_open w h n →
  (∀ w g, is_open w h n → store_inv w g → triple w m (λ a w', quiet w w' ∧ Q w a) (λ e w', quiet w w' ∧ E w e) (λ _, True)) →
  (∀ w g w' a, undone i w g → store_inv w g → owns_ok r w → is_open w h n → quiet w w' → Q w a →
     ∃ g', good i [] r r w g w' g' ∧ safe (k a) [] r w' g') →
  (∀ w g w' e, undone i w g → store_inv w g → owns_ok r w → is_open w h n → quiet w w' → E w e →
     ∃ g', good i [] r r w g w' g' ∧ safe (fail e) [] r w' g') →
  safe (Try m fail k) [] r w g.
Proof.
  intros Hund Ho Hm Hk Hf. apply (Try_safe peace i q (λ w g, undone i w g ∧ is_open w h n)); [apply stable_and; auto with stable|done|].
  clear w g Hund Ho. intros w g [Hund Ho] Hinv Hr. eapply triple_mono; [by apply (Hm w g)|..|done].
  - intros a w' [Hq HQ]. destruct (Hk w g w' a) as (g' & ? & ?); [done..|]. by exists g', r.
  - intros e w' [Hq HE]. destruct (Hf w g w' e) as (g' & ? & ?); [done..|]. by exists g', r.
Qed.

(** A failure that is none of the call's doing. *)
Lemma fails_plainly r w g w' e :
  undone i w g → store_inv w g → owns_ok r w → quiet w w' → plain e ∧ failing w →
  ∃ g', good i [] r r w g w' g' ∧ safe (failed e) [] r w' g'.
Proof.
  intros Hund Hinv Ho Hq [He Hf]. exists g. split; [by apply quiet_good|]. apply unhappy_safe; [done|done|by eapply no_peace].
Qed.

Lemma GetBucket_safe w g n :
  q = AskGetBucket n → undone i w g → safe (GetBucket_prog n) [] nothing_own w g.
Proof.
  intros Hq Hund. apply (bucket_safe _ _ _ n); [by rewrite Hq|done|]. clear w g Hund. intros h w g Hund Hopen.
  apply (Try_look _ _ _ h n _ (λ _ bi, bi_Name bi = n) (λ w e, plain e ∧ failing w)); [done..| | |intros; by apply fails_plainly].
  { intros w1 g1 Ho1 Hinv. apply step_info; [apply Hinv|done]. }
  clear w g Hund Hopen. intros w g w' bi Hund Hinv Hr Ho Hqw Hbi. exists (with_deed i (SawBucket n) (tables w') g). split.
  - apply saw_good; [done..| |done]. split; [by eapply is_open_tables; [apply Hinv|]|by apply quiet_same_tables].
  - eapply tells_safe; [apply with_deed_deed|]. rewrite Hq. cbn. eauto.
Qed.

(** ** Reading objects *)

(** The query of an object is the deed of the call, unless it fails plainly. *)
Lemma look_object_safe r w g h n name k :
  undone i w g → is_open w h n →
  (∀ m, tells m q (SawNone n name) (Failed ErrObjectNotFound)) →
  (∀ w g oi, ss_deeds (sspec_of g) !! i = Some (SawObject n name oi) → is_open w h n → safe (k oi) [] r w g) →
  safe (Try (getObject h name) failed k) [] r w g.
Proof.
  intros Hund Ho Htells Hk.
  apply (Try_look _ _ _ h n _ (λ w oi, has_object w n name oi)
    (λ w e, plain e ∧ failing w ∨ e = ErrObjectNotFound ∧ ∃ t, tables w n = Some t ∧ t !! name = None)); [done..| | |]; clear w g Hund Ho.
  - intros w g Ho Hinv. apply step_getObject; [apply Hinv|done].
  - intros w g w' oi Hund Hinv Hr Ho Hqw Hoi. exists (with_deed i (SawObject n name oi) (tables w') g). split.
    + apply saw_good; [done..| |done]. split; [done|by apply quiet_same_tables].
    + apply Hk; [apply with_deed_deed|eauto with quiet].
  - intros w g w' e Hund Hinv Hr Ho Hqw [He|[-> Hnone]]; [by apply fails_plainly|].
    exists (with_deed i (SawNone n name) (tables w') g). split.
    + apply saw_good; [done..| |done]. split; [done|by apply quiet_same_tables].
    + eapply tells_safe; [apply with_deed_deed|done].
Qed.

Lemma GetObject_safe w g n name :
  q = AskGetObject n name → undone i w g → safe (GetObject_prog n name) [] nothing_own w g.
Proof.
  intros Hq Hund. apply (bucket_safe _ _ _ n); [by rewrite Hq|done|]. clear w g Hund. intros h w g Hund Hopen.
  apply (look_object_safe _ _ _ h n); [done..|by rewrite Hq|]. clear w g Hund Hopen. intros w g oi Hd _.
  eapply tells_safe; [done|]. by rewrite Hq.
Qed.

(** The handle is dereferenced. *)
Lemma load_bucket_safe K L r w g h n k :
  stable i L r K → K w g → is_open w h n →
  (∀ w g b, K w g → is_open w h n → b_name b = n → b_dir b = [n] → safe (k b) L r w g) →
  safe (Call (load_bucket h) k) L r w g.
Proof.
  intros HK Hw Ho Hk. apply (Call_safe peace i q (λ w g, K w g ∧ is_open w h n)); [by apply stable_and; [|apply stable_open]|done|].
  clear w g Hw Ho. intros w g [Hw Ho] Hinv Hr. destruct (is_open_facts _ _ _ (sv_world _ _ _ Hinv) Ho) as (j & d & Hh & _).
  eapply triple_load_bucket; [exact Hh|]. exists g, r. split; [by apply quiet_good, quiet_refl|by apply Hk].
Qed.

(** A file that is handed out. *)
Definition with_handed (f : nat) (c : bytes) (g : sghost) : sghost := mkSGhost (sspec_of g) (<[f := c]> (handed g)).

Lemma handed_good r w g w' f c n sha :
  store_inv w g → owns_ok r w → quiet w w' → tree w !! blob_path n sha = Some (NFile f) → files w !! f = Some c →
  good i [] r r w g w' (with_handed f c g).
Proof.
  intros Hinv Ho Hq Hf Hc. destruct (quiet_good peace i [] r w g w' Hinv Ho Hq) as [Ha Hinv'].
  assert (handed_ok w' f c) as Hfc.
  { pose proof (sv_world _ _ _ Hinv) as Hok. destruct Hq as (fs & _ & ->). split_and!; [|done|].
    - by destruct (ok_file _ (wok_disk _ Hok) _ _ Hf).
    - intros p bw Hbw Hnd E. cbn in Hbw. destruct (writer_bucket _ _ _ Hok Hbw) as (b & _ & _ & _ & Htmp).
      destruct (ok_writers _ (wok_proc _ Hok) _ _ Hbw) as (_ & _ & _ & _ & _ & _ & _ & Hw1 & _).
      rewrite <- E in Hf. pose proof (Hw1 _ Hnd Hf) as E'. by rewrite Htmp in E'. }
  assert (handed g ⊆ <[f := c]> (handed g)) as Hsub.
  { apply map_subseteq_spec. intros f' c' H. destruct (decide (f' = f)) as [->|]; [|by rewrite lookup_insert_ne].
    destruct (sv_handed _ _ _ Hinv _ _ H) as (_ & Hc' & _). rewrite lookup_insert_eq. congruence. }
  split.
  - destruct Ha. by split.
  - destruct Hinv'. split; [done|done| |done]. by apply map_Forall_insert_2.
Qed.

Lemma OpenObject_safe w g n name :
  q = AskOpenObject n name → undone i w g → safe (OpenObject_prog n name) [] nothing_own w g.
Proof.
  intros Hq Hund. apply (bucket_safe _ _ _ n); [by rewrite Hq|done|]. clear w g Hund. intros h w g Hund Hopen.
  apply (look_object_safe _ _ _ h n); [done..|by rewrite Hq|]. clear w g Hund Hopen. intros w g oi Hd Hopen.
  apply (load_bucket_safe (λ _ g, ss_deeds (sspec_of g) !! i = Some (SawObject n name oi)) _ _ _ _ h n); [apply stable_deed|done..|].
  clear w g Hd Hopen. intros w g b Hd _ Hbn Hbd.
  apply (Try_safe peace i q (λ _ g, ss_deeds (sspec_of g) !! i = Some (SawObject n name oi))); [apply stable_deed|done|].
  clear w g Hd. intros w g Hd Hinv Hr. rewrite blobPath_eq by congruence. rewrite Hbn.
  eapply triple_mono; [apply (step_open_blob w n); apply Hinv|..|done].
  - intros f w' (Hqw & Hf & c & Hc & Hsha). exists (with_handed f c g), nothing_own. split; [by eapply handed_good|].
    eapply tells_safe; [exact Hd|]. rewrite Hq. cbn. split_and!; [done..|]. left. exists f, c. by rewrite lookup_insert_eq.
  - intros e w' Hqw. exists g, nothing_own. split; [by apply quiet_good|].
    eapply tells_safe; [exact Hd|]. rewrite Hq. cbn. eauto.
Qed.
End calls.

(** ** Transactions *)

(** A call that leaves the writers alone. *)
Lemma triple_same_writers {A} w (m : M world A) Q E C :
  (∀ W, preserves (writers_are W) m) → triple w m Q E C →
  triple w m (λ a w', Q a w' ∧ writers w' = writers w) (λ e w', E e w' ∧ writers w' = writers w) (λ _, True).
Proof. intros Hm Ht. eapply triple_mono; [by apply (triple_frame (writers_are (writers w)))|..]; done. Qed.

Lemma tx_Commit_writers h tx W : preserves (writers_are W) (tx_Commit h tx).
Proof. unfold tx_Commit, sqlcall. repeat writers_step. Qed.
Lemma Remove_writers p W : preserves (writers_are W) (os_Remove p).
Proof. unfold os_Remove, syscall. repeat writers_step. Qed.

(** Knowledge that lasts while a call does its own work: of its writer. *)
Record lasting (i : nat) (r : owned) (J : knowledge) : Prop := {
  lasts L : stable i L r J;
  lasts_own w g w' g' : J w g → writers w' = writers w → next w ≤ next w' → J w' g';
}.
Lemma lasting_true i r : lasting i r (λ _ _, True).
Proof. split; [intros L; apply stable_pure|done]. Qed.
Lemma lasting_writer i r p bw : p ∈ ow_writers r → lasting i r (has_writer p bw).
Proof.
  intros Hp. split; [intros L; by apply stable_writer|]. intros w g w' g' [Hlt Hbw] E Hn. split; [lia|by rewrite E].
Qed.

(** Knowledge that lasts while it plans a transaction. *)
Record holding (i : nat) (L : list nat) (r : owned) (J : knowledge) : Prop := {
  hold_stable : stable i L r J;
  hold_quiet w g w' g' : J w g → quiet w w' → J w' g';
}.
Lemma lasting_holding i L r J : lasting i r J → holding i L r J.
Proof.
  intros [H1 H2]. split; [done|]. intros w g w' g' Hw Hq. eapply H2; [done|..]; by destruct Hq as (fs & _ & ->).
Qed.
Lemma holding_and i L r J J' : holding i L r J → holding i L r J' → holding i L r (λ w g, J w g ∧ J' w g).
Proof. intros [H1 H2] [H3 H4]. split; [by apply stable_and|]. intros w g w' g' [? ?] Hq. eauto. Qed.
Lemma holding_blob i r h n sha :
  holding i [commit_mu h] r (λ w _, buckets w !! n = Some h ∧ is_Some (blob_content w n sha)).
Proof. split; [by apply stable_blob|]. intros w g w' g' Hw Hq. by destruct Hq as (fs & _ & ->). Qed.

Section locked.
Context (peace : Prop) (i : nat) (q : store_request) (h : nat) (n : string) (r : owned) (J : knowledge).
Abbreviation safe := (Pool.safe (store_protocol peace) i q).
Abbreviation store_inv := (store_inv peace).
Abbreviation good := (good peace).
Abbreviation L := [commit_mu h].

(** What a call knows that has locked the bucket's [commitMu] and begun a
    transaction on the tables [d], which are to become [tx]. *)
Definition in_tx (d : database) : knowledge := λ w g, undone i w g ∧ has_tables h n d w g ∧ J w g.
Definition in_plan (d tx : database) : knowledge := λ w g,
  in_tx d w g ∧ buckets w !! n = Some h ∧ known_blobs w n tx.

Lemma stable_in_tx d : holding i L r J → stable i L r (in_tx d).
Proof. intros HJ. unfold in_tx. apply stable_and; [apply stable_undone|]. apply stable_and; [by apply stable_tables|by apply hold_stable]. Qed.
Lemma stable_in_plan d tx : holding i L r J → stable i L r (in_plan d tx).
Proof. intros HJ. unfold in_plan. apply stable_and; [by apply stable_in_tx|by apply stable_known]. Qed.

Lemma finish_safe w g b d tx orphan deed fail k :
  lasting i r J → b_name b = n → b_dir b = [n] → db_ok tx → initialized tx →
  (∀ sha, orphan = Some sha → blobs tx !! sha = None) →
  (∀ o o', o n = Some (objects d) → updates n (Some (objects tx)) o o' → happens deed o o') → (∀ m, deed ≠ MadeBucket m) →
  in_plan d tx w g →
  (∀ w g e, undone i w g → J w g → plain e → ¬ peace → safe (fail e) L r w g) →
  (∀ w g, ss_deeds (sspec_of g) !! i = Some deed → J w g → safe k L r w g) →
  safe (finish_prog h b tx orphan fail k) L r w g.
Proof.
  intros HJ Hbn Hbd Htx Hi Horph Hdeed Hmade HK Hfail Hk. unfold finish_prog.
  apply (Try_safe peace i q (in_plan d tx)); [by apply stable_in_plan, lasting_holding|done|].
  clear w g HK. intros w g ((Hund & (Hopen & Hreg & Hd) & Hj) & _ & Hknown) Hinv Ho. pose proof (sv_world _ _ _ Hinv) as Hok.
  eapply triple_mono; [eapply triple_same_writers; [apply tx_Commit_writers|eapply triple_fails; [apply fails_tx_Commit|
    by apply (step_tx_Commit L (ow_writers r) (ow_names r) h n w d tx)]]|..|done].
  2: { intros e w' [(He & Hg & Hs & Hf) Hw]. exists g, r. split; [by apply still_good|].
       apply Hfail; [done| |done|by eapply no_peace]. eapply lasts_own; [done..|apply Hg]. }
  intros _ w' [(Hg & Hopen' & Hd' & Ht' & Hother) Hw]. exists (with_deed i deed (tables w') g), r.
  assert (J w' (with_deed i deed (tables w') g)) as Hj' by (eapply lasts_own; [done..|apply Hg]). split.
  { apply deed_good; [done..| |by intros m ->; destruct (Hmade m)]. apply Hdeed; [|by split].
    destruct (is_open_facts _ _ _ Hok Hopen) as (? & d' & _ & _ & _ & _ & _ & _ & Hbd' & _ & Ht). congruence. }
  destruct orphan as [sha|]; [|apply Hk; [apply with_deed_deed|done]].
  set (g1 := with_deed i deed (tables w') g) in *. assert (ss_deeds (sspec_of g1) !! i = Some deed) as Hg1 by apply with_deed_deed.
  destruct (is_open_facts _ _ _ (proj1 Hg) Hopen') as (? & ? & _ & Hreg' & _). clearbody g1.
  apply (Quietly_safe peace i q (λ w g, ss_deeds (sspec_of g) !! i = Some deed ∧ has_tables h n tx w g ∧ J w g)).
  { apply stable_and; [apply stable_deed|]. apply stable_and; [by apply stable_tables|by apply lasts]. }
  { done. }
  clear - HJ Hbn Hbd Horph Hk. intros w g (Hd & (Hopen & _ & Htx) & Hj) Hinv Ho. cbn zeta.
  rewrite blobPath_eq by congruence. rewrite Hbn.
  eapply triple_mono; [eapply triple_same_writers; [apply Remove_writers|
    apply (step_remove_blob L (ow_writers r) (ow_names r) h n w sha); [done|apply Hinv|done|]]|..|done].
  - intros d' Hd'. replace d' with tx by congruence. by apply Horph.
  - intros _ w' [[Hg Hs] Hw]. exists g, r. split; [by apply still_good|]. apply Hk; [done|]. eapply lasts_own; [done..|apply Hg].
  - intros _ w' [[Hg Hs] Hw]. exists g, r. split; [by apply still_good|]. apply Hk; [done|]. eapply lasts_own; [done..|apply Hg].
Qed.

(** The transaction begins. *)
Lemma Begin_safe w g fail k :
  holding i L r J → undone i w g → is_open w h n → J w g →
  (∀ w g e, undone i w g → J w g → plain e → ¬ peace → safe (fail e) L r w g) →
  (∀ w g d, in_tx d w g → safe (k d) L r w g) →
  safe (Try (db_Begin h) fail k) L r w g.
Proof.
  intros HJ Hund Hopen Hj Hfail Hk.
  apply (Try_quiet peace i q (λ w g, undone i w g ∧ is_open w h n ∧ J w g) _ _ _ _ _ (λ w d, bucket_db w n = Some d) (λ w e, plain e ∧ failing w)).
  - apply stable_and; [apply stable_undone|]. apply stable_and; [apply stable_open|by apply hold_stable].
  - done.
  - clear w g Hund Hopen Hj. intros w g (_ & Hopen & _) Hinv.
    eapply triple_mono; [by apply step_Begin; [apply Hinv|]|..|done]; [|done]. by intros d w' (? & ? & _).
  - intros w1 g1 w2 d (? & Ho & ?) Hinv Hq Hd. apply Hk. split; [done|]. split; [|done]. split; [done|].
    split; [|by destruct Hq as (fs & _ & ->)]. by destruct (is_open_facts _ _ _ (sv_world _ _ _ Hinv) Ho) as (? & ? & _ & ? & _).
  - intros w1 g1 w2 e (? & ? & ?) Hinv _ [He Hf]. apply Hfail; [done..|by eapply no_peace].
Qed.

(** And is planned: the call is denied, or the tables are to change. *)
Lemma plan_safe {A} w g d (m : M world A) (Q : A → world → Prop) (E : error → sdeed → Prop) fail k :
  holding i L r J → in_tx d w g →
  (∀ w g, world_ok w → bucket_db w n = Some d → initialized d → tables w n = Some (objects d) → J w g →
     triple w m (λ a w', quiet w w' ∧ Q a w) (λ e w', quiet w w' ∧ (plain e ∧ failing w ∨ ∃ deed, E e deed)) (λ _, True)) →
  (∀ e deed o o', E e deed → o n = Some (objects d) → same_objects o o' → happens deed o o' ∧ ∀ m, deed ≠ MadeBucket m) →
  (∀ w g w' a, in_tx d w' g → quiet w w' → Q a w → safe (k a) L r w' g) →
  (∀ w g e, undone i w g → J w g → plain e → ¬ peace → safe (fail e) L r w g) →
  (∀ w g e deed, E e deed → ss_deeds (sspec_of g) !! i = Some deed → J w g → safe (fail e) L r w g) →
  safe (Try m fail k) L r w g.
Proof.
  intros HJ HK Hm Hdenied Hk Hfail Hdeed. apply (Try_safe peace i q (in_tx d)); [by apply stable_in_tx|done|].
  clear w g HK. intros w g HK Hinv Ho. pose proof HK as (Hund & (Hopen & Hreg & Hd) & Hj). pose proof (sv_world _ _ _ Hinv) as Hok.
  destruct (is_open_facts _ _ _ Hok Hopen) as (? & d' & _ & _ & _ & _ & _ & Hi & Hd' & _ & Ht).
  replace d' with d in * by congruence. clear Hd'.
  assert (∀ w', quiet w w' → J w' g) as Hq.
  { intros w' Hq. by eapply hold_quiet. }
  eapply triple_mono; [by apply (Hm w g)|..|done].
  - intros a w' [Hqw HQ]. exists g, r. split; [by apply quiet_good|].
    assert (in_tx d w' g) as HK'.
    { split; [done|]. split; [|by apply Hq]. by destruct Hqw as (fs & _ & ->). }
    by eapply Hk.
  - intros e w' [Hqw [[He Hf]|[deed He]]].
    + exists g, r. split; [by apply quiet_good|]. apply Hfail; [done|by apply Hq|done|by eapply no_peace].
    + exists (with_deed i deed (tables w') g), r. split.
      * destruct (Hdenied e deed (tables w) (tables w')) as [Hhap Hmade]; [done..|by apply quiet_same_tables|].
        apply deed_good; [done|done|by apply goes_quiet|done|done|]. by intros m0 ->; destruct (Hmade m0).
      * eapply Hdeed; [done|apply with_deed_deed|]. eapply (hold_quiet _ _ _ _ HJ w); [done|done].
Qed.
End locked.

Section requests.
Context (peace : Prop) (i : nat) (q : store_request).
Abbreviation safe := (Pool.safe (store_protocol peace) i q).

Lemma DeleteObject_safe w g n name conds :
  q = AskDeleteObject n name conds → undone i w g → safe (DeleteObject_prog n name conds) [] nothing_own w g.
Proof.
  intros Hq Hund. apply (bucket_safe _ _ _ _ _ _ n); [by rewrite Hq|done|]. clear w g Hund. intros h w g Hund Hopen.
  pose proof (lasting_true i nothing_own) as HJ.
  apply (Lock_safe peace i q (λ w g, undone i w g ∧ is_open w h n)); [apply stable_and; auto with stable|done|].
  clear w g Hund Hopen. intros w g [Hund Hopen] _.
  apply (load_bucket_safe peace i q (undone i) _ _ _ _ h n); [apply stable_undone|done..|].
  clear w g Hund Hopen. intros w g b Hund Hopen Hbn Hbd.
  assert (∀ w g e, undone i w g → True → plain e → ¬ peace → safe (Unlock (commit_mu h) (failed e)) [commit_mu h] nothing_own w g) as Hfail.
  { intros w1 g1 e Hu _ He Hp. by apply Unlock_safe, unhappy_safe. }
  apply (Begin_safe peace i q h n nothing_own (λ _ _, True)); [by apply lasting_holding|done..|]. clear w g Hund Hopen. intros w g d Htx.
  apply (plan_safe peace i q h n nothing_own (λ _ _, True) w g d _
    (λ '(tx, orphan) w, db_ok tx ∧ initialized tx ∧ deletes name conds n (objects d) (objects tx) ∧
       known_blobs w n tx ∧ ∀ sha, orphan = Some sha → blobs tx !! sha = None)
    (λ e deed, (e = ErrPreconditionFailed ∧ deed = Denied n name conds ∧ denied n name conds (objects d)) ∨
       (e = ErrObjectNotFound ∧ deed = SawNone n name ∧ objects d !! name = None))); [by apply lasting_holding|done|..|exact Hfail|]; clear w g Htx.
  - intros w _ Hok Hd Hi Ht _. eapply triple_mono; [by apply step_delete_plan|..|done]; [by intros [] w'|].
    intros e w' [Hqw [?|[[]|[]]]]; (split; [done|]); eauto 8.
  - intros e deed o o' [(-> & -> & ?)|(-> & -> & ?)] Ho Hs; cbn; split; eauto; congruence.
  - intros w g w' [tx orphan] Htx Hqw (Hok & Hi & Hdel & Hkn & Horph).
    apply (finish_safe peace i q h n nothing_own (λ _ _, True) w' g b d tx orphan (Removed n name conds)); try done.
    + intros o o' Ho Hu. cbn. eauto.
    + split; [done|]. split; [apply Htx|]. by destruct Hqw as (fs & _ & ->).
    + intros w1 g1 Hd _. apply Unlock_safe. eapply tells_safe; [done|]. by rewrite Hq.
  - intros w g e deed HE Hd _. apply Unlock_safe. eapply tells_safe; [done|]. rewrite Hq.
    by destruct HE as [(-> & -> & _)|(-> & -> & _)].
Qed.
End requests.
