(* ===== verification/PutLin.v ===== *)
(** A put among other calls: the writer that it makes is its own until it is
    installed, and the new version appears when the transaction commits. *)

From S2P Require Import Prelude Errors GoMonad Pool GoStd Types Names Hash Database World Bucket Store BlobWriter Outcomes StoreInv Triple StoreSafe StoreOps ObjectOps WriterOps Frame Run Refine StoreProgs StoreMoves StoreSteps StoreSpec StoreLin.
From stdpp Require Import options.
From stdpp Require Import relations.

Section puts.
Context (peace : Prop) (i : nat) (q : store_request) (h : nat) (n : string) (r : owned) (p : nat).
Abbreviation safe := (Pool.safe (store_protocol peace) i q).
Abbreviation store_inv := (store_inv peace).
Abbreviation good := (good peace).
Abbreviation tells := (tells peace).
Abbreviation did_nothing := (did_nothing peace).

(** What a put knows while it writes: nothing is done yet, the writer [p] is its
    own, and so is its file. *)
Definition putting (bw : BlobWriter) : knowledge := λ w g,
  undone i w g ∧ is_open w h n ∧ has_writer p bw w g ∧ tree w !! w_tmp bw = Some (NFile (w_ino bw)).
Lemma stable_putting L bw : p ∈ ow_writers r → stable i L r (putting bw).
Proof.
  intros Hp w g w' g' Hm (Hu & Ho & Hw & Ht) Hok Hr. split_and!.
  - by eapply stable_undone.
  - by eapply stable_open.
  - by eapply (stable_writer i L r).
  - by rewrite (me_temps _ _ _ _ _ _ _ Hm p bw Hp (proj1 Hw) (proj2 Hw)).
Qed.

(** While the writer is not done, its file is in place. *)
Lemma putting_writing bw w g :
  world_ok w → undone i w g → is_open w h n → has_writer p bw w g → w_b bw = h → w_done bw = false → putting bw w g.
Proof.
  intros Hok Hu Ho Hw Hb Hnd. split_and!; try done; try apply Hw.
  destruct (ok_writers _ (wok_proc _ Hok) _ _ (proj2 Hw)) as (_ & _ & _ & _ & _ & _ & (b & Hh & _ & Hin) & _).
  destruct (is_open_facts _ _ _ Hok Ho) as (j & d & Hh' & _). rewrite Hb, Hh' in Hh. injection Hh as <-. by apply Hin.
Qed.

(** A step of its own that touches neither the writer nor its file. *)
Lemma putting_kept L bw w g w' :
  putting bw w g → goes L (ow_writers r) (ow_names r) w w' → writers w' = writers w →
  undone i w' g ∧ is_open w' h n ∧ has_writer p bw w' g.
Proof.
  intros (Hu & (b & Hb & Ho) & [Hlt Hbw] & _) [Hok Hm] E. split_and!; [done| |split].
  - exists b. split; [|done]. eapply lookup_weaken; [exact Hb|apply Hm].
  - pose proof (mo_next _ _ _ _ _ Hm). lia.
  - by rewrite E.
Qed.

(** The pieces are copied to the writer. *)
Lemma copy_safe pieces end_ k : p ∈ ow_writers r → ∀ bw w g,
  w_done bw = false → w_b bw = h → putting bw w g →
  (∀ bw' err w g, w_done bw' = false → w_b bw' = w_b bw → putting bw' w g →
     (err = None → end_ = None ∧ w_sha bw' = w_sha bw ++ concat pieces) →
     (∀ e, err = Some e → (plain e ∧ ¬ peace) ∨ end_ = Some e) → safe (k err) [] r w g) →
  safe (copy_prog p pieces end_ k) [] r w g.
Proof.
  intros Hp. induction pieces as [|[|a piece] pieces IH]; intros bw w g Hnd Hb Hput Hk; cbn [copy_prog].
  - apply (Hk bw); [done..| |auto]. intros ->. by rewrite app_nil_r.
  - by apply (IH bw).
  - set (x := a :: piece) in *. apply (Call_safe peace i q (putting bw)); [by apply stable_putting|done|].
    clear w g Hput. intros w g Hput Hinv Ho. pose proof Hput as (Hund & Hopen & [Hlt Hbw] & _).
    eapply triple_mono; [apply (step_Write [] (ow_writers r) (ow_names r) w p bw x); [apply Hinv|done|done]|..|done]; [|done].
    intros [m err] w' (Hg & Hs & [Hbw' Hnd'] & Hlen & Herr). exists g, r. split; [by apply still_good|].
    assert (putting (feed (take m x) bw) w' g) as Hput'.
    { apply putting_writing; [apply Hg|done| |split; [|done]|done|done].
      - destruct Hopen as (b & Hh & ?). exists b. split; [|done]. eapply lookup_weaken; [exact Hh|apply Hg].
      - pose proof (mo_next _ _ _ _ _ (proj2 Hg)). lia. }
    destruct err as [e|].
    { apply (Hk (feed (take m x) bw)); [done|done|done|done|]. intros e' [= <-]. left. destruct (Herr e eq_refl). split; [done|by eapply no_peace]. }
    rewrite (Hlen eq_refl), Nat.eqb_refl in *. cbn [negb]. rewrite firstn_all in *.
    apply (IH (feed x bw)); [done..|]. intros bw' err w1 g1 H1 H2 H3 H4 H5. apply (Hk bw'); [done..| |done].
    intros E. destruct (H4 E) as [-> ->]. split; [done|]. cbn. by rewrite <- app_assoc.
Qed.

(** The handle of the writer is dereferenced. *)
Lemma load_writer_safe bw w g k :
  p ∈ ow_writers r → putting bw w g →
  (∀ w g, putting bw w g → store_inv w g → safe (k bw) [] r w g) → safe (Call (load_writer p) k) [] r w g.
Proof.
  intros Hp Hput Hk. apply (Call_safe peace i q (putting bw)); [by apply stable_putting|done|].
  clear w g Hput. intros w g Hput Hinv Ho. eapply triple_load_writer; [apply Hput|].
  exists g, r. split; [by apply quiet_good, quiet_refl|by apply Hk].
Qed.

(** It is marked done. *)
Lemma done_safe bw w g k :
  p ∈ ow_writers r → putting bw w g →
  (∀ w g, putting (set_done bw) w g → safe k [] r w g) →
  safe (Call (modify (set_writers (alter set_done p))) (λ _, k)) [] r w g.
Proof.
  intros Hp Hput Hk. apply (Call_safe peace i q (putting bw)); [by apply stable_putting|done|].
  clear w g Hput. intros w g (Hund & Hopen & [Hlt Hbw] & Ht) Hinv Ho. apply triple_modify.
  exists g, r. split.
  - apply still_good; [done|done|apply step_done; [apply Hinv|done]|done].
  - apply Hk. split; [done|]. split; [done|]. split; [|done]. split; [done|]. cbn. by rewrite lookup_alter_eq, Hbw.
Qed.

(** Its file is removed at the end; [K] is what is known besides. *)
Lemma remove_temp_safe K bw w g k :
  p ∈ ow_writers r → w_done bw = true →
  (∀ w g w', K w g → K w' g) → stable i [] r K →
  has_writer p bw w g → K w g → (∀ w g, K w g → safe k [] r w g) →
  safe (Quietly (os_Remove (w_tmp bw)) k) [] r w g.
Proof.
  intros Hp Hdone Hown HK Hw HKw Hk.
  apply (Quietly_safe peace i q (λ w g, K w g ∧ has_writer p bw w g)); [by apply stable_and; [|by apply stable_writer]|done|].
  clear w g Hw HKw. intros w g [HKw [Hlt Hbw]] Hinv Ho. cbn zeta.
  eapply triple_mono; [apply (step_remove_temp [] (ow_writers r) (ow_names r) w p bw); [apply Hinv|done..]|..|done];
    (intros _ w' [Hg Hs]; exists g, r; split; [by apply still_good|by eapply Hk, Hown]).
Qed.

(** The way out of [Commit] when nothing was done. *)
Lemma give_up_safe bw w g e :
  p ∈ ow_writers r → w_done bw = true → undone i w g → has_writer p bw w g → did_nothing q (Failed e) →
  safe (Quietly (os_Remove (w_tmp bw)) (failed e)) [] r w g.
Proof.
  intros Hp Hd Hu Hw He. apply (remove_temp_safe (undone i) bw); [done|done|done|apply stable_undone|done|done|].
  intros w1 g1 Hu1. by apply nothing_safe.
Qed.

Lemma close_safe bw w g k :
  p ∈ ow_writers r → putting bw w g →
  (∀ w g, putting bw w g → safe k [] r w g) → safe (Quietly file_Close k) [] r w g.
Proof.
  intros Hp Hput Hk. apply (Quietly_safe peace i q (putting bw)); [by apply stable_putting|done|].
  clear w g Hput. intros w g Hput Hinv Ho. cbn zeta.
  apply triple_ret_call; [intros w' Hq|intros w' Hq _|done]; exists g, r; (split; [by apply quiet_good|apply Hk]);
    by destruct Hq as (fs & _ & ->).
Qed.

Lemma abort_put_safe bw w g e :
  p ∈ ow_writers r → w_done bw = false → putting bw w g → did_nothing q (Failed e) →
  safe (Abort_prog p (failed e)) [] r w g.
Proof.
  intros Hp Hnd Hput He. unfold Abort_prog. apply (load_writer_safe bw); [done..|].
  clear w g Hput. intros w g Hput _. rewrite Hnd. apply (done_safe bw); [done..|].
  clear w g Hput. intros w g Hput. apply (close_safe (set_done bw)); [done..|].
  clear w g Hput. intros w g (Hu & _ & Hw & _). by apply (give_up_safe (set_done bw)).
Qed.

(** Under [commitMu] the blob is put in place. *)
Definition placed (bw : BlobWriter) : knowledge := λ w g,
  (undone i w g ∧ is_open w h n ∧ has_writer p bw w g) ∧ buckets w !! n = Some h ∧ is_Some (blob_content w n (sha_hex (w_sha bw))).

Lemma placed_intro bw w g :
  store_inv w g → undone i w g ∧ is_open w h n ∧ has_writer p bw w g → is_Some (blob_content w n (sha_hex (w_sha bw))) → placed bw w g.
Proof.
  intros Hinv Hput Hc. split; [done|]. split; [|done].
  by destruct (is_open_facts _ _ _ (sv_world _ _ _ Hinv) (proj1 (proj2 Hput))) as (? & ? & _ & ? & _).
Qed.

(** The temporary file gets the name of the blob, whose directory is there. *)
Lemma Rename_safe bw w g fail k :
  let L := [commit_mu h] in let dst := blob_path n (sha_hex (w_sha bw)) in
  p ∈ ow_writers r → w_done bw = true → w_b bw = h → putting bw w g → tree w !! parent dst = Some NDir →
  (∀ w g e, undone i w g → has_writer p bw w g → plain e → ¬ peace → safe (fail e) L r w g) →
  (∀ w g, placed bw w g → safe k L r w g) →
  safe (Try (os_Rename (w_tmp bw) dst) fail (λ _, k)) L r w g.
Proof.
  intros L dst Hp Hdone Hb Hput Hpar Hfail Hk.
  apply (Try_safe peace i q (λ w g, putting bw w g ∧ tree w !! parent dst = Some NDir));
    [apply stable_and; [by apply stable_putting|by apply stable_node]|done|].
  clear w g Hput Hpar. intros w g [Hput Hpar] Hinv Ho. pose proof Hput as (_ & Hopen & [_ Hbw] & Htmp).
  eapply triple_mono; [eapply triple_same_writers; [|eapply (triple_fails _ _ plain); [|
    apply (step_Rename L (ow_writers r) (ow_names r) h n w p bw); [apply head_held|apply Hinv|done..]]]|..|done].
  { intros W. unfold os_Rename, syscall. repeat writers_step. }
  { fails. }
  - intros _ w' [(Hg & Hs & Hc) Hw]. exists g, r. pose proof (still_good peace i L r w g w' Hinv Ho Hg Hs) as Hgood. split; [done|].
    apply Hk, placed_intro; [apply Hgood|by eapply putting_kept|done].
  - intros e w' [(He & Hg & Hs & Hr) Hw]. exists g, r. split; [by apply still_good|].
    destruct (putting_kept _ _ _ _ _ Hput Hg Hw) as (? & _ & ?). apply Hfail; [done..|].
    destruct Hr as [?|[Hno|Hdir]]; [by eapply no_peace|by destruct (Hno (w_ino bw))|].
    change (is_dir (tree w) (parent dst) = false) in Hdir. change (parent dst) with [n; "objects"; str_take 2 (sha_hex (w_sha bw))] in *.
    unfold is_dir in Hdir. by rewrite bool_decide_eq_false in Hdir.
Qed.

Lemma install_safe bw w g fail k :
  let L := [commit_mu h] in
  p ∈ ow_writers r → w_done bw = true → w_b bw = h → putting bw w g →
  (∀ w g e, undone i w g → has_writer p bw w g → plain e → ¬ peace → safe (fail e) L r w g) →
  (∀ w g, placed bw w g → safe k L r w g) →
  safe (install_prog (w_tmp bw) (blob_path n (sha_hex (w_sha bw))) fail k) L r w g.
Proof.
  intros L Hp Hdone Hb Hput Hfail Hk. unfold install_prog.
  apply (Try_quiet peace i q (putting bw) _ _ _ _ _ (λ w nd, tree w !! blob_path n (sha_hex (w_sha bw)) = Some nd) (λ _ _, True));
    [by apply stable_putting|done|..]; clear w g Hput.
  - intros w g _ _. eapply triple_mono; [apply step_Stat|..|done]; [done|]. by intros e w' [? _].
  - intros w0 g w nd (? & Hopen & ? & _) Hinv Hq Hnd. pose proof (sv_world _ _ _ Hinv) as Hok. apply Hk, placed_intro; [done..|].
    destruct (is_open_facts _ _ _ Hok Hopen) as (? & ? & _ & _ & Hv & _).
    replace (tree w0) with (tree w) in Hnd by (by destruct Hq as (fs & _ & ->)).
    pose proof (ok_layout _ (wok_disk _ Hok) n _ _ Hv Hnd) as Hl. inversion Hl; subst.
    unfold blob_content. rewrite Hnd. by destruct (ok_file _ (wok_disk _ Hok) _ _ Hnd).
  - intros _ g w _ Hput _ _ _. apply (Try_safe peace i q (putting bw)); [by apply stable_putting|done|].
    clear w g Hput. intros w g Hput Hinv Ho. pose proof Hput as (_ & Hopen & _ & Htmp).
    destruct (is_open_facts _ _ _ (sv_world _ _ _ Hinv) Hopen) as (j & ? & _ & _ & Hv & Hdb & _).
    eapply triple_mono; [eapply triple_same_writers; [|eapply triple_fails; [apply fails_MkdirAll|
      apply (step_MkdirAll L (ow_writers r) (ow_names r) n w (sha_hex (w_sha bw)) j); [apply Hinv|by apply owns_allocated|done|done]]]|..|done].
    { intros W. apply mkdir_all_writers. }
    2: { intros e w' [(He & Hg & Hs & Hf) Hw]. exists g, r. split; [by apply still_good|].
         destruct (putting_kept _ _ _ _ _ Hput Hg Hw) as (? & _ & ?). apply Hfail; [done..|by eapply no_peace]. }
    intros _ w' [(Hg & Hs & Hmd & Hdir) Hw]. exists g, r. split; [by apply still_good|].
    apply (Rename_safe bw); [done..| | |done|done].
    + destruct (putting_kept _ _ _ _ _ Hput Hg Hw) as (? & ? & ?). split_and!; try done; try apply H1.
      by apply (md_nodes _ _ Hmd).
    + change (parent (blob_path n (sha_hex (w_sha bw)))) with [n; "objects"; str_take 2 (sha_hex (w_sha bw))] in *.
      unfold is_dir in Hdir. by apply bool_decide_eq_true in Hdir.
Qed.

(** The critical section of [Commit]; [bw] has seen the bytes that it is to
    store. *)
Lemma locked_safe bw b w g name opts finish :
  p ∈ ow_writers r → w_done bw = true → w_b bw = h → b_name b = n → b_dir b = [n] → validObjectName name = true →
  w_md5h bw = w_sha bw → w_crc bw = w_sha bw → w_size bw = int64 (Z.of_nat (length (w_sha bw))) →
  putting bw w g →
  (∀ w g e, undone i w g → has_writer p bw w g → plain e → ¬ peace → safe (finish (Failed e)) [] r w g) →
  (∀ w g, ss_deeds (sspec_of g) !! i = Some (Denied n name (po_Conditions opts)) → has_writer p bw w g →
     safe (finish (Failed ErrPreconditionFailed)) [] r w g) →
  (∀ w g oi, ss_deeds (sspec_of g) !! i = Some (Stored n name (w_sha bw) opts oi) → has_writer p bw w g →
     safe (finish (ObjectIs oi)) [] r w g) →
  safe (commit_locked h b bw name opts finish) [] r w g.
Proof.
  intros Hp Hdone Hb Hbn Hbd Hname Hmd Hcrc Hsz Hput Hfail Hdenied Hstored. unfold commit_locked.
  rewrite blobPath_eq by congruence. rewrite Hbn. fold (sha_hex (w_sha bw)).
  apply (Lock_safe peace i q (putting bw)); [by apply stable_putting|done|]. clear w g Hput. intros w g Hput _.
  pose proof (lasting_writer i r p bw Hp) as HJ.
  pose proof (holding_and _ _ _ _ _ (lasting_holding i [commit_mu h] r _ HJ) (holding_blob i r h n (sha_hex (w_sha bw)))) as HJB.
  assert (∀ w g e, undone i w g → has_writer p bw w g → plain e → ¬ peace →
    safe (Unlock (commit_mu h) (finish (Failed e))) [commit_mu h] r w g) as Hfail'.
  { intros. apply Unlock_safe. by apply Hfail. }
  apply (install_safe bw); [done..|]. clear w g Hput. intros w g [(Hund & Hopen & Hw) Hplaced].
  eapply (Begin_safe peace i q h n r _ _ _ _ _ HJB); [done|done|done|intros w1 g1 e ? [? _]; by apply Hfail'|].
  clear w g Hund Hopen Hw Hplaced. intros w g d Htx.
  eapply (plan_safe peace i q h n r _ w g d _
    (λ '(tx, (oi, orphan)) w, db_ok tx ∧ initialized tx ∧ commits n name (w_sha bw) opts oi (objects d) (objects tx) ∧
       known_blobs w n tx ∧ ∀ sha, orphan = Some sha → blobs tx !! sha = None)
    (λ e deed, e = ErrPreconditionFailed ∧ deed = Denied n name (po_Conditions opts) ∧ denied n name (po_Conditions opts) (objects d)) _ _ HJB);
    [done|..|intros w1 g1 e ? [? _]; by apply Hfail'|]; clear w g Htx.
  - intros w g Hok Hd Hi Ht (_ & _ & Hc). eapply triple_mono; [by apply (step_commit_plan w b bw n)|..|done]; [by intros [? []] w'|].
    intros e w' [Hqw [?|[]]]; (split; [done|]); eauto 8.
  - intros e deed o o' (-> & -> & ?) Ho Hs; cbn; eauto.
  - intros w g w' [tx [oi orphan]] (Hund & Htab & Hw & Hreg & _) Hqw (Hok & Hi & Hcom & Hkn & Horph).
    apply (finish_safe peace i q h n r (has_writer p bw) w' g b d tx orphan (Stored n name (w_sha bw) opts oi)); try done.
    + intros o o' Ho Hu. cbn. eauto.
    + split; [done|]. split; [done|]. by destruct Hqw as (fs & _ & ->).
    + intros w1 g1 Hd Hw1. by apply Unlock_safe, Hstored.
  - intros w g e deed (-> & -> & _) Hd [Hw _]. by apply Unlock_safe, Hdenied.
Qed.

(** A call on the writer's file that can only fail plainly. *)
Lemma sync_safe bw w g fail k :
  p ∈ ow_writers r → putting bw w g →
  (∀ w g e, putting bw w g → plain e → ¬ peace → safe (fail e) [] r w g) →
  (∀ w g, putting bw w g → safe k [] r w g) → safe (Try file_Sync fail (λ _, k)) [] r w g.
Proof.
  intros Hp Hput Hfail Hk.
  apply (Try_quiet peace i q (putting bw) _ _ _ _ _ (λ _ _, True) (λ w e, plain e ∧ failing w)); [by apply stable_putting|done|..].
  - intros. apply triple_ret_call; [done|intros; split; [done|eauto with plain]|done].
  - intros. by apply Hk.
  - intros w1 g1 w2 e Hput2 Hinv1 _ [He Hf]. apply Hfail; [done..|by eapply no_peace].
Qed.

Lemma commit_put_safe bw w g name opts pieces :
  q = AskPutObject n name pieces opts → pieces.2 = None → w_sha bw = concat pieces.1 →
  p ∈ ow_writers r → w_done bw = false → w_b bw = h → putting bw w g →
  safe (Commit_prog p name opts) [] r w g.
Proof.
  intros Hq Hend Hsha Hp Hnd Hb Hput. unfold Commit_prog. apply (load_writer_safe bw); [done..|].
  clear w g Hput. intros w g Hput Hinv. rewrite Hnd.
  destruct (ok_writers _ (wok_proc _ (sv_world _ _ _ Hinv)) _ _ (proj2 (proj1 (proj2 (proj2 Hput))))) as (_ & _ & Hmd & Hcrc & Hsz & _).
  apply (done_safe bw); [done..|]. clear w g Hput Hinv. intros w g Hput. set (bw' := set_done bw) in *.
  assert (∀ w g e, undone i w g → has_writer p bw' w g → plain e → (peace → refused q e) →
    safe (Quietly (os_Remove (w_tmp bw)) (failed e)) [] r w g) as Hfail.
  { intros w1 g1 e Hu Hw He Hr. apply (give_up_safe bw'); [done..|]. exists e. auto. }
  destruct (validObjectName name) eqn:Hname; cbn [negb].
  2: { apply (close_safe bw'); [done..|]. intros w1 g1 (Hu & _ & Hw & _). apply Hfail; [done..|eauto with plain|].
       intros _. rewrite Hq. by right. }
  apply (sync_safe bw'); [done..| |].
  { intros w1 g1 e Hput1 He Hp1. apply (close_safe bw'); [done..|]. intros w2 g2 (Hu & _ & Hw & _). by apply Hfail. }
  clear w g Hput. intros w g Hput. change file_Close with file_Sync. apply (sync_safe bw'); [done..| |].
  { intros w1 g1 e (Hu & _ & Hw & _) He Hp1. by apply Hfail. }
  clear w g Hput. intros w g Hput. apply (Call_safe peace i q (putting bw')); [by apply stable_putting|done|].
  clear w g Hput. intros w g Hput Hinv Ho. apply triple_gets. rewrite Hb.
  destruct (is_open_facts _ _ _ (sv_world _ _ _ Hinv) (proj1 (proj2 Hput))) as (j & d & Hh & _). rewrite Hh.
  exists g, r. split; [by apply quiet_good, quiet_refl|]. change (w_tmp bw) with (w_tmp bw').
  assert (∀ deed resp, (∀ m, tells m q deed resp) → ∀ w g, ss_deeds (sspec_of g) !! i = Some deed → has_writer p bw' w g →
    safe (Quietly (os_Remove (w_tmp bw')) (Answer resp)) [] r w g) as Htells.
  { intros deed resp Ht w1 g1 Hd Hw. apply (remove_temp_safe (λ _ g, ss_deeds (sspec_of g) !! i = Some deed) bw'); try done.
    - apply stable_deed.
    - intros w2 g2 Hd2. by eapply tells_safe. }
  apply (locked_safe bw' (mkBucket n [n] j true) w g name opts); try done.
  - intros w1 g1 e Hu Hw He Hp1. by apply Hfail.
  - intros w1 g1 Hd Hw. eapply Htells; [|done..]. by rewrite Hq.
  - intros w1 g1 oi Hd Hw. eapply Htells; [|done..]. by rewrite Hq.
Qed.
End puts.

Lemma PutObject_safe (peace : Prop) i q w g n name pieces opts :
  q = AskPutObject n name pieces opts → undone i w g →
  Pool.safe (store_protocol peace) i q (PutObject_prog n name pieces opts) [] nothing_own w g.
Proof.
  intros Hq Hund. apply (bucket_safe _ _ _ _ _ _ n); [by rewrite Hq|done|]. clear w g Hund. intros h w g Hund Hopen.
  apply (Try_safe peace i q (λ w g, undone i w g ∧ is_open w h n)); [apply stable_and; auto with stable|done|].
  clear w g Hund Hopen. intros w g [Hund Hopen] Hinv Ho.
  eapply triple_mono; [apply (step_new_writer [] ∅ ∅ w h n); [apply Hinv|done|by apply (owns_allocated nothing_own)]|..|done].
  2: { intros e w' (He & Hg & Hs & Hr). exists g, nothing_own. split; [by apply still_good|]. apply unhappy_safe; [done|done|].
       destruct Hr as [?|Hno]; [by eapply no_peace|]. intros Hp. destruct (sv_peace _ _ _ Hinv Hp) as [_ Hint].
       apply Hno, Hint. by eapply is_open_tables; [apply Hinv|]. }
  intros p w' (Hg & Hs & [Hle Hlt] & bw & [Hbw Hnd] & Hsha & Hb). exists g, (mkOwned {[p]} ∅). split.
  { apply same_good; try done; cbn.
    - split; cbn; [by intros ? ->%elem_of_singleton|set_solver].
    - intros ? ->%elem_of_singleton. by right. }
  set (r := mkOwned {[p]} ∅). assert (p ∈ ow_writers r) as Hp by (cbn; set_solver).
  apply (copy_safe peace i q h n r p _ _ _ Hp bw); [done|done| |].
  { apply putting_writing; [apply Hg|done| |done|done|done]. destruct Hopen as (b & Hh & ?). exists b. split; [|done].
    eapply lookup_weaken; [exact Hh|apply Hg]. }
  intros bw' [e|] w1 g1 Hnd' Hb' Hput Hnone Hsome.
  - apply (abort_put_safe peace i q h n r p bw'); [done..|]. exists e. split; [done|].
    destruct (Hsome e eq_refl) as [[? ?]|?]; [by left|right]. by exists n, name, pieces, opts.
  - destruct (Hnone eq_refl) as [Hend Hc]. apply (commit_put_safe peace i q h n r p bw' w1 g1 name opts pieces); try done.
    + by rewrite Hc, Hsha.
    + congruence.
Qed.

(** Every call is safe. *)
Lemma store_serve_safe (peace : Prop) i q w g :
  Pool.idle (store_protocol peace) i g → Pool.safe (store_protocol peace) i q (store_serve q) [] nothing_own w g.
Proof.
  intros Hi. destruct q; [by apply CreateBucket_safe|by apply GetBucket_safe|by apply GetObject_safe|by apply OpenObject_safe|
    by apply DeleteObject_safe|by apply PutObject_safe].
Qed.
