(* ===== verification/StoreRaces.v ===== *)
(** The properties of concurrent calls of the store. *)

From S2P Require Import Prelude Errors GoMonad Pool GoStd Types Names Hash Database World Bucket Store BlobWriter Outcomes StoreInv Triple StoreSafe StoreOps ObjectOps WriterOps Frame Run Refine Samples.
From S2P Require Import StoreProgs StoreMoves StoreSteps StoreSpec StoreLin PutLin.
From stdpp Require Import options.
From stdpp Require Import relations.

(** ** Runs of a store *)

(** The environment fails nothing, and every bucket has its directories: one that a
    failed deletion left without may not be usable. *)
Definition peaceful (w : world) : Prop := faults w = [] ∧ ∀ n, is_Some (tables w n) → intact w n.

Abbreviation store_calls := (pool world reply store_request).
Definition store_pool (w : world) : store_calls := mkPool w ∅ [].

(** In what follows [peace] says whether the runs considered are peaceful ones. *)
Section runs.
Context (peace : Prop).
Abbreviation store_protocol := (store_protocol peace).

(** Meanwhile the clock goes on, or back, and unless there is peace the environment
    turns hostile or calms down. *)
Inductive store_others : world → world → Prop :=
  | store_others_clock t w : store_others w (set_now t w)
  | store_others_faults fs w : ¬ peace → store_others w (set_faults fs w).

Abbreviation store_step := (pstep store_serve store_others).

Lemma store_others_guar i w g w' :
  store_others w w' → store_inv peace w g → ss_deeds (sspec_of g) !! i = None →
  ∃ g', acts i [] nothing_own nothing_own w g w' g' ∧ store_inv peace w' g' ∧ ss_deeds (sspec_of g') !! i = None.
Proof.
  intros Ho [Hok Hobj Hh Hp] Hd. exists g. assert (owns_ok nothing_own w') as Hown by (split; cbn; set_solver).
  assert (moves [] ∅ ∅ w (set_faults (faults w) w')) as Hm.
  { destruct (moves_refl [] ∅ ∅ w). destruct Ho; by keeping. }
  assert (world_ok w' ∧ same_tables w w' ∧ map_Forall (handed_ok w') (handed g)) as (Hok' & Hs & Hh').
  { destruct Ho; split_and!; [by apply world_ok_now|done|done|by apply world_ok_faults|done|done]. }
  split_and!; [split; try done; auto|split; [done|by intros n; rewrite Hobj, Hs|done|]|done].
  intros Hpeace. destruct (Hp Hpeace) as [Hf Hi]. by destruct Ho.
Qed.

(** The abstract store at the start, with no call served. *)
Definition store_start (w : world) : sspec := mkSSpec (tables w) ∅.

(** A pool of calls agrees with the abstract store [a]; [m] has the content of
    the files that were handed out. *)
Record agrees (c : store_calls) (a : sspec) (m : gmap nat bytes) : Prop := {
  ag_world : world_ok (shared c);
  ag_objects n : ss_objects a n = tables (shared c) n;
  ag_answers i q b : reqs c !! i = Some (q, b) →
    b ≠ Broken ∧
    ∀ resp, b = Answer resp →
      match ss_deeds a !! i with
      | Some d => tells peace m q d resp
      | None => did_nothing peace q resp
      end;
  ag_arrived i : reqs c !! i = None → ss_deeds a !! i = None;
  ag_files f content : m !! f = Some content → files (shared c) !! f = Some content;
}.

Lemma pool_agrees c g : pool_inv store_protocol c g → agrees c (sspec_of g) (handed g).
Proof.
  intros Hinv. pose proof Hinv as (L & r & Hc). pose proof (ps_inv _ _ _ _ _ Hc) as [Hok Hobj Hh _]. split.
  - done.
  - done.
  - intros i q b Hb. by apply (pool_answers store_protocol c g i q b).
  - intros i Hi. pose proof (ps_reqs _ _ _ _ _ Hc i) as Hr. rewrite Hi in Hr. apply Hr.
  - intros f content Hf. by destruct (Hh f content Hf) as (_ & ? & _).
Qed.

Lemma store_starts w :
  world_ok w → (peace → peaceful w) → pool_inv store_protocol (store_pool w) (mkSGhost (store_start w) ∅).
Proof.
  intros Hok Hp. apply pool_inv_empty; cbn; [apply _| |done|done]. split; [done|done|apply map_Forall_empty|done].
Qed.

Lemma store_sound c c' g :
  pool_inv store_protocol c g → rtc store_step c c' →
  ∃ g', rtc sstep (sspec_of g) (sspec_of g') ∧ handed g ⊆ handed g' ∧ pool_inv store_protocol c' g'.
Proof.
  intros Hc Hr. destruct (pool_sound store_protocol store_serve store_others
    (λ q i w g _ Hd, store_serve_safe peace i q w g Hd) store_others_guar _ _ _ Hc Hr) as (g' & Hg & Hinv).
  exists g'. split_and!; [..|done]; clear Hinv Hr Hc.
  - induction Hg as [|g1 g2 g3 (i & L & r & r' & s & s' & Hs) _ IH]; [apply rtc_refl|]. etrans; [apply Hs|exact IH].
  - induction Hg as [|g1 g2 g3 (i & L & r & r' & s & s' & Hs) _ IH]; [done|]. etrans; [apply Hs|exact IH].
Qed.

End runs.
Arguments store_others_clock {_}.
Abbreviation store_step peace := (pstep store_serve (store_others peace)).

(** ** Conditional writes *)

(** What lets a generation come back: the object is removed, or written while
    the clock is outside the years that fit. *)
Definition max_int64 : Z := 9223372036854775807.
Definition disturbs (n name : string) (d : sdeed) : Prop :=
  match d with
  | Removed n' name' _ => n' = n ∧ name' = name
  | Stored n' name' _ _ oi => n' = n ∧ name' = name ∧ ¬ (0 < oi_Generation oi < max_int64)%Z
  | _ => False
  end.
#[local] Instance disturbs_dec n name d : Decision (disturbs n name d).
Proof. destruct d; apply _. Defined.
Definition disturbed (n name : string) (ds : gmap nat sdeed) : Prop := map_Exists (λ _, disturbs n name) ds.

(** A write that was conditional on the generation [gen]. *)
Definition stored_at (gen : Z) (n name : string) (d : sdeed) (oi : ObjectInfo) : Prop :=
  ∃ c opts, d = Stored n name c opts oi ∧ GenerationMatch (po_Conditions opts) = Some gen.

Record swapped (gen : Z) (n name : string) (a : sspec) : Prop := {
  sw_below k c opts oi : ss_deeds a !! k = Some (Stored n name c opts oi) →
    ∃ t r, ss_objects a n = Some t ∧ t !! name = Some r ∧ (oi_Generation oi ≤ r_generation r < max_int64)%Z ∧ (0 < r_generation r)%Z;
  sw_above k d oi : ss_deeds a !! k = Some d → stored_at gen n name d oi → (gen < oi_Generation oi)%Z;
  sw_once i j d d' oi oi' : ss_deeds a !! i = Some d → ss_deeds a !! j = Some d' →
    stored_at gen n name d oi → stored_at gen n name d' oi' → i = j;
}.

(** A write of an object replaces the version with an older generation. *)
Lemma scan_generation bn name r o : scanObject bn name r = inr o → oi_Generation o = r_generation r.
Proof. unfold scanObject. by repeat case_match; intros ?; simplify_eq. Qed.

Lemma next_generation_raises existing t o :
  existing = Some o → (- 2 ^ 63 ≤ oi_Generation o < 2 ^ 63)%Z → (0 < next_generation existing t)%Z →
  (oi_Generation o < next_generation existing t)%Z.
Proof.
  intros -> Hr Hpos. unfold next_generation in *. destruct (Z.leb_spec (UnixMicro_of t) (oi_Generation o)); [|done].
  destruct (decide (oi_Generation o = 2 ^ 63 - 1)%Z) as [E|Hne].
  - rewrite E in Hpos. by vm_compute in Hpos.
  - rewrite int64_small by lia. lia.
Qed.

Lemma commits_generation n name c opts oi t t' r :
  commits n name c opts oi t t' → t !! name = Some r → (- 2 ^ 63 ≤ r_generation r < 2 ^ 63)%Z → (0 < oi_Generation oi)%Z →
  (r_generation r < oi_Generation oi)%Z.
Proof.
  intros (ex & tm & _ & Hr & _ & -> & _) Hn Hg Hpos. unfold reads in Hr. rewrite Hn in Hr. destruct ex as [o|]; [|done].
  apply scan_generation in Hr as E. rewrite <- E in *. by apply next_generation_raises.
Qed.
Lemma commits_conditional n name c opts oi t t' gen :
  commits n name c opts oi t t' → GenerationMatch (po_Conditions opts) = Some gen → (- 2 ^ 63 ≤ gen < 2 ^ 63)%Z →
  (0 < oi_Generation oi)%Z →
  (gen < oi_Generation oi)%Z ∧ match t !! name with Some r => r_generation r = gen | None => gen = 0%Z end.
Proof.
  intros (ex & tm & _ & Hr & Hc & -> & _) Hm Hg Hpos. unfold check in Hc. rewrite Hm in Hc. cbn in Hc.
  unfold reads in Hr. destruct (t !! name) as [r|], ex as [o|]; try done.
  - apply scan_generation in Hr as E. destruct (Z.eqb_spec (oi_Generation o) gen); [|done]. subst gen. split; [|done].
    by eapply next_generation_raises.
  - destruct (Z.eqb_spec 0 gen); [|done]. subst gen. done.
Qed.
Lemma commits_row n name c opts oi t t' :
  commits n name c opts oi t t' → ∃ r, t' !! name = Some r ∧ r_generation r = oi_Generation oi.
Proof. intros (ex & tm & _ & _ & _ & -> & ->). eexists. by rewrite lookup_insert_eq. Qed.

(** Steps that leave an object alone. *)
Lemma other_object n name i d o o' ds :
  ds !! i = None → happens d o o' →
  (∀ c opts oi, d ≠ Stored n name c opts oi) → ¬ disturbed n name (<[i := d]> ds) →
  (∀ t r, o n = Some t → t !! name = Some r → ∃ t', o' n = Some t' ∧ t' !! name = Some r).
Proof.
  intros Hi Hh Hns Hnd t r Ht Hr.
  assert (∀ m v, updates m v o o' → m ≠ n → ∃ t', o' n = Some t' ∧ t' !! name = Some r) as Hother.
  { intros m v [_ Hu] Hm. exists t. by rewrite (Hu n). }
  destruct d as [m|m|m nm oi|m nm|m nm conds|m|m nm c opts oi|m nm conds]; cbn in Hh.
  1-5: exists t; destruct Hh as [_ Hs]; by rewrite (Hs n).
  - destruct Hh as (_ & Hno & Hu). apply (Hother m _ Hu). congruence.
  - destruct Hh as (t1 & t2 & H1 & (ex & tm & _ & _ & _ & _ & ->) & Hu). destruct (decide (m = n)) as [->|]; [|by eapply Hother].
    simplify_eq. eexists. split; [apply Hu|]. rewrite lookup_insert_ne; [done|]. intros ->. by eapply Hns.
  - destruct Hh as (t1 & t2 & H1 & (r1 & o1 & _ & _ & _ & ->) & Hu). destruct (decide (m = n)) as [->|]; [|by eapply Hother].
    simplify_eq. eexists. split; [apply Hu|]. rewrite lookup_delete_ne; [done|]. intros ->. apply Hnd. exists i, (Removed n name conds).
    by rewrite lookup_insert_eq.
Qed.

Lemma disturbed_insert n name i d ds : ds !! i = None → disturbed n name ds → disturbed n name (<[i := d]> ds).
Proof.
  intros Hi (k & d' & Hk & Hd). exists k, d'. split; [|done]. rewrite lookup_insert_ne; congruence.
Qed.

Lemma sstep_swapped gen n name a a' :
  (- 2 ^ 63 ≤ gen < 2 ^ 63)%Z → sstep a a' → ¬ disturbed n name (ss_deeds a') → swapped gen n name a → swapped gen n name a'.
Proof.
  intros Hg [i d o o' ds Hi Hh] Hnd [Hb Ha Hu]; cbn in *.
  assert ((∃ c opts oi, d = Stored n name c opts oi) ∨ ∀ c opts oi, d ≠ Stored n name c opts oi) as [(c & opts & oi & ->)|Hns].
  { destruct d as [| | | | | |m nm c opts oi|]; try by right. destruct (decide (m = n)) as [->|]; [|right; congruence].
    destruct (decide (nm = name)) as [->|]; [left; eauto|right; congruence]. }
  - destruct Hh as (t & t' & Ht & Hc & [Ht' _]). assert (0 < oi_Generation oi < max_int64)%Z as Hr.
    { destruct (decide (0 < oi_Generation oi < max_int64)%Z); [done|]. destruct Hnd. exists i, (Stored n name c opts oi). by rewrite lookup_insert_eq. }
    destruct (commits_row _ _ _ _ _ _ _ Hc) as (r' & Hr' & Er').
    assert (∀ k d' oi', ds !! k = Some d' → stored_at gen n name d' oi' → (oi_Generation oi' < oi_Generation oi)%Z) as Hlt.
    { intros k d' oi' Hk (c' & opts' & -> & _). destruct (Hb _ _ _ _ Hk) as (t0 & r & E & Hn & Hle & Hpos). simplify_eq.
      pose proof (commits_generation _ _ _ _ _ _ _ _ Hc Hn). unfold max_int64 in *. lia. }
    assert (∀ d' oi', d' = Stored n name c opts oi → stored_at gen n name d' oi' → oi' = oi ∧ (gen < oi_Generation oi)%Z ∧
      match t !! name with Some r => r_generation r = gen | None => gen = 0%Z end) as Hnew.
    { intros d' oi' -> (c' & opts' & [= <- <- <-] & Hm). split; [done|]. eapply commits_conditional; [done..|lia]. }
    assert (∀ k d' oi' d2 oi2, ds !! k = Some d' → stored_at gen n name d' oi' → d2 = Stored n name c opts oi →
      ¬ stored_at gen n name d2 oi2) as Hfirst.
    { intros k d' oi' d2 oi2 Hk Hs' E Hs2. destruct (Hnew d2 oi2 E Hs2) as (_ & _ & Hcur). pose proof (Ha _ _ _ Hk Hs').
      destruct Hs' as (c' & opts' & -> & _). destruct (Hb _ _ _ _ Hk) as (t0 & r & E0 & Hn & Hle & Hpos). simplify_eq.
      rewrite Hn in Hcur. lia. }
    split; cbn.
    + intros k c' opts' oi' [[<- E]|[_ Hk]]%lookup_insert_Some; exists t', r'; (split; [done|split; [done|]]); rewrite Er'.
      * injection E as <- <- <-. lia.
      * destruct (Hb _ _ _ _ Hk) as (t0 & r & E & Hn & Hle & Hpos). simplify_eq.
        pose proof (commits_generation _ _ _ _ _ _ _ _ Hc Hn). unfold max_int64 in *. lia.
    + intros k d' oi' [[<- <-]|[_ Hk]]%lookup_insert_Some Hs; [|by eapply Ha]. by destruct (Hnew _ _ eq_refl Hs) as (-> & ? & _).
    + intros j k d1 d2 oi1 oi2 [[<- E1]|[_ H1]]%lookup_insert_Some [[<- E2]|[_ H2]]%lookup_insert_Some Hs1 Hs2;
        [done|by destruct (Hfirst k d2 oi2 d1 oi1)|by destruct (Hfirst j d1 oi1 d2 oi2)|by eapply Hu].
  - assert (∀ j d' oi', <[i := d]> ds !! j = Some d' → stored_at gen n name d' oi' → ds !! j = Some d') as Hold.
    { intros j d' oi' [[<- <-]|[_ ?]]%lookup_insert_Some (c & opts & E & _); [by destruct (Hns c opts oi')|done]. }
    split; cbn.
    + intros k c opts oi [[<- E]|[_ Hk]]%lookup_insert_Some; [by destruct (Hns c opts oi)|].
      destruct (Hb _ _ _ _ Hk) as (t & r & E & Hn & ?).
      destruct (other_object n name i d o o' ds Hi Hh Hns Hnd t r E Hn) as (t' & ? & ?). by exists t', r.
    + intros k d' oi Hk Hs. eapply Ha; [|exact Hs]. by eapply Hold.
    + intros j k d1 d2 oi1 oi2 H1 H2 Hs1 Hs2. eapply Hu; [by eapply Hold|by eapply Hold|exact Hs1|exact Hs2].
Qed.

Lemma spec_swapped gen n name o a :
  (- 2 ^ 63 ≤ gen < 2 ^ 63)%Z → rtc sstep (mkSSpec o ∅) a → ¬ disturbed n name (ss_deeds a) → swapped gen n name a.
Proof.
  intros Hg Hr. assert (swapped gen n name (mkSSpec o ∅)) as H0.
  { split; cbn; [intros k c opts oi Hk|intros k d oi Hk|intros i j d d' oi oi' Hk]; by rewrite lookup_empty in Hk. }
  revert H0. induction Hr as [a|a1 a2 a3 Hs Hr IH]; [done|]. intros H1 Hnd.
  apply IH; [|done]. eapply sstep_swapped; [done|exact Hs| |done]. intros Hd. apply Hnd. clear - Hr Hd.
  induction Hr as [|a1 a2 a3 Hs _ IH]; [done|]. apply IH. destruct Hs. by apply disturbed_insert.
Qed.

(** ** Properties *)

(** C5: Whatever calls the store takes to create and describe buckets and to put,
    describe, open and delete objects, and however their steps interleave, with
    each other, with the clock and with failures of the environment: no call
    panics and the store refines the abstract one.  The objects are those that
    one-step actions make; a call that succeeds has done exactly one of them,
    the one its result tells of, at one instant between its start and its end,
    and a call that has done none fails; what was opened keeps the content that
    was promised.  In peace a call fails for a reason only: a name that is not
    valid, a directory that exists, a bucket or an object that did not at one
    instant, a precondition that did not hold, an error of its reader, or a blob
    that was replaced before it could be opened. *)
Theorem concurrent_store_refines (peace : Prop) w c c' :
  reachable w → (peace → peaceful w) → rtc (store_step peace) (store_pool w) c → rtc (store_step peace) c c' →
  ∃ a m a' m', rtc sstep (store_start w) a ∧ rtc sstep a a' ∧ m ⊆ m' ∧ agrees peace c a m ∧ agrees peace c' a' m'.
Proof.
  intros Hw%reachable_ok Hp Hc Hc'. destruct (store_sound _ _ _ _ (store_starts peace w Hw Hp) Hc) as (g & Hg & _ & Hinv).
  destruct (store_sound _ _ _ _ Hinv Hc') as (g' & Hg' & Hm & Hinv'). exists (sspec_of g), (handed g), (sspec_of g'), (handed g').
  split_and!; [exact Hg|exact Hg'|exact Hm|by apply pool_agrees|by apply pool_agrees].
Qed.

(** C6: Of concurrent puts of an object that are conditional on the same generation, 0
    standing for no live version, at most one succeeds: no update is lost; unless
    the object is deleted meanwhile, or the clock is outside the years whose
    microseconds are positive and fit in 63 bits. *)
Theorem conditional_puts_once w c n name gen :
  reachable w → rtc (store_step False) (store_pool w) c → (- 2 ^ 63 ≤ gen < 2 ^ 63)%Z →
  ∃ a m, rtc sstep (store_start w) a ∧ agrees False c a m ∧
    (disturbed n name (ss_deeds a) ∨
     ∀ i j r r' opts opts' oi oi',
       reqs c !! i = Some (AskPutObject n name r opts, Answer (ObjectIs oi)) →
       reqs c !! j = Some (AskPutObject n name r' opts', Answer (ObjectIs oi')) →
       GenerationMatch (po_Conditions opts) = Some gen → GenerationMatch (po_Conditions opts') = Some gen → i = j).
Proof.
  intros Hw%reachable_ok Hr Hg. destruct (store_sound _ _ _ _ (store_starts False w Hw ltac:(done)) Hr) as (g & Ha & _ & Hinv).
  apply pool_agrees in Hinv as Hag. exists (sspec_of g), (handed g). split; [exact Ha|]. split; [exact Hag|].
  destruct (decide (disturbed n name (ss_deeds (sspec_of g)))) as [?|Hnd]; [by left|right].
  intros i j r r' opts opts' oi oi' Hi Hj Ho Ho'. pose proof (spec_swapped gen n name _ _ Hg Ha Hnd) as Hsw.
  assert (∀ k r opts oi, reqs c !! k = Some (AskPutObject n name r opts, Answer (ObjectIs oi)) →
    GenerationMatch (po_Conditions opts) = Some gen →
    ∃ d, ss_deeds (sspec_of g) !! k = Some d ∧ stored_at gen n name d oi) as Hput.
  { clear - Hag. intros k r opts oi Hk Hm. destruct (ag_answers _ _ _ _ Hag _ _ _ Hk) as [_ Hans]. specialize (Hans _ eq_refl).
    destruct (ss_deeds (sspec_of g) !! k) as [d|]; [|by destruct Hans as (e & ? & _)].
    exists d. split; [done|]. destruct d; cbn in Hans; try done; [by destruct Hans as [_ ?]|by destruct Hans as (_ & _ & _ & ?)|].
    destruct Hans as (-> & -> & -> & _ & _ & [= <-]). eexists _, _. by split. }
  destruct (Hput _ _ _ _ Hi Ho) as (d & Hd & Hs), (Hput _ _ _ _ Hj Ho') as (d' & Hd' & Hs').
  exact (sw_once _ _ _ _ Hsw _ _ _ _ _ _ Hd Hd' Hs Hs').
Qed.

(** ** A race *)

(** Two clients create the same object while another object is opened, another
    bucket made, and the other object deleted. *)
Definition create_opts : PutOptions := mkPutOptions "" ∅ (mkConditions (Some 0%Z) None None None).
Definition store_race : list store_request :=
  [AskPutObject "photos" "new" ([bytes_of_string "one"], None) create_opts;
   AskPutObject "photos" "new" ([bytes_of_string "two"], None) create_opts;
   AskOpenObject "photos" "a/b.txt"; AskCreateBucket "other"; AskDeleteObject "photos" "a/b.txt" noConditions].
Definition race_turns : list nat := concat (repeat [0; 1; 2; 3; 4; 2] 30).
Definition after_race : store_calls := take_turns race_turns (arrivals store_serve w_object store_race).

(** What a call has returned, in brief. *)
Definition outcome_of (x : store_prog) : string :=
  match x with
  | Answer Done => "done"
  | Answer (BucketIs bi) => "bucket " +:+ bi_Name bi
  | Answer (ObjectIs oi) => "object " +:+ oi_Name oi
  | Answer (FileIs oi _) => "file of " +:+ oi_Name oi
  | Answer (Failed ErrPreconditionFailed) => "precondition failed"
  | Answer (Failed _) => "failed"
  | _ => "under way"
  end.
Definition outcomes (c : store_calls) : list string := outcome_of ∘ snd <$> reqs c.

Example store_race_ex :
  outcomes after_race = ["object new"; "precondition failed"; "file of a/b.txt"; "bucket other"; "done"].
Proof. by_running. Qed.

Lemma store_race_runs peace : rtc (store_step peace) (store_pool w_object) after_race.
Proof. etrans; [exact (arrivals_pstep store_serve (store_others peace) w_object store_race)|apply take_turns_pstep]. Qed.

(** Whether every bucket has its directories. *)
Definition all_intact (w : world) : bool :=
  forallb (λ pn, match pn.1 with
    | [n; _] => bool_decide (tree w !! [n; "objects"] = Some NDir) && bool_decide (tree w !! [n; "tmp"] = Some NDir)
    | _ => true
    end) (map_to_list (tree w)).

Lemma all_intact_ok w n : all_intact w = true → is_Some (tables w n) → intact w n.
Proof.
  intros Ha [t (_ & d & Hd & _)%tables_db]. unfold bucket_db in Hd. destruct (tree w !! db_path n) as [nd|] eqn:E; [|done].
  unfold all_intact in Ha. rewrite forallb_forall in Ha.
  assert (In (db_path n, nd) (map_to_list (tree w))) as Hin by by apply list_elem_of_In, elem_of_map_to_list.
  specialize (Ha _ Hin). unfold db_path in Ha. cbn in Ha. by rewrite andb_true_iff, !bool_decide_eq_true in Ha.
Qed.

Lemma peaceful_object : peaceful w_object.
Proof. split; [by_running|]. intros n. apply all_intact_ok. by_running. Qed.

Lemma concurrent_store_refines_witness :
  outcomes after_race = ["object new"; "precondition failed"; "file of a/b.txt"; "bucket other"; "done"] ∧
  ∃ a m, rtc sstep (store_start w_object) a ∧ agrees True after_race a m.
Proof.
  split; [exact store_race_ex|].
  destruct (concurrent_store_refines True w_object _ after_race reachable_object (λ _, peaceful_object) (store_race_runs True) (rtc_refl _ _))
    as (a & m & _ & _ & Ha & _ & _ & Hag & _).
  exists a, m. exact (conj Ha Hag).
Defined.

Lemma conditional_puts_once_witness :
  outcomes after_race = ["object new"; "precondition failed"; "file of a/b.txt"; "bucket other"; "done"] ∧
  ∃ a m, rtc sstep (store_start w_object) a ∧ agrees False after_race a m.
Proof.
  split; [exact store_race_ex|].
  destruct (conditional_puts_once w_object after_race "photos" "new" 0 reachable_object (store_race_runs False) ltac:(lia)) as (a & m & Ha & Hag & _).
  exists a, m. exact (conj Ha Hag).
Defined.
