(* ===== verification/StoreRaceFindings.v ===== *)
(** Interleavings of the store's calls that end in what no call of it promises. *)

From S2P Require Import Prelude Errors GoMonad Pool GoStd Types Names Hash Database World Bucket Store BlobWriter Outcomes StoreInv Triple StoreSafe StoreOps ObjectOps WriterOps Frame Run Refine Samples.
From S2P Require Import StoreProgs StoreMoves StoreSteps StoreSpec StoreLin PutLin StoreRaces.
From stdpp Require Import options.
From stdpp Require Import relations.

(** An object is opened while it is overwritten: the blob is looked up, replaced
    and removed, and then to be opened. *)
Definition overwriting : list store_request :=
  [AskOpenObject "photos" "a/b.txt"; AskPutObject "photos" "a/b.txt" ([bytes_of_string "two"], None) sample_opts].
Definition overwritten : store_calls :=
  take_turns (repeat 0 4 ++ repeat 1 60 ++ repeat 0 9) (arrivals store_serve w_object overwriting).

Definition has_row (w : world) (n name : string) : bool :=
  match tables w n with Some t => is_some (t !! name) | None => false end.

(** [OpenObject] fails for an object that exists before and after, that nobody
    deletes, and although the environment fails nothing: the reader of the old
    version loses the race with the removal of its blob, and the error is not
    [ErrObjectNotFound] either. *)
Theorem open_fails_while_overwritten :
  rtc (store_step True) (store_pool w_object) overwritten ∧ faults w_object = [] ∧
  has_row w_object "photos" "a/b.txt" = true ∧ has_row (shared overwritten) "photos" "a/b.txt" = true ∧
  snd <$> reqs overwritten !! 0 =
    Some (Answer (Failed (Wrap [Lit "opening blob for "; Lit "photos"; Lit "/"; Lit "a/b.txt"; Lit ": "] (SysErr ENOENT) []))) ∧
  outcome_of ∘ snd <$> reqs overwritten !! 1 = Some "object a/b.txt".
Proof.
  split; [etrans; [exact (arrivals_pstep store_serve (store_others True) w_object overwriting)|apply take_turns_pstep]|].
  split_and!; by_running.
Qed.

(** A bucket is described while it is deleted: after its handle was
    forgotten, before its directory is removed. *)
Definition delete_or_get (delete : bool) : store_prog :=
  if delete then DeleteBucket_prog "photos" else GetBucket_prog "photos".
Definition deleting : pool world reply bool :=
  take_turns (repeat 0 8 ++ repeat 1 9 ++ repeat 0 9) (arrivals delete_or_get w_bucket [true; false]).
Definition w_ghost : world := shared deleting.
Definition w_remade : world := after (OpCreateBucket "photos") w_ghost.

Definition is_ret {A} (o : outcome A) : bool := match o with Ret _ => true | _ => false end.

(** [DeleteBucket] returns, and yet the bucket is there: a request that came
    between has registered a handle again.  [GetBucket] finds it, [CreateBucket]
    takes it for the database of a new bucket, and after a restart the new bucket
    is neither found nor can it be created. *)
Theorem deleted_bucket_comes_back :
  rtc (pstep delete_or_get (store_others True)) (mkPool w_bucket ∅ []) deleting ∧
  (λ qx, outcome_of qx.2) <$> reqs deleting = ["done"; "bucket photos"] ∧
  tables w_ghost "photos" = None ∧ is_ret (GetBucket "photos" w_ghost).1 = true ∧
  is_ret (CreateBucket "photos" w_ghost).1 = true ∧
  (GetBucket "photos" (Open (died w_remade)).2).1 = Err ErrBucketNotFound ∧
  (CreateBucket "photos" (Open (died w_remade)).2).1 = Err ErrBucketExists.
Proof.
  split; [etrans; [exact (arrivals_pstep delete_or_get (store_others True) w_bucket [true; false])|apply take_turns_pstep]|].
  split_and!; by_running.
Qed.
