(* ===== verification/StoreServed.v ===== *)
(** Every call of the store is served: no interleaving of them, deletions of
    buckets and the shutdown included, leaves one waiting for a mutex forever.
    What the calls promise each other for this is little: pointers stay valid. *)

From S2P Require Import Prelude Errors GoMonad Pool GoStd Types Names Hash Database World Bucket Store BlobWriter Outcomes StoreInv Listing Run Samples.
From S2P Require Import StoreProgs.
From stdpp Require Import options.
From stdpp Require Import relations.

(** ** Pointers *)

(** The pointers in the store and in the writers are not wild. *)
Record pointers (w : world) : Prop := {
  pt_buckets n h : buckets w !! n = Some h → is_Some (handles w !! h);
  pt_writers p bw : writers w !! p = Some bw → is_Some (handles w !! w_b bw);
}.
(** What is allocated stays so. *)
Record keeps (w w' : world) : Prop := {
  ke_handles h : is_Some (handles w !! h) → is_Some (handles w' !! h);
  ke_writers p : is_Some (writers w !! p) → is_Some (writers w' !! p);
}.

#[export] Instance keeps_preorder : PreOrder keeps.
Proof. split; [done|]. intros w1 w2 w3 [] []. split; auto. Qed.

Lemma reachable_pointers w : reachable w → pointers w.
Proof.
  intros [_ Hw]%reachable_ok. split.
  - intros n h Hh. destruct (ok_buckets _ Hw n h Hh) as (b & Hb & _). by exists b.
  - intros p bw Hp. destruct (ok_writers _ Hw p bw Hp) as (_ & _ & _ & _ & _ & _ & (b & Hb & _) & _). by exists b.
Qed.

Definition pointer_protocol : protocol world reply store_call () () := {|
  inv w _ := pointers w;
  guarded _ _ _ := True;
  valid _ _ _ := True;
  nothing_owned := tt;
  apart _ _ := True;
  answered _ _ _ _ := True;
  Pool.idle _ _ := True;
  guar _ _ _ _ w _ w' _ := keeps w w';
  rely _ _ _ w _ w' _ := keeps w w';
|}.

#[export] Instance pointer_protocol_laws : ProtocolLaws pointer_protocol.
Proof. split; cbn; try done. intros. by etrans. Qed.

(** ** Calls *)

(** The call neither panics nor diverges in the world [w], and leaves pointers
    valid; [Q] holds of its result. *)
Definition sound_at {A} (m : M world A) (Q : A → world → Prop) (w : world) : Prop :=
  match (m w).1 with Ret v => Q v (m w).2 | Err _ | Crash => True | _ => False end ∧
  pointers (m w).2 ∧ keeps w (m w).2.

Lemma sound_mono {A} (m : M world A) (Q Q' : A → world → Prop) w :
  sound_at m Q w → (∀ v w, Q v w → Q' v w) → sound_at m Q' w.
Proof. intros [Ho ?] HQ. split; [|done]. destruct (m w).1; auto. Qed.

(** A call that leaves the heap alone. *)
Record same_heap (w w' : world) : Prop := {
  sh_handles : handles w' = handles w;
  sh_writers : writers w' = writers w;
  sh_buckets : buckets w' = buckets w;
}.
#[export] Instance same_heap_preorder : PreOrder same_heap.
Proof. split; [done|]. intros w1 w2 w3 [] []. split; congruence. Qed.

Definition on_disk {A} (m : M world A) : Prop := fails_with (λ _, True) m ∧ ∀ w, same_heap w (m w).2.

Lemma sound_disk {A} (m : M world A) w : on_disk m → pointers w → sound_at m (λ _ _, True) w.
Proof.
  intros [Hf Hh] [Hb Hp]. specialize (Hf w). destruct (Hh w) as [E1 E2 E3]. split_and!.
  - by destruct (m w).1.
  - split; rewrite ?E1, ?E2, ?E3; done.
  - split; by rewrite ?E1, ?E2.
Qed.

Lemma disk_ret {A} (a : A) : on_disk (ret a).
Proof. done. Qed.
Lemma disk_throw {A} e : on_disk (throw (A:=A) e).
Proof. done. Qed.
Lemma disk_bind {A B} (m : M world A) (f : A → M world B) : on_disk m → (∀ a, on_disk (f a)) → on_disk (bind m f).
Proof.
  intros [Hm Hh] Hf. split; [apply fails_bind; [done|apply Hf]|]. intros w. unfold bind. specialize (Hh w).
  destruct (m w) as [[a|e|x| |] w']; try done. cbn in *. etrans; [exact Hh|apply Hf].
Qed.
Lemma disk_try {A} (m : M world A) : on_disk m → on_disk (try m).
Proof.
  intros [Hm Hh]. split; [by eapply fails_try|]. intros w. specialize (Hh w). unfold try. by destruct (m w) as [[] w'].
Qed.
Lemma disk_get {A} (f : world → M world A) : (∀ w, on_disk (f w)) → on_disk (bind get f).
Proof. intros Hf. split; intros w; apply (Hf w). Qed.
Lemma disk_gets {A} (f : world → A) : on_disk (gets f).
Proof. done. Qed.
Lemma disk_external {A} e part (step : M world A) :
  (∀ n keep w, same_heap w (part n keep w)) → on_disk step → on_disk (external e part step).
Proof.
  intros Hp [Hs Hh]. split; [by apply fails_external|]. intros w. unfold external. destruct (faults w) as [|[]]; [apply Hh|..].
  - etrans; [|apply Hh]. done.
  - etrans; [|apply Hp]. done.
  - etrans; [|apply Hp]. done.
Qed.
Lemma disk_step {A} (f : world → outcome A * world) :
  (∀ w, match (f w).1 with Ret _ | Err _ => True | _ => False end) → (∀ w, same_heap w (f w).2) → on_disk f.
Proof. intros Ho Hh. split; [|done]. intros w. specialize (Ho w). by destruct (f w).1. Qed.

Ltac disk_rule :=
  lazymatch goal with
  | H : ?P |- ?P => exact H
  | |- on_disk (bind get _) => apply disk_get; intros
  | |- on_disk (bind _ _) => apply disk_bind; [|intros]
  | |- on_disk (try _) => apply disk_try
  | |- on_disk (ignore _) => unfold ignore
  | |- on_disk (ret _) => apply disk_ret
  | |- on_disk (throw _) => apply disk_throw
  | |- on_disk (gets _) => apply disk_gets
  | |- on_disk time_Now => apply disk_gets
  | |- on_disk (external _ _ _) => apply disk_external; [done|]
  | |- on_disk (syscall _) => unfold syscall
  | |- on_disk (sqlcall _) => unfold sqlcall
  | |- on_disk (match ?x with _ => _ end) => destruct x
  | |- on_disk (fun w => _) =>
      apply disk_step; intros w;
      repeat match goal with
        | |- context [tree w !! ?p] => destruct (tree w !! p) as [[]|]
        | |- context [handles w !! ?h] => destruct (handles w !! h)
        | |- context [handle_db ?h w] => destruct (handle_db h w)
        | |- context [is_dir ?t ?p] => destruct (is_dir t p)
        | |- context [b_open ?b] => destruct (b_open b)
        end; done
  end.
Ltac disk := repeat disk_rule.
Create HintDb on_disk.

Section disk.
Lemma disk_Mkdir p : on_disk (os_Mkdir p).
Proof. unfold os_Mkdir. disk. Qed.
Lemma disk_Stat p : on_disk (os_Stat p).
Proof. unfold os_Stat. disk. Qed.
Lemma disk_Open p : on_disk (os_Open p).
Proof. unfold os_Open. disk. Qed.
Lemma disk_Remove p : on_disk (os_Remove p).
Proof. unfold os_Remove. disk. Qed.
Lemma disk_Rename p q : on_disk (os_Rename p q).
Proof. unfold os_Rename. disk. Qed.
Lemma disk_ReadDir : on_disk os_ReadDir_root.
Proof. unfold os_ReadDir_root. disk. Qed.
Lemma disk_RemoveAll p : on_disk (os_RemoveAll p).
Proof. unfold os_RemoveAll. disk. by apply disk_step. Qed.
Lemma disk_MkdirAll p : on_disk (os_MkdirAll p).
Proof.
  unfold os_MkdirAll. generalize ([] : path). induction p as [|c p IH]; intros d; cbn [mkdir_all]; [disk|].
  apply disk_bind; [unfold mkdir_missing; disk; apply disk_Mkdir|intros; apply IH].
Qed.
Lemma disk_CreateTemp d p : on_disk (os_CreateTemp d p).
Proof. unfold os_CreateTemp. disk. Qed.
Lemma disk_Close : on_disk file_Close.
Proof. unfold file_Close. disk. Qed.
Lemma disk_Query {A} h (q : database → A) : on_disk (db_Query h q).
Proof. unfold db_Query. disk. Qed.
Lemma disk_tx_Commit h tx : on_disk (tx_Commit h tx).
Proof. unfold tx_Commit. disk. Qed.
Lemma disk_tx_Exec f tx : on_disk (tx_Exec f tx).
Proof. unfold tx_Exec. disk. Qed.
Lemma disk_tx_QueryRow {A} (q : database → A) tx : on_disk (tx_QueryRow q tx).
Proof. unfold tx_QueryRow. disk. Qed.
End disk.
#[export] Hint Resolve disk_Mkdir disk_Stat disk_Open disk_Remove disk_Rename disk_ReadDir disk_RemoveAll
  disk_MkdirAll disk_CreateTemp disk_Close disk_Query disk_tx_Commit disk_tx_Exec disk_tx_QueryRow : on_disk.
Ltac on_disk := repeat (disk_rule || (progress eauto with on_disk)).

Lemma disk_Sync : on_disk file_Sync.
Proof. exact disk_Close. Qed.
Lemma disk_scan b name row : on_disk (scan b name row).
Proof. unfold scan. on_disk. Qed.
Lemma disk_existing b name tx : on_disk (tx_existing b name tx).
Proof. unfold tx_existing. on_disk. apply disk_scan. Qed.
Lemma disk_decref tx sha : on_disk (decrefBlob tx sha).
Proof. unfold decrefBlob. on_disk. Qed.
#[export] Hint Resolve disk_Sync disk_scan disk_existing disk_decref : on_disk.
Lemma disk_delete_plan b name conds tx : on_disk (delete_plan b name conds tx).
Proof. unfold delete_plan. on_disk. Qed.
Lemma disk_commit_plan b bw name opts tx : on_disk (commit_plan b bw name opts tx).
Proof. unfold commit_plan, Checksums, commit_statements. on_disk. Qed.
#[export] Hint Resolve disk_delete_plan disk_commit_plan : on_disk.

(** *** Calls that change the heap *)
Section heap.
Context {A B : Type}.
Implicit Types (w : world).

Lemma sound_ret (a : A) w (Q : A → world → Prop) : pointers w → Q a w → sound_at (ret a) Q w.
Proof. intros. by split_and!. Qed.
Lemma sound_throw e w (Q : A → world → Prop) : pointers w → sound_at (throw e) Q w.
Proof. intros. by split_and!. Qed.
Lemma sound_gets (f : world → A) w : pointers w → sound_at (gets f) (λ v w', v = f w ∧ w' = w) w.
Proof. intros. by split_and!. Qed.
Lemma sound_bind (m : M world A) (f : A → M world B) Q R w :
  sound_at m Q w → (∀ a w', pointers w' → keeps w w' → Q a w' → sound_at (f a) R w') → sound_at (bind m f) R w.
Proof.
  intros (Ho & Hp & Hk) Hf. unfold sound_at, bind. destruct (m w) as [[a|e|x| |] w']; cbn in *; try done.
  destruct (Hf a w' Hp Hk Ho) as (? & ? & ?). split_and!; [done|done|by etrans].
Qed.
Lemma sound_try (m : M world A) Q w :
  sound_at m Q w → sound_at (try m) (λ r w', match r with inl _ => True | inr v => Q v w' end) w.
Proof. intros (? & ? & ?). unfold sound_at, try. by destruct (m w) as [[] w']. Qed.
Lemma sound_then (m : M world A) (f : A → M world B) R w :
  on_disk m → pointers w → (∀ a w', pointers w' → keeps w w' → sound_at (f a) R w') → sound_at (bind m f) R w.
Proof. intros Hm Hw Hf. eapply sound_bind; [by apply sound_disk|auto]. Qed.
Lemma sound_loads h w : is_Some (handles w !! h) → pointers w → sound_at (load_bucket h) (λ b w', w' = w) w.
Proof. intros [b Hb] Hw. unfold sound_at, load_bucket. by rewrite Hb. Qed.
Lemma sound_writer p w :
  is_Some (writers w !! p) → pointers w → sound_at (load_writer p) (λ bw w', w' = w ∧ writers w !! p = Some bw) w.
Proof. intros [b Hb] Hw. unfold sound_at, load_writer. by rewrite Hb. Qed.
End heap.

Lemma sound_modify f w : pointers (f w) → keeps w (f w) → sound_at (modify f) (λ _ w', w' = f w) w.
Proof. intros. by split_and!. Qed.

Lemma pointers_forget n w : pointers w → pointers (set_buckets (delete n) w).
Proof. intros [Hb Hp]. split; cbn; [|done]. intros m h [_ Hm]%lookup_delete_Some. by eapply Hb. Qed.

Lemma keeps_closed h w : keeps w (close_handle h w).
Proof. split; [|done]. intros x Hx. cbn. rewrite lookup_alter. by destruct (decide (h = x)) as [->|]; [apply fmap_is_Some|]. Qed.
Lemma pointers_closed h w : pointers w → pointers (close_handle h w).
Proof. intros [Hb Hp]. split; cbn; intros; apply (keeps_closed h w); eauto. Qed.
Lemma sound_db_Close h w : pointers w → sound_at (db_Close h) (λ _ _, True) w.
Proof.
  intros Hw. unfold sound_at, db_Close, external.
  assert (∀ fs, pointers (close_handle h (set_faults fs w)) ∧ keeps w (close_handle h (set_faults fs w))) as Hc.
  { intros fs. split; [apply pointers_closed; by destruct Hw|]. by destruct (keeps_closed h (set_faults fs w)). }
  pose proof (conj (pointers_closed h w Hw) (keeps_closed h w)) as H0.
  destruct (faults w) as [|[] fs]; (split; [done|]); [exact H0|exact (Hc _)..].
Qed.

(** A writer is changed, but not where it points to its bucket. *)
Lemma pointers_alter f p w :
  (∀ bw, w_b (f bw) = w_b bw) → pointers w → pointers (set_writers (alter f p) w) ∧ keeps w (set_writers (alter f p) w).
Proof.
  intros Hf [Hb Hp]. split; split; cbn; try done.
  - intros q bw. rewrite lookup_alter. destruct (decide (p = q)) as [->|]; [|by apply Hp].
    intros (bw0 & Hq & ->)%fmap_Some. rewrite Hf. by eapply Hp.
  - intros q Hq. rewrite lookup_alter. by destruct (decide (p = q)) as [->|]; [apply fmap_is_Some|].
Qed.
Lemma sound_alter f p w :
  (∀ bw, w_b (f bw) = w_b bw) → pointers w → sound_at (modify (set_writers (alter f p))) (λ _ _, True) w.
Proof. intros Hf Hw. destruct (pointers_alter f p w Hf Hw). by split_and!. Qed.

(** An allocation. *)
Lemma pointers_handle b w : pointers w → pointers (set_handles (insert (next w) b) (set_next (S (next w)) w)).
Proof. intros [Hb Hp]. split; cbn; intros; apply lookup_insert_is_Some'; eauto. Qed.
Lemma keeps_handle b w : keeps w (set_handles (insert (next w) b) (set_next (S (next w)) w)).
Proof. split; [|done]. cbn. intros. apply lookup_insert_is_Some'. eauto. Qed.
Lemma sound_insert_handle b w :
  pointers w → sound_at (let* h := World.fresh in do* modify (set_handles (insert h b)) in ret h) (λ h w', is_Some (handles w' !! h)) w.
Proof.
  intros Hw. split_and!; [|exact (pointers_handle b w Hw)|exact (keeps_handle b w)].
  cbn. by rewrite lookup_insert_eq.
Qed.
Lemma sound_new_writer h w :
  is_Some (handles w !! h) → pointers w → sound_at (new_writer h) (λ p w', is_Some (writers w' !! p)) w.
Proof.
  intros Hh Hw. unfold new_writer. eapply sound_bind; [by apply sound_loads|]. intros b w0 _ _ ->.
  apply sound_then; [apply disk_CreateTemp|done|]. intros [tmp ino] w1 Hw1 Hk.
  assert (is_Some (handles w1 !! h)) as Hh1 by (by apply Hk). destruct Hw1 as [Hb Hp]. split_and!.
  - cbn. by rewrite lookup_insert_eq.
  - split; cbn; [done|]. intros p bw [[_ <-]|[_ ?]]%lookup_insert_Some; [done|by eapply Hp].
  - split; [done|]. cbn. intros. apply lookup_insert_is_Some'. eauto.
Qed.

Lemma disk_sql : on_disk (sqlcall (ret tt)).
Proof. disk. Qed.
Lemma disk_schema p : on_disk (exec_schema p).
Proof. unfold exec_schema. disk. Qed.
Lemma disk_info i t : on_disk (exec_bucket_info i t).
Proof. unfold exec_bucket_info. disk. by apply disk_step. Qed.
#[export] Hint Resolve disk_sql disk_schema disk_info : on_disk.

Lemma sound_openBucket n d w : pointers w → sound_at (openBucket n d) (λ h w', is_Some (handles w' !! h)) w.
Proof.
  intros Hw. unfold openBucket.
  assert (∀ e w, pointers w → sound_at (let* _ := ignore (sqlcall (ret tt)) in throw (A:=nat) e) (λ h w', is_Some (handles w' !! h)) w) as Hfail.
  { intros e w0 Hw0. apply sound_then; [on_disk|done|]. intros. by apply sound_throw. }
  apply sound_then; [on_disk|done|]. intros [e|[]] w1 Hw1 _; [by apply sound_throw|].
  apply sound_then; [on_disk|done|]. intros [e|i] w2 Hw2 _; [by apply Hfail|].
  apply sound_then; [on_disk|done|]. intros t w3 Hw3 _.
  apply sound_then; [on_disk|done|]. intros [e|[]] w4 Hw4 _; [by apply Hfail|]. by apply sound_insert_handle.
Qed.
Lemma sound_Store_openBucket n w : pointers w → sound_at (Store_openBucket n) (λ h w', is_Some (handles w' !! h)) w.
Proof.
  intros Hw. unfold Store_openBucket. eapply sound_bind; [by apply (sound_gets id)|]. intros w0 w1 _ _ [-> ->]. cbn [id].
  destruct (buckets w !! n) as [h|] eqn:E; [apply sound_ret; [done|by eapply pt_buckets]|].
  eapply sound_bind; [by apply sound_openBucket|]. intros h w1 [Hb Hp] _ Hh. split_and!; [done| |done].
  split; cbn; [|done]. intros m h' [[_ <-]|[_ ?]]%lookup_insert_Some; [done|by eapply Hb].
Qed.

Lemma disk_file_Write i p : on_disk (file_Write i p).
Proof.
  split; intros w; unfold file_Write; [by destruct (faults w) as [|[]]|]. by destruct (faults w) as [|[]].
Qed.
Lemma sound_Write p q w : is_Some (writers w !! p) → pointers w → sound_at (Write p q) (λ _ _, True) w.
Proof.
  intros Hp Hw. unfold Write. eapply sound_bind; [by apply sound_writer|]. intros bw w0 _ _ [-> Hbw].
  destruct (w_done bw); [by apply sound_ret|].
  apply sound_then; [apply disk_file_Write|done|]. intros [n err] w1 Hw1 _. destruct (0 <? n); [|by apply sound_ret].
  eapply sound_bind; [by apply sound_alter|]. intros. by apply sound_ret.
Qed.
Lemma sound_info h w : is_Some (handles w !! h) → pointers w → sound_at (info h) (λ _ _, True) w.
Proof.
  intros Hh Hw. unfold info. eapply sound_bind; [by apply sound_loads|]. intros b w0 _ _ ->. apply sound_disk; [on_disk|done].
Qed.
Lemma sound_getObject h name w : is_Some (handles w !! h) → pointers w → sound_at (getObject h name) (λ _ _, True) w.
Proof.
  intros Hh Hw. unfold getObject. eapply sound_bind; [by apply sound_loads|]. intros b w0 _ _ ->. apply sound_disk; [on_disk|done].
Qed.

(** A call that reports no error, or that reports it in its result. *)
Definition errorless {A} (m : M world A) : Prop := ∀ w e, (m w).1 ≠ Err e.
Lemma errorless_try {A} (m : M world A) : errorless (try m).
Proof. intros w e. unfold try. by destruct (m w) as [[] w']. Qed.
Lemma errorless_ignore {A} (m : M world A) : errorless (ignore m).
Proof. intros w e. unfold ignore, bind, try. by destruct (m w) as [[] w']. Qed.
Lemma errorless_load h : errorless (load_bucket h).
Proof. intros w e. unfold load_bucket. by destruct (handles w !! h). Qed.
Lemma errorless_writer p : errorless (load_writer p).
Proof. intros w e. unfold load_writer. by destruct (writers w !! p). Qed.
Lemma errorless_Write p q : errorless (Write p q).
Proof. intros w e E. pose proof (Write_no_error p q w e (Write p q w).2) as Hne. destruct (Write p q w). cbn in *. congruence. Qed.
#[export] Hint Resolve errorless_try errorless_ignore errorless_load errorless_writer errorless_Write : on_disk.
#[export] Hint Extern 0 (errorless (gets _)) => done : on_disk.
#[export] Hint Extern 0 (errorless (modify _)) => done : on_disk.

(** ** Requests *)
Section served.
Context (i : nat) (q : store_call).
Implicit Types (L : list nat) (w : world).

(** The program can be served to the end from the world [w] on, by a request that
    has locked [L]. *)
Abbreviation served a L w := (Pool.safe pointer_protocol i q a L tt w tt).

Lemma served_later a L w w' : keeps w w' → served a L w → served a L w'.
Proof. intros Hk. exact (Pool.safe_rely pointer_protocol i q a L tt w tt w' tt Hk). Qed.

Lemma served_answer resp w : served (Answer resp) [] w.
Proof. intros w' []. done. Qed.
Lemma served_call {A} (m : M world A) k L Q w :
  errorless m →
  (∀ w', keeps w w' → pointers w' → sound_at m Q w') →
  (∀ v w', keeps w w' → Q v w' → served (k v) L w') → served (Call m k) L w.
Proof.
  intros He Hm Hk w' [] Hw Hp _. destruct (Hm w' Hw Hp) as (Ho & Hp' & Hw'). specialize (He w'). unfold wp.
  assert (keeps w (m w').2) as Hlater by (etrans; [exact Hw|exact Hw']).
  destruct (m w').1 as [v|e|x| |]; try done; [|by destruct (He e)]. exists tt, tt. split_and!; [done|done|]. by apply Hk.
Qed.
Lemma served_try {A} (m : M world A) fail k L Q w :
  (∀ w', keeps w w' → pointers w' → sound_at m Q w') →
  (∀ e w', keeps w w' → served (fail e) L w') → (∀ v w', keeps w w' → Q v w' → served (k v) L w') →
  served (Try m fail k) L w.
Proof.
  intros Hm Hf Hk. eapply served_call; [apply errorless_try|intros; apply sound_try; by apply Hm|]. intros [e|v] w' Hw Hv; auto.
Qed.
Lemma served_disk {A} (m : M world A) k L w :
  errorless m → on_disk m → (∀ v w', keeps w w' → served (k v) L w') → served (Call m k) L w.
Proof. intros He Hm Hk. eapply served_call; [done|intros; by apply sound_disk|auto]. Qed.
Lemma served_try_disk {A} (m : M world A) fail k L w :
  on_disk m → (∀ e w', keeps w w' → served (fail e) L w') → (∀ v w', keeps w w' → served (k v) L w') →
  served (Try m fail k) L w.
Proof. intros Hm Hf Hk. eapply served_try; [intros; by apply sound_disk|done|auto]. Qed.
Lemma served_quietly m k L w : on_disk m → served k L w → served (Quietly m k) L w.
Proof. intros Hm Hk. apply served_disk; [apply errorless_ignore|on_disk|]. intros _ w' Hw. by eapply served_later. Qed.

Lemma served_lock p k L w : (∀ p', p' ∈ L → p < p') → (∀ w', keeps w w' → served k (p :: L) w') → served (Lock p k) L w.
Proof. intros Hp Hk w' [] Hw _ _. split; [done|]. intros _. by apply Hk. Qed.
Lemma served_unlock p k L w : (∀ w', keeps w w' → served k L w') → served (Unlock p k) (p :: L) w.
Proof. intros Hk w' [] Hw _ _. exists L. split_and!; [done|done|]. by apply Hk. Qed.

Lemma served_load h k L w :
  is_Some (handles w !! h) → (∀ b w', keeps w w' → served (k b) L w') → served (Call (load_bucket h) k) L w.
Proof.
  intros Hh Hk. apply (served_call _ _ _ (λ _ _, True)); [apply errorless_load| |auto].
  intros w' Hw Hp. eapply sound_mono; [by apply sound_loads; [apply Hw|]|done].
Qed.

(** *** The calls *)
Lemma served_openBucket n fail k w :
  (∀ e w', keeps w w' → served (fail e) [] w') →
  (∀ h w', keeps w w' → is_Some (handles w' !! h) → served (k h) [] w') → served (openBucket_prog n fail k) [] w.
Proof.
  intros Hf Hk. apply served_lock; [by intros ? ?%not_elem_of_nil|]. intros w1 H1.
  eapply served_try; [intros; by apply sound_Store_openBucket| |].
  - intros e w2 H2. apply served_unlock. intros w3 H3. apply Hf. by do 2 (etrans; [eassumption|]).
  - intros h w2 H2 Hh. apply served_unlock. intros w3 H3. apply Hk; [by do 2 (etrans; [eassumption|])|]. by apply H3.
Qed.
Lemma served_bucket n fail k w :
  (∀ e w', keeps w w' → served (fail e) [] w') →
  (∀ h w', keeps w w' → is_Some (handles w' !! h) → served (k h) [] w') → served (bucket_prog n fail k) [] w.
Proof.
  intros Hf Hk. unfold bucket_prog. destruct (negb _); [by apply Hf|].
  apply served_lock; [by intros ? ?%not_elem_of_nil|]. intros w1 H1.
  eapply (served_call _ _ _ (λ o w', ∀ h, o = Some h → is_Some (handles w' !! h))).
  { done. }
  { intros w2 _ Hw2. eapply sound_mono; [by apply sound_gets|]. cbn. intros v w' [-> ->] h Hh. by eapply pt_buckets. }
  intros [h|] w2 H2 Hh; apply served_unlock; intros w3 H3; assert (keeps w w3) as H03 by (by do 2 (etrans; [eassumption|])).
  { apply Hk; [done|]. by apply H3, Hh. }
  apply served_try_disk; [on_disk|intros; apply Hf; by etrans|]. intros v w4 H4. apply served_openBucket.
  - intros e w5 H5. apply Hf. by do 2 (etrans; [eassumption|]).
  - intros h w5 H5 Hh'. apply Hk; [by do 2 (etrans; [eassumption|])|done].
Qed.

(** What is known of a pointer stays known. *)
Ltac carry :=
  repeat match goal with
  | Hh : is_Some (handles ?w !! _), K : keeps ?w _ |- _ => apply (ke_handles _ _ K) in Hh
  | Hh : is_Some (writers ?w !! _), K : keeps ?w _ |- _ => apply (ke_writers _ _ K) in Hh
  end.
Ltac later := solve [assumption | reflexivity | etrans; [eassumption|later]].

Lemma served_failed e w : served (failed e) [] w.
Proof. apply served_answer. Qed.
Lemma served_of_bucket n k w :
  (∀ h w', is_Some (handles w' !! h) → served (k h) [] w') → served (bucket_prog n failed k) [] w.
Proof. intros Hk. apply served_bucket; intros; [apply served_failed|by apply Hk]. Qed.
Lemma served_info h k L w fail :
  is_Some (handles w !! h) → (∀ e w', served (fail e) L w') → (∀ bi w', keeps w w' → served (k bi) L w') →
  served (Try (info h) fail k) L w.
Proof.
  intros Hh Hf Hk. eapply (served_try _ _ _ _ (λ _ _, True)); [|auto|auto].
  intros w' Hw Hp. apply sound_info; [by apply Hw|done].
Qed.

Lemma served_CreateBucket n w : served (CreateBucket_prog n) [] w.
Proof.
  unfold CreateBucket_prog. destruct (negb _); [apply served_failed|]. cbn zeta.
  do 3 (apply served_try_disk; [on_disk|intros; apply served_failed|]; intros ? ? _).
  apply served_openBucket; [intros; apply served_failed|]. intros h w1 _ Hh.
  apply served_info; [done|intros; apply served_failed|]. intros. apply served_answer.
Qed.
Lemma served_GetBucket n w : served (GetBucket_prog n) [] w.
Proof. apply served_of_bucket. intros h w1 Hh. apply served_info; [done|intros; apply served_answer..]. Qed.
Lemma served_getObject h name k w :
  is_Some (handles w !! h) → (∀ oi w', keeps w w' → served (k oi) [] w') → served (Try (getObject h name) failed k) [] w.
Proof.
  intros Hh Hk. eapply (served_try _ _ _ _ (λ _ _, True)); [|intros; apply served_failed|auto].
  intros w' Hw Hp. apply sound_getObject; [by apply Hw|done].
Qed.
Lemma served_GetObject n name w : served (GetObject_prog n name) [] w.
Proof. apply served_of_bucket. intros h w1 Hh. apply served_getObject; [done|]. intros. apply served_answer. Qed.
Lemma served_OpenObject n name w : served (OpenObject_prog n name) [] w.
Proof.
  apply served_of_bucket. intros h w1 Hh. apply served_getObject; [done|]. intros oi w2 H2. carry.
  apply served_load; [done|]. intros b w3 _. apply served_try_disk; [on_disk|intros; apply served_answer..].
Qed.

(** Under a bucket's mutex. *)
Lemma served_finish h b tx orphan fail k w L :
  (∀ e w', keeps w w' → served (fail e) L w') → (∀ w', keeps w w' → served k L w') →
  served (finish_prog h b tx orphan fail k) L w.
Proof.
  intros Hf Hk. apply served_try_disk; [on_disk|done|]. intros _ w1 H1. destruct orphan; [|by apply Hk].
  apply served_quietly; [on_disk|by apply Hk].
Qed.
Lemma served_release h resp w : served (Unlock (commit_mu h) (Answer resp)) [commit_mu h] w.
Proof. apply served_unlock. intros. apply served_answer. Qed.

Lemma served_DeleteObject n name conds w : served (DeleteObject_prog n name conds) [] w.
Proof.
  apply served_of_bucket. intros h w1 Hh. apply served_lock; [by intros ? ?%not_elem_of_nil|]. intros w2 H2. carry.
  apply served_load; [done|]. intros b w3 _.
  apply served_try_disk; [unfold db_Begin; on_disk|intros; apply served_release|]. intros tx w4 _.
  apply served_try_disk; [on_disk|intros; apply served_release|]. intros [tx' orphan] w5 _.
  apply served_finish; intros; apply served_release.
Qed.
Lemma served_DeleteBucket n w : served (DeleteBucket_prog n) [] w.
Proof.
  apply served_of_bucket. intros h w1 Hh. apply served_lock; [by intros ? ?%not_elem_of_nil|]. intros w2 _.
  apply served_try_disk; [on_disk|intros; apply served_release|]. intros count w3 _.
  destruct (0 <? count)%Z; [apply served_release|].
  apply served_lock; [intros p' [->|[]%not_elem_of_nil]%elem_of_cons; unfold commit_mu, store_mu; lia|]. intros w4 _.
  apply (served_call _ _ _ (λ _ _, True)); [done| |].
  { intros w5 _ Hp. eapply sound_mono; [apply sound_modify; [by apply pointers_forget|done]|done]. }
  intros _ w5 _ _. apply served_unlock. intros w6 _.
  apply (served_try _ _ _ _ (λ _ _, True)); [intros; by apply sound_db_Close|intros; apply served_release|]. intros _ w7 _ _.
  apply served_try_disk; [on_disk|intros; apply served_release..].
Qed.

(** *** Writers *)
Lemma served_alter f p k L w :
  (∀ bw, w_b (f bw) = w_b bw) → (∀ w', keeps w w' → served k L w') →
  served (Call (modify (set_writers (alter f p))) (λ _, k)) L w.
Proof.
  intros Hf Hk. apply (served_call _ _ _ (λ _ _, True)); [done|intros; by apply sound_alter|auto].
Qed.
Lemma served_writer p k L w :
  is_Some (writers w !! p) →
  (∀ bw w', keeps w w' → is_Some (handles w' !! w_b bw) → served (k bw) L w') → served (Call (load_writer p) k) L w.
Proof.
  intros Hp Hk. apply (served_call _ _ _ (λ bw w', is_Some (handles w' !! w_b bw))); [apply errorless_writer| |done].
  intros w' Hw Hpt. eapply sound_mono; [by apply sound_writer; [apply Hw|]|]. intros bw w1 [-> Hbw]. by eapply pt_writers.
Qed.

Lemma served_copy p ps e k L w :
  is_Some (writers w !! p) → (∀ err w', keeps w w' → served (k err) L w') → served (copy_prog p ps e k) L w.
Proof.
  revert w. induction ps as [|[|a c] ps IH]; intros w Hp Hk; cbn [copy_prog]; [by apply Hk|by apply IH|].
  apply (served_call _ _ _ (λ _ _, True)); [apply errorless_Write|intros; apply sound_Write; [by carry|done]|].
  intros [n [err|]] w1 H1 _; [by apply Hk|]. destruct (negb _); [by apply Hk|]. carry.
  apply IH; [done|]. intros. apply Hk. later.
Qed.

Lemma served_Abort p k L w : is_Some (writers w !! p) → (∀ w', keeps w w' → served k L w') → served (Abort_prog p k) L w.
Proof.
  intros Hp Hk. apply served_writer; [done|]. intros bw w1 H1 _. destruct (w_done bw); [by apply Hk|].
  apply served_alter; [done|]. intros w2 H2. do 2 (apply served_quietly; [on_disk|]). apply Hk. later.
Qed.

Lemma served_install tmp blob fail k L w :
  (∀ e w', keeps w w' → served (fail e) L w') → (∀ w', keeps w w' → served k L w') →
  served (install_prog tmp blob fail k) L w.
Proof.
  intros Hf Hk. apply served_try_disk; [on_disk| |intros; by apply Hk]. intros _ w1 H1.
  apply served_try_disk; [on_disk|intros; apply Hf; later|]. intros _ w2 H2.
  apply served_try_disk; [on_disk|intros; apply Hf; later|]. intros. apply Hk. later.
Qed.

Lemma served_Commit p name opts w : is_Some (writers w !! p) → served (Commit_prog p name opts) [] w.
Proof.
  intros Hp. apply served_writer; [done|]. intros bw w1 _ Hh. destruct (w_done bw); [apply served_answer|].
  apply served_alter; [done|]. intros w2 H2. cbn zeta. carry.
  set (finish resp := Quietly (os_Remove (w_tmp bw)) (Answer resp)).
  assert (∀ resp w, served (finish resp) [] w) as Hfinish.
  { intros. apply served_quietly; [on_disk|apply served_answer]. }
  destruct (negb _); [by apply served_quietly; [on_disk|]|].
  apply served_try_disk; [on_disk|intros; by apply served_quietly; [on_disk|]|]. intros _ w3 H3.
  apply served_try_disk; [on_disk|done|]. intros _ w4 H4. carry.
  apply (served_call _ _ _ (λ o w', is_Some o)); [done| |].
  { intros w5 H5 Hw5. eapply sound_mono; [by apply sound_gets|]. cbn. intros v w' [-> _]. by carry. }
  intros b w5 _ [b' ->]. apply served_lock; [by intros ? ?%not_elem_of_nil|]. intros w6 _.
  assert (∀ resp w, served (Unlock (commit_mu (w_b bw)) (finish resp)) [commit_mu (w_b bw)] w) as Hrel.
  { intros. by apply served_unlock. }
  apply served_install; [intros; apply Hrel|]. intros w7 _.
  apply served_try_disk; [unfold db_Begin; on_disk|intros; apply Hrel|]. intros tx w8 _.
  apply served_try_disk; [on_disk|intros; apply Hrel|]. intros [tx' [oi orphan]] w9 _.
  apply served_finish; intros; apply Hrel.
Qed.

Lemma served_new_writer h k w :
  is_Some (handles w !! h) → (∀ p w', is_Some (writers w' !! p) → served (k p) [] w') → served (Try (new_writer h) failed k) [] w.
Proof.
  intros Hh Hk. apply (served_try _ _ _ _ (λ p w', is_Some (writers w' !! p))); [|intros; apply served_failed|auto].
  intros w' Hw Hp. apply sound_new_writer; [by apply Hw|done].
Qed.
Lemma served_PutObject n name r opts w : served (PutObject_prog n name r opts) [] w.
Proof.
  apply served_of_bucket. intros h w1 Hh. apply served_new_writer; [done|]. intros p w2 Hp.
  apply served_copy; [done|]. intros [e|] w3 H3; carry; [|by apply served_Commit].
  apply served_Abort; [done|]. intros. apply served_failed.
Qed.

(** *** Listings, and the rest *)
Lemma served_entries entries : ∀ infos w, served (entries_prog entries infos) [] w.
Proof.
  induction entries as [|[n d] entries IH]; intros infos w; cbn [entries_prog]; [apply served_answer|].
  destruct (negb d); [apply IH|]. apply served_try_disk; [on_disk|intros; apply IH|]. intros _ w1 _.
  apply served_of_bucket. intros h w2 Hh. apply served_info; [done|intros; apply served_failed|]. intros. apply IH.
Qed.

Lemma served_scan fuel h b req m end_ : ∀ next count res w,
  (count ≤ m < count + Z.of_nat fuel)%Z → served (scan_prog fuel h b req m end_ next count res) [] w.
Proof.
  induction fuel as [|fuel IH]; intros next count res w Hf; [lia|]. cbn [scan_prog].
  apply served_try_disk; [on_disk|intros; apply served_failed|]. intros rows w1 _.
  destruct (scan_rows b rows) as [e|batch]; [apply served_failed|].
  destruct (walk_batch req m batch count res) as [[[[|next'|] count'] res']|] eqn:Ew; [apply served_answer|..|apply served_answer];
    apply walk_counts in Ew as [? He]; try lia.
  - apply IH. lia.
  - destruct (Nat.ltb_spec (length batch) batchSize); [apply served_answer|].
    destruct (last batch); [|apply served_answer]. apply IH. unfold batchSize in *. lia.
Qed.
Lemma served_ListObjects n req w : served (ListObjects_prog n req) [] w.
Proof.
  apply served_of_bucket. intros h w1 Hh. apply served_disk; [done|on_disk|]. intros [b|] w2 _; [|apply served_answer].
  apply served_scan. pose proof (some_results req). lia.
Qed.

Lemma served_close hs : ∀ e w, served (close_prog hs e) [store_mu] w.
Proof.
  induction hs as [|[n h] hs IH]; intros e w; cbn [close_prog]; [apply served_unlock; intros; apply served_answer|].
  apply (served_call _ _ _ (λ _ _, True)); [apply errorless_try| |].
  { intros. eapply sound_mono; [by apply sound_try, sound_db_Close|]. by intros [] ? ?. }
  intros r w1 _ _. apply (served_call _ _ _ (λ _ _, True)); [done| |intros; apply IH].
  intros w2 _ Hp. eapply sound_mono; [apply sound_modify; [by apply pointers_forget|done]|done].
Qed.

Lemma served_on_writer p k w : (∀ w', is_Some (writers w' !! p) → served k [] w') → served (on_writer p k) [] w.
Proof.
  intros Hk. apply (served_call _ _ _ (λ o w', o = writers w' !! p)); [done| |].
  { intros w' _ Hp. eapply sound_mono; [by apply sound_gets|]. by intros v w1 [-> ->]. }
  intros [bw|] w1 _ E; [|apply served_answer]. apply Hk. by exists bw.
Qed.

Lemma call_served r w : served (call_serve r) [] w.
Proof.
  destruct r as [r|n| |n req|n|p c|p|p name opts|n|]; cbn [call_serve].
  - destruct r; [apply served_CreateBucket|apply served_GetBucket|apply served_GetObject|apply served_OpenObject|
      apply served_DeleteObject|apply served_PutObject].
  - apply served_DeleteBucket.
  - apply served_try_disk; [on_disk|intros; apply served_failed|]. intros. apply served_entries.
  - apply served_ListObjects.
  - apply served_of_bucket. intros h w1 Hh. apply served_new_writer; [done|]. intros. apply served_answer.
  - apply served_on_writer. intros w1 Hp. apply (served_call _ _ _ (λ _ _, True)); [apply errorless_Write| |].
    + intros. apply sound_Write; [by carry|done].
    + intros [k err] w2 _ _. apply served_answer.
  - apply served_on_writer. intros w1 Hp. apply served_Abort; [done|]. intros. apply served_answer.
  - apply served_on_writer. intros w1 Hp. by apply served_Commit.
  - apply served_of_bucket. intros h w1 Hh. apply served_load; [done|]. intros b w2 _.
    apply served_try_disk; [on_disk|intros; apply served_failed|]. intros [tmp ino] w3 _. apply served_answer.
  - apply served_lock; [by intros ? ?%not_elem_of_nil|]. intros w1 _. apply served_disk; [done|on_disk|]. intros. apply served_close.
Qed.
End served.

(** ** Runs of a store *)

(** Meanwhile the clock goes on, or back, and the environment turns hostile or
    calms down. *)
Inductive meanwhile : world → world → Prop :=
  | meanwhile_clock t w : meanwhile w (set_now t w)
  | meanwhile_faults fs w : meanwhile w (set_faults fs w).

Abbreviation all_calls := (pool world reply store_call).
Definition calls_pool (w : world) : all_calls := mkPool w ∅ [].
Abbreviation call_step := (pstep call_serve meanwhile).

Lemma calls_safe q (i : nat) w (g : ()) :
  inv pointer_protocol w g → Pool.idle pointer_protocol i g →
  Pool.safe pointer_protocol i q (call_serve q) [] (nothing_owned pointer_protocol) w g.
Proof. intros _ _. destruct g. apply call_served. Qed.
Lemma meanwhile_guar (i : nat) w (g : ()) w' :
  meanwhile w w' → inv pointer_protocol w g → Pool.idle pointer_protocol i g →
  ∃ g', guar pointer_protocol i [] tt tt w g w' g' ∧ inv pointer_protocol w' g' ∧ Pool.idle pointer_protocol i g'.
Proof. intros Hm [Hb Hp] _. exists tt. by destruct Hm. Qed.

Lemma calls_pointers w c : reachable w → rtc call_step (calls_pool w) c → ∃ g, pool_inv pointer_protocol c g.
Proof.
  intros Hw%reachable_pointers Hr.
  assert (pool_inv pointer_protocol (calls_pool w) tt) as H0 by by apply pool_inv_empty; [apply _|..].
  destruct (pool_sound pointer_protocol call_serve meanwhile calls_safe meanwhile_guar _ _ _ H0 Hr) as (g & _ & Hg). by exists g.
Qed.

(** ** Property *)

(** C20: The calls of the store are always served: whatever calls it takes, to create,
    describe, list and delete buckets, to put, describe, open, list and delete
    objects, to write, abort and commit writers, for a temporary file and to close
    the store, however their steps interleave with each other, with the clock and
    with failures of the environment, and however the calls of any moment are
    served from then on: after finitely many steps all of them have returned, none
    waits for a mutex forever, unless the process dies in one.  [DeleteBucket]
    takes [s.mu] under [commitMu]; no two calls wait for each other in a circle. *)
Theorem store_calls_served w c :
  reachable w → rtc call_step (calls_pool w) c → comes_to_end c.
Proof.
  intros Hw Hr. destruct (calls_pointers w c Hw Hr) as [g Hg].
  exact (pool_comes_to_end pointer_protocol call_serve meanwhile calls_safe meanwhile_guar c g Hg).
Qed.

(** ** A race *)

(** A bucket is deleted while it is written to and listed, and the store closed. *)
Definition closing : list store_call :=
  [AskDeleteBucket "photos"; Basic (AskPutObject "photos" "new" ([bytes_of_string "one"], None) sample_opts);
   AskListObjects "photos" (mkListRequest "" "" "" 0); AskListBuckets; AskTempFile "photos"; AskClose].
Definition closing_turns (k : nat) : all_calls :=
  take_turns (concat (repeat [0; 1; 2; 3; 4; 5] k)) (arrivals call_serve w_bucket closing).
Definition returned (c : all_calls) : list bool :=
  (λ qx, match qx.2 with Answer _ => true | _ => false end) <$> reqs c.

(** After two rounds nobody has returned, after thirty all have. *)
Example closing_ex : returned (closing_turns 2) = repeat false 6 ∧ returned (closing_turns 30) = repeat true 6.
Proof. split; by_running. Qed.

Lemma closing_runs k : rtc call_step (calls_pool w_bucket) (closing_turns k).
Proof. etrans; [exact (arrivals_pstep call_serve meanwhile w_bucket closing)|apply take_turns_pstep]. Qed.

Lemma store_calls_served_witness :
  returned (closing_turns 2) = repeat false 6 ∧ comes_to_end (closing_turns 2) ∧ returned (closing_turns 30) = repeat true 6.
Proof.
  exact (conj (proj1 closing_ex) (conj (store_calls_served w_bucket (closing_turns 2) reachable_bucket (closing_runs 2)) (proj2 closing_ex))).
Defined.
