(* ===== verification/GoNet.v ===== *)
(** More of Go's standard library: [net/url] escaping, [encoding/base64], time
    formats, HTTP requests and what a handler answers. *)

From S2P Require Import Prelude Errors GoStd Types Hash BlobWriter.
From stdpp Require Import options.

(** ** Package strings, continued *)
Definition ascii_lower (a : ascii) : ascii :=
  let v := byte_val a in if (65 <=? v)%Z && (v <=? 90)%Z then byte_of (v + 32) else a.
Definition ascii_upper (a : ascii) : ascii :=
  let v := byte_val a in if (97 <=? v)%Z && (v <=? 122)%Z then byte_of (v - 32) else a.
Definition str_map (f : ascii → ascii) (s : string) : string :=
  string_of_bytes (f <$> bytes_of_string s).

(** [strings.ToLower] and [strings.EqualFold] on ASCII text. *)
Definition strings_ToLower (s : string) : string := str_map ascii_lower s.
Definition strings_EqualFold (s t : string) : bool := String.eqb (strings_ToLower s) (strings_ToLower t).

(** [strings.TrimSpace]: the white space of Unicode, in UTF-8. *)
Definition spaces : list bytes :=
  [["009"%char]; ["010"%char]; ["011"%char]; ["012"%char]; ["013"%char]; [" "%char];
   ["194"%char; "133"%char]; ["194"%char; "160"%char]; ["225"%char; "154"%char; "128"%char];
   ["226"%char; "128"%char; "168"%char]; ["226"%char; "128"%char; "169"%char];
   ["226"%char; "128"%char; "175"%char]; ["226"%char; "129"%char; "159"%char];
   ["227"%char; "128"%char; "128"%char]] ++
  ((λ i, ["226"%char; "128"%char; byte_of (128 + Z.of_nat i)]) <$> seq 0 11).

Fixpoint strip (p l : bytes) : option bytes :=
  match p, l with
  | [], _ => Some l
  | a :: p, b :: l => if Ascii.eqb a b then strip p l else None
  | _ :: _, [] => None
  end.
Fixpoint trim_any (fuel : nat) (cut : list bytes) (l : bytes) : bytes :=
  match fuel with
  | 0 => l
  | S fuel =>
    match omap (λ p, strip p l) cut with
    | [] => l
    | l' :: _ => trim_any fuel cut l'
    end
  end.
Definition strings_TrimSpace (s : string) : string :=
  let l := trim_any (String.length s) spaces (bytes_of_string s) in
  string_of_bytes (rev (trim_any (length l) (@rev ascii <$> spaces) (rev l))).

(** ** Package net/url *)

(** [ishex] and [unhex]. *)
Definition unhex (a : ascii) : option Z :=
  match digit_val a with
  | Some d => if (d <? 16)%Z then Some d else None
  | None => None
  end.

(** [url.PathUnescape]; [None] is an error. *)
Fixpoint bytes_PathUnescape (l : bytes) : option bytes :=
  match l with
  | [] => Some []
  | a :: l =>
    if Ascii.eqb a "%" then
      match l with
      | h :: o :: l =>
        match unhex h, unhex o with
        | Some x, Some y => cons (byte_of (16 * x + y)) <$> bytes_PathUnescape l
        | _, _ => None
        end
      | _ => None
      end
    else cons a <$> bytes_PathUnescape l
  end.
Definition url_PathUnescape (s : string) : option string :=
  string_of_bytes <$> bytes_PathUnescape (bytes_of_string s).

(** [url.QueryEscape]. *)
Definition unreserved (a : ascii) : bool :=
  let v := byte_val a in
  ((97 <=? v) && (v <=? 122) || (65 <=? v) && (v <=? 90) || (48 <=? v) && (v <=? 57))%Z ||
  Ascii.eqb a "-" || Ascii.eqb a "_" || Ascii.eqb a "." || Ascii.eqb a "~".
Definition upper_hex (d : Z) : ascii :=
  if (d <? 10)%Z then byte_of (48 + d) else byte_of (55 + d).
Definition percent (a : ascii) : bytes :=
  ["%"%char; upper_hex (byte_val a / 16); upper_hex (byte_val a mod 16)].
Definition bytes_QueryEscape (l : bytes) : bytes :=
  l ≫= λ a, if Ascii.eqb a " " then ["+"%char] else if unreserved a then [a] else percent a.
Definition url_QueryEscape (s : string) : string :=
  string_of_bytes (bytes_QueryEscape (bytes_of_string s)).

Example QueryEscape_ex : url_QueryEscape "a b/c+~" = "a+b%2Fc%2B~".
Proof. by vm_compute. Qed.
Example PathUnescape_ex : url_PathUnescape "a+b%2fc%2F" = Some "a+b/c/".
Proof. by vm_compute. Qed.

(** [url.Values]: the values of each key, in order. *)
Abbreviation Values := (gmap string (list string)).
Definition values_Get (q : Values) (k : string) : string :=
  match q !! k with Some (v :: _) => v | _ => "" end.
Definition values_Has (q : Values) (k : string) : bool :=
  match q !! k with Some _ => true | None => false end.

(** ** Package encoding/base64: [StdEncoding] *)
Definition b64_digit (d : Z) : ascii :=
  if (d <? 26)%Z then byte_of (65 + d) else if (d <? 52)%Z then byte_of (71 + d)
  else if (d <? 62)%Z then byte_of (d - 4) else if (d =? 62)%Z then "+"%char else "/"%char.
Definition b64_val (a : ascii) : option Z :=
  let v := byte_val a in
  if (65 <=? v)%Z && (v <=? 90)%Z then Some (v - 65)%Z
  else if (97 <=? v)%Z && (v <=? 122)%Z then Some (v - 71)%Z
  else if (48 <=? v)%Z && (v <=? 57)%Z then Some (v + 4)%Z
  else if Ascii.eqb a "+" then Some 62%Z
  else if Ascii.eqb a "/" then Some 63%Z
  else None.

Fixpoint b64_encode (l : bytes) : bytes :=
  match l with
  | a :: b :: c :: l =>
    let n := (byte_val a * 65536 + byte_val b * 256 + byte_val c)%Z in
    b64_digit (n / 262144) :: b64_digit (n / 4096 mod 64) :: b64_digit (n / 64 mod 64) :: b64_digit (n mod 64)
      :: b64_encode l
  | [a; b] =>
    let n := (byte_val a * 1024 + byte_val b * 4)%Z in
    [b64_digit (n / 4096); b64_digit (n / 64 mod 64); b64_digit (n mod 64); "="%char]
  | [a] =>
    let n := (byte_val a * 16)%Z in
    [b64_digit (n / 64); b64_digit (n mod 64); "="%char; "="%char]
  | [] => []
  end.

Fixpoint b64_decode (l : bytes) : option bytes :=
  match l with
  | [] => Some []
  | a :: b :: c :: d :: l =>
    match b64_val a, b64_val b with
    | Some x, Some y =>
      if Ascii.eqb c "=" then
        if Ascii.eqb d "=" then match l with [] => Some [byte_of ((x * 64 + y) / 16)] | _ => None end else None
      else
        match b64_val c with
        | None => None
        | Some z =>
          if Ascii.eqb d "=" then
            match l with
            | [] => Some [byte_of ((x * 64 + y) / 16); byte_of ((x * 4096 + y * 64 + z) / 4)]
            | _ => None
            end
          else
            match b64_val d with
            | None => None
            | Some w =>
              let n := (x * 262144 + y * 4096 + z * 64 + w)%Z in
              (λ r, byte_of (n / 65536) :: byte_of (n / 256) :: byte_of n :: r) <$> b64_decode l
            end
        end
    | _, _ => None
    end
  | _ => None
  end.

Definition base64_EncodeToString (l : bytes) : string := string_of_bytes (b64_encode l).
(** Decoding ignores line breaks. *)
Definition base64_DecodeString (s : string) : option bytes :=
  b64_decode (List.filter (λ a, negb (Ascii.eqb a "010" || Ascii.eqb a "013")) (bytes_of_string s)).

Example base64_ex : base64_EncodeToString (bytes_of_string "any carnal pleas") = "YW55IGNhcm5hbCBwbGVhcw==".
Proof. by vm_compute. Qed.

(** ** Package time: formats of an instant in UTC *)
Definition zero_pad (n : nat) (z : Z) : string :=
  let s := pretty (Z.abs z) in
  (if (z <? 0)%Z then "-" else "") +:+ string_of_bytes (replicate (n - String.length s) "0"%char) +:+ s.

(** Year, month and day of a day number counted from 1970-01-01. *)
Definition civil (days : Z) : Z * Z * Z :=
  let z := (days + 719468)%Z in
  let era := (z / 146097)%Z in
  let doe := (z mod 146097)%Z in
  let yoe := ((doe - doe / 1460 + doe / 36524 - doe / 146096) / 365)%Z in
  let doy := (doe - (365 * yoe + yoe / 4 - yoe / 100))%Z in
  let mp := ((5 * doy + 2) / 153)%Z in
  let d := (doy - (153 * mp + 2) / 5 + 1)%Z in
  let m := (if (mp <? 10)%Z then mp + 3 else mp - 9)%Z in
  ((yoe + era * 400 + (if (m <=? 2)%Z then 1 else 0))%Z, m, d).

Definition date_time (t : Time) : string :=
  let secs := (t / 1000000000)%Z in
  let '(y, m, d) := civil (secs / 86400) in
  let s := (secs mod 86400)%Z in
  zero_pad 4 y +:+ "-" +:+ zero_pad 2 m +:+ "-" +:+ zero_pad 2 d +:+ "T" +:+
  zero_pad 2 (s / 3600) +:+ ":" +:+ zero_pad 2 (s / 60 mod 60) +:+ ":" +:+ zero_pad 2 (s mod 60).

(** [t.UTC().Format("2006-01-02T15:04:05.000Z")] *)
Definition format_millis (t : Time) : string :=
  date_time t +:+ "." +:+ zero_pad 3 (t mod 1000000000 / 1000000) +:+ "Z".
(** [t.UTC().Format("2006-01-02T15:04:05.999999Z07:00")] *)
Definition format_micros (t : Time) : string :=
  let us := (t mod 1000000000 / 1000)%Z in
  date_time t +:+
  (if (us =? 0)%Z then "" else "." +:+ strings_TrimRight (zero_pad 6 us) "0") +:+ "Z".

Example format_ex : format_millis 1700000000123456789 = "2023-11-14T22:13:20.123Z".
Proof. by vm_compute. Qed.
Example format_ex2 : format_micros 951782400120000000 = "2000-02-29T00:00:00.12Z".
Proof. by vm_compute. Qed.

(** ** Package net/http *)

(** [http.CanonicalHeaderKey]: a name with a byte that is not a token character
    is left alone. *)
Definition is_token_char (a : ascii) : bool :=
  let v := byte_val a in
  ((97 <=? v) && (v <=? 122) || (65 <=? v) && (v <=? 90) || (48 <=? v) && (v <=? 57))%Z ||
  str_mem a "!#$%&'*+-.^_`|~".
Fixpoint canonical_bytes (upper : bool) (l : bytes) : bytes :=
  match l with
  | [] => []
  | a :: l => (if upper then ascii_upper a else ascii_lower a) :: canonical_bytes (Ascii.eqb a "-") l
  end.
Definition CanonicalHeaderKey (s : string) : string := 
  if forallb is_token_char (bytes_of_string s) then string_of_bytes (canonical_bytes true (bytes_of_string s)) else s.

Example CanonicalHeaderKey_ex : CanonicalHeaderKey "x-amz-meta-oWNER" = "X-Amz-Meta-Owner".
Proof. by vm_compute. Qed.

(** [http.Header]: the values of each canonical name. *)
Abbreviation Header := (gmap string (list string)).
Definition header_Get (h : Header) (k : string) : string :=
  match h !! CanonicalHeaderKey k with Some (v :: _) => v | _ => "" end.

(** A request, as the server hands it to a handler: the path and the query are
    already parsed out of the URL; [Body] is the sequence of its reads. *)
Record request := mkRequest {
  Method : string;
  URLPath : string;           (* r.URL.Path *)
  EscapedPath : string;       (* r.URL.EscapedPath() *)
  Query : Values;             (* r.URL.Query() *)
  rHeader : Header;
  Body : reader;
  ContentLength : Z;
  TLS : bool;                 (* r.TLS != nil *)
  Host : string;
  random : bytes;             (* what rand.Read fills idBytes with *)
}.

(** What a handler answers: status, headers set and body; or the call of
    [http.ServeContent], which decides on status and ranges itself. *)
Inductive response (B : Type) :=
  | Reply (status : Z) (headers : list (string * string)) (body : option B)
  | ServeContent (headers : list (string * string)) (modtime : Time) (content : bytes).
Arguments Reply {B} _ _ _.
Arguments ServeContent {B} _ _ _.

Definition response_status {B} (r : response B) : option Z :=
  match r with Reply st _ _ => Some st | ServeContent _ _ _ => None end.
