(* ===== verification/AwsChunked.v ===== *)
(** [pkg/s3/awschunked.go]: the decoder of aws-chunked request bodies. *)

From S2P Require Import Prelude Errors GoStd GoNet BlobWriter.
From stdpp Require Import options.

(** ** bufio.Reader

    What is left of the underlying reads, and how they end.  A buffered read
    returns bytes of one underlying read. *)
Fixpoint bufio_skip (pieces : list bytes) : list bytes :=
  match pieces with
  | [] :: pieces => bufio_skip pieces
  | _ => pieces
  end.

(** [br.Read(p)] for [len p = n > 0]. *)
Definition bufio_Read (n : nat) (br : reader) : bytes * option error * reader :=
  match bufio_skip br.1 with
  | [] => ([], Some (default EOF br.2), ([], br.2))
  | p :: pieces => (take n p, None, (drop n p :: pieces, br.2))
  end.

(** [br.ReadByte()]. *)
Definition bufio_ReadByte (br : reader) : (error + ascii) * reader :=
  match bufio_skip br.1 with
  | (b :: p) :: pieces => (inr b, (p :: pieces, br.2))
  | _ => (inl (default EOF br.2), ([], br.2))
  end.

(** [br.ReadString(delim)]: the text up to and with the delimiter, or all there
    is and an error. *)
Fixpoint cut_at (delim : ascii) (l : bytes) : option (bytes * bytes) :=
  match l with
  | [] => None
  | a :: l =>
    if Ascii.eqb a delim then Some ([a], l)
    else match cut_at delim l with Some (x, y) => Some (a :: x, y) | None => None end
  end.
Fixpoint read_string (delim : ascii) (pieces : list bytes) : bytes * option (list bytes) :=
  match pieces with
  | [] => ([], None)
  | p :: pieces =>
    match cut_at delim p with
    | Some (x, y) => (x, Some (y :: pieces))
    | None => let '(x, rest) := read_string delim pieces in (p ++ x, rest)
    end
  end.
Definition bufio_ReadString (delim : ascii) (br : reader) : string * option error * reader :=
  match read_string delim br.1 with
  | (x, Some pieces) => (string_of_bytes x, None, (pieces, br.2))
  | (x, None) => (string_of_bytes x, Some (default EOF br.2), ([], br.2))
  end.

(** ** The decoder *)
Record awsChunkedReader := mkChunked {
  br : reader;
  remaining : Z;
  c_done : bool;
}.

Definition set_br (b : reader) (c : awsChunkedReader) : awsChunkedReader := mkChunked b (remaining c) (c_done c).

Fixpoint discard_loop (i : nat) (c : awsChunkedReader) : option error * awsChunkedReader :=
  match i with
  | 0 => (None, c)
  | S i =>
    match bufio_ReadByte (br c) with
    | (inl e, b) => (Some e, set_br b c)
    | (inr a, b) =>
      if negb (Ascii.eqb a "013") && negb (Ascii.eqb a "010")
      then (Some (Other [Lit "expected CRLF after aws-chunked chunk, got "; Quote (String a "")]), set_br b c)
      else discard_loop i (set_br b c)
    end
  end.
Definition discardCRLF (c : awsChunkedReader) : option error * awsChunkedReader := discard_loop 2 c.

Definition crlf : string := String "013" (String "010" "").

(** The size of a chunk, from its header line. *)
Definition chunk_size (line : string) : string * (Z * bool) :=
  let header := strings_TrimRight line crlf in
  let header := match strings_Index header ";" with Some idx => str_take idx header | None => header end in
  (header, strconv_ParseInt (strings_TrimSpace header) 16).

(** The trailers up to the final blank line or the end; [fuel] bounds the number
    of lines. *)
Fixpoint skip_trailers (fuel : nat) (c : awsChunkedReader) : option (option error * awsChunkedReader) :=
  match fuel with
  | 0 => None
  | S fuel =>
    let '(line, err, b) := bufio_ReadString "010" (br c) in
    if bool_decide (err = Some EOF) || String.eqb (strings_TrimRight line crlf) "" then Some (None, set_br b c)
    else match err with
         | Some e => Some (Some e, set_br b c)
         | None => skip_trailers fuel (set_br b c)
         end
  end.

(** The loop of [c.Read(p)] with [len p = n]; [fuel] bounds the number of header
    lines it reads, and [None] is running out of it. *)
Fixpoint read_loop (fuel n : nat) (c : awsChunkedReader) : option (bytes * option error * awsChunkedReader) :=
  match fuel with
  | 0 => None
  | S fuel' =>
    if c_done c then Some ([], Some EOF, c)
    else if (0 <? remaining c)%Z then
      let n := Nat.min n (Z.to_nat (remaining c)) in
      let '(p, err, b) := bufio_Read n (br c) in
      let c := mkChunked b (remaining c - Z.of_nat (length p)) (c_done c) in
      if (remaining c =? 0)%Z then
        let '(err2, c) := discardCRLF c in
        Some (p, match err with None => err2 | Some e => Some e end, c)
      else Some (p, err, c)
    else
      let '(line, err, b) := bufio_ReadString "010" (br c) in
      let c := set_br b c in
      match err with
      | Some e => Some ([], Some (Wrap [Lit "reading aws-chunked header: "] e []), c)
      | None =>
        let '(header, (size, bad)) := chunk_size line in
        if bad then
          Some ([], Some (Wrap [Lit "invalid aws-chunked size "; Quote header; Lit ": "]
                            (Other [Lit "strconv.ParseInt"]) []), c)
        else if (size =? 0)%Z then
          match skip_trailers fuel c with
          | None => None
          | Some (Some e, c) => Some ([], Some e, c)
          | Some (None, c) => Some ([], Some EOF, mkChunked (br c) (remaining c) true)
          end
        else read_loop fuel' n (mkChunked (br c) size (c_done c))
      end
  end.

Definition input_size (b : reader) : nat := length (concat b.1).

(** [c.Read(p)]. *)
Definition Read (n : nat) (c : awsChunkedReader) : option (bytes * option error * awsChunkedReader) :=
  read_loop (S (S (input_size (br c)))) n c.

(** What [io.Copy] reads from the decoder: its [Read] is called with a buffer of
    32768 bytes until it returns an error, [io.EOF] being the good one. *)
Fixpoint drain (fuel : nat) (c : awsChunkedReader) : option reader :=
  match fuel with
  | 0 => None
  | S fuel =>
    match Read (Z.to_nat 32768) c with
    | None => None
    | Some (p, Some EOF, _) => Some ([p], None)
    | Some (p, Some e, _) => Some ([p], Some e)
    | Some (p, None, c) => (λ r, (p :: r.1, r.2)) <$> drain fuel c
    end
  end.
Definition decoded (b : reader) : option reader := drain (S (S (input_size b))) (mkChunked b 0 false).

(** [requestBody(r)], as the reads [io.Copy] makes of it. *)
Definition requestBody (r : request) : reader :=
  let contentSHA := header_Get (rHeader r) "x-amz-content-sha256" in
  if strings_HasPrefix contentSHA "STREAMING-" ||
     strings_Contains (header_Get (rHeader r) "Content-Encoding") "aws-chunked"
  then default ([], Some (Other [Lit "not reached: see decoded_total"])) (decoded (Body r))
  else Body r.
