(* ===== verification/ChunkedProofs.v ===== *)
(** The aws-chunked decoder: it always comes to an end, it gives back what an
    encoder framed however the network cuts the stream, and what it makes of a
    stream that stops early. *)

From S2P Require Import Prelude Errors GoStd GoNet Hash Names JsonProofs BlobWriter AwsChunked.
From stdpp Require Import options.

(** ** Buffered reads, in terms of the bytes left *)
Abbreviation left b := (concat (fst b)).

Lemma bufio_skip_concat ps : concat (bufio_skip ps) = concat ps.
Proof. induction ps as [|[|a p] ps IH]; [done|exact IH|done]. Qed.

Lemma bufio_skip_cases ps :
  bufio_skip ps = [] ∧ concat ps = [] ∨ ∃ a p ps', bufio_skip ps = (a :: p) :: ps'.
Proof. induction ps as [|[|a p] ps IH]; [by left|exact IH|right; eauto]. Qed.

Lemma bufio_Read_spec n b :
  0 < n →
  (left b = [] ∧ bufio_Read n b = ([], Some (default EOF b.2), ([], b.2))) ∨
  ∃ p b', bufio_Read n b = (p, None, b') ∧ p ≠ [] ∧ length p ≤ n ∧ left b = p ++ left b' ∧ b'.2 = b.2.
Proof.
  intros Hn. unfold bufio_Read. pose proof (bufio_skip_concat b.1) as Hc.
  destruct (bufio_skip_cases b.1) as [[E Hl]|(a & p & ps & E)]; rewrite E in *; [by left|right].
  eexists _, _. split; [done|]. split_and!; [destruct n; [lia|done]| | |done].
  - rewrite length_take. lia.
  - cbn [fst concat]. rewrite app_assoc, take_drop. by rewrite <- Hc.
Qed.

Lemma bufio_ReadByte_spec b :
  match left b with
  | [] => bufio_ReadByte b = (inl (default EOF b.2), ([], b.2))
  | a :: s => ∃ b', bufio_ReadByte b = (inr a, b') ∧ left b' = s ∧ b'.2 = b.2
  end.
Proof.
  unfold bufio_ReadByte. pose proof (bufio_skip_concat b.1) as Hc.
  destruct (bufio_skip_cases b.1) as [[E ->]|(a & p & ps & E)]; rewrite E in *; [done|].
  rewrite <- Hc. cbn. by eexists.
Qed.

Lemma cut_at_spec d l :
  match cut_at d l with
  | Some (x, y) => l = x ++ y ∧ ∃ x', x = x' ++ [d] ∧ d ∉ x'
  | None => d ∉ l
  end.
Proof.
  induction l as [|a l IH]; cbn; [by apply not_elem_of_nil|].
  destruct (Ascii.eqb_spec a d) as [->|Hne].
  - split; [done|]. exists []. split; [done|]. by apply not_elem_of_nil.
  - destruct (cut_at d l) as [[x y]|].
    + destruct IH as (-> & x' & -> & Hx). split; [done|]. exists (a :: x'). split; [done|]. set_solver.
    + set_solver.
Qed.

Lemma split_unique (d : ascii) x y x' y' : x ++ d :: y = x' ++ d :: y' → d ∉ x → d ∉ x' → x = x' ∧ y = y'.
Proof.
  revert x'. induction x as [|a x IH]; intros [|a' x'] E Hx Hx'; cbn in E; simplify_eq; set_solver.
Qed.

Lemma read_string_spec d ps :
  match read_string d ps with
  | (x, Some ps') => concat ps = x ++ concat ps' ∧ ∃ x', x = x' ++ [d] ∧ d ∉ x'
  | (x, None) => x = concat ps ∧ d ∉ x
  end.
Proof.
  induction ps as [|p ps IH]; cbn; [split; [done|by apply not_elem_of_nil]|].
  pose proof (cut_at_spec d p) as Hp. destruct (cut_at d p) as [[x y]|].
  - destruct Hp as (-> & Hx). split; [|done]. cbn. by rewrite app_assoc.
  - destruct (read_string d ps) as [x [ps'|]].
    + destruct IH as (-> & x' & -> & Hx). split; [by rewrite app_assoc|].
      exists (p ++ x'). split; [by rewrite app_assoc|]. set_solver.
    + destruct IH as (-> & Hx). split; [done|]. set_solver.
Qed.

Lemma bufio_ReadString_line d b l s :
  left b = l ++ d :: s → d ∉ l →
  ∃ b', bufio_ReadString d b = (string_of_bytes (l ++ [d]), None, b') ∧ left b' = s ∧ b'.2 = b.2.
Proof.
  intros Hb Hl. unfold bufio_ReadString. pose proof (read_string_spec d b.1) as H.
  destruct (read_string d b.1) as [x [ps|]].
  - destruct H as (Hc & x' & -> & Hx). rewrite Hb in Hc. rewrite <- app_assoc in Hc. cbn in Hc.
    apply split_unique in Hc as [-> ->]; [|done..]. by eexists.
  - destruct H as [-> Hd]. rewrite Hb in Hd. set_solver.
Qed.

Lemma bufio_ReadString_shrinks d b line err b' :
  bufio_ReadString d b = (line, err, b') →
  b'.2 = b.2 ∧ match err with None => length (left b') < length (left b) | Some e => left b' = [] end.
Proof.
  unfold bufio_ReadString. pose proof (read_string_spec d b.1) as H.
  destruct (read_string d b.1) as [x [ps|]]; intros [= <- <- <-]; [|done].
  split; [done|]. destruct H as (-> & x' & -> & _). cbn. rewrite !length_app. cbn. lia.
Qed.

(** ** The decoder always comes to an end *)
Lemma skip_trailers_total fuel : ∀ c, input_size (br c) < fuel → ∃ r, skip_trailers fuel c = Some r.
Proof.
  induction fuel as [|fuel IH]; intros c Hf; [lia|]. cbn [skip_trailers].
  destruct (bufio_ReadString "010" (br c)) as [[line err] b] eqn:E. apply bufio_ReadString_shrinks in E as [_ E].
  destruct (_ || _); [by eexists|]. destruct err; [by eexists|]. apply IH. unfold input_size in *. cbn. lia.
Qed.

Lemma discard_loop_shrinks i : ∀ c err c', discard_loop i c = (err, c') → input_size (br c') ≤ input_size (br c).
Proof.
  induction i as [|i IH]; intros c err c'; cbn [discard_loop]; [by intros [= <- <-]|].
  pose proof (bufio_ReadByte_spec (br c)) as H. unfold input_size in *.
  destruct (left (br c)) as [|a s] eqn:El.
  - rewrite H. intros [= <- <-]. cbn. lia.
  - destruct H as (b & -> & Hb & _). destruct (_ && _).
    + intros [= <- <-]. cbn. rewrite Hb. cbn. lia.
    + intros E%IH. cbn in E. rewrite Hb in E. cbn. lia.
Qed.

Lemma read_loop_total fuel : ∀ n c, 0 < n → S (input_size (br c)) < fuel →
  ∃ p err c', read_loop fuel n c = Some (p, err, c') ∧
    (err = None → input_size (br c') < input_size (br c)).
Proof.
  induction fuel as [|fuel IH]; intros n c Hn Hf; [lia|]. cbn [read_loop].
  destruct (c_done c); [by eexists _, _, _|].
  destruct (Z.ltb_spec 0 (remaining c)) as [Hr|Hr].
  - destruct (bufio_Read_spec (Nat.min n (Z.to_nat (remaining c))) (br c)) as [[Hl E]|(p & b & E & Hp & _ & Hl & _)]; [lia|..];
      rewrite E; cbn [br remaining c_done length].
    + destruct (_ =? _)%Z; [|by eexists _, _, _]. destruct (discardCRLF _). by eexists _, _, _.
    + assert (input_size b < input_size (br c)) as Hlt.
      { unfold input_size. rewrite Hl, length_app. destruct p; [done|]. cbn. lia. }
      destruct (_ =? _)%Z; [|by eexists _, _, _]. destruct (discardCRLF _) as [err c'] eqn:Ed.
      apply discard_loop_shrinks in Ed. cbn in Ed. eexists _, _, _. split; [done|]. lia.
  - destruct (bufio_ReadString "010" (br c)) as [[line err] b] eqn:E. apply bufio_ReadString_shrinks in E as [_ E].
    destruct err as [e|]; [by eexists _, _, _|]. unfold input_size in *.
    destruct (chunk_size line) as [header [size bad]]. destruct bad; [by eexists _, _, _|].
    destruct (size =? 0)%Z.
    + destruct (skip_trailers_total (S fuel) (set_br b c)) as [[[e|] c'] ->]; [unfold input_size; cbn; lia|by eexists _, _, _..].
    + destruct (IH n (mkChunked b size (c_done c))) as (p & err & c' & H & Hlt); [done|unfold input_size; cbn; lia|].
      exists p, err, c'. split; [exact H|]. intros Herr. specialize (Hlt Herr). unfold input_size in Hlt. cbn in Hlt. lia.
Qed.

Lemma drain_total fuel : ∀ c, input_size (br c) < fuel → ∃ r, drain fuel c = Some r.
Proof.
  induction fuel as [|fuel IH]; intros c Hf; [lia|]. cbn [drain]. unfold Read.
  destruct (read_loop_total (S (S (input_size (br c)))) (Z.to_nat 32768) c) as (p & err & c' & -> & Hlt); [lia..|].
  destruct err as [[]|]; try by eexists.
  destruct (IH c') as [r ->]; [specialize (Hlt eq_refl); lia|by eexists].
Qed.

Lemma decoded_total b : ∃ r, decoded b = Some r.
Proof. apply drain_total. cbn. lia. Qed.

(** ** What the decoder gives back *)

(** [framing cut s out]: the stream [s] carries the bytes [out]; with [cut], it
    may stop in the middle of a chunk. *)
Inductive framing (cut : bool) : bytes → bytes → Prop :=
  | framing_end l rest : "010"%char ∉ l → (chunk_size (string_of_bytes (l ++ ["010"%char]))).2 = (0%Z, false) →
      framing cut (l ++ "010"%char :: rest) []
  | framing_chunk l d s out : "010"%char ∉ l →
      (chunk_size (string_of_bytes (l ++ ["010"%char]))).2 = (Z.of_nat (length d), false) → d ≠ [] →
      framing cut s out → framing cut (l ++ "010"%char :: d ++ bytes_of_string crlf ++ s) (d ++ out)
  | framing_cut l d size : cut = true → "010"%char ∉ l →
      (chunk_size (string_of_bytes (l ++ ["010"%char]))).2 = (size, false) → (Z.of_nat (length d) ≤ size)%Z → (0 < size)%Z →
      framing cut (l ++ "010"%char :: d) d.

(** The states of the decoder in which [out] is still to come. *)
Inductive expects (cut : bool) (c : awsChunkedReader) (out : bytes) : Prop :=
  | exp_header : (br c).2 = None → c_done c = false → remaining c = 0%Z → framing cut (left (br c)) out →
      expects cut c out
  | exp_chunk d s out' : (br c).2 = None → c_done c = false → d ≠ [] → remaining c = Z.of_nat (length d) →
      left (br c) = d ++ bytes_of_string crlf ++ s → framing cut s out' → out = d ++ out' → expects cut c out
  | exp_cut : cut = true → (br c).2 = None → c_done c = false → (0 < remaining c)%Z →
      (Z.of_nat (length out) ≤ remaining c)%Z → left (br c) = out → expects cut c out.

Lemma discardCRLF_ok c s :
  left (br c) = bytes_of_string crlf ++ s →
  ∃ b, discardCRLF c = (None, mkChunked b (remaining c) (c_done c)) ∧ left b = s ∧ b.2 = (br c).2.
Proof.
  intros Hl. unfold discardCRLF. cbn [discard_loop].
  pose proof (bufio_ReadByte_spec (br c)) as H. rewrite Hl in H. cbn in H. destruct H as (b & -> & Hb & He). cbn.
  pose proof (bufio_ReadByte_spec b) as H. rewrite Hb in H. destruct H as (b' & -> & Hb' & He'). cbn.
  exists b'. split_and!; [done..|congruence].
Qed.

Lemma discardCRLF_end c :
  left (br c) = [] → (br c).2 = None → ∃ c', discardCRLF c = (Some EOF, c').
Proof.
  intros Hl He. unfold discardCRLF. cbn [discard_loop].
  pose proof (bufio_ReadByte_spec (br c)) as H. rewrite Hl in H. rewrite H, He. by eexists.
Qed.

Lemma skip_trailers_ok fuel : ∀ c, (br c).2 = None → input_size (br c) < fuel →
  ∃ c', skip_trailers fuel c = Some (None, c').
Proof.
  induction fuel as [|fuel IH]; intros c He Hf; [lia|]. cbn [skip_trailers].
  destruct (bufio_ReadString "010" (br c)) as [[line err] b] eqn:E.
  assert (err = None ∨ err = Some EOF) as Herr.
  { unfold bufio_ReadString in E. rewrite He in E. destruct (read_string _ _) as [x [ps|]]; simplify_eq; auto. }
  apply bufio_ReadString_shrinks in E as [Hb E].
  destruct Herr as [->| ->]; cbn; [|by eexists].
  destruct (String.eqb _ _); [by eexists|]. apply IH; unfold input_size in *; cbn; [congruence|lia].
Qed.

(** The result of a read: a piece of what is expected, or the end. *)
Definition good_read (cut : bool) (out : bytes) (r : bytes * option error * awsChunkedReader) : Prop :=
  (∃ p c' out', r = (p, None, c') ∧ out = p ++ out' ∧ expects cut c' out') ∨
  (∃ c', r = (out, Some EOF, c')).

Lemma read_in_chunk cut fuel n c out :
  0 < n → (0 < remaining c)%Z → expects cut c out →
  ∃ r, read_loop (S fuel) n c = Some r ∧ good_read cut out r.
Proof.
  intros Hn Hr Hx. cbn [read_loop].
  assert (c_done c = false) as Hd by (by destruct Hx). rewrite Hd, (proj2 (Z.ltb_lt _ _) Hr).
  set (m := Nat.min n (Z.to_nat (remaining c))).
  destruct Hx as [_ _ ? _|d s out' He _ Hne Hrem Hl Hfr ->|Hcut He _ _ Hle Hl]; [lia|..].
  - destruct (bufio_Read_spec m (br c)) as [[Hl' _]|(p & b & -> & Hp & Hpm & Hl' & Heb)]; [lia| |].
    { rewrite Hl in Hl'. by destruct d. }
    assert (∃ d', d = p ++ d') as [d' ->].
    { rewrite Hl in Hl'. exists (drop (length p) d).
      apply (f_equal (take (length p))) in Hl'. rewrite take_app_le, take_app_length in Hl' by lia.
      transitivity (take (length p) d ++ drop (length p) d); [by rewrite take_drop|by rewrite Hl']. }
    rewrite Hl, <- app_assoc in Hl'. apply app_inv_head in Hl'. rewrite length_app in Hrem.
    cbn [remaining br c_done]. destruct (Z.eqb_spec (remaining c - Z.of_nat (length p)) 0) as [Hz|Hz].
    + destruct d'; [|cbn in *; lia]. cbn in Hl'.
      destruct (discardCRLF_ok (mkChunked b (remaining c - Z.of_nat (length p)) false) s) as (b' & -> & Hb' & Heb'); [done|].
      eexists. split; [done|]. left. eexists _, _, out'. rewrite app_nil_r. split_and!; [done..|].
      apply exp_header; cbn in *; [congruence|done|lia|by rewrite Hb'].
    + eexists. split; [done|]. left. eexists _, _, (d' ++ out'). split_and!; [done|by rewrite app_assoc|].
      apply (exp_chunk cut _ _ d' s out'); cbn; [congruence|done|by intros ->; cbn in *; lia|lia|done|done|done].
  - destruct (bufio_Read_spec m (br c)) as [[Hl' ->]|(p & b & -> & Hp & Hpm & Hl' & Heb)]; [lia|..]; cbn [remaining br c_done length].
    + destruct (Z.eqb_spec (remaining c - Z.of_nat 0) 0); [lia|]. eexists. split; [done|]. right. rewrite He.
      replace out with (@nil ascii) by congruence. by eexists.
    + assert (out = p ++ left b) as -> by congruence. rewrite length_app in Hle.
      destruct (Z.eqb_spec (remaining c - Z.of_nat (length p)) 0).
      * destruct (left b) eqn:Eb; [|cbn in *; lia].
        destruct (discardCRLF_end (mkChunked b (remaining c - Z.of_nat (length p)) false)) as [c' ->]; [done|cbn; congruence|].
        eexists. split; [done|]. right. rewrite app_nil_r. by eexists.
      * eexists. split; [done|]. left. eexists _, _, (left b). split_and!; [done..|].
        apply exp_cut; cbn; [done|congruence|done|lia|lia|done].
Qed.

Lemma read_expects cut n c out :
  0 < n → expects cut c out → ∃ r, Read n c = Some r ∧ good_read cut out r.
Proof.
  intros Hn Hx. destruct (decide (0 < remaining c)%Z) as [Hr|Hr]; [by apply read_in_chunk|].
  assert (∃ l rest, left (br c) = l ++ "010"%char :: rest ∧ ("010"%char ∉ l) ∧ (br c).2 = None ∧ c_done c = false ∧
    let '(size, bad) := (chunk_size (string_of_bytes (l ++ ["010"%char]))).2 in bad = false ∧
    if (size =? 0)%Z then out = [] else
      ∀ b, left b = rest → b.2 = None → (0 < size)%Z ∧ expects cut (mkChunked b size false) out) as
    (l & rest & Hl & Hnl & He & Hd & Hsize).
  { destruct Hx as [He Hd Hrem Hfr|? ? ? ? ? Hne ? ?|]; [|destruct d; [done|cbn in *; lia]|lia].
    inversion Hfr as [l rest Hnl Hs E1 E2|l d s out' Hnl Hs Hne Hfr' E1 E2|l d size Hcut Hnl Hs Hle Hpos E1 E2];
      exists l; eexists; (split; [done|]); (split_and!; [done..|]); rewrite Hs; (split; [done|]).
    { done. }
    - assert (length d ≠ 0) as Hlen by (intros Hlen%length_zero_iff_nil; done).
      destruct (Z.eqb_spec (Z.of_nat (length d)) 0); [lia|]. intros b Hb Hb2. split; [lia|]. eapply exp_chunk; cbn; done.
    - destruct (Z.eqb_spec size 0); [lia|]. intros b Hb Hb2. split; [done|]. apply exp_cut; cbn; done. }
  unfold Read. cbn [read_loop]. rewrite Hd. destruct (Z.ltb_spec 0 (remaining c)); [done|].
  destruct (bufio_ReadString_line "010" (br c) l rest Hl Hnl) as (b & -> & Hb & Hb2).
  destruct (chunk_size _) as [header [size bad]]. cbn in Hsize. destruct Hsize as [-> Hsize].
  destruct (Z.eqb_spec size 0) as [Hz|Hz].
  - rewrite Hsize. destruct (skip_trailers_ok (S (S (input_size (br c)))) (set_br b c)) as [c' ->]; cbn.
    + congruence.
    + unfold input_size. rewrite Hl, Hb, length_app. cbn. lia.
    + eexists. split; [done|]. right. by eexists.
  - destruct (Hsize b Hb) as [Hpos Hx']; [congruence|]. cbn [br set_br c_done]. rewrite Hd.
    exact (read_in_chunk cut (input_size (br c)) n (mkChunked b size false) out Hn Hpos Hx').
Qed.

(** Every read makes progress, or ends. *)
Lemma drain_expects cut fuel : ∀ c out, expects cut c out → input_size (br c) < fuel →
  ∃ ps, drain fuel c = Some (ps, None) ∧ concat ps = out.
Proof.
  induction fuel as [|fuel IH]; intros c out Hx Hf; [lia|]. cbn [drain].
  destruct (read_expects cut (Z.to_nat 32768) c out) as (r & Hr & Hg); [lia|done|].
  destruct (read_loop_total (S (S (input_size (br c)))) (Z.to_nat 32768) c) as (p & err & c' & Hr' & Hlt); [lia..|].
  unfold Read in *. rewrite Hr in Hr'. simplify_eq. rewrite Hr.
  destruct Hg as [(p' & c'' & out' & E & -> & Hx')|(c'' & E)]; simplify_eq.
  - destruct (IH c'' out' Hx') as (ps & -> & <-); [specialize (Hlt eq_refl); lia|]. by eexists.
  - eexists. split; [done|]. cbn. by rewrite app_nil_r.
Qed.

Lemma decoded_framing cut b out :
  b.2 = None → framing cut (left b) out → ∃ ps, decoded b = Some (ps, None) ∧ concat ps = out.
Proof. intros He Hf. apply (drain_expects cut); [by apply exp_header|cbn; lia]. Qed.

(** ** An encoder *)

(** A number in hexadecimal, the low digits in [acc]. *)
Fixpoint hex_digits (fuel : nat) (n : Z) (acc : bytes) : bytes :=
  match fuel with
  | 0 => acc
  | S fuel =>
    let acc := hex_digit (Z.to_N (n mod 16)) :: acc in
    if (n <? 16)%Z then acc else hex_digits fuel (n / 16) acc
  end.
Definition hex_of (n : nat) : bytes := hex_digits 16 (Z.of_nat n) [].

(** A chunk with its extension, which in a signed stream is the chunk's own
    signature; a body is chunks, the final extension and the trailer. *)
Definition frame (ext d : bytes) : bytes := hex_of (length d) ++ ext ++ bytes_of_string crlf ++ d ++ bytes_of_string crlf.
Definition encode (chunks : list (bytes * bytes)) (last : bytes) (trailer : bytes) : bytes :=
  concat ((λ c, frame c.1 c.2) <$> chunks) ++ hex_of 0 ++ last ++ bytes_of_string crlf ++ trailer.

Definition extension (ext : bytes) : Prop :=
  ext = [] ∨ ∃ e, ext = ";"%char :: e ∧ "010"%char ∉ e.

Definition is_hex (a : ascii) : bool :=
  let v := byte_val a in ((48 <=? v) && (v <=? 57) || (97 <=? v) && (v <=? 102))%Z.

Lemma hex_digit_spec d : (0 ≤ d < 16)%Z →
  digit_val (hex_digit (Z.to_N d)) = Some d ∧ is_hex (hex_digit (Z.to_N d)) = true.
Proof.
  intros Hd.
  assert (Forall (λ k, digit_val (hex_digit (Z.to_N (Z.of_nat k))) = Some (Z.of_nat k) ∧
    is_hex (hex_digit (Z.to_N (Z.of_nat k))) = true) (seq 0 16)) as H by (repeat constructor).
  rewrite Forall_forall in H. specialize (H (Z.to_nat d)). rewrite Z2Nat.id in H by lia. apply H.
  apply elem_of_seq. lia.
Qed.

Lemma hex_digits_val fuel : ∀ n acc, (0 ≤ n < 16 ^ Z.of_nat fuel)%Z →
  digits_val 16 0 (string_of_bytes (hex_digits fuel n acc)) = digits_val 16 n (string_of_bytes acc).
Proof.
  induction fuel as [|fuel IH]; intros n acc Hn; [cbn in *; by replace n with 0%Z by lia|]. cbn [hex_digits].
  pose proof (Z.mod_pos_bound n 16). destruct (hex_digit_spec (n mod 16)) as [Hv _]; [lia|].
  assert (∀ m, digits_val 16 m (string_of_bytes (hex_digit (Z.to_N (n mod 16)) :: acc)) =
    digits_val 16 (m * 16 + n mod 16) (string_of_bytes acc)) as Hstep.
  { intros m. cbn [String.string_of_list_ascii digits_val]. rewrite Hv. by rewrite (proj2 (Z.ltb_lt _ _)) by lia. }
  destruct (Z.ltb_spec n 16).
  - rewrite Hstep. f_equal. rewrite Z.mod_small by lia. lia.
  - rewrite IH.
    + rewrite Hstep. f_equal. pose proof (Z.div_mod n 16). lia.
    + replace (Z.of_nat (S fuel)) with (Z.of_nat fuel + 1)%Z in Hn by lia.
      rewrite Z.pow_add_r in Hn by lia. split; [apply Z.div_pos; lia|]. apply Z.div_lt_upper_bound; lia.
Qed.

Lemma hex_digits_hex fuel : ∀ n acc,
  Forall (λ a, is_hex a = true) acc → Forall (λ a, is_hex a = true) (hex_digits fuel n acc).
Proof.
  induction fuel as [|fuel IH]; intros n acc Hacc; [done|]. cbn [hex_digits].
  pose proof (Z.mod_pos_bound n 16). destruct (hex_digit_spec (n mod 16)) as [_ Hh]; [lia|].
  destruct (n <? 16)%Z; [by constructor|]. apply IH. by constructor.
Qed.

Lemma hex_digits_cons fuel : ∀ n acc, 0 < fuel ∨ acc ≠ [] → hex_digits fuel n acc ≠ [].
Proof.
  induction fuel as [|fuel IH]; intros n acc H; [destruct H; [lia|done]|]. cbn [hex_digits].
  destruct (n <? 16)%Z; [done|]. apply IH. by right.
Qed.

(** Cutting at characters that are not hexadecimal digits. *)
Lemma bytes_trim_left_stops cut l a m :
  str_mem a cut = false → ∃ l', bytes_trim_left cut (l ++ a :: m) = l' ++ a :: m.
Proof.
  intros Ha. induction l as [|b l IH]; cbn; [exists []; by rewrite Ha|].
  destruct (str_mem b cut); [done|]. by exists (b :: l).
Qed.

Lemma trim_crlf_stops l a m :
  str_mem a crlf = false →
  ∃ m', strings_TrimRight (string_of_bytes (l ++ a :: m)) crlf = string_of_bytes (l ++ a :: m').
Proof.
  intros Ha. unfold strings_TrimRight. rewrite bytes_of_string_of_bytes, rev_app_distr. cbn [rev].
  rewrite <- app_assoc. cbn [app].
  destruct (bytes_trim_left_stops crlf (rev m) a (rev l) Ha) as [m' ->].
  exists (rev m'). rewrite rev_app_distr. cbn [rev]. by rewrite rev_involutive, <- app_assoc.
Qed.

Lemma not_space (cut : list bytes) a l :
  is_hex a = true → Forall (λ p, match p with b :: _ => is_hex b = false | [] => False end) cut →
  omap (λ p, strip p (a :: l)) cut = [].
Proof.
  intros Ha. induction 1 as [|[|b p] cut Hb _ IH]; [done..|]. cbn.
  destruct (Ascii.eqb_spec b a) as [->|]; [congruence|]. exact IH.
Qed.

Lemma trim_any_hex fuel cut l :
  l ≠ [] → Forall (λ a, is_hex a = true) l →
  Forall (λ p, match p with b :: _ => is_hex b = false | [] => False end) cut → trim_any fuel cut l = l.
Proof.
  intros Hl Hh Hcut. destruct l as [|a l]; [done|]. apply Forall_cons in Hh as [Ha _].
  destruct fuel; [done|]. cbn [trim_any]. by rewrite not_space.
Qed.

Lemma TrimSpace_hex l : l ≠ [] → Forall (λ a, is_hex a = true) l → strings_TrimSpace (string_of_bytes l) = string_of_bytes l.
Proof.
  intros Hl Hh. unfold strings_TrimSpace. rewrite bytes_of_string_of_bytes.
  rewrite (trim_any_hex _ spaces) by (try done; repeat constructor).
  rewrite (trim_any_hex _ (@rev ascii <$> spaces)); [by rewrite rev_involutive| | |repeat constructor].
  - intros E. apply Hl. by rewrite <- (rev_involutive l), E.
  - by apply Forall_rev.
Qed.

Lemma Index_after (l : bytes) a m :
  a ∉ l → strings_Index (string_of_bytes (l ++ a :: m)) (String a "") = Some (length l).
Proof.
  induction l as [|b l IH]; intros Ha.
  - cbn. destruct (ascii_dec a a); [|done]. by destruct (string_of_bytes m).
  - cbn [app String.string_of_list_ascii strings_Index String.prefix].
    destruct (ascii_dec a b); [set_solver|]. rewrite IH by set_solver. done.
Qed.

Lemma Index_absent (l : bytes) a : a ∉ l → strings_Index (string_of_bytes l) (String a "") = None.
Proof.
  induction l as [|b l IH]; intros Ha; [done|].
  cbn [String.string_of_list_ascii strings_Index String.prefix].
  destruct (ascii_dec a b); [set_solver|]. by rewrite IH by set_solver.
Qed.

Lemma str_take_bytes (l m : bytes) : str_take (length l) (string_of_bytes (l ++ m)) = string_of_bytes l.
Proof. induction l as [|a l IH]; [by destruct m|]. cbn. by rewrite IH. Qed.

Lemma not_hex_not_in a (l : bytes) : is_hex a = false → Forall (λ a, is_hex a = true) l → a ∉ l.
Proof. rewrite Forall_forall. intros Ha Hl Hin. apply Hl in Hin. congruence. Qed.

(** The header line of a chunk of [n] bytes. *)
Lemma chunk_size_line n ext :
  (Z.of_nat n < 2 ^ 63)%Z → extension ext →
  chunk_size (string_of_bytes (hex_of n ++ ext ++ bytes_of_string crlf)) =
  (string_of_bytes (hex_of n), (Z.of_nat n, false)).
Proof.
  intros Hn Hext. set (h := hex_of n).
  assert (Forall (λ a, is_hex a = true) h) as Hh by by apply hex_digits_hex.
  assert (h ≠ []) as Hne by (apply hex_digits_cons; left; lia).
  assert (strconv_ParseInt (string_of_bytes h) 16 = (Z.of_nat n, false)) as Hparse.
  { assert (digits_val 16 0 (string_of_bytes h) = Some (Z.of_nat n)) as Hv.
    { unfold h, hex_of. rewrite hex_digits_val; [done|]. change (16 ^ Z.of_nat 16)%Z with (2 ^ 64)%Z. lia. }
    unfold strconv_ParseInt. clearbody h. destruct h as [|a h]; [done|]. apply Forall_cons in Hh as [Ha _].
    cbn [String.string_of_list_ascii] in *.
    destruct (Ascii.eqb_spec a "+") as [->|]; [done|]. destruct (Ascii.eqb_spec a "-") as [->|]; [done|].
    rewrite Hv. by rewrite (proj2 (Z.ltb_lt _ _)). }
  assert (∀ header, header = string_of_bytes h →
    (header, strconv_ParseInt (strings_TrimSpace header) 16) = (string_of_bytes h, (Z.of_nat n, false))) as Hfin.
  { intros header ->. by rewrite TrimSpace_hex, Hparse. }
  clearbody h. unfold chunk_size. destruct Hext as [->|(e & -> & He)].
  - assert (strings_TrimRight (string_of_bytes (h ++ [] ++ bytes_of_string crlf)) crlf = string_of_bytes h) as ->.
    { unfold strings_TrimRight. rewrite bytes_of_string_of_bytes, rev_app_distr. cbn.
      destruct (rev h) as [|a l] eqn:E; [by rewrite <- (rev_involutive h), E in Hne|].
      assert (is_hex a = true) as Ha.
      { rewrite Forall_forall in Hh. apply Hh, list_elem_of_In, in_rev. rewrite E. by left. }
      cbn. destruct (Ascii.eqb_spec a "013") as [->|]; [done|]. destruct (Ascii.eqb_spec a "010") as [->|]; [done|].
      cbn. f_equal. by rewrite <- (rev_involutive h), E. }
    rewrite Index_absent by by apply not_hex_not_in. by apply Hfin.
  - cbn [app]. destruct (trim_crlf_stops h ";" (e ++ bytes_of_string crlf)) as [m ->]; [done|].
    rewrite Index_after by by apply not_hex_not_in. apply Hfin. by apply str_take_bytes.
Qed.

Lemma header_line n ext : extension ext → "010"%char ∉ hex_of n ++ ext ++ ["013"%char].
Proof.
  intros Hext. rewrite !not_elem_of_app. split_and!.
  - apply not_hex_not_in; [done|]. by apply hex_digits_hex.
  - destruct Hext as [->|(e & -> & He)]; set_solver.
  - set_solver.
Qed.

Lemma framing_frame cut ext d s out :
  extension ext → d ≠ [] → (Z.of_nat (length d) < 2 ^ 63)%Z → framing cut s out → framing cut (frame ext d ++ s) (d ++ out).
Proof.
  intros Hext Hd Hlen Hs.
  replace (frame ext d ++ s) with ((hex_of (length d) ++ ext ++ ["013"%char]) ++ "010"%char :: d ++ bytes_of_string crlf ++ s)
    by (unfold frame; cbn [bytes_of_string crlf]; rewrite <- !app_assoc; done).
  apply framing_chunk; [by apply header_line| |done..].
  rewrite <- !app_assoc. cbn [app]. change ["013"%char; "010"%char] with (bytes_of_string crlf).
  by rewrite chunk_size_line.
Qed.

Definition framed (c : bytes * bytes) : Prop :=
  extension c.1 ∧ c.2 ≠ [] ∧ (Z.of_nat (length c.2) < 2 ^ 63)%Z.

Lemma framing_encode cut chunks last trailer :
  extension last → Forall framed chunks → framing cut (encode chunks last trailer) (concat chunks.*2).
Proof.
  intros Hlast. unfold encode. induction 1 as [|[ext d] chunks (Hext & Hd & Hlen) _ IH].
  - cbn [fmap list_fmap concat app].
    replace (hex_of 0 ++ last ++ bytes_of_string crlf ++ trailer)
      with ((hex_of 0 ++ last ++ ["013"%char]) ++ "010"%char :: trailer)
      by (cbn [bytes_of_string crlf]; rewrite <- !app_assoc; done).
    apply framing_end; [by apply header_line|].
    rewrite <- !app_assoc. cbn [app]. change ["013"%char; "010"%char] with (bytes_of_string crlf).
    by rewrite chunk_size_line.
  - rewrite !fmap_cons. cbn [concat fst snd]. rewrite <- app_assoc. by apply framing_frame.
Qed.
