(* ===== verification/ChunkedBounds.v ===== *)
(** The aws-chunked decoder on any input, well formed or not: it keeps the
    contract of [io.Reader], stays within the widths of its counters and within
    the chunk, and never gives out more bytes than came in. *)

From S2P Require Import Prelude Errors GoStd GoNet Hash Names JsonProofs BlobWriter AwsChunked ChunkedProofs.
From stdpp Require Import options.

Definition is_int64 (z : Z) : Prop := (- 2 ^ 63 ≤ z < 2 ^ 63)%Z.

Lemma chunk_size_range line header size bad : chunk_size line = (header, (size, bad)) → is_int64 size.
Proof. unfold chunk_size. intros [= _ E]. by eapply strconv_ParseInt_range in E. Qed.

(** The result of a read in state [c]: what it gives fits in the buffer and was
    taken from the input, and what is left of a chunk is counted right. *)
Definition within (n : nat) (c : awsChunkedReader) (p : bytes) (c' : awsChunkedReader) : Prop :=
  length p ≤ n ∧ length p + input_size (br c') ≤ input_size (br c) ∧ is_int64 (remaining c').

Lemma discard_loop_keeps i : ∀ c err c', discard_loop i c = (err, c') → remaining c' = remaining c ∧ c_done c' = c_done c.
Proof.
  induction i as [|i IH]; intros c err c'; cbn [discard_loop]; [by intros [= <- <-]|].
  destruct (bufio_ReadByte (br c)) as [[e|a] b]; [by intros [= <- <-]|].
  destruct (_ && _); [by intros [= <- <-]|]. intros E%IH. exact E.
Qed.

Lemma skip_trailers_within fuel : ∀ c e c',
  skip_trailers fuel c = Some (e, c') → input_size (br c') ≤ input_size (br c) ∧ remaining c' = remaining c.
Proof.
  induction fuel as [|fuel IH]; intros c e c'; cbn [skip_trailers]; [done|].
  destruct (bufio_ReadString "010" (br c)) as [[line err] b] eqn:E. apply bufio_ReadString_shrinks in E as [_ E].
  assert (input_size b ≤ input_size (br c)) as Hb by (unfold input_size; destruct err; [rewrite E; cbn; lia|lia]).
  destruct (_ || _); [by intros [= <- <-]|]. destruct err; [by intros [= <- <-]|].
  intros H. destruct (IH _ _ _ H) as [? ?]. cbn in *. split; [lia|done].
Qed.

(** A read inside a chunk. *)
Lemma read_chunk_within fuel n c p err c' :
  0 < n → c_done c = false → (0 < remaining c)%Z → is_int64 (remaining c) →
  read_loop (S fuel) n c = Some (p, err, c') →
  within n c p c' ∧ (Z.of_nat (length p) ≤ remaining c)%Z ∧ remaining c' = (remaining c - Z.of_nat (length p))%Z.
Proof.
  intros Hn Hd Hr Hrange. cbn [read_loop]. rewrite Hd, (proj2 (Z.ltb_lt _ _) Hr).
  assert (∃ q e b, bufio_Read (Nat.min n (Z.to_nat (remaining c))) (br c) = (q, e, b) ∧
    length q ≤ Nat.min n (Z.to_nat (remaining c)) ∧ length q + input_size b ≤ input_size (br c)) as (q & e & b & -> & Hq & Hin).
  { unfold input_size. destruct (bufio_Read_spec (Nat.min n (Z.to_nat (remaining c))) (br c)) as [[Hl ->]|(q & b & -> & _ & Hq & Hl & _)]; [lia|..].
    - eexists _, _, _. split_and!; [done|apply Nat.le_0_l|apply Nat.le_0_l].
    - eexists _, _, _. split_and!; [done|done|]. rewrite Hl, length_app. lia. }
  cbn [remaining]. unfold is_int64 in *.
  destruct (_ =? 0)%Z.
  - destruct (discardCRLF _) as [err2 c2] eqn:Ed. intros [= <- _ <-].
    pose proof (discard_loop_shrinks _ _ _ _ Ed) as Hs. destruct (discard_loop_keeps _ _ _ _ Ed) as [Hk _]. cbn in Hs, Hk.
    rewrite Hk. split; [split_and!; unfold is_int64; lia|lia].
  - intros [= <- _ <-]. cbn. split; [split_and!; cbn; unfold is_int64; lia|lia].
Qed.

Lemma read_loop_within fuel n : 0 < n → ∀ c p err c',
  is_int64 (remaining c) → read_loop fuel n c = Some (p, err, c') → within n c p c'.
Proof.
  intros Hn. induction fuel as [|fuel IH]; intros c p err c' Hrange Hread; [done|].
  destruct (c_done c) eqn:Hd.
  { cbn [read_loop] in Hread. rewrite Hd in Hread. injection Hread as <- _ <-. by split_and!; cbn; [lia|lia|]. }
  destruct (decide (0 < remaining c)%Z) as [Hr|Hr]; [by eapply read_chunk_within|].
  cbn [read_loop] in Hread. rewrite Hd, (proj2 (Z.ltb_ge _ _)) in Hread by lia.
  destruct (bufio_ReadString "010" (br c)) as [[line e] b] eqn:E. apply bufio_ReadString_shrinks in E as [_ E].
  assert (input_size b ≤ input_size (br c)) as Hb by (unfold input_size; destruct e; [rewrite E; cbn; lia|lia]).
  destruct e as [e|]; [injection Hread as <- _ <-; split_and!; cbn; [lia|lia|done]|].
  destruct (chunk_size line) as [header [size bad]] eqn:Esize. apply chunk_size_range in Esize.
  destruct bad; [injection Hread as <- _ <-; split_and!; cbn; [lia|lia|done]|].
  destruct (size =? 0)%Z.
  - destruct (skip_trailers (S fuel) (set_br b c)) as [[e c2]|] eqn:Et; [|done].
    destruct (skip_trailers_within _ _ _ _ Et) as [Hs Hk]. cbn in Hs, Hk.
    destruct e; injection Hread as <- _ <-; split_and!; cbn; rewrite ?Hk; first [lia|done].
  - destruct (IH (mkChunked b size (c_done c)) p err c' Esize Hread) as (? & ? & ?). cbn in *. split_and!; [done|lia|done].
Qed.

(** Nothing is made up: the decoded body is no longer than what was sent, and
    every read of it fits in the copy buffer. *)
Lemma drain_within fuel : ∀ c r, is_int64 (remaining c) → drain fuel c = Some r →
  length (concat r.1) ≤ input_size (br c) ∧ Forall (λ p, length p ≤ Z.to_nat 32768) r.1.
Proof.
  induction fuel as [|fuel IH]; intros c r Hrange; cbn [drain]; [done|]. unfold Read.
  destruct (read_loop _ _ c) as [[[p err] c']|] eqn:E; [|done].
  apply read_loop_within in E as (Hp & Hin & Hrange'); [|lia|done].
  assert (∀ e : option error, Some ([p], e) = Some r → length (concat r.1) ≤ input_size (br c) ∧ Forall (λ p, length p ≤ Z.to_nat 32768) r.1) as Hone.
  { intros e [= <-]. cbn [fst concat]. rewrite app_nil_r. split; [lia|by apply Forall_singleton]. }
  destruct err as [[]|]; try apply Hone. destruct (drain fuel c') as [r'|] eqn:Ed; cbn [fmap option_fmap option_map]; [|done].
  destruct (IH c' r' Hrange' Ed) as [Hl Hf]. intros [= <-]. cbn [fst concat]. rewrite length_app. split; [lia|by constructor].
Qed.

(** C22: On any input the decoder keeps the contract of [io.Reader]: a read ends, gives
    at most as many bytes as the buffer takes, no more than the input has left, and
    while it is inside a chunk never a byte beyond it; the count of what is left
    stays an int64; and a whole body decodes to no more bytes than were sent, in
    pieces of at most the copy buffer. *)
Theorem chunked_reads_bounded n c :
  0 < n → is_int64 (remaining c) →
  (∃ p err c', Read n c = Some (p, err, c') ∧ within n c p c' ∧
     (c_done c = false → (0 < remaining c)%Z →
        (Z.of_nat (length p) ≤ remaining c)%Z ∧ remaining c' = (remaining c - Z.of_nat (length p))%Z)) ∧
  (∃ r, decoded (br c) = Some r ∧ length (concat r.1) ≤ input_size (br c) ∧
     Forall (λ p, length p ≤ Z.to_nat 32768) r.1).
Proof.
  intros Hn Hrange. split.
  - unfold Read. destruct (read_loop_total (S (S (input_size (br c)))) n c Hn) as (p & err & c' & E & _); [lia|].
    exists p, err, c'. split_and!; [done|by eapply read_loop_within|]. intros Hd Hr.
    by destruct (read_chunk_within _ _ _ _ _ _ Hn Hd Hr Hrange E).
  - destruct (decoded_total (br c)) as [r Hr]. exists r. split; [done|]. unfold decoded in Hr.
    apply drain_within in Hr; [exact Hr|]. cbn [remaining]. unfold is_int64. lia.
Qed.

(** A malformed body: a chunk header that promises more than there is, a chunk
    without its line break. *)
Lemma chunked_reads_bounded_witness :
  ∃ p err c', Read 3 (mkChunked ([bytes_of_string "abcdefgh"], None) 5 false) = Some (p, err, c') ∧ length p ≤ 3.
Proof.
  destruct (chunked_reads_bounded 3 (mkChunked ([bytes_of_string "abcdefgh"], None) 5 false)) as [(p & err & c' & E & (Hp & _) & _) _].
  - lia.
  - split; cbn; lia.
  - exists p, err, c'. exact (conj E Hp).
Defined.
