(* ===== verification/S3Types.v ===== *)
(** [pkg/s3/xml.go]: the documents the S3 front end sends and receives, and its
    error responses. *)

From S2P Require Import Prelude Errors GoStd GoNet Types BlobWriter.
From stdpp Require Import options.

Definition iso8601 (t : Time) : string := format_millis t.

Record owner := mkOwner { ID : string; DisplayName : string }.
Definition defaultOwner : owner := mkOwner "objectstorage" "objectstorage".

Record bucketEntry := mkBucketEntry { be_Name : string; be_CreationDate : string }.
Record listAllMyBucketsResult := mkListAllMyBuckets { la_Owner : owner; la_Buckets : list bucketEntry }.

Record contents := mkContents {
  co_Key : string;
  co_LastModified : string;
  co_ETag : string;
  co_Size : Z;
  co_StorageClass : string;
}.

Record listBucketResultV2 := mkListV2 {
  l2_Name : string;
  l2_Prefix : string;
  l2_Delimiter : string;
  l2_MaxKeys : Z;
  l2_EncodingType : string;
  l2_KeyCount : Z;
  l2_IsTruncated : bool;
  l2_ContinuationToken : string;
  l2_NextContinuationToken : string;
  l2_StartAfter : string;
  l2_Contents : list contents;
  l2_CommonPrefixes : list string;  (* commonPrefix holds one string *)
}.

Record listBucketResultV1 := mkListV1 {
  l1_Name : string;
  l1_Prefix : string;
  l1_Delimiter : string;
  l1_Marker : string;
  l1_NextMarker : string;
  l1_MaxKeys : Z;
  l1_EncodingType : string;
  l1_IsTruncated : bool;
  l1_Contents : list contents;
  l1_CommonPrefixes : list string;  (* commonPrefix holds one string *)
}.

Record copyObjectResult := mkCopyObject { cr_ETag : string; cr_LastModified : string }.

Record initiateMultipartUploadResult := mkInitiate {
  im_Bucket : string;
  im_Key : string;
  im_UploadID : string;
}.

Record completedPart := mkCompletedPart { cp_PartNumber : Z; cp_ETag : string }.
(** [type completeMultipartUpload struct]: the parts listed by the client. *)
Abbreviation completeRequest := (list completedPart).

Record completeMultipartUploadResult := mkComplete {
  cm_Location : string;
  cm_Bucket : string;
  cm_Key : string;
  cm_ETag : string;
}.

(** The keys of [Objects]. *)
Record deleteRequest := mkDeleteRequest { dr_Quiet : bool; dr_Objects : list string }.

Record deleteError := mkDeleteError { de_Key : string; de_Code : string; de_Message : list frag }.
(** The keys of [Deleted]. *)
Record deleteResult := mkDeleteResult { dl_Deleted : list string; dl_Errors : list deleteError }.

Record errorResponse := mkErrorResponse {
  er_Code : string;
  er_Message : list frag;
  er_Resource : string;
}.

(** A document passed to [writeXML]. *)
Inductive xml :=
  | XListBuckets (r : listAllMyBucketsResult)
  | XListV2 (r : listBucketResultV2)
  | XListV1 (r : listBucketResultV1)
  | XLocation                      (* locationConstraint{} *)
  | XCopyObject (r : copyObjectResult)
  | XInitiate (r : initiateMultipartUploadResult)
  | XComplete (r : completeMultipartUploadResult)
  | XDelete (r : deleteResult)
  | XError (r : errorResponse).

Definition writeXML (status : Z) (v : xml) : response xml :=
  Reply status [("Content-Type", "application/xml")] (Some v).

Definition writeS3Error (status : Z) (code : string) (message : list frag) (resource : string) : response xml :=
  writeXML status (XError (mkErrorResponse code message resource)).

(** [w.WriteHeader(status)] with nothing else. *)
Definition writeHeader (status : Z) : response xml := Reply status [] None.

Definition writeStoreError (err : error) (resource : string) : response xml :=
  if errors_Is err ErrBucketNotFound then
    writeS3Error 404 "NoSuchBucket" [Lit "The specified bucket does not exist"] resource
  else if errors_Is err ErrObjectNotFound then
    writeS3Error 404 "NoSuchKey" [Lit "The specified key does not exist."] resource
  else if errors_Is err ErrBucketExists then
    writeS3Error 409 "BucketAlreadyOwnedByYou"
      [Lit "Your previous request to create the named bucket succeeded and you already own it."] resource
  else if errors_Is err ErrBucketNotEmpty then
    writeS3Error 409 "BucketNotEmpty" [Lit "The bucket you tried to delete is not empty"] resource
  else if errors_Is err ErrPreconditionFailed then
    writeS3Error 412 "PreconditionFailed" [Lit "At least one of the pre-conditions you specified did not hold"] resource
  else if errors_Is err ErrInvalidName then
    writeS3Error 400 "InvalidBucketName" (Error err) resource
  else writeS3Error 500 "InternalError" (Error err) resource.

(** What the XML decoder makes of a request body is left open: the handlers are
    modelled, and their properties proved, for any decoder. *)
Class XmlDecoder := {
  Decode_deleteRequest : reader → error + deleteRequest;
  Decode_complete : reader → error + completeRequest;
}.
