(* ===== verification/S3.v ===== *)
(** [pkg/s3]: the handlers of the S3 front end and its routing, over the store;
    the state of the server is the store's world and the multipart uploads in
    progress. *)

From S2P Require Import Prelude Errors GoMonad GoStd GoNet Types Names Hash Database World Bucket Store BlobWriter Listing AwsChunked S3Types.
From stdpp Require Import options.

(** ** State *)
Record stagedPart := mkStagedPart {
  sp_path : path;
  sp_size : Z;
  sp_md5 : bytes;
}.

Record multipartUpload := mkMultipartUpload {
  up_bucket : string;
  up_key : string;
  up_contentType : string;
  up_metadata : gmap string string;
  up_parts : gmap Z stagedPart;
  up_done : bool;
}.

(** [type Server struct]: the world stands for the store; [up_heap] holds the
    uploads that [uploads] and running requests point to. *)
Record Server := mkServer {
  store : world;
  uploads : gmap string nat;
  up_heap : gmap nat multipartUpload;
  up_next : nat;
}.

Definition set_store (w : world) (s : Server) : Server := mkServer w (uploads s) (up_heap s) (up_next s).
Definition set_uploads (f : gmap string nat → gmap string nat) (s : Server) : Server :=
  mkServer (store s) (f (uploads s)) (up_heap s) (up_next s).
Definition set_heap (f : gmap nat multipartUpload → gmap nat multipartUpload) (s : Server) : Server :=
  mkServer (store s) (uploads s) (f (up_heap s)) (up_next s).

Definition NewServer (w : world) : Server := mkServer w ∅ ∅ 0.

Definition call {A} (m : M world A) : M Server A := zoom store set_store m.
Abbreviation handler := (M Server (response xml)).

(** [&multipartUpload{...}], registered under its id. *)
Definition register (uploadID : string) (up : multipartUpload) : M Server unit :=
  modify (λ s, mkServer (store s) (<[uploadID := up_next s]> (uploads s)) (<[up_next s := up]> (up_heap s)) (S (up_next s))).

Definition load_upload (p : nat) : M Server multipartUpload := λ s,
  match up_heap s !! p with
  | Some up => (Ret up, s)
  | None => (Panic [Lit "invalid memory address or nil pointer dereference"], s)
  end.

(** ** objects.go: helpers *)
Definition dquote : string := String "034" "".

Definition etag (md5 : bytes) : string := dquote +:+ hex_EncodeToString md5 +:+ dquote.
Definition etagFor (info : ObjectInfo) : string := etag (oi_MD5 info).

(** The headers [x-amz-meta-*], with the prefix cut off the names.  (The keys of
    a request's header are in canonical form, so no two of them are equal in lower
    case and the order of the loop does not matter.) *)
Definition metadataFromHeaders (h : Header) : gmap string string :=
  foldl (λ md e,
    let lower := strings_ToLower e.1 in
    if strings_HasPrefix lower "x-amz-meta-" then
      match e.2 with
      | v :: _ => <[strings_TrimPrefix lower "x-amz-meta-" := v]> md
      | [] => md
      end
    else md) ∅ (map_to_list h).

Definition parseCopySource (src : string) : error + (string * string) :=
  let src := strings_TrimPrefix src "/" in
  match url_PathUnescape src with
  | None => inl (Other [Lit "invalid x-amz-copy-source encoding: "; Quote src])
  | Some unescaped =>
    let '(bucket, key, ok) := strings_Cut unescaped "/" in
    if negb ok || String.eqb bucket "" || String.eqb key ""
    then inl (Other [Lit "invalid x-amz-copy-source: "; Quote src])
    else inr (bucket, key)
  end.

Definition bucket_resource (bucket : string) : string := "/" +:+ bucket.
Definition resource (bucket key : string) : string := "/" +:+ bucket +:+ "/" +:+ key.

(** [io.Copy] from an open file: a read may fail after some bytes. *)
Definition file_reader (i : nat) : M world reader := λ w,
  match faults w with
  | [] => (Ret ([file_content i w], None), w)
  | v :: vs =>
    let w' := set_faults vs w in
    match v with
    | Proceed => (Ret ([file_content i w], None), w')
    | Fail n _ => (Ret ([take n (file_content i w)], Some (SysErr EIO)), w')
    | Die _ _ => (Crash, w')
    end
  end.

(** ** buckets.go *)

Definition statusForStoreError (err : error) : Z :=
  match err with
  | ErrBucketNotFound | ErrObjectNotFound => 404
  | ErrPreconditionFailed => 412
  | _ => 500
  end.

Definition listBuckets : handler :=
  let* r := try (call ListBuckets) in
  match r with
  | inl err => ret (writeStoreError err "/")
  | inr infos =>
    ret (writeXML 200 (XListBuckets (mkListAllMyBuckets defaultOwner
           ((λ info, mkBucketEntry (bi_Name info) (iso8601 (bi_Created info))) <$> infos))))
  end.

Definition createBucket (bucket : string) : handler :=
  let* r := try (call (CreateBucket bucket)) in
  match r with
  | inl err => ret (writeStoreError err (bucket_resource bucket))
  | inr _ => ret (Reply 200 [("Location", bucket_resource bucket)] None)
  end.

Definition headBucket (bucket : string) : handler :=
  let* r := try (call (GetBucket bucket)) in
  match r with
  | inl err => ret (writeHeader (statusForStoreError err))
  | inr _ => ret (writeHeader 200)
  end.

Definition deleteBucket (bucket : string) : handler :=
  let* r := try (call (DeleteBucket bucket)) in
  match r with
  | inl err => ret (writeStoreError err (bucket_resource bucket))
  | inr _ => ret (writeHeader 204)
  end.

Definition getBucketLocation (bucket : string) : handler :=
  let* r := try (call (GetBucket bucket)) in
  match r with
  | inl err => ret (writeStoreError err (bucket_resource bucket))
  | inr _ => ret (writeXML 200 XLocation)
  end.

(** ** objects.go *)

Definition putObject (r : request) (bucket key : string) : handler :=
  let conds :=
    if String.eqb (header_Get (rHeader r) "If-None-Match") "*"
    then mkConditions (Some 0%Z) None None None else noConditions in
  let opts := mkPutOptions (header_Get (rHeader r) "Content-Type") (metadataFromHeaders (rHeader r)) conds in
  let* res := try (call (PutObject bucket key (requestBody r) opts)) in
  match res with
  | inl err => ret (writeStoreError err (resource bucket key))
  | inr info => ret (Reply 200 [("Etag", etagFor info)] None)
  end.

(** The headers of a content response; [h.Set] puts the names in canonical form,
    a later value of the same name replacing an earlier one. *)
Definition content_headers (info : ObjectInfo) : list (string * string) :=
  let contentType := if String.eqb (oi_ContentType info) "" then "application/octet-stream" else oi_ContentType info in
  [("Content-Type", contentType); ("Etag", etagFor info)] ++
  ((λ kv, (CanonicalHeaderKey ("x-amz-meta-" +:+ kv.1), kv.2)) <$> map_to_list (oi_Metadata info)).

Definition getObject (r : request) (bucket key : string) : handler :=
  let* res := try (call (OpenObject bucket key)) in
  match res with
  | inl err =>
    if String.eqb (Method r) "HEAD" then ret (writeHeader (statusForStoreError err))
    else ret (writeStoreError err (resource bucket key))
  | inr (info, f) =>
    defer (call file_Close) (
      let* content := gets (λ s, file_content f (store s)) in
      ret (ServeContent (content_headers info) (oi_Updated info) content))
  end.

Definition deleteObject (bucket key : string) : handler :=
  let* res := try (call (DeleteObject bucket key noConditions)) in
  match res with
  | inl err =>
    if bool_decide (err = ErrObjectNotFound) then ret (writeHeader 204)
    else ret (writeStoreError err (resource bucket key))
  | inr _ => ret (writeHeader 204)
  end.

Fixpoint delete_each (bucket : string) (quiet : bool) (keys : list string) (resp : deleteResult) : M Server deleteResult :=
  match keys with
  | [] => ret resp
  | key :: keys =>
    let* res := try (call (DeleteObject bucket key noConditions)) in
    match res with
    | inl err =>
      if bool_decide (err = ErrObjectNotFound) then
        delete_each bucket quiet keys
          (if quiet then resp else mkDeleteResult (dl_Deleted resp ++ [key]) (dl_Errors resp))
      else
        delete_each bucket quiet keys
          (mkDeleteResult (dl_Deleted resp) (dl_Errors resp ++ [mkDeleteError key "InternalError" (Error err)]))
    | inr _ =>
      delete_each bucket quiet keys
        (if quiet then resp else mkDeleteResult (dl_Deleted resp ++ [key]) (dl_Errors resp))
    end
  end.

Definition deleteObjects `{XmlDecoder} (r : request) (bucket : string) : handler :=
  match Decode_deleteRequest (Body r) with
  | inl err => ret (writeS3Error 400 "MalformedXML" (Error err) (bucket_resource bucket))
  | inr req =>
    let* resp := delete_each bucket (dr_Quiet req) (dr_Objects req) (mkDeleteResult [] []) in
    ret (writeXML 200 (XDelete resp))
  end.

Definition copyObject (r : request) (bucket key : string) : handler :=
  match parseCopySource (header_Get (rHeader r) "x-amz-copy-source") with
  | inl err => ret (writeS3Error 400 "InvalidArgument" (Error err) (resource bucket key))
  | inr (srcBucket, srcKey) =>
    let* res := try (call (OpenObject srcBucket srcKey)) in
    match res with
    | inl err => ret (writeStoreError err (resource srcBucket srcKey))
    | inr (srcInfo, f) =>
      defer (call file_Close) (
        let opts :=
          if strings_EqualFold (header_Get (rHeader r) "x-amz-metadata-directive") "REPLACE"
          then mkPutOptions (header_Get (rHeader r) "Content-Type") (metadataFromHeaders (rHeader r)) noConditions
          else mkPutOptions (oi_ContentType srcInfo) (oi_Metadata srcInfo) noConditions in
        let* body := call (file_reader f) in
        let* res := try (call (PutObject bucket key body opts)) in
        match res with
        | inl err => ret (writeStoreError err (resource bucket key))
        | inr info => ret (writeXML 200 (XCopyObject (mkCopyObject (etagFor info) (iso8601 (oi_Updated info)))))
        end)
    end
  end.

(** *** Listing *)

(** The store's token for a V1 marker or a V2 cursor. *)
Definition v1_token (delimiter marker : string) : string :=
  if String.eqb marker "" then ""
  else if negb (String.eqb delimiter "") && strings_HasSuffix marker delimiter then prefixSuccessor marker
  else marker +:+ String "000" "".
Definition v2_token (contToken startAfter : string) : string :=
  if negb (String.eqb contToken "") then contToken
  else if negb (String.eqb startAfter "") then startAfter +:+ String "000" ""
  else "".

(** The last name of a page: V1's [NextMarker]. *)
Definition next_marker (result : ListResult) : string :=
  let last := match last (Objects result) with Some o => oi_Name o | None => "" end in
  match list.last (Prefixes result) with
  | Some p => if decide (last <ₛ p) then p else last
  | None => last
  end.

Definition listObjects (r : request) (bucket : string) : handler :=
  let q := Query r in
  let isV2 := String.eqb (values_Get q "list-type") "2" in
  let encodingType := values_Get q "encoding-type" in
  let prefix := values_Get q "prefix" in
  let delimiter := values_Get q "delimiter" in
  let v := values_Get q "max-keys" in
  let '(n, bad) := strconv_Atoi v in
  if negb (String.eqb v "") && bad then
    ret (writeS3Error 400 "InvalidArgument" [Lit "invalid max-keys"] (bucket_resource bucket))
  else
    let maxKeys := if String.eqb v "" then 1000%Z else n in
    let contToken := if isV2 then values_Get q "continuation-token" else "" in
    let startAfter := if isV2 then values_Get q "start-after" else "" in
    let marker := if isV2 then "" else values_Get q "marker" in
    let token := if isV2 then v2_token contToken startAfter else v1_token delimiter marker in
    let req := mkListRequest prefix delimiter token maxKeys in
    let* res := try (call (ListObjects bucket req)) in
    match res with
    | inl err => ret (writeStoreError err (bucket_resource bucket))
    | inr result =>
      let encode v := if String.eqb encodingType "url" then url_QueryEscape v else v in
      let items := (λ o, mkContents (encode (oi_Name o)) (iso8601 (oi_Updated o)) (etagFor o) (oi_Size o) "STANDARD")
                     <$> Objects result in
      let prefixes := encode <$> Prefixes result in
      let truncated := negb (String.eqb (NextPageToken result) "") in
      ret (writeXML 200 (
        if isV2 then
          XListV2 (mkListV2 bucket (encode prefix) (encode delimiter) maxKeys encodingType
                     (Z.of_nat (length items + length prefixes)) truncated contToken (NextPageToken result)
                     (encode startAfter) items prefixes)
        else
          XListV1 (mkListV1 bucket (encode prefix) (encode delimiter) (encode marker)
                     (if truncated then encode (next_marker result) else "") maxKeys encodingType truncated
                     items prefixes)))
    end.
