(* ===== verification/Paths.v ===== *)
(** [splitPath] of [pkg/gcs/server.go], of which [pkg/s3/server.go] has a copy:
    the segments of a request path. *)

From S2P Require Import Prelude GoStd GoNet.
From stdpp Require Import options.

Fixpoint unescape_all (parts : list string) : option (list string) :=
  match parts with
  | [] => Some []
  | p :: parts =>
    match url_PathUnescape p with
    | None => None
    | Some seg => cons seg <$> unescape_all parts
    end
  end.

Definition splitPath (escapedPath : string) : option (list string) :=
  let trimmed := strings_Trim escapedPath "/" in
  if String.eqb trimmed "" then Some []
  else unescape_all (strings_Split1 "/" trimmed).
