(* ===== verification/S3Multipart.v ===== *)
(** [pkg/s3/multipart.go], multipart uploads; and the routing of
    [pkg/s3/server.go] on top of all the S3 handlers. *)

From S2P Require Import Prelude Errors GoMonad GoStd GoNet Types Names Hash Database World Bucket Store BlobWriter Listing AwsChunked S3Types S3.
From S2P Require Paths.
From stdpp Require Import options.

(** ** multipart.go *)

(** [up.removePartsLocked()]. *)
Definition remove_files (ps : list path) : M world unit :=
  foldr (λ p m, do* ignore (os_Remove p) in m) (ret tt) ps.
Definition removePartsLocked (p : nat) : M Server unit :=
  let* up := load_upload p in
  do* call (remove_files ((λ e, sp_path e.2) <$> map_to_list (up_parts up))) in
  modify (set_heap (alter (λ up, mkMultipartUpload (up_bucket up) (up_key up) (up_contentType up)
                                   (up_metadata up) ∅ (up_done up)) p)).

Definition set_up_done (up : multipartUpload) : multipartUpload :=
  mkMultipartUpload (up_bucket up) (up_key up) (up_contentType up) (up_metadata up) (up_parts up) true.
Definition add_part (partNumber : Z) (part : stagedPart) (up : multipartUpload) : multipartUpload :=
  mkMultipartUpload (up_bucket up) (up_key up) (up_contentType up) (up_metadata up)
    (<[partNumber := part]> (up_parts up)) (up_done up).

Definition initiateMultipartUpload (r : request) (bucket key : string) : handler :=
  let* res := try (call (GetBucket bucket)) in
  match res with
  | inl err => ret (writeStoreError err (bucket_resource bucket))
  | inr _ =>
    let uploadID := hex_EncodeToString (random r) in
    do* register uploadID (mkMultipartUpload bucket key (header_Get (rHeader r) "Content-Type")
                             (metadataFromHeaders (rHeader r)) ∅ false) in
    ret (writeXML 200 (XInitiate (mkInitiate bucket key uploadID)))
  end.

Definition no_such_upload (message : string) (bucket key : string) : response xml :=
  writeS3Error 404 "NoSuchUpload" [Lit message] (resource bucket key).

(** [s.lookupUpload(w, r, bucket, key)]: the upload, or the error response. *)
Definition lookupUpload (r : request) (bucket key : string) : M Server (response xml + nat) :=
  let uploadID := values_Get (Query r) "uploadId" in
  let* s := get in
  let absent := no_such_upload "The specified upload does not exist." bucket key in
  match uploads s !! uploadID with
  | None => ret (inl absent)
  | Some p =>
    let* up := load_upload p in
    if negb (String.eqb (up_bucket up) bucket) || negb (String.eqb (up_key up) key) then ret (inl absent)
    else ret (inr p)
  end.

(** [io.Copy(io.MultiWriter(tmp, hasher), body)]: the number of bytes written,
    the bytes hashed and the error. *)
Fixpoint copy_hashing (ino : nat) (pieces : list bytes) (end_ : option error) (written : Z) (hashed : bytes)
    : M world (Z * bytes * option error) :=
  match pieces with
  | [] => ret (written, hashed, end_)
  | [] :: pieces => copy_hashing ino pieces end_ written hashed
  | p :: pieces =>
    let* ' (n, err) := file_Write ino p in
    match err with
    | Some e => ret (int64 (written + Z.of_nat n), hashed, Some e)
    | None =>
      if negb (n =? length p) then ret (int64 (written + Z.of_nat n), hashed, Some (Other [Lit "short write"]))
      else copy_hashing ino pieces end_ (int64 (written + Z.of_nat n)) (hashed ++ p)
    end
  end.

(** The part staged as a temporary file, or the error and the file to be
    removed. *)
Definition stage_part (tmp : path) (ino : nat) (body : reader) : M world (error + stagedPart) :=
  let* ' (size, hashed, err) := copy_hashing ino body.1 body.2 0 [] in
  let* closed := try file_Close in
  let err := match err, closed with
             | None, inl cerr => Some cerr
             | _, _ => err
             end in
  match err with
  | Some e =>
    do* ignore (os_Remove tmp) in
    ret (inl e)
  | None => ret (inr (mkStagedPart tmp size (md5_sum hashed)))
  end.

(** The end of [uploadPart], under [up.mu]: the staged part joins the upload. *)
Definition attach_part (p : nat) (partNumber : Z) (part : stagedPart) (bucket key : string) : handler :=
  let* up := load_upload p in
  if up_done up then
    do* ignore (call (os_Remove (sp_path part))) in
    ret (no_such_upload "upload already completed" bucket key)
  else
    do* match up_parts up !! partNumber with
        | Some prev => ignore (call (os_Remove (sp_path prev)))
        | None => ret tt
        end in
    do* modify (set_heap (alter (add_part partNumber part) p)) in
    ret (Reply 200 [("Etag", etag (sp_md5 part))] None).

Definition uploadPart (r : request) (bucket key : string) : handler :=
  let* up := lookupUpload r bucket key in
  match up with
  | inl resp => ret resp
  | inr p =>
    let '(partNumber, bad) := strconv_Atoi (values_Get (Query r) "partNumber") in
    if bad || (partNumber <? 1)%Z || (10000 <? partNumber)%Z then
      ret (writeS3Error 400 "InvalidArgument" [Lit "invalid partNumber"] (resource bucket key))
    else
      let* res := try (call (TempFile bucket)) in
      match res with
      | inl err => ret (writeStoreError err (resource bucket key))
      | inr (tmp, ino) =>
        let* res := call (stage_part tmp ino (requestBody r)) in
        match res with
        | inl err => ret (writeS3Error 500 "InternalError" (Error err) (resource bucket key))
        | inr part => attach_part p partNumber part bucket key
        end
      end
  end.

(** [sort.SliceIsSorted] by part number: no element is smaller than the one
    before it. *)
Fixpoint parts_sorted (parts : completeRequest) : bool :=
  match parts with
  | p :: ((q :: _) as rest) => negb (cp_PartNumber q <? cp_PartNumber p)%Z && parts_sorted rest
  | _ => true
  end.

(** Every part named in the request must have been uploaded, with the ETag named
    if one is. *)
Fixpoint check_parts (parts : completeRequest) (staged : gmap Z stagedPart) : option (list frag) :=
  match parts with
  | [] => None
  | reqPart :: parts =>
    match staged !! cp_PartNumber reqPart with
    | None => Some [Lit "part "; Dec (cp_PartNumber reqPart); Lit " was not uploaded"]
    | Some part =>
      let want := strings_Trim (cp_ETag reqPart) dquote in
      if negb (String.eqb want "") && negb (String.eqb want (hex_EncodeToString (sp_md5 part)))
      then Some [Lit "part "; Dec (cp_PartNumber reqPart); Lit " etag mismatch"]
      else check_parts parts staged
    end
  end.

(** The parts are appended to the writer; [Some e] is the first error. *)
Fixpoint append_parts (wp : nat) (parts : completeRequest) (staged : gmap Z stagedPart) : M world (option error) :=
  match parts with
  | [] => ret None
  | reqPart :: parts =>
    match staged !! cp_PartNumber reqPart with
    | None => panic [Lit "invalid memory address or nil pointer dereference"]
    | Some part =>
      let* f := try (os_Open (sp_path part)) in
      match f with
      | inl e => ret (Some e)
      | inr i =>
        let* body := file_reader i in
        let* ' (_, err) := io_Copy wp body.1 body.2 0 in
        do* ignore file_Close in
        match err with
        | Some e => ret (Some e)
        | None => append_parts wp parts staged
        end
      end
    end
  end.

Definition completeMultipartUpload `{XmlDecoder} (r : request) (bucket key : string) : handler :=
  let* up := lookupUpload r bucket key in
  match up with
  | inl resp => ret resp
  | inr p =>
    match Decode_complete (Body r) with
    | inl err => ret (writeS3Error 400 "MalformedXML" (Error err) (resource bucket key))
    | inr parts =>
      if match parts with [] => true | _ => false end then
        ret (writeS3Error 400 "InvalidRequest" [Lit "no parts specified"] (resource bucket key))
      else if negb (parts_sorted parts) then
        ret (writeS3Error 400 "InvalidPartOrder" [Lit "The list of parts was not in ascending order."] (resource bucket key))
      else
        let* up := load_upload p in
        if up_done up then ret (no_such_upload "upload already completed" bucket key)
        else
          match check_parts parts (up_parts up) with
          | Some message => ret (writeS3Error 400 "InvalidPart" message (resource bucket key))
          | None =>
            let* res := try (call (NewBlobWriter bucket)) in
            match res with
            | inl err => ret (writeStoreError err (resource bucket key))
            | inr wp =>
              let* failed := call (append_parts wp parts (up_parts up)) in
              match failed with
              | Some err =>
                do* call (Abort_ wp) in
                ret (writeS3Error 500 "InternalError" (Error err) (resource bucket key))
              | None =>
                let* res := try (call (Commit wp key (mkPutOptions (up_contentType up) (up_metadata up) noConditions))) in
                match res with
                | inl err => ret (writeStoreError err (resource bucket key))
                | inr info =>
                  do* modify (set_heap (alter set_up_done p)) in
                  do* removePartsLocked p in
                  do* modify (set_uploads (delete (values_Get (Query r) "uploadId"))) in
                  ret (writeXML 200 (XComplete (mkComplete (resource bucket key) bucket key (etagFor info))))
                end
              end
            end
          end
    end
  end.

Definition abortMultipartUpload (r : request) (bucket key : string) : handler :=
  let* up := lookupUpload r bucket key in
  match up with
  | inl resp => ret resp
  | inr p =>
    do* modify (set_heap (alter set_up_done p)) in
    do* removePartsLocked p in
    do* modify (set_uploads (delete (values_Get (Query r) "uploadId"))) in
    ret (writeHeader 204)
  end.

(** ** server.go *)

(** [splitPath] is a copy of the one of [pkg/gcs]. *)
Definition splitPath : string → option (list string) := Paths.splitPath.

Definition method_not_allowed (resource : string) : response xml :=
  writeS3Error 405 "MethodNotAllowed" [Lit "method not allowed"] resource.

Definition handleBucket `{XmlDecoder} (r : request) (bucket : string) : handler :=
  let q := Query r in
  let method_is m := String.eqb (Method r) m in
  if method_is "POST" && values_Has q "delete" then deleteObjects r bucket
  else if method_is "GET" && values_Has q "location" then getBucketLocation bucket
  else if method_is "GET" then listObjects r bucket
  else if method_is "PUT" then createBucket bucket
  else if method_is "HEAD" then headBucket bucket
  else if method_is "DELETE" then deleteBucket bucket
  else ret (method_not_allowed (bucket_resource bucket)).

Definition handleObject `{XmlDecoder} (r : request) (bucket key : string) : handler :=
  let q := Query r in
  let method_is m := String.eqb (Method r) m in
  let given k := negb (String.eqb (values_Get q k) "") in
  if method_is "PUT" && given "uploadId" && given "partNumber" then uploadPart r bucket key
  else if method_is "POST" && values_Has q "uploads" then initiateMultipartUpload r bucket key
  else if method_is "POST" && given "uploadId" then completeMultipartUpload r bucket key
  else if method_is "DELETE" && given "uploadId" then abortMultipartUpload r bucket key
  else if method_is "PUT" && negb (String.eqb (header_Get (rHeader r) "x-amz-copy-source") "") then copyObject r bucket key
  else if method_is "PUT" then putObject r bucket key
  else if method_is "GET" || method_is "HEAD" then getObject r bucket key
  else if method_is "DELETE" then deleteObject bucket key
  else ret (method_not_allowed (resource bucket key)).

Definition ServeHTTP `{XmlDecoder} (r : request) : handler :=
  match splitPath (EscapedPath r) with
  | None => ret (writeS3Error 400 "InvalidURI" [Lit "invalid path encoding"] (URLPath r))
  | Some [] =>
    if String.eqb (Method r) "GET" then listBuckets else ret (method_not_allowed "/")
  | Some [bucket] => handleBucket r bucket
  | Some (bucket :: segs) => handleObject r bucket (strings_Join segs "/")
  end.
