(* ===== verification/PartOps.v ===== *)
(** Files that stage the parts of multipart uploads, in an environment that
    does not fail: how they are written, removed and read, and that nothing
    else changes. *)

From S2P Require Import Prelude Errors GoMonad GoStd GoNet Types Names Hash Json JsonProofs Database World Bucket Store BlobWriter StoreInv Triple StoreSafe StoreOps ObjectOps WriterOps.
From S2P Require Import AwsChunked S3Types S3 S3Multipart.
From stdpp Require Import options.

(** Everything is as it was, except perhaps the part file [p]. *)
Definition kept_but (p : path) (w w' : world) : Prop :=
  same_tables w w' ∧ (∀ q, tree w !! q = Some NDir → tree w' !! q = Some NDir) ∧
  (∀ m l j d, part_path m l ≠ p → part_at w (part_path m l) j d → part_at w' (part_path m l) j d).

Lemma kept_but_refl p w : kept_but p w w.
Proof. done. Qed.
Lemma kept_but_trans p w1 w2 w3 : kept_but p w1 w2 → kept_but p w2 w3 → kept_but p w1 w3.
Proof.
  intros (H1 & H2 & H3) (H4 & H5 & H6). split; [by eapply same_tables_trans|]. split; auto.
Qed.
Lemma kept_kept_but p w w' : kept w w' → kept_but p w w'.
Proof. intros (? & _ & ? & ?). split_and!; auto. Qed.

Lemma part_path_inj n m k l : part_path n k = part_path m l → n = m ∧ k = l.
Proof.
  intros H. assert (n = m) as -> by (unfold part_path, temp_path in H; by simplify_eq).
  split; [done|]. by apply (inj (temp_path [m; "tmp"] "part-")) in H.
Qed.

Lemma part_at_inj w p q i c d : world_ok w → part_at w p i c → part_at w q i d → p = q.
Proof. intros Hok [Hp _] [Hq _]. by eapply (ok_file_inj _ (wok_disk _ Hok)). Qed.

(** ** Writing *)

(** Bytes are appended to a part file. *)
Lemma world_ok_part_write w n k i c q :
  world_ok w → part_at w (part_path n k) i c → world_ok (set_files (alter (λ c, c ++ q) i) w).
Proof.
  intros Hok [Hp Hi]. pose proof Hok as [Hd Hpr].
  assert (∀ r, tree w !! r = Some (NFile i) → r = part_path n k) as Honly.
  { intros r Hr. exact (ok_file_inj _ Hd _ _ _ Hr Hp). }
  assert (∀ j, is_Some (files w !! j) → is_Some (alter (λ c, c ++ q) i (files w) !! j)) as Hsome.
  { intros j [d Hj]. destruct (decide (j = i)) as [->|]; [rewrite lookup_alter_eq|rewrite lookup_alter_ne by done];
      rewrite Hj; by eexists. }
  split; [destruct Hd|destruct Hpr]; split; cbn; try done.
  - intros r j Hr. destruct (ok_file _ _ Hr). auto.
  - intros m hh s j d Hr Hj. rewrite lookup_alter_ne in Hj; [by eapply ok_hash|].
    intros <-. by pose proof (Honly _ Hr).
  - intros m d sha Hm Hsha. destruct (ok_stored m d sha Hm Hsha) as [e He].
    unfold blob_content in *; cbn. destruct (tree w !! blob_path m sha) as [[|j|]|]; try done.
    apply Hsome. by eexists.
  - intros r bw Hr. destruct (ok_writers _ _ Hr) as (? & ? & ? & ? & ? & ? & ? & ? & ? & Hno).
    repeat split; cbn; try done. rewrite lookup_alter_ne; [done|]. intros E. apply (Hno n k). by rewrite <- E.
Qed.

Lemma part_write w n k i c q :
  world_ok w → part_at w (part_path n k) i c → let w' := set_files (alter (λ c, c ++ q) i) w in
  world_ok w' ∧ kept_but (part_path n k) w w' ∧ part_at w' (part_path n k) i (c ++ q).
Proof.
  intros Hok Hp w'. split; [by eapply world_ok_part_write|]. pose proof Hp as [Ht Hi]. split; [split; [done|split; [done|]]|].
  - intros m l j d Hne [Hj Hd]. split; [done|]. cbn. rewrite lookup_alter_ne; [done|]. intros <-. apply Hne.
    by eapply (ok_file_inj _ (wok_disk _ Hok)).
  - split; [done|]. cbn. by rewrite lookup_alter_eq, Hi.
Qed.

(** [io.Copy] into a part file and its hash. *)
Lemma copy_hashing_calm n k i end_ ps : ∀ w c z h,
  world_ok w → faults w = [] → part_at w (part_path n k) i c →
  ∃ size w', copy_hashing i ps end_ z h w = (Ret (size, h ++ concat ps, end_), w') ∧
    world_ok w' ∧ faults w' = [] ∧ kept_but (part_path n k) w w' ∧ part_at w' (part_path n k) i (c ++ concat ps) ∧
    (int64 z = z → size = int64 (z + Z.of_nat (length (concat ps)))).
Proof.
  induction ps as [|q ps IH]; intros w c z h Hok Hf Hp; cbn [copy_hashing concat].
  { exists z, w. rewrite !app_nil_r, Z.add_0_r. split_and!; try done. }
  destruct q as [|a q]; [by apply IH|]. set (d := a :: q).
  destruct (part_write w n k i c d Hok Hp) as (Hok' & Hk' & Hp').
  destruct (IH _ (c ++ d) (int64 (z + Z.of_nat (length d))) (h ++ d) Hok' Hf Hp') as (size & w' & E & ? & ? & Hk & Hpw & Hsize).
  exists size, w'. rewrite <- app_assoc in E. rewrite <- app_assoc in Hpw. split_and!; [|done|done|by eapply kept_but_trans|done|].
  - unfold bind, file_Write. rewrite Hf. fold d. rewrite Nat.eqb_refl. exact E.
  - intros _. rewrite Hsize by apply int64_idem. rewrite int64_add_l, length_app. f_equal. lia.
Qed.

(** ** Removing *)

Lemma valid_part w n k nd :
  world_ok w → validBucketName n = true → tree w !! part_path n k = Some nd → ∃ i, nd = NFile i.
Proof.
  intros Hok Hn Hp. pose proof (ok_layout _ (wok_disk _ Hok) _ _ _ Hn Hp) as Hl. inversion Hl; subst; eauto.
Qed.

Lemma part_remove w n k :
  world_ok w → validBucketName n = true → faults w = [] →
  ∃ w', ignore (os_Remove (part_path n k)) w = (Ret tt, w') ∧ world_ok w' ∧ faults w' = [] ∧
    kept_but (part_path n k) w w' ∧ tree w' !! part_path n k = None.
Proof.
  intros Hok Hn Hf. unfold ignore, try, bind, os_Remove, syscall, external. rewrite Hf.
  destruct (tree w !! part_path n k) as [nd|] eqn:E; [|by exists w].
  destruct (valid_part _ _ _ _ Hok Hn E) as [i ->].
  eexists. split; [reflexivity|]. split_and!; [|done| |cbn; apply lookup_delete_eq].
  - apply (world_ok_remove _ i); [done|done|done|]. intros q bw Hbw Etmp.
    destruct (ok_writers _ (wok_proc _ Hok) _ _ Hbw) as (_ & _ & _ & _ & _ & _ & (b & _ & Htmp & _) & _).
    rewrite Htmp in Etmp. by destruct (part_not_upload n k (b_name b) (w_ino bw)).
  - split_and!.
    + intros m. unfold tables, bucket_db; cbn. destruct (validBucketName m); [|done].
      by rewrite lookup_delete_ne.
    + intros q Hq. cbn. rewrite lookup_delete_ne; [done|]. intros <-. congruence.
    + intros m l j d Hne [Hj Hd]. split; [|done]. cbn. by rewrite lookup_delete_ne.
Qed.

(** Every part of an upload is removed. *)
Lemma remove_files_calm ps : ∀ w,
  world_ok w → faults w = [] → Forall (λ p, ∃ n k, p = part_path n k ∧ validBucketName n = true) ps →
  ∃ w', remove_files ps w = (Ret tt, w') ∧ world_ok w' ∧ faults w' = [] ∧ same_tables w w' ∧
    (∀ p, p ∈ ps → tree w' !! p = None) ∧ (∀ p, tree w !! p = None → tree w' !! p = None).
Proof.
  induction ps as [|p ps IH]; intros w Hok Hf Hps.
  { exists w. split_and!; try done. by intros p ?%elem_of_nil. }
  apply Forall_cons in Hps as [(n & k & -> & Hn) Hps].
  destruct (part_remove w n k Hok Hn Hf) as (w1 & E1 & Hok1 & Hf1 & Hk1 & Hp1).
  destruct (IH w1 Hok1 Hf1 Hps) as (w2 & E2 & Hok2 & Hf2 & Hs2 & Hall & Hold).
  exists w2. split_and!; [|done|done|eapply same_tables_trans; [apply Hk1|done]| |].
  - cbn [remove_files foldr]. unfold bind. rewrite E1. exact E2.
  - intros p [->|Hp]%elem_of_cons; [by apply Hold|by apply Hall].
  - intros p Hp. apply Hold.
    revert E1. unfold ignore, try, bind, os_Remove, syscall, external. rewrite Hf.
    destruct (tree w !! part_path n k) as [[]|] eqn:E; cbn; intros [= <-]; cbn; try done;
      (rewrite lookup_delete_ne; [done|intros <-; congruence]).
Qed.
