(* ===== verification/S3Props.v ===== *)
(** The properties of the S3 front end: the decoder of request bodies, objects
    written and read through it, deletes, and the paths that address objects. *)

From S2P Require Import Prelude Errors GoMonad GoStd GoNet Types Names Hash Json JsonProofs Database World Bucket Store BlobWriter StoreInv Triple StoreSafe StoreOps ObjectOps WriterOps Listing ListingSpec Run Refine Samples StoreProps.
From S2P Require Import AwsChunked ChunkedProofs S3Types S3 S3Multipart.
From stdpp Require Import options.

(** ** aws-chunked bodies *)

(** C10: The decoder returns exactly the bytes that were framed: whatever the sizes of
    the chunks, the extension of each of them and of the final one, such as the
    signatures of a signed stream, and the trailer, and however the network cuts
    the stream into reads. *)
Theorem chunked_roundtrip (b : reader) chunks last trailer :
  b.2 = None → concat b.1 = encode chunks last trailer → extension last → Forall framed chunks →
  ∃ ps, decoded b = Some (ps, None) ∧ concat ps = concat chunks.*2.
Proof.
  intros He Hb Hlast Hchunks. apply (decoded_framing false); [done|]. rewrite Hb. by apply framing_encode.
Qed.

(** Two chunks, each with its signature; the stream arrives in pieces of seven
    bytes. *)
Definition signature (s : string) : bytes := bytes_of_string (";chunk-signature=" +:+ s).
Definition signed_chunks : list (bytes * bytes) :=
  [(signature "0055aa", sample_text); (signature "91c3", bytes_of_string "world!")].

Lemma signature_extension s : bool_decide ("010"%char ∉ signature s) = true → extension (signature s).
Proof.
  intros Hs%bool_decide_eq_true. right. exists (bytes_of_string ("chunk-signature=" +:+ s)). split; [done|].
  intros Hin. apply Hs. by right.
Qed.

Lemma chunked_roundtrip_witness :
  ∃ ps, decoded (pieces 100 7 (encode signed_chunks (signature "7be0") (bytes_of_string "x-amz-checksum-crc32c:abc")), None)
    = Some (ps, None) ∧ concat ps = concat [sample_text; bytes_of_string "world!"].
Proof.
  apply (chunked_roundtrip _ signed_chunks (signature "7be0") (bytes_of_string "x-amz-checksum-crc32c:abc"));
    [reflexivity|by_running|apply signature_extension; by_running|].
  apply Forall_cons_2; [|apply Forall_cons_2; [|apply Forall_nil_2]];
    (split; [apply signature_extension; by_running|split; [discriminate|reflexivity]]).
Defined.

(** C34: A stream that ends in the middle of a chunk, without the terminating chunk,
    is accepted as complete: the decoder gives the bytes it has and [io.EOF]. *)
Theorem truncated_chunk_accepted (b : reader) n d :
  b.2 = None → concat b.1 = hex_of n ++ bytes_of_string crlf ++ d →
  length d ≤ n → 0 < n → (Z.of_nat n < 2 ^ 63)%Z →
  ∃ ps, decoded b = Some (ps, None) ∧ concat ps = d.
Proof.
  intros He Hb Hd Hn Hmax. apply (decoded_framing true); [done|]. rewrite Hb.
  replace (hex_of n ++ bytes_of_string crlf ++ d) with ((hex_of n ++ [] ++ ["013"%char]) ++ "010"%char :: d)
    by (cbn [bytes_of_string crlf app]; rewrite <- app_assoc; done).
  assert (extension []) as Hext by by left.
  apply (framing_cut true _ d (Z.of_nat n)); [done|by apply header_line| |lia|lia].
  rewrite <- !app_assoc. cbn [app]. change ["013"%char; "010"%char] with ([] ++ bytes_of_string crlf).
  by rewrite chunk_size_line.
Qed.

Lemma truncated_chunk_accepted_witness :
  ∃ ps, decoded ([bytes_of_string ("64" +:+ crlf +:+ "hello")], None) = Some (ps, None) ∧ concat ps = sample_text.
Proof. apply (truncated_chunk_accepted _ 100 sample_text); [reflexivity|reflexivity|cbn; lia|lia|lia]. Defined.

(** ** Calls on the store *)
Lemma call_eq {A} (m : M world A) s o w' : m (store s) = (o, w') → call m s = (o, set_store w' s).
Proof. intros H. unfold call, zoom. by rewrite H. Qed.

Lemma try_ret {S A} (m : M S A) s a s' : m s = (Ret a, s') → try m s = (Ret (inr a), s').
Proof. intros H. unfold try. by rewrite H. Qed.
Lemma try_err {S A} (m : M S A) s e s' : m s = (Err e, s') → try m s = (Ret (inl e), s').
Proof. intros H. unfold try. by rewrite H. Qed.
Lemma bind_ret {S A B} (m : M S A) (f : A → M S B) s a s' : m s = (Ret a, s') → bind m f s = f a s'.
Proof. intros H. unfold bind. by rewrite H. Qed.

(** The error responses are errors. *)
Lemma writeStoreError_status e res :
  ∃ st, response_status (writeStoreError e res) = Some st ∧ (400 ≤ st)%Z.
Proof. unfold writeStoreError. repeat case_match; eexists; (split; [reflexivity|lia]). Qed.

Lemma calm_Close w : faults w = [] → file_Close w = (Ret tt, w).
Proof. intros Hf. unfold file_Close, syscall, external. by rewrite Hf. Qed.

(** ** Writing and reading through the front end *)
Definition put_metadata (r : request) : gmap string string := metadataFromHeaders (rHeader r).

Definition put_options (r : request) : PutOptions :=
  mkPutOptions (header_Get (rHeader r) "Content-Type") (put_metadata r)
    (if String.eqb (header_Get (rHeader r) "If-None-Match") "*" then mkConditions (Some 0%Z) None None None else noConditions).

(** A PUT answered with 200 is a [PutObject] that succeeded. *)
Lemma putObject_ran s bucket key r ps resp s1 :
  requestBody r = (ps, None) → putObject r bucket key s = (Ret resp, s1) → response_status resp = Some 200%Z →
  ∃ oi w1, PutObject bucket key (ps, None) (put_options r) (store s) = (Ret oi, w1) ∧
    resp = Reply 200 [("Etag", etagFor oi)] None ∧ s1 = set_store w1 s.
Proof.
  intros Hbody Hput Hst. unfold putObject in Hput. rewrite Hbody in Hput. fold (put_metadata r) in Hput.
  set (opts := mkPutOptions _ _ _) in Hput. change opts with (put_options r) in Hput.
  destruct (PutObject bucket key (ps, None) (put_options r) (store s)) as [o w1] eqn:E.
  unfold bind, try in Hput. rewrite (call_eq _ _ _ _ E) in Hput.
  destruct o as [oi|e|x| |]; cbn in Hput; unfold ret in Hput; simplify_eq; [by exists oi, w1|].
  destruct (writeStoreError_status e (resource bucket key)) as (st & Hx & ?). rewrite Hst in Hx. by simplify_eq.
Qed.

Lemma content_headers_spec info :
  ("Etag", etagFor info) ∈ content_headers info ∧
  ("Content-Type", if String.eqb (oi_ContentType info) "" then "application/octet-stream" else oi_ContentType info)
    ∈ content_headers info ∧
  ∀ k v, oi_Metadata info !! k = Some v → (CanonicalHeaderKey ("x-amz-meta-" +:+ k), v) ∈ content_headers info.
Proof.
  unfold content_headers. split_and!; [right; by left|by left|]. intros k v Hk.
  do 2 right. apply list_elem_of_fmap. exists (k, v). split; [done|]. by apply elem_of_map_to_list.
Qed.

(** A GET of an object that can be opened. *)
Lemma getObject_serves s r bucket key info f w2 c :
  OpenObject bucket key (store s) = (Ret (info, f), w2) → files w2 !! f = Some c → faults w2 = [] →
  getObject r bucket key s = (Ret (ServeContent (content_headers info) (oi_Updated info) c), set_store w2 s).
Proof.
  intros Hopen Hc Hf. unfold getObject. erewrite bind_ret by by apply try_ret, call_eq. cbn beta iota.
  unfold defer, bind, gets, ret, file_content. cbn [store set_store]. rewrite Hc. cbn [default from_option].
  unfold ignore, bind, try, call, zoom. cbn [store set_store]. by rewrite (calm_Close w2 Hf).
Qed.

(** C25: What a PUT answered with 200 stored, a GET of the key serves: the same bytes
    (unless SHA-256 collides), under the same ETag, with the content type and the
    metadata of the PUT. *)
Theorem s3_put_then_get s bucket key r r' ps resp s1 :
  reachable (store s) → faults (store s) = [] →
  requestBody r = (ps, None) → utf8_map (put_metadata r) →
  putObject r bucket key s = (Ret resp, s1) → response_status resp = Some 200%Z →
  ∃ tag hs t c s2,
    resp = Reply 200 [("Etag", tag)] None ∧
    getObject r' bucket key s1 = (Ret (ServeContent hs t c), s2) ∧
    (c = concat ps ∨ c ≠ concat ps ∧ sha256_sum c = sha256_sum (concat ps)) ∧
    ("Etag", tag) ∈ hs ∧
    (let ct := header_Get (rHeader r) "Content-Type" in
     ("Content-Type", if String.eqb ct "" then "application/octet-stream" else ct) ∈ hs) ∧
    ∀ k v, put_metadata r !! k = Some v → (CanonicalHeaderKey ("x-amz-meta-" +:+ k), v) ∈ hs.
Proof.
  intros Hr%reachable_ok Hf Hbody Hmd Hput Hst. destruct (putObject_ran s bucket key r ps resp s1 Hbody Hput Hst) as (oi & w1 & E & -> & ->).
  destruct (open_after_put (store s) bucket key ps (put_options r) oi w1) as (Hct & Hm & _ & _ & f & w2 & c & Hopen & Hc & Hf2 & Heq); [done..|].
  destruct (content_headers_spec (as_stored oi)) as (Htag & Htype & Hmeta).
  exists (etagFor oi), (content_headers (as_stored oi)), (oi_Updated (as_stored oi)), c, (set_store w2 (set_store w1 s)).
  split_and!; [done|by apply getObject_serves with f|done..| |].
  - cbn zeta. change (oi_ContentType (as_stored oi)) with (oi_ContentType oi) in Htype.
    rewrite Hct in Htype. exact Htype.
  - intros k v Hk. apply Hmeta. change (oi_Metadata (as_stored oi)) with (oi_Metadata oi). by rewrite Hm.
Qed.

(** A server on the sample store, and requests. *)
Definition s_object : Server := NewServer w_object.
Definition sample_request (method : string) (h : Header) (q : Values) (body : reader) : request :=
  mkRequest method "" "" q h body 5 false "localhost" (replicate 16 "a"%char).
Definition put_request : request :=
  sample_request "PUT" {["Content-Type" := ["text/css"]]} ∅ ([sample_text; sample_text], None).

Lemma s3_put_then_get_witness :
  ∃ resp s1 tag hs t c s2, putObject put_request "photos" "c" s_object = (Ret resp, s1) ∧
    resp = Reply 200 [("Etag", tag)] None ∧
    getObject put_request "photos" "c" s1 = (Ret (ServeContent hs t c), s2) ∧ ("Etag", tag) ∈ hs.
Proof.
  assert (returns (putObject put_request "photos" "c" s_object).1 = true) as Hret by by_running.
  destruct (putObject put_request "photos" "c" s_object) as [[resp|e|x| |] s1] eqn:E; try discriminate Hret.
  assert (match (putObject put_request "photos" "c" s_object).1 with Ret r => response_status r | _ => None end = Some 200%Z)
    as Hst by by_running.
  rewrite E in Hst. cbn in Hst.
  assert (reachable (store s_object)) as Hr by exact reachable_object.
  assert (faults (store s_object) = []) as Hf by by_running.
  assert (requestBody put_request = ([sample_text; sample_text], None)) as Hb by by_running.
  assert (utf8_map (put_metadata put_request)) as Hmd.
  { replace (put_metadata put_request) with (∅ : gmap string string) by by_running. apply map_Forall_empty. }
  destruct (s3_put_then_get s_object "photos" "c" put_request put_request _ resp s1 Hr Hf Hb Hmd E Hst)
    as (tag & hs & t & c & s2 & H1 & H2 & _ & H3 & _).
  exists resp, s1, tag, hs, t, c, s2. split_and!; [reflexivity|exact H1|exact H2|exact H3].
Defined.

(** ** Deleting *)

(** Either way [DeleteObject] can answer, the key is gone. *)
Lemma delete_missing_or_not w bucket key t :
  world_ok w → faults w = [] → tables w bucket = Some t →
  ∃ o w', DeleteObject bucket key noConditions w = (o, w') ∧ (o = Ret tt ∨ o = Err ErrObjectNotFound) ∧
    world_ok w' ∧ faults w' = [] ∧ updates bucket (Some (delete key t)) (tables w) (tables w').
Proof.
  intros Hok Hf Ht. destruct (calm_run _ _ _ _ _ _ (triple_DeleteObject w bucket key noConditions Hok) Hf)
    as [([] & w' & E & Hok' & Hc & Hch & t1 & t' & Ht1 & Ht' & (r & o & _ & _ & _ & ->) & _)|(e & w' & E & Hr & Hok' & Hs & Hf')].
  - rewrite Ht in Ht1. apply (inj Some) in Ht1 as <-. exists (Ret tt), w'. split_and!; [done|by left|done|by apply Hc|].
    split; [done|]. intros m Hm. by destruct (Hch m) as [?|(-> & _)].
  - assert (e = ErrObjectNotFound ∧ t !! key = None) as [-> Hn].
    { destruct Hr as [[_ Hn]|[Hn|[[(-> & t1 & Ht1 & Hn) _]|(_ & [(o & _ & Hn)|[_ Hn]])]]].
      - congruence.
      - by apply not_corrupt in Hn.
      - split; [done|congruence].
      - by rewrite check_noConditions in Hn.
      - by rewrite check_noConditions in Hn. }
    exists (Err ErrObjectNotFound), w'. split_and!; [done|by right|done..|].
    split; [rewrite delete_id by done; by rewrite (Hs bucket)|]. intros m _. apply Hs.
Qed.

(** A DELETE of a key in a bucket that exists is answered with 204 whether the
    object exists or not, and afterwards it does not; nothing else changes. *)
Theorem s3_delete_idempotent s bucket key t :
  reachable (store s) → faults (store s) = [] → tables (store s) bucket = Some t →
  ∃ s', deleteObject bucket key s = (Ret (Reply 204 [] None), s') ∧
    updates bucket (Some (delete key t)) (tables (store s)) (tables (store s')).
Proof.
  intros Hr%reachable_ok Hf Ht. destruct (delete_missing_or_not _ _ key _ Hr Hf Ht) as (o & w' & E & Ho & _ & _ & Hu).
  exists (set_store w' s). split; [|done]. unfold deleteObject. destruct Ho as [->| ->].
  - erewrite bind_ret; [|by apply try_ret, call_eq]. done.
  - erewrite bind_ret; [|by apply try_err, call_eq]. done.
Qed.

(** The tables of a sample bucket. *)
Lemma some_of {A} (o : option A) : is_some o = true → { a | o = Some a }.
Proof. destruct o as [a|]; [by exists a|done]. Defined.

Lemma s3_delete_idempotent_witness :
  ∃ s1 s2, deleteObject "photos" "a/b.txt" s_object = (Ret (Reply 204 [] None), s1) ∧
    deleteObject "photos" "missing" s_object = (Ret (Reply 204 [] None), s2).
Proof.
  assert (reachable (store s_object)) as Hr by exact reachable_object.
  assert (faults (store s_object) = []) as Hf by by_running.
  destruct (is_some_ex (tables (store s_object) "photos")) as [t Et]; [by_running|].
  destruct (s3_delete_idempotent s_object "photos" "a/b.txt" t Hr Hf Et) as (s1 & E1 & _).
  destruct (s3_delete_idempotent s_object "photos" "missing" t Hr Hf Et) as (s2 & E2 & _).
  exists s1, s2. split; [exact E1|exact E2].
Defined.

(** A batch delete in a bucket that exists deletes every key of the request and
    nothing else, and unless asked to be quiet reports every one, in order and as
    often as it was given. *)
Theorem s3_batch_delete keys : ∀ s bucket quiet resp t,
  world_ok (store s) → faults (store s) = [] → tables (store s) bucket = Some t →
  ∃ s', delete_each bucket quiet keys resp s =
      (Ret (mkDeleteResult (dl_Deleted resp ++ if quiet then [] else keys) (dl_Errors resp)), s') ∧
    updates bucket (Some (foldr delete t keys)) (tables (store s)) (tables (store s')).
Proof.
  induction keys as [|key keys IH]; intros s bucket quiet resp t Hok Hf Ht; cbn [delete_each foldr].
  { exists s. split; [|split; [done|]; auto]. destruct resp. cbn. by destruct quiet; rewrite app_nil_r. }
  destruct (delete_missing_or_not _ _ key _ Hok Hf Ht) as (o & w' & E & Ho & Hok' & Hf' & Ht' & Hu).
  set (resp' := if quiet then resp else mkDeleteResult (dl_Deleted resp ++ [key]) (dl_Errors resp)).
  destruct (IH (set_store w' s) bucket quiet resp' (delete key t) Hok' Hf' Ht') as (s' & E' & Ht2 & Hu2).
  exists s'. split.
  - assert (∀ o', o' = inr tt ∨ o' = inl ErrObjectNotFound → try (call (DeleteObject bucket key noConditions)) s = (Ret o', set_store w' s) →
      bind (try (call (DeleteObject bucket key noConditions))) (λ res, match res with
        | inl err => if bool_decide (err = ErrObjectNotFound) then delete_each bucket quiet keys resp'
            else delete_each bucket quiet keys (mkDeleteResult (dl_Deleted resp) (dl_Errors resp ++ [mkDeleteError key "InternalError" (Error err)]))
        | inr _ => delete_each bucket quiet keys resp' end) s = delete_each bucket quiet keys resp' (set_store w' s)) as Hstep.
    { intros o' Ho' Eo. erewrite bind_ret by exact Eo. by destruct Ho' as [->| ->]. }
    transitivity (delete_each bucket quiet keys resp' (set_store w' s)).
    + destruct Ho as [->| ->]; [apply (Hstep (inr tt))|apply (Hstep (inl ErrObjectNotFound))]; auto;
        [by apply try_ret, call_eq|by apply try_err, call_eq].
    + rewrite E'. do 2 f_equal. unfold resp'. destruct quiet; [done|]. cbn. by rewrite <- app_assoc.
  - split.
    + rewrite Ht2. f_equal. clear. induction keys as [|k keys IH]; [done|]. cbn. rewrite IH. by rewrite delete_delete.
    + intros m Hm. rewrite Hu2 by done. by apply Hu.
Qed.

Lemma s3_batch_delete_witness :
  ∃ s', delete_each "photos" false ["a/b.txt"; "missing"; "a/b.txt"] (mkDeleteResult [] []) s_object =
    (Ret (mkDeleteResult ["a/b.txt"; "missing"; "a/b.txt"] []), s').
Proof.
  assert (world_ok (store s_object)) as Hok by exact (reachable_ok _ reachable_object).
  assert (faults (store s_object) = []) as Hf by by_running.
  destruct (is_some_ex (tables (store s_object) "photos")) as [t Et]; [by_running|].
  destruct (s3_batch_delete ["a/b.txt"; "missing"; "a/b.txt"] s_object "photos" false (mkDeleteResult [] []) t Hok Hf Et) as (s' & E & _).
  exists s'. exact E.
Defined.

(** ** Paths *)

(** Trimming the left of a list that grows at its end. *)
Lemma trim_left_snoc cut l a :
  bytes_trim_left cut (l ++ [a]) =
  match bytes_trim_left cut l with
  | [] => if str_mem a cut then [] else [a]
  | l' => l' ++ [a]
  end.
Proof.
  induction l as [|b l IH]; cbn; [done|]. destruct (str_mem b cut); [exact IH|done].
Qed.

(** A trailing slash of the path is dropped, before anything is unescaped: an
    object whose key ends in a slash is addressed as the one without. *)
Theorem trailing_slash_lost p : splitPath (p +:+ "/") = splitPath p.
Proof.
  unfold splitPath, Paths.splitPath.
  assert (strings_Trim (p +:+ "/") "/" = strings_Trim p "/") as ->; [|done].
  unfold strings_Trim, strings_TrimLeft, strings_TrimRight. rewrite !bytes_of_string_of_bytes, bytes_of_string_app.
  change (bytes_of_string "/") with ["/"%char]. rewrite trim_left_snoc.
  destruct (bytes_trim_left "/" (bytes_of_string p)) as [|a l]; [done|].
  rewrite rev_app_distr. reflexivity.
Qed.

(** A client's escaping of a key: every byte but the separators is percent-encoded. *)
Definition escape_byte (a : ascii) : bytes := if Ascii.eqb a "/" then [a] else percent a.
Definition escape (key : string) : string := string_of_bytes (bytes_of_string key ≫= escape_byte).

Lemma upper_hex_unhex d : (0 ≤ d < 16)%Z → unhex (upper_hex d) = Some d ∧ Ascii.eqb (upper_hex d) "/" = false.
Proof.
  intros Hd.
  assert (Forall (λ k, unhex (upper_hex (Z.of_nat k)) = Some (Z.of_nat k) ∧ Ascii.eqb (upper_hex (Z.of_nat k)) "/" = false) (seq 0 16)) as H
    by (repeat constructor).
  rewrite Forall_forall in H. specialize (H (Z.to_nat d)). rewrite Z2Nat.id in H by lia. apply H.
  apply elem_of_seq. lia.
Qed.

Lemma unescape_percent a l : bytes_PathUnescape (percent a ++ l) = cons a <$> bytes_PathUnescape l.
Proof.
  unfold percent. pose proof (byte_val_range a). cbn [app bytes_PathUnescape]. cbn.
  rewrite (proj1 (upper_hex_unhex (byte_val a / 16) ltac:(split; [apply Z.div_pos; lia|apply Z.div_lt_upper_bound; lia]))).
  rewrite (proj1 (upper_hex_unhex (byte_val a mod 16) ltac:(apply Z.mod_pos_bound; lia))).
  replace (16 * (byte_val a / 16) + byte_val a mod 16)%Z with (byte_val a) by (pose proof (Z.div_mod (byte_val a) 16); lia).
  by rewrite byte_of_val.
Qed.

Lemma unescape_escaped l : "/"%char ∉ l → bytes_PathUnescape (l ≫= escape_byte) = Some l.
Proof.
  induction l as [|a l IH]; intros Hl; [done|]. rewrite bind_cons. unfold escape_byte at 1.
  destruct (Ascii.eqb_spec a "/"); [set_solver|]. rewrite unescape_percent, IH by set_solver. done.
Qed.

Lemma split_escaped l :
  strings_Split1 "/" (string_of_bytes (l ≫= escape_byte)) = escape <$> strings_Split1 "/" (string_of_bytes l).
Proof.
  induction l as [|a l IH]; [done|]. rewrite bind_cons. unfold escape_byte at 1.
  destruct (Ascii.eqb_spec a "/") as [->|Ha].
  - cbn [app String.string_of_list_ascii strings_Split1]. rewrite Ascii.eqb_refl, IH. done.
  - unfold percent. pose proof (byte_val_range a). cbn [app String.string_of_list_ascii strings_Split1].
    rewrite (proj2 (upper_hex_unhex (byte_val a / 16) ltac:(split; [apply Z.div_pos; lia|apply Z.div_lt_upper_bound; lia]))).
    rewrite (proj2 (upper_hex_unhex (byte_val a mod 16) ltac:(apply Z.mod_pos_bound; lia))). cbn.
    destruct (Ascii.eqb_spec a "/"); [done|]. rewrite IH.
    destruct (strings_Split1 "/" (string_of_bytes l)) as [|x xs]; cbn.
    + unfold escape. cbn. unfold escape_byte. destruct (Ascii.eqb_spec a "/"); [done|]. done.
    + f_equal. unfold escape. unfold escape_byte at 2.
      destruct (Ascii.eqb_spec a "/"); [done|]. done.
Qed.

Lemma split_no_slash sep s x : x ∈ strings_Split1 sep s → sep ∉ bytes_of_string x.
Proof.
  revert x. induction s as [|a s IH]; intros x; cbn.
  - intros ->%list_elem_of_singleton. cbn. by apply not_elem_of_nil.
  - destruct (Ascii.eqb_spec a sep) as [->|Hne].
    + intros [->|?]%elem_of_cons; [by apply not_elem_of_nil|by apply IH].
    + destruct (strings_Split1 sep s) as [|y ys]; [intros ->%list_elem_of_singleton; set_solver|].
      intros [->|?]%elem_of_cons; [|apply IH; by right].
      cbn. specialize (IH y ltac:(by left)). set_solver.
Qed.

Lemma join_split sep s : strings_Join (strings_Split1 sep s) (String sep "") = s.
Proof.
  induction s as [|a s IH]; [done|]. cbn.
  assert (∃ x xs, strings_Split1 sep s = x :: xs) as (x & xs & E).
  { destruct s as [|b s]; cbn; [by eexists _, _|]. repeat case_match; by eexists _, _. }
  rewrite E in *. destruct (Ascii.eqb_spec a sep) as [->|Hne].
  - transitivity ("" +:+ String sep "" +:+ strings_Join (x :: xs) (String sep "")); [done|]. by rewrite IH.
  - transitivity (String a (strings_Join (x :: xs) (String sep ""))); [by destruct xs|by rewrite IH].
Qed.

Lemma split_app sep s t :
  sep ∉ bytes_of_string s → strings_Split1 sep (s +:+ String sep t) = s :: strings_Split1 sep t.
Proof.
  induction s as [|a s IH]; intros Hs.
  { change ("" +:+ String sep t) with (String sep t). cbn. by rewrite Ascii.eqb_refl. }
  cbn in Hs. destruct (Ascii.eqb_spec a sep); [set_solver|]. rewrite str_app_cons. cbn.
  destruct (Ascii.eqb_spec a sep); [done|]. by rewrite IH by set_solver.
Qed.

Lemma unescape_all_escaped l :
  Forall (λ x, "/"%char ∉ bytes_of_string x) l → Paths.unescape_all (escape <$> l) = Some l.
Proof.
  induction 1 as [|x l Hx _ IH]; [done|]. rewrite fmap_cons. cbn [Paths.unescape_all].
  unfold url_PathUnescape, escape at 1. rewrite bytes_of_string_of_bytes, unescape_escaped by done. cbn.
  rewrite string_of_bytes_of_string. by rewrite IH.
Qed.

(** Escaping leaves nothing to trim but at the slashes of the ends. *)
Lemma escape_first a l : a ≠ "/"%char → ∃ m, (a :: l) ≫= escape_byte = "%"%char :: m.
Proof. intros Ha. rewrite bind_cons. unfold escape_byte at 1. destruct (Ascii.eqb_spec a "/"); [done|]. by eexists. Qed.
Lemma escape_last a l : a ≠ "/"%char → ∃ m d, (l ++ [a]) ≫= escape_byte = m ++ [d] ∧ Ascii.eqb d "/" = false.
Proof.
  intros Ha. rewrite bind_app, bind_cons. unfold escape_byte at 2. destruct (Ascii.eqb_spec a "/"); [done|].
  exists ((l ≫= escape_byte) ++ ["%"%char; upper_hex (byte_val a / 16)]), (upper_hex (byte_val a mod 16)).
  rewrite <- app_assoc. split; [done|]. apply upper_hex_unhex. apply Z.mod_pos_bound. lia.
Qed.

Lemma trim_slash l a d m m' :
  l = a :: m → l = m' ++ [d] → Ascii.eqb a "/" = false → Ascii.eqb d "/" = false →
  strings_Trim ("/" +:+ string_of_bytes l) "/" = string_of_bytes l.
Proof.
  intros Ha Hd Ea Ed. unfold strings_Trim, strings_TrimRight, strings_TrimLeft.
  rewrite bytes_of_string_app, !bytes_of_string_of_bytes.
  assert (bytes_trim_left "/" (bytes_of_string "/" ++ l) = l) as ->.
  { rewrite Ha. cbn. unfold str_mem. cbn. by rewrite Ea. }
  assert (bytes_trim_left "/" (rev l) = rev l) as ->; [|by rewrite rev_involutive].
  rewrite Hd, rev_app_distr. cbn. unfold str_mem. cbn. by rewrite Ed.
Qed.

(** A path that a client makes by escaping a bucket and a key reaches exactly
    that key, whatever bytes are in it, provided it is not empty and does not end
    in a slash. *)
Theorem path_addresses_key bucket key :
  bucket ≠ "" → "/"%char ∉ bytes_of_string bucket → (∃ k a, key = k +:+ String a "" ∧ a ≠ "/"%char) →
  ∃ segs, splitPath ("/" +:+ escape (bucket +:+ "/" +:+ key)) = Some (bucket :: segs) ∧ strings_Join segs "/" = key.
Proof.
  intros Hne Hb (k & z & Hkey & Hz). set (full := bucket +:+ "/" +:+ key).
  exists (strings_Split1 "/" key). split; [|apply join_split].
  assert (strings_Trim ("/" +:+ escape full) "/" = escape full) as Htrim.
  { destruct bucket as [|a bucket']; [done|]. cbn in Hb.
    destruct (escape_first a (bytes_of_string (bucket' +:+ "/" +:+ key))) as [m Hm]; [set_solver|].
    destruct (escape_last z (bytes_of_string (String a bucket' +:+ "/" +:+ k)) Hz) as (m' & d & Hm' & Hd).
    assert (bytes_of_string full = bytes_of_string (String a bucket' +:+ "/" +:+ k) ++ [z]) as Hfull.
    { unfold full. rewrite Hkey, !bytes_of_string_app, <- !app_assoc. done. }
    assert (bytes_of_string (escape full) = m' ++ [d]) as He by (unfold escape; by rewrite bytes_of_string_of_bytes, Hfull).
    assert (bytes_of_string (escape full) = "%"%char :: m) as He'.
    { unfold escape. rewrite bytes_of_string_of_bytes. exact Hm. }
    rewrite <- (string_of_bytes_of_string (escape full)).
    exact (trim_slash _ "%" d m m' He' He eq_refl Hd). }
  unfold splitPath, Paths.splitPath. rewrite Htrim.
  assert (strings_Split1 "/" (escape full) = escape <$> (bucket :: strings_Split1 "/" key)) as Hsplit.
  { unfold escape at 1. rewrite split_escaped, string_of_bytes_of_string. unfold full.
    change ("/" +:+ key) with (String "/" key). by rewrite split_app. }
  destruct (String.eqb_spec (escape full) "") as [E|_].
  - exfalso. rewrite E in Hsplit. cbn in Hsplit. injection Hsplit as E1 E2. symmetry in E2. apply fmap_nil_inv in E2.
    destruct key as [|c key]; cbn in E2; [by destruct k|]. by repeat case_match.
  - rewrite Hsplit. apply unescape_all_escaped. constructor; [done|]. apply Forall_forall. intros x. apply split_no_slash.
Qed.

Lemma path_addresses_key_witness :
  ∃ segs, splitPath ("/" +:+ escape ("photos" +:+ "/" +:+ "a b/100%")) = Some ("photos" :: segs) ∧ strings_Join segs "/" = "a b/100%".
Proof.
  apply (path_addresses_key "photos" "a b/100%"); [discriminate| |].
  - intros H. cbn in H. repeat (apply elem_of_cons in H as [H|H]; [discriminate|]). by apply elem_of_nil in H.
  - exists "a b/100", "%"%char. split; [reflexivity|discriminate].
Defined.
