(* ===== verification/Multipart.v ===== *)
(** Multipart uploads through the S3 front end: the parts that an upload keeps
    between requests, and the object that completing it makes of them. *)

From S2P Require Import Prelude Errors GoMonad GoStd GoNet Types Names Hash Json JsonProofs Database World Bucket Store BlobWriter StoreInv Triple StoreSafe StoreOps ObjectOps WriterOps Listing ListingSpec Run Refine Samples StoreProps.
From S2P Require Import AwsChunked ChunkedProofs S3Types S3 S3Multipart S3Props PartOps.
From stdpp Require Import options.

(** ** The parts of an upload *)

(** The part [sp] of an upload to bucket [n] is on disk with the content [c]. *)
Definition staged (w : world) (n : string) (sp : stagedPart) (c : bytes) : Prop :=
  (∃ k i, sp_path sp = part_path n k ∧ part_at w (sp_path sp) i c) ∧ sp_md5 sp = md5_sum c.

(** Distinct part numbers have distinct files. *)
Definition separate (parts : gmap Z stagedPart) : Prop :=
  ∀ k k' sp sp', parts !! k = Some sp → parts !! k' = Some sp' → sp_path sp = sp_path sp' → k = k'.

(** The upload at [p]: its parts have the contents [cs]. *)
Definition upload_at (s : Server) (p : nat) (n key ct : string) (md : gmap string string) (cs : gmap Z bytes) : Prop :=
  ∃ parts, up_heap s !! p = Some (mkMultipartUpload n key ct md parts false) ∧
    map_Forall2 (λ _, staged (store s) n) parts cs ∧ separate parts.

Record uploading (s : Server) (id n key ct : string) (md : gmap string string) (cs : gmap Z bytes) : Prop := {
  ul_ok : world_ok (store s);
  ul_calm : faults (store s) = [];
  ul_bucket : is_Some (tables (store s) n) ∧ intact (store s) n;
  ul_upload : ∃ p, uploads s !! id = Some p ∧ upload_at s p n key ct md cs;
}.

Lemma bucket_valid w n : is_Some (tables w n) → validBucketName n = true.
Proof. intros [t Ht]. by eapply tables_valid. Qed.

Lemma kept_but_bucket p w w' n :
  kept_but p w w' → is_Some (tables w n) ∧ intact w n → is_Some (tables w' n) ∧ intact w' n.
Proof.
  intros (Hs & Hd & _) [Ht [? ?]]. split; [by rewrite Hs|]. split; by apply Hd.
Qed.

(** A change of one part file leaves the other parts. *)
Lemma staged_kept p w w' n sp c : kept_but p w w' → sp_path sp ≠ p → staged w n sp c → staged w' n sp c.
Proof.
  intros (_ & _ & Hk) Hne [(k & i & E & Hp) Hm]. split; [|done]. exists k, i. split; [done|].
  rewrite E in *. by apply Hk.
Qed.

Lemma parts_kept p w w' n (parts : gmap Z stagedPart) cs :
  kept_but p w w' → (∀ k sp, parts !! k = Some sp → sp_path sp ≠ p) →
  map_Forall2 (λ _, staged w n) parts cs → map_Forall2 (λ _, staged w' n) parts cs.
Proof.
  intros Hk Hne H k. specialize (H k). destruct (parts !! k) as [sp|] eqn:E; inversion H as [? c Hst|]; constructor.
  eapply staged_kept; [exact Hk|by eapply Hne|exact Hst].
Qed.

(** *** Adding a part *)
Lemma separate_insert parts k sp :
  separate parts → (∀ k' sp', k' ≠ k → parts !! k' = Some sp' → sp_path sp' ≠ sp_path sp) →
  separate (<[k := sp]> parts).
Proof.
  intros Hsep Hnew a b x y Ha Hb E.
  apply lookup_insert_Some in Ha as [[<- <-]|[Hna Ha]], Hb as [[<- <-]|[Hnb Hb]]; [done|..].
  - exfalso. by apply (Hnew b y).
  - exfalso. by apply (Hnew a x).
  - by eapply Hsep.
Qed.

(** ** Requests *)
Definition for_upload (r : request) (id : string) : Prop := values_Get (Query r) "uploadId" = id.

Lemma lookupUpload_finds s r id n key p up :
  for_upload r id → uploads s !! id = Some p → up_heap s !! p = Some up → up_bucket up = n → up_key up = key →
  lookupUpload r n key s = (Ret (inr p), s).
Proof.
  intros <- Hp Hup <- <-. unfold lookupUpload, bind, get. rewrite Hp. unfold load_upload. rewrite Hup.
  rewrite !String.eqb_refl. done.
Qed.

(** A request that brings part [k] with the content [c]. *)
Record brings (r : request) (id : string) (k : Z) (c : bytes) : Prop := {
  br_upload : for_upload r id;
  br_number : strconv_Atoi (values_Get (Query r) "partNumber") = (k, false) ∧ (1 ≤ k ≤ 10000)%Z;
  br_body : (requestBody r).2 = None ∧ concat (requestBody r).1 = c;
}.

Lemma stage_part_calm w n k i (body : reader) :
  world_ok w → faults w = [] → part_at w (part_path n k) i [] → body.2 = None →
  ∃ sp w', stage_part (part_path n k) i body w = (Ret (inr sp), w') ∧ sp_path sp = part_path n k ∧
    world_ok w' ∧ faults w' = [] ∧ kept_but (part_path n k) w w' ∧ staged w' n sp (concat body.1).
Proof.
  intros Hok Hf Hp Hend. destruct (copy_hashing_calm n k i body.2 body.1 w [] 0 [] Hok Hf Hp)
    as (size & w' & E & Hok' & Hf' & Hk & Hp' & _). cbn [app] in *.
  exists (mkStagedPart (part_path n k) size (md5_sum (concat body.1))), w'.
  split_and!; [|done|done|done|done|].
  - unfold stage_part. erewrite bind_ret by exact E. cbn beta iota. rewrite Hend.
    erewrite bind_ret; [|by apply try_ret, calm_Close]. done.
  - split; [|done]. by exists k, i.
Qed.

(** The answer to a part: its ETag is the MD5 of its content. *)
Definition part_reply (c : bytes) : response xml := Reply 200 [("Etag", etag (md5_sum c))] None.

(** What a new part's file must be: no other part's. *)
Definition unused (s : Server) (p : nat) (sp : stagedPart) : Prop :=
  ∀ up k sp', up_heap s !! p = Some up → up_parts up !! k = Some sp' → sp_path sp' ≠ sp_path sp.

(** The part joins the upload in a world that has it and the other parts. *)
Lemma join_part s p n key ct md cs parts k sp c w' :
  up_heap s !! p = Some (mkMultipartUpload n key ct md parts false) →
  map_Forall2 (λ _, staged (store s) n) parts cs → separate parts → unused s p sp → staged w' n sp c →
  (∀ k' sp', k' ≠ k → parts !! k' = Some sp' → ∀ d, staged (store s) n sp' d → staged w' n sp' d) →
  ∃ s', (do* modify (set_heap (alter (add_part k sp) p)) in ret (Reply 200 [("Etag", etag (sp_md5 sp))] None))
      (set_store w' s) = (Ret (part_reply c), s') ∧
    store s' = w' ∧ uploads s' = uploads s ∧ upload_at s' p n key ct md (<[k := c]> cs).
Proof.
  intros Hup Hparts Hsep Hnew Hsp Hothers. eexists. split; [unfold bind, modify, ret; by rewrite (proj2 Hsp)|].
  split_and!; [done..|]. exists (<[k := sp]> parts). split_and!.
  - cbn. by rewrite lookup_alter_eq, Hup.
  - intros j. destruct (decide (j = k)) as [->|Hne]; [rewrite !lookup_insert_eq; by constructor|].
    rewrite !lookup_insert_ne by done. specialize (Hparts j).
    destruct (parts !! j) as [sp'|] eqn:E; inversion Hparts as [? d Hst|]; constructor. by eapply Hothers.
  - apply separate_insert; [done|]. intros k' sp' _ E. by apply (Hnew _ k' sp' Hup).
Qed.

(** The part replaces an earlier one with its number. *)
Lemma attach_part_calm s p n key ct md cs k sp c :
  world_ok (store s) → faults (store s) = [] → is_Some (tables (store s) n) ∧ intact (store s) n →
  upload_at s p n key ct md cs → staged (store s) n sp c → unused s p sp →
  ∃ s', attach_part p k sp n key s = (Ret (part_reply c), s') ∧
    uploads s' = uploads s ∧ world_ok (store s') ∧ faults (store s') = [] ∧ same_tables (store s) (store s') ∧
    (is_Some (tables (store s') n) ∧ intact (store s') n) ∧ upload_at s' p n key ct md (<[k := c]> cs).
Proof.
  intros Hok Hf Hb (parts & Hup & Hparts & Hsep) Hsp Hnew.
  unfold attach_part. erewrite bind_ret; [|unfold load_upload; by rewrite Hup]. cbn [up_done up_parts].
  destruct (parts !! k) as [prev|] eqn:Eprev.
  - pose proof (Hparts k) as Hk. rewrite Eprev in Hk. inversion Hk as [? d [(l & i & Epath & _) _]|]; subst.
    destruct (part_remove (store s) n l Hok (bucket_valid _ _ (proj1 Hb)) Hf) as (w' & E & Hok' & Hf' & Hk' & _).
    rewrite <- Epath in E, Hk'.
    destruct (join_part s p n key ct md cs parts k sp c w') as (s' & E' & Es & Hu & Hat); [done..| | |].
    + eapply staged_kept; [exact Hk'| |exact Hsp]. intros E2. by apply (Hnew _ k prev Hup).
    + intros k' sp' Hne E1 e. eapply staged_kept; [exact Hk'|]. intros E2. apply Hne. by eapply Hsep.
    + exists s'. rewrite Es. split_and!; [|done|done|done|apply Hk'|by eapply kept_but_bucket..|done].
      erewrite bind_ret; [exact E'|].
      revert E. unfold ignore, bind, try, call, zoom. by destruct (os_Remove (sp_path prev) (store s)) as [[] ?]; intros [= <-].
  - destruct (join_part s p n key ct md cs parts k sp c (store s)) as (s' & E' & Es & Hu & Hat); [done..|].
    exists s'. rewrite Es. destruct Hb. split_and!; done.
Qed.

(** A part is taken in, also one that replaces an earlier one: the answer carries
    its MD5, and the upload has it beside the other parts. *)
Lemma upload_part_step s id n key ct md cs r k c :
  uploading s id n key ct md cs → brings r id k c →
  ∃ s', uploadPart r n key s = (Ret (part_reply c), s') ∧ same_tables (store s) (store s') ∧
    uploading s' id n key ct md (<[k := c]> cs).
Proof.
  intros [Hok Hf Hb (p & Hp & Hat)] [Hid [Hnum Hk] [Hend Hc]]. pose proof Hat as (parts & Hup & Hparts & Hsep).
  unfold uploadPart. erewrite bind_ret by by eapply lookupUpload_finds. cbn beta iota. rewrite Hnum. cbn beta iota.
  rewrite (proj2 (Z.ltb_ge _ _)) by lia. rewrite (proj2 (Z.ltb_ge _ _)) by lia. cbn [orb].
  destruct (calm_run _ _ _ _ _ _ (triple_TempFile (store s) n Hok) Hf)
    as [([tmp ino] & w1 & E1 & Hok1 & Hk1 & -> & Hp1 & Hnew)|(e & w1 & _ & Hno & _)].
  2: { exfalso. destruct Hb as [[t Ht] [_ Htmp]]. destruct Hno as [[_ Hno]|Hno]; [congruence|done]. }
  erewrite bind_ret by by apply try_ret, call_eq. cbn beta iota.
  destruct (stage_part_calm w1 n _ ino (requestBody r) Hok1 (kept_calm _ _ Hk1 Hf) Hp1 Hend)
    as (sp & w2 & E2 & Hpath & Hok2 & Hf2 & Hk2 & Hsp). rewrite Hc in Hsp.
  erewrite bind_ret by (apply call_eq; exact E2). cbn beta iota.
  set (s2 := set_store w2 (set_store w1 s)).
  pose proof (kept_but_trans _ _ _ _ (kept_kept_but (part_path n ino) _ _ Hk1) Hk2) as Hk12.
  assert (∀ j sp', parts !! j = Some sp' → sp_path sp' ≠ part_path n ino) as Hfresh.
  { intros j sp' E. pose proof (Hparts j) as H. rewrite E in H. inversion H as [? d [(l & i & Epath & Hat') _]|]; subst.
    intros E'. rewrite E' in Hat'. by eapply Hnew. }
  destruct (attach_part_calm s2 p n key ct md cs k sp c) as (s' & E' & Hu & Hok' & Hf' & Hs' & Hb' & Hat').
  - done.
  - done.
  - by eapply kept_but_bucket.
  - exists parts. split_and!; [done| |done]. eapply parts_kept; [exact Hk12|exact Hfresh|exact Hparts].
  - done.
  - intros up j sp' Hup' Hj. change (up_heap s !! p = Some up) in Hup'. rewrite Hup in Hup'. apply (inj Some) in Hup' as <-.
    rewrite Hpath. by eapply Hfresh.
  - exists s'. split_and!; [exact E'|eapply same_tables_trans; [apply Hk12|exact Hs']|].
    split; [done..|]. exists p. by rewrite Hu.
Qed.

(** ** Completing an upload *)

(** The content that a list of parts names. *)
Definition contents_of (cs : gmap Z bytes) (reqs : completeRequest) : bytes :=
  concat ((λ q, default [] (cs !! cp_PartNumber q)) <$> reqs).

(** A part is named by its number and, if the client gives one, its ETag. *)
Definition names_part (cs : gmap Z bytes) (q : completedPart) : Prop :=
  ∃ c, cs !! cp_PartNumber q = Some c ∧
    (strings_Trim (cp_ETag q) dquote = "" ∨ strings_Trim (cp_ETag q) dquote = hex_EncodeToString (md5_sum c)).

Lemma staged_lookup w n (parts : gmap Z stagedPart) cs k :
  map_Forall2 (λ _, staged w n) parts cs →
  (∃ sp c, parts !! k = Some sp ∧ cs !! k = Some c ∧ staged w n sp c) ∨ (parts !! k = None ∧ cs !! k = None).
Proof. intros H. destruct (H k) as [sp c Hst|]; [left; by exists sp, c|by right]. Qed.

(** The hashes kept with the parts are those of their contents. *)
Definition hashes_kept (parts : gmap Z stagedPart) (cs : gmap Z bytes) : Prop :=
  map_Forall2 (λ _ sp c, sp_md5 sp = md5_sum c) parts cs.

Lemma staged_hashes w n parts cs : map_Forall2 (λ _, staged w n) parts cs → hashes_kept parts cs.
Proof. intros H. eapply map_Forall2_impl; [exact H|]. by intros k sp c [_ ?]. Qed.

(** The check of the request's parts finds out exactly whether all are there. *)
Lemma check_parts_spec parts cs reqs :
  hashes_kept parts cs → check_parts reqs parts = None ↔ Forall (names_part cs) reqs.
Proof.
  intros Hparts. induction reqs as [|q reqs IH]; [split; constructor|]. cbn [check_parts]. rewrite Forall_cons. unfold names_part at 1.
  pose proof (Hparts (cp_PartNumber q)) as Hq. inversion Hq as [sp c Hmd5 E Ec|E Ec].
  - rewrite Hmd5. set (want := strings_Trim (cp_ETag q) dquote). destruct (String.eqb_spec want "") as [Hw|Hw]; cbn [negb andb].
    + rewrite IH. split; [intros ?; split; [exists c; auto|done]|by intros [_ ?]].
    + destruct (String.eqb_spec want (hex_EncodeToString (md5_sum c))) as [Hw2|Hw2]; cbn [negb].
      * rewrite IH. split; [intros ?; split; [exists c; auto|done]|by intros [_ ?]].
      * split; [done|]. intros [(c' & [= <-] & [?|?]) _]; done.
  - split; [done|]. by intros [(c' & [=] & _) _].
Qed.

Lemma calm_Open w p i c : faults w = [] → part_at w p i c → os_Open p w = (Ret i, w).
Proof. intros Hf [Ht _]. unfold os_Open, syscall, external. by rewrite Hf, Ht. Qed.

Lemma calm_file_reader w p i c : faults w = [] → part_at w p i c → file_reader i w = (Ret ([c], None), w).
Proof. intros Hf [_ Hi]. unfold file_reader, file_content. by rewrite Hf, Hi. Qed.

(** [io.Copy] into a writer that nothing disturbs. *)
Lemma io_Copy_calm w p bw pieces :
  world_ok w → faults w = [] → writing w p bw →
  ∃ k w' bw', io_Copy p pieces None 0 w = (Ret (k, None), w') ∧ world_ok w' ∧ kept w w' ∧
    writing w' p bw' ∧ w_sha bw' = w_sha bw ++ concat pieces ∧ handles w' = handles w ∧ w_b bw' = w_b bw.
Proof.
  intros Hok Hf Hw.
  assert (triple w (io_Copy p pieces None 0)
    (λ x w', x.2 = None ∧ ∃ bw', world_ok w' ∧ kept w w' ∧ writing w' p bw' ∧ w_sha bw' = w_sha bw ++ concat pieces ∧
       handles w' = handles w ∧ w_b bw' = w_b bw)
    (E_rel same_tables w (λ _, False)) (C_rel same_tables w)) as Ht.
  { apply (triple_io_Copy same_tables w _ _ p pieces None w bw); [done|apply kept_refl|done|].
    intros w' bw' k err Hok' Hk Hh Hw' (Hb & _) Herr. cbn [snd]. destruct err as [e|].
    - destruct Herr as [Hfail|Hend]; [by destruct (Hfail Hf)|discriminate Hend].
    - split; [done|]. exists bw'. destruct Herr as (_ & Hsha & _). done. }
  destruct (calm_run _ _ _ _ _ _ Ht Hf) as [([k err] & w' & E & Herr & bw' & H)|(e & w' & _ & [] & _)].
  cbn [snd] in Herr. subst err. by exists k, w', bw'.
Qed.

(** The parts are appended in the order of the request. *)
Lemma append_parts_calm n parts cs reqs : ∀ w p bw,
  world_ok w → faults w = [] → writing w p bw → map_Forall2 (λ _, staged w n) parts cs →
  Forall (names_part cs) reqs →
  ∃ w' bw', append_parts p reqs parts w = (Ret None, w') ∧ world_ok w' ∧ kept w w' ∧ writing w' p bw' ∧
    w_sha bw' = w_sha bw ++ contents_of cs reqs ∧ handles w' = handles w ∧ w_b bw' = w_b bw.
Proof.
  induction reqs as [|q reqs IH]; intros w p bw Hok Hf Hw Hparts Hreqs.
  { exists w, bw. split_and!; [done..|apply kept_refl|done| |done|done]. cbn. by rewrite app_nil_r. }
  apply Forall_cons in Hreqs as [(c & Ec & _) Hreqs]. cbn [append_parts].
  destruct (staged_lookup _ _ _ _ (cp_PartNumber q) Hparts) as [(sp & c' & E & Ec' & (k & i & Epath & Hat) & _)|[_ ?]]; [|congruence].
  rewrite Ec in Ec'. apply (inj Some) in Ec' as <-. rewrite E.
  erewrite bind_ret by (apply try_ret; by eapply calm_Open). cbn beta iota.
  erewrite bind_ret by by eapply calm_file_reader. cbn [fst snd].
  destruct (io_Copy_calm w p bw [c] Hok Hf Hw) as (z & w1 & bw1 & E1 & Hok1 & Hk1 & Hw1 & Hsha1 & Hh1 & Hb1).
  erewrite bind_ret by exact E1. cbn beta iota. pose proof (kept_calm _ _ Hk1 Hf) as Hf1.
  erewrite bind_ret; [|unfold ignore; erewrite bind_ret; [done|apply try_ret, (calm_Close w1 Hf1)]]. cbn beta iota.
  assert (map_Forall2 (λ _, staged w1 n) parts cs) as Hparts1.
  { eapply (parts_kept []); [by apply kept_kept_but| |exact Hparts]. intros j sp' E'.
    destruct (staged_lookup _ _ _ _ j Hparts) as [(sp2 & d & E2 & _ & (l & m & El & _) & _)|[? _]]; [|congruence].
    intros E3. replace sp2 with sp' in El by congruence. by rewrite E3 in El. }
  destruct (IH w1 p bw1 Hok1 Hf1 Hw1 Hparts1 Hreqs) as (w2 & bw2 & E2 & Hok2 & Hk2 & Hw2 & Hsha2 & Hh2 & Hb2).
  exists w2, bw2. split_and!; [exact E2|done|by eapply kept_trans|done| |congruence..].
  rewrite Hsha2, Hsha1. unfold contents_of. cbn. by rewrite Ec, app_nil_r, <- app_assoc.
Qed.

(** The content type and metadata of an upload's object. *)
Definition upload_options (ct : string) (md : gmap string string) : PutOptions := mkPutOptions ct md noConditions.

(** The files of the upload's parts. *)
Definition parts_gone (s s' : Server) (id : string) : Prop :=
  ∃ p up, uploads s !! id = Some p ∧ up_heap s !! p = Some up ∧
    ∀ k sp, up_parts up !! k = Some sp → tree (store s') !! sp_path sp = None.

Lemma removePartsLocked_calm s p n key ct md parts d cs w0 :
  up_heap s !! p = Some (mkMultipartUpload n key ct md parts d) → world_ok (store s) → faults (store s) = [] →
  validBucketName n = true → map_Forall2 (λ _, staged w0 n) parts cs →
  ∃ s', removePartsLocked p s = (Ret tt, s') ∧ uploads s' = uploads s ∧ world_ok (store s') ∧ same_tables (store s) (store s') ∧
    ∀ k sp, parts !! k = Some sp → tree (store s') !! sp_path sp = None.
Proof.
  intros Hup Hok Hf Hn Hparts. unfold removePartsLocked.
  erewrite bind_ret by (unfold load_upload; by rewrite Hup). cbn [up_parts].
  destruct (remove_files_calm ((λ e, sp_path e.2) <$> map_to_list parts) (store s) Hok Hf) as (w' & E & Hok' & _ & Hs & Hall & _).
  { apply Forall_fmap, Forall_forall. intros [k sp] Hin%elem_of_map_to_list. cbn.
    destruct (staged_lookup _ _ _ _ k Hparts) as [(sp2 & d2 & E2 & _ & (l & m & El & _) & _)|[? _]]; [|congruence].
    exists n, l. split; [congruence|done]. }
  eexists. split; [erewrite bind_ret by (apply call_eq; exact E); reflexivity|]. split_and!; [done..|].
  intros k sp Hk. apply Hall. apply list_elem_of_fmap. exists (k, sp). split; [done|]. by apply elem_of_map_to_list.
Qed.

(** Completing an upload all of whose named parts are there stores their
    concatenation and ends the upload. *)
Lemma complete_step `{XmlDecoder} s id n key ct md cs r reqs :
  uploading s id n key ct md cs → for_upload r id → Decode_complete (Body r) = inr reqs →
  reqs ≠ [] → parts_sorted reqs = true → Forall (names_part cs) reqs → validObjectName key = true →
  ∃ oi s', completeMultipartUpload r n key s =
      (Ret (writeXML 200 (XComplete (mkComplete (resource n key) n key (etag (md5_sum (contents_of cs reqs)))))), s') ∧
    wrote n key (contents_of cs reqs) (upload_options ct md) oi (store s) (store s') ∧
    uploads s' !! id = None ∧ parts_gone s s' id.
Proof.
  intros [Hok Hf Hb (p & Hp & parts & Hup & Hparts & Hsep)] Hid Hdec Hne Hsorted Hreqs Hkey.
  unfold completeMultipartUpload. erewrite bind_ret by by eapply lookupUpload_finds. cbn beta iota. rewrite Hdec, Hsorted.
  destruct reqs as [|q reqs']; [done|]. cbn [negb]. set (reqs := q :: reqs') in *.
  erewrite bind_ret by (unfold load_upload; by rewrite Hup). cbn [up_done up_parts up_contentType up_metadata].
  rewrite (proj2 (check_parts_spec _ cs reqs (staged_hashes _ _ _ _ Hparts))) by done.
  destruct (calm_run _ _ _ _ _ _ (triple_NewBlobWriter (store s) n Hok) Hf)
    as [(wp & w1 & E1 & Hok1 & Hk1 & bw & Hw1 & Hsha & b & Hhb & Hbn & Hbo)|(e & w1 & _ & Hno & _)].
  2: { exfalso. destruct Hb as [[t Ht] [_ Htmp]]. destruct Hno as [[_ Hno]|Hno]; [congruence|done]. }
  erewrite bind_ret by by apply try_ret, call_eq. cbn beta iota.
  assert (map_Forall2 (λ _, staged w1 n) parts cs) as Hparts1.
  { eapply (parts_kept []); [by apply kept_kept_but| |exact Hparts]. intros j sp' E'.
    destruct (staged_lookup _ _ _ _ j Hparts) as [(sp2 & d & E2 & _ & (l & m & El & _) & _)|[? _]]; [|congruence].
    intros E3. replace sp2 with sp' in El by congruence. by rewrite E3 in El. }
  destruct (append_parts_calm n parts cs reqs w1 wp bw Hok1 (kept_calm _ _ Hk1 Hf) Hw1 Hparts1 Hreqs)
    as (w2 & bw2 & E2 & Hok2 & Hk2 & Hw2 & Hsha2 & Hh2 & Hb2). rewrite Hsha in Hsha2. cbn [app] in Hsha2.
  erewrite bind_ret by (apply call_eq; exact E2). cbn beta iota.
  pose proof (kept_trans _ _ _ Hk1 Hk2) as Hk. pose proof (kept_calm _ _ Hk Hf) as Hf2.
  assert (handles w2 !! w_b bw2 = Some b) as Hhb2 by (rewrite Hh2, Hb2; done).
  pose proof (triple_Commit w2 wp bw2 b key (upload_options ct md) Hok2 Hw2 Hhb2) as Hcommit.
  eapply triple_conseq in Hcommit; [|intros e w' He; exact (proj1 He)|intros w' Hw'; exact Hw'].
  destruct (calm_run _ _ _ _ _ _ Hcommit Hf2) as [(oi & w3 & E3 & Hok3 & Hc3 & Hch & (t & t' & Ht & Ht' & Hc) & _)|(e & w3 & _ & Hno & _)].
  2: { exfalso. destruct Hno as [[Hno _]|[_ [[Hno|(_ & t & ex & _ & _ & Hno)]|Hno]]]; [congruence|by apply not_corrupt in Hno| |congruence].
       by rewrite check_noConditions in Hno. }
  erewrite bind_ret by by apply try_ret, call_eq. cbn beta iota.
  set (s3 := set_heap (alter set_up_done p) (set_store w3 (set_store w2 (set_store w1 s)))).
  destruct (removePartsLocked_calm s3 p n key ct md parts true cs (store s)) as (s4 & E4 & Hu4 & _ & Hs4 & Hgone).
  { cbn. by rewrite lookup_alter_eq, Hup. }
  { done. }
  { by apply Hc3. }
  { eapply bucket_valid, Hb. }
  { done. }
  exists oi, (set_uploads (delete (values_Get (Query r) "uploadId")) s4). split_and!.
  - erewrite (bind_ret (modify _)) by reflexivity. erewrite bind_ret by exact E4. unfold bind, modify, ret. do 5 f_equal.
    destruct Hc as (ex & t0 & _ & _ & _ & -> & _). unfold etagFor. cbn. by rewrite Hsha2.
  - apply (wrote_post _ _ _ _ _ _ w3); [|exact Hs4]. apply (wrote_pre _ _ _ _ _ _ w2); [apply Hk|].
    rewrite <- Hsha2, <- Hbn. by eapply commits_wrote.
  - cbn. rewrite Hid. apply lookup_delete_eq.
  - exists p. eexists. split_and!; [done..|exact Hgone].
Qed.

(** ** A whole upload *)

Lemma initiate_step s r n key resp s0 :
  world_ok (store s) → faults (store s) = [] → intact (store s) n →
  initiateMultipartUpload r n key s = (Ret resp, s0) → response_status resp = Some 200%Z →
  same_tables (store s) (store s0) ∧
  uploading s0 (hex_EncodeToString (random r)) n key (header_Get (rHeader r) "Content-Type") (metadataFromHeaders (rHeader r)) ∅.
Proof.
  intros Hok Hf Hint Hrun Hst. unfold initiateMultipartUpload in Hrun.
  destruct (calm_run _ _ _ _ _ _ (triple_GetBucket (store s) n Hok) Hf)
    as [(bi & w1 & E1 & Hok1 & Hk1 & Hex & _)|(e & w1 & E1 & _)].
  2: { erewrite bind_ret in Hrun by by apply try_err, call_eq. unfold ret in Hrun. injection Hrun as <- _.
       destruct (writeStoreError_status e (bucket_resource n)) as (st & E & ?). rewrite Hst in E. injection E as <-. lia. }
  erewrite bind_ret in Hrun by by apply try_ret, call_eq. cbn beta iota in Hrun.
  unfold register, bind, modify, ret in Hrun. injection Hrun as _ <-. split; [apply Hk1|].
  destruct (kept_but_bucket [] _ _ n (kept_kept_but _ _ _ Hk1) (conj Hex Hint)). split.
  - done.
  - exact (kept_calm _ _ Hk1 Hf).
  - done.
  - exists (up_next s). split; [apply lookup_insert_eq|]. exists ∅. split_and!; [apply lookup_insert_eq|apply map_Forall2_empty|].
    intros k k' sp sp' Hk. by rewrite lookup_empty in Hk.
Qed.

(** The parts, one request after the other. *)
Fixpoint upload_parts (n key : string) (rs : list request) : M Server (list (response xml)) :=
  match rs with
  | [] => ret []
  | r :: rs =>
    let* resp := uploadPart r n key in
    let* resps := upload_parts n key rs in
    ret (resp :: resps)
  end.

(** The parts an upload has after requests with these part numbers and contents:
    a later one replaces an earlier one. *)
Definition parts_after (cs : gmap Z bytes) (kcs : list (Z * bytes)) : gmap Z bytes :=
  foldl (λ cs kc, <[kc.1 := kc.2]> cs) cs kcs.

Lemma upload_parts_steps id n key ct md rs kcs :
  Forall2 (λ r kc, brings r id kc.1 kc.2) rs kcs → ∀ s cs,
  uploading s id n key ct md cs →
  ∃ s', upload_parts n key rs s = (Ret ((λ kc, part_reply kc.2) <$> kcs), s') ∧ same_tables (store s) (store s') ∧
    uploading s' id n key ct md (parts_after cs kcs).
Proof.
  induction 1 as [|r [k c] rs kcs Hr _ IH]; intros s cs Hs.
  { by exists s. }
  destruct (upload_part_step s id n key ct md cs r k c Hs Hr) as (s1 & E1 & Hs1 & Hu1).
  destruct (IH s1 _ Hu1) as (s2 & E2 & Hs2 & Hu2). exists s2. split_and!; [|by eapply same_tables_trans|done].
  cbn [upload_parts]. erewrite bind_ret by exact E1. by erewrite bind_ret by exact E2.
Qed.

(** C12: A multipart upload stores the concatenation of the parts that the completing
    request names, in its order: whatever was sent for a part number before the
    last upload of it is gone, each part is answered with the ETag of its content,
    and until the upload is completed no object changes. Completing it ends the
    upload and leaves no file of its parts. *)
Theorem multipart_upload `{XmlDecoder} s r0 n key resp0 s0 rs kcs last reqs :
  let id := hex_EncodeToString (random r0) in
  let cs := parts_after ∅ kcs in
  let opts := upload_options (header_Get (rHeader r0) "Content-Type") (metadataFromHeaders (rHeader r0)) in
  reachable (store s) → faults (store s) = [] → intact (store s) n →
  initiateMultipartUpload r0 n key s = (Ret resp0, s0) → response_status resp0 = Some 200%Z →
  Forall2 (λ r kc, brings r id kc.1 kc.2) rs kcs →
  for_upload last id → Decode_complete (Body last) = inr reqs →
  reqs ≠ [] → parts_sorted reqs = true → Forall (names_part cs) reqs → validObjectName key = true →
  ∃ s1 s2 oi,
    upload_parts n key rs s0 = (Ret ((λ kc, part_reply kc.2) <$> kcs), s1) ∧ same_tables (store s) (store s1) ∧
    completeMultipartUpload last n key s1 =
      (Ret (writeXML 200 (XComplete (mkComplete (resource n key) n key (etag (md5_sum (contents_of cs reqs)))))), s2) ∧
    wrote n key (contents_of cs reqs) opts oi (store s) (store s2) ∧
    uploads s2 !! id = None ∧ parts_gone s1 s2 id.
Proof.
  intros id cs opts Hr%reachable_ok Hf Hint Hinit Hst Hparts Hid Hdec Hne Hsorted Hreqs Hkey.
  destruct (initiate_step s r0 n key resp0 s0) as [Hs0 Hu0]; [done..|].
  destruct (upload_parts_steps id n key _ _ rs kcs Hparts s0 ∅ Hu0) as (s1 & E1 & Hs1 & Hu1).
  destruct (complete_step s1 id n key _ _ cs last reqs Hu1 Hid Hdec Hne Hsorted Hreqs Hkey) as (oi & s2 & E2 & Hw & Hn & Hg).
  pose proof (same_tables_trans _ _ _ Hs0 Hs1) as Hs.
  exists s1, s2, oi. split_and!; [done..| |done|done]. by eapply wrote_pre.
Qed.

(** A sample upload: part 2 first, then part 1 twice. *)
Definition sample_complete : completeRequest := [mkCompletedPart 1 ""; mkCompletedPart 2 ""].
#[local] Instance sample_decoder : XmlDecoder := {|
  Decode_deleteRequest _ := inl EOF;
  Decode_complete _ := inr sample_complete;
|}.

Definition initiate_request : request := sample_request "POST" ∅ {["uploads" := [""]]} ([], None).
Definition sample_id : string := hex_EncodeToString (random initiate_request).
Definition part_request (k : string) (body : bytes) : request :=
  sample_request "PUT" ∅ (<["uploadId" := [sample_id]]> {["partNumber" := [k]]}) ([body], None).
Definition complete_request : request := sample_request "POST" ∅ {["uploadId" := [sample_id]]} ([], None).

Lemma multipart_upload_witness :
  ∃ s1 s2 oi, uploads s2 !! sample_id = None ∧
    completeMultipartUpload complete_request "photos" "big" s1 =
      (Ret (writeXML 200 (XComplete (mkComplete "/photos/big" "photos" "big" (etag (md5_sum (bytes_of_string "hello")))))), s2) ∧
    wrote "photos" "big" (bytes_of_string "hello") (upload_options "" ∅) oi (store s_object) (store s2).
Proof.
  assert ((λ o, match o with Ret r => response_status r | _ => None end)
    (initiateMultipartUpload initiate_request "photos" "big" s_object).1 = Some 200%Z) as Hst by by_running.
  destruct (initiateMultipartUpload initiate_request "photos" "big" s_object) as [o s0] eqn:E.
  destruct o as [resp0|e|x| |]; [|exfalso; cbn in Hst; discriminate Hst..].
  assert (intact (store s_object) "photos") as Hint by (split; by_running).
  assert (faults (store s_object) = []) as Hf by by_running.
  destruct (multipart_upload s_object initiate_request "photos" "big" resp0 s0
    [part_request "2" (bytes_of_string "lo"); part_request "1" (bytes_of_string "wrong"); part_request "1" (bytes_of_string "hel")]
    [(2%Z, bytes_of_string "lo"); (1%Z, bytes_of_string "wrong"); (1%Z, bytes_of_string "hel")]
    complete_request sample_complete reachable_object Hf Hint E Hst)
    as (s1 & s2 & oi & _ & _ & Hc & Hw & Hu & _).
  - do 3 (constructor; [split; [reflexivity|split; [by_running|cbn; lia]|split; by_running]|]). constructor.
  - by_running.
  - reflexivity.
  - discriminate.
  - reflexivity.
  - repeat constructor; eexists; (split; [by_running|left; by_running]).
  - by_running.
  - exists s1, s2, oi. exact (conj Hu (conj Hc Hw)).
Defined.

(** ** Refused and aborted uploads *)

(** C33: Completing is refused, without any effect, when the request names no part, or
    names them out of order, or names one that was not uploaded or had another
    ETag; whatever the environment does. *)
Theorem complete_refused `{XmlDecoder} s id n key ct md cs r reqs :
  uploading s id n key ct md cs → for_upload r id → Decode_complete (Body r) = inr reqs →
  reqs = [] ∨ parts_sorted reqs = false ∨ ¬ Forall (names_part cs) reqs →
  ∃ body, completeMultipartUpload r n key s = (Ret (writeXML 400 (XError body)), s) ∧
    er_Code body = (if decide (reqs = []) then "InvalidRequest"
                    else if parts_sorted reqs then "InvalidPart" else "InvalidPartOrder").
Proof.
  intros [_ _ _ (p & Hp & parts & Hup & Hparts & _)] Hid Hdec Hbad.
  unfold completeMultipartUpload. erewrite bind_ret by by eapply lookupUpload_finds. cbn beta iota. rewrite Hdec.
  destruct reqs as [|q reqs']; [by eexists|]. set (reqs := q :: reqs') in *. rewrite decide_False by done.
  destruct (parts_sorted reqs) eqn:Hs; cbn [negb]; [|by eexists].
  erewrite bind_ret by (unfold load_upload; by rewrite Hup). cbn [up_done up_parts].
  destruct (check_parts reqs parts) as [message|] eqn:Ec; [by eexists|].
  apply (check_parts_spec parts cs) in Ec; [|by eapply staged_hashes]. by destruct Hbad as [?|[?|?]].
Qed.

(** C32: Aborting an upload changes no object, ends it, and leaves no file of its
    parts. *)
Theorem abort_ends s id n key ct md cs r :
  uploading s id n key ct md cs → for_upload r id →
  ∃ s', abortMultipartUpload r n key s = (Ret (Reply 204 [] None), s') ∧ same_tables (store s) (store s') ∧
    uploads s' !! id = None ∧ parts_gone s s' id.
Proof.
  intros [Hok Hf [Hex _] (p & Hp & parts & Hup & Hparts & _)] Hid.
  unfold abortMultipartUpload. erewrite bind_ret by by eapply lookupUpload_finds. cbn beta iota.
  set (s1 := set_heap (alter set_up_done p) s).
  destruct (removePartsLocked_calm s1 p n key ct md parts true cs (store s)) as (s2 & E2 & Hu2 & _ & Hs2 & Hgone).
  { cbn. by rewrite lookup_alter_eq, Hup. }
  { done. }
  { done. }
  { by eapply bucket_valid. }
  { done. }
  exists (set_uploads (delete (values_Get (Query r) "uploadId")) s2). split_and!.
  - erewrite (bind_ret (modify _)) by reflexivity. by erewrite bind_ret by exact E2.
  - exact Hs2.
  - cbn. rewrite Hid. apply lookup_delete_eq.
  - exists p. eexists. split_and!; [done..|exact Hgone].
Qed.

(** The sample upload in progress. *)
Lemma sample_uploading :
  ∃ s, uploading s sample_id "photos" "big" "" ∅ {[2%Z := bytes_of_string "lo"]}.
Proof.
  assert ((λ o, match o with Ret r => response_status r | _ => None end)
    (initiateMultipartUpload initiate_request "photos" "big" s_object).1 = Some 200%Z) as Hst by by_running.
  destruct (initiateMultipartUpload initiate_request "photos" "big" s_object) as [o s0] eqn:E.
  destruct o as [resp0|e|x| |]; [|exfalso; cbn in Hst; discriminate Hst..].
  assert (intact (store s_object) "photos") as Hint by (split; by_running).
  assert (faults (store s_object) = []) as Hf by by_running.
  destruct (initiate_step s_object initiate_request "photos" "big" resp0 s0 (reachable_ok _ reachable_object) Hf Hint E Hst) as [_ Hu].
  assert (brings (part_request "2" (bytes_of_string "lo")) sample_id 2 (bytes_of_string "lo")) as Hb
    by (split; [reflexivity|split; [by_running|cbn; lia]|split; by_running]).
  destruct (upload_part_step _ _ _ _ _ _ _ _ _ _ Hu Hb) as (s1 & _ & _ & Hu1). exists s1. exact Hu1.
Qed.

(** The sample's completing request names a part that was not uploaded. *)
Lemma complete_refused_witness :
  ∃ s body, completeMultipartUpload complete_request "photos" "big" s = (Ret (writeXML 400 (XError body)), s) ∧
    er_Code body = "InvalidPart".
Proof.
  destruct sample_uploading as [s Hu].
  destruct (@complete_refused sample_decoder s sample_id "photos" "big" "" ∅ {[2%Z := bytes_of_string "lo"]} complete_request sample_complete Hu
    eq_refl eq_refl) as (body & E & Hcode).
  - right; right. intros H. apply Forall_cons in H as [(c & Hc & _) _]. rewrite lookup_singleton_ne in Hc by discriminate. discriminate.
  - exists s, body. exact (conj E Hcode).
Defined.

Lemma abort_ends_witness :
  ∃ s s', abortMultipartUpload complete_request "photos" "big" s = (Ret (Reply 204 [] None), s') ∧ uploads s' !! sample_id = None.
Proof.
  destruct sample_uploading as [s Hu].
  destruct (abort_ends s sample_id "photos" "big" "" ∅ {[2%Z := bytes_of_string "lo"]} complete_request Hu eq_refl)
    as (s' & E & _ & Hn & _).
  exists s, s'. exact (conj E Hn).
Defined.
