(* ===== verification/S3Listing.v ===== *)
(** The cursors of the S3 listings: [NextMarker] of ListObjects V1 and the
    continuation token of V2 against the page tokens of the store. *)

From S2P Require Import Prelude Errors GoMonad GoStd GoNet Types Names Hash Database World Bucket Store BlobWriter StoreInv Triple StoreSafe StoreOps ObjectOps WriterOps Listing ListingSpec Run Refine Samples Paging ListProps.
From S2P Require Import AwsChunked S3Types S3.
From stdpp Require Import options.

(** Where a page stops: [covered] is what it shows, [o] the first object it does
    not show. *)
Lemma walk_stop req l : ∀ prev n its tok,
  walk req prev n l = (its, tok) → tok ≠ "" →
  ∃ covered o rest, l = covered ++ o :: rest ∧ oi_Name o = tok ∧
    (∀ i, i ∈ its → ∃ c, c ∈ covered ∧ item_of req c = i) ∧
    match list.last its with
    | None => Forall (λ c, ∃ cp, prev = Some cp ∧ item_of req c = Prefix cp) covered ∧
        (∀ cp, prev = Some cp → item_of req o ≠ Prefix cp)
    | Some (Object o') => list.last covered = Some o'
    | Some (Prefix cp) => item_of req o ≠ Prefix cp ∧ ∃ c, list.last covered = Some c ∧ item_of req c = Prefix cp
    end.
Proof.
  induction l as [|o l IH]; intros prev n its tok; cbn [walk]; [by intros [= <- <-]|].
  assert (∀ prev' n' its' i, walk req prev' n' l = (its', tok) → tok ≠ "" → item_of req o = i →
    (∀ o', i = Object o' → o' = o ∧ prev' = None) → (∀ cp, i = Prefix cp → prev' = Some cp) →
    ∃ covered o' rest, o :: l = covered ++ o' :: rest ∧ oi_Name o' = tok ∧
      (∀ j, j ∈ i :: its' → ∃ c, c ∈ covered ∧ item_of req c = j) ∧
      match list.last (i :: its') with
      | None => False
      | Some (Object o'') => list.last covered = Some o''
      | Some (Prefix cp) => item_of req o' ≠ Prefix cp ∧ ∃ c, list.last covered = Some c ∧ item_of req c = Prefix cp
      end) as Hcons.
  { intros prev' n' its' i Hw Htok Hi Hobj Hpre. destruct (IH _ _ _ _ Hw Htok) as (cov & o' & rest & -> & Ho' & Hin & Hlast).
    exists (o :: cov), o', rest. split_and!; [done..| |].
    - intros j [->|Hj]%elem_of_cons; [exists o; split; [by left|done]|].
      destruct (Hin j Hj) as (c & ? & ?). exists c. split; [by right|done].
    - destruct its' as [|j its'].
      + cbn in Hlast |- *. destruct Hlast as [Hcov Hno]. destruct i as [o''|cp].
        * destruct (Hobj o'' eq_refl) as [-> ->]. destruct cov as [|c cov]; [done|].
          apply Forall_cons in Hcov as [(cp & ? & _) _]. done.
        * rewrite (Hpre cp eq_refl) in *. split; [by apply Hno|].
          destruct (list.last cov) as [c|] eqn:E.
          -- exists c. split; [by rewrite last_cons, E|]. rewrite Forall_forall in Hcov.
             destruct (Hcov c) as (cp' & [= <-] & ?); [|done]. by apply last_Some_elem_of in E.
          -- apply last_None in E as ->. by exists o.
      + change (list.last (i :: j :: its')) with (list.last (j :: its')).
        destruct (list.last (j :: its')) as [[o''|cp]|] eqn:E; [| |by apply last_None in E].
        * by rewrite last_cons, Hlast.
        * destruct Hlast as (? & c & Hc & ?). split; [done|]. exists c. by rewrite last_cons, Hc. }
  destruct (item_of req o) as [o'|cp] eqn:Eo.
  - assert (o' = o) as -> by (unfold item_of in Eo; by destruct (common_prefix _ _); simplify_eq).
    destruct n as [|n].
    + intros [= <- <-] Hne. exists [], o, l. split_and!; [done..|by intros i ?%elem_of_nil|]. cbn.
      split; [done|]. intros cp _. by rewrite Eo.
    + destruct (walk req None n l) as [its' tok'] eqn:Ew. intros [= <- ->] Hne.
      destruct (Hcons None n its' (Object o) Ew Hne eq_refl) as (cov & o1 & rest & ? & ? & ? & Hl); [by intros ? [= ->]|done|].
      exists cov, o1, rest. split_and!; [done..|]. by destruct (list.last _) as [[]|].
  - case_decide as Hp; [|destruct n as [|n]].
    + intros Hw Hne. subst prev. destruct (IH _ _ _ _ Hw Hne) as (cov & o' & rest & -> & Ho' & Hin & Hlast).
      exists (o :: cov), o', rest. split_and!; [done..| |].
      * intros i Hi. destruct (Hin i Hi) as (c & ? & ?). exists c. split; [by right|done].
      * destruct (list.last its) as [[o''|cp']|].
        -- by rewrite last_cons, Hlast.
        -- destruct Hlast as (? & c & Hc & ?). split; [done|]. exists c. by rewrite last_cons, Hc.
        -- destruct Hlast as [? ?]. split; [|done]. constructor; [by exists cp|done].
    + intros [= <- <-] Hne. exists [], o, l. split_and!; [done..|by intros i ?%elem_of_nil|]. cbn.
      split; [done|]. intros cp' ->. rewrite Eo. congruence.
    + destruct (walk req (Some cp) n l) as [its' tok'] eqn:Ew. intros [= <- ->] Hne.
      destruct (Hcons (Some cp) n its' (Prefix cp) Ew Hne eq_refl) as (cov & o1 & rest & ? & ? & ? & Hl); [done|by intros ? [= ->]|].
      exists cov, o1, rest. split_and!; [done..|]. by destruct (list.last _) as [[]|].
Qed.

(** ** The last item of a page *)
Lemma objects_of_app l l' : objects_of (l ++ l') = objects_of l ++ objects_of l'.
Proof. apply omap_app. Qed.
Lemma prefixes_of_app l l' : prefixes_of (l ++ l') = prefixes_of l ++ prefixes_of l'.
Proof. apply omap_app. Qed.

Lemma elem_of_objects_of its o : o ∈ objects_of its ↔ Object o ∈ its.
Proof.
  unfold objects_of. rewrite list_elem_of_omap. split.
  - intros ([o'|cp] & ? & ?); by simplify_eq.
  - intros H. by exists (Object o).
Qed.
Lemma elem_of_prefixes_of its cp : cp ∈ prefixes_of its ↔ Prefix cp ∈ its.
Proof.
  unfold prefixes_of. rewrite list_elem_of_omap. split.
  - intros ([o'|cp'] & ? & ?); by simplify_eq.
  - intros H. by exists (Prefix cp).
Qed.

Lemma item_of_object req c o : item_of req c = Object o → c = o.
Proof. unfold item_of. by destruct (common_prefix _ _); intros; simplify_eq. Qed.

Lemma sorted_last_le l o : StronglySorted name_lt l → list.last l = Some o → Forall (λ c, oi_Name c ≤ₛ oi_Name o) l.
Proof.
  intros Hs Hl. apply last_Some in Hl as [l' ->]. induction l' as [|c l' IH]; cbn in *.
  - by repeat constructor.
  - inversion_clear Hs as [|? ? Hs' Hc]. constructor; [|by apply IH].
    rewrite Forall_forall in Hc. apply str_lt_le, Hc. set_solver.
Qed.

Lemma next_marker_object its tok o :
  list.last its = Some (Object o) → (∀ cp, cp ∈ prefixes_of its → cp ≤ₛ oi_Name o) →
  next_marker (page (its, tok)) = oi_Name o.
Proof.
  intros Hl Hp. apply last_Some in Hl as [its' ->]. unfold next_marker, page. cbn [Objects Prefixes fst].
  rewrite objects_of_app. cbn [objects_of omap list_omap]. rewrite last_snoc.
  destruct (list.last (prefixes_of (its' ++ [Object o]))) as [p|] eqn:E; [|done].
  apply last_Some_elem_of in E. rewrite decide_False; [done|]. by apply str_nlt, Hp.
Qed.

Lemma next_marker_prefix its tok cp :
  list.last its = Some (Prefix cp) → cp ≠ "" → (∀ o, o ∈ objects_of its → oi_Name o <ₛ cp) →
  next_marker (page (its, tok)) = cp.
Proof.
  intros Hl Hcp Ho. apply last_Some in Hl as [its' ->]. unfold next_marker, page. cbn [Objects Prefixes fst].
  rewrite prefixes_of_app. cbn [prefixes_of omap list_omap]. rewrite last_snoc.
  destruct (list.last (objects_of (its' ++ [Prefix cp]))) as [o|] eqn:E.
  - apply last_Some_elem_of in E. rewrite decide_True; [done|]. by apply Ho.
  - rewrite decide_True; [done|]. split; [apply str_le_nil|]. by intros ?%str_le_nil_inv.
Qed.

Lemma HasSuffix_app s d : strings_HasSuffix (s +:+ d) d = true.
Proof.
  unfold strings_HasSuffix. rewrite str_length_app.
  replace (String.length s + String.length d - String.length d) with (String.length s) by lia.
  rewrite str_drop_app, String.eqb_refl, andb_true_r. apply Nat.leb_le. lia.
Qed.

Lemma suffix_found s d : strings_HasSuffix s d = true → ∃ i, strings_Index s d = Some i.
Proof.
  intros [_ Hd%String.eqb_eq]%andb_true_iff. destruct (strings_Index s d) as [i|] eqn:E; [by exists i|].
  pose proof (strings_Index_None _ _ E (String.length s - String.length d)) as Hno. rewrite Hd in Hno.
  pose proof (prefix_app d "") as Hp. rewrite str_app_nil_r in Hp. congruence.
Qed.

(** A common prefix ends with the delimiter. *)
Lemma common_prefix_suffix req rest cp :
  common_prefix req rest = Some cp → lr_Delimiter req ≠ "" ∧ strings_HasSuffix cp (lr_Delimiter req) = true.
Proof.
  unfold common_prefix. destruct (String.eqb_spec (lr_Delimiter req) "") as [|Hd]; [done|].
  destruct (strings_Index rest (lr_Delimiter req)) as [i|] eqn:Hi; [|done]. intros [= <-]. split; [done|].
  apply strings_Index_spec in Hi as (Hlen & Hp & _). rewrite str_take_add by lia.
  rewrite prefix_take in Hp. apply String.eqb_eq in Hp. rewrite Hp, <- str_app_assoc. apply HasSuffix_app.
Qed.

(** ** Resuming after a page *)
Section resume.
#[local] Set Default Proof Using "Type*".
Context (req : ListRequest) (l : list ObjectInfo).
Context (Hsorted : StronglySorted name_lt l).
Context (Hprefixed : Forall (λ o, String.prefix (lr_Prefix req) (oi_Name o) = true) l).
Context (Hdel : ascii_end (lr_Delimiter req) ∨ lr_Delimiter req = "").

Lemma from_split covered o rest lo :
  l = covered ++ o :: rest → Forall (λ c, oi_Name c <ₛ lo) covered → lo ≤ₛ oi_Name o → from lo l = o :: rest.
Proof.
  intros Hl Hc Ho. rewrite Hl in *. rewrite from_app, from_none by done. cbn [app].
  apply sorted_app_l in Hsorted. inversion_clear Hsorted as [|? ? _ Hrest]. apply from_all. constructor; [done|].
  eapply Forall_impl; [exact Hrest|]. intros c Hlt. transitivity (oi_Name o); [done|by apply str_lt_le].
Qed.

Lemma covered_before covered o rest : l = covered ++ o :: rest → Forall (λ c, oi_Name c <ₛ oi_Name o) covered.
Proof.
  intros Hl. apply Forall_forall. intros c Hc. rewrite Hl in Hsorted. clear -Hsorted Hc.
  induction covered as [|c' cov IH]; [by apply elem_of_nil in Hc|]. cbn in Hsorted.
  inversion_clear Hsorted as [|? ? Hs Hc']. apply elem_of_cons in Hc as [->|Hc]; [|by apply IH].
  rewrite Forall_forall in Hc'. apply Hc'. set_solver.
Qed.

Lemma covered_sorted covered o rest : l = covered ++ o :: rest → StronglySorted name_lt covered.
Proof.
  intros Hl. rewrite Hl in Hsorted. clear -Hsorted. induction covered as [|c cov IH]; [constructor|].
  cbn in Hsorted. inversion_clear Hsorted as [|? ? Hs Hc]. constructor; [by apply IH|]. by apply Forall_app in Hc as [? _].
Qed.

(** The marker of a page and its token leave the same objects to list. *)
Lemma marker_resumes k its tok :
  walk req None (S k) l = (its, tok) → tok ≠ "" →
  (∀ o, list.last its = Some (Object o) → lr_Delimiter req = "" ∨ strings_HasSuffix (oi_Name o) (lr_Delimiter req) = false) →
  Forall (λ o, oi_Name o ≠ "") l →
  ∃ c, c ∈ l ∧ oi_Name c ≤ₛ v1_token (lr_Delimiter req) (next_marker (page (its, tok))) ∧
    from (v1_token (lr_Delimiter req) (next_marker (page (its, tok)))) l = from tok l.
Proof.
  intros Hw Htok Hsuf Hne. destruct (walk_stop _ _ _ _ _ _ Hw Htok) as (cov & o & rest & Hl & Ho & Hin & Hlast).
  assert (from tok l = o :: rest) as ->.
  { apply (from_split cov); [done| |by rewrite Ho]. rewrite <- Ho. by eapply covered_before. }
  pose proof (covered_before _ _ _ Hl) as Hbefore. pose proof (covered_sorted _ _ _ Hl) as Hcov.
  pose proof Hprefixed as Hpf.
  assert (∀ c, c ∈ cov → c ∈ l) as Hsub by (intros c Hc; rewrite Hl; set_solver).
  destruct (list.last its) as [[o'|cp]|] eqn:Eits.
  - pose proof (sorted_last_le _ _ Hcov Hlast) as Hle. rewrite Forall_forall in Hle, Hpf, Hne.
    assert (o' ∈ cov) as Hino by by apply last_Some_elem_of in Hlast.
    rewrite (next_marker_object _ _ o' Eits).
    2: { intros cp (c & Hc & Hi)%elem_of_prefixes_of%Hin. transitivity (oi_Name c); [|by apply Hle].
         apply (item_prefix_le req); [by apply Hpf, Hsub|done]. }
    assert (v1_token (lr_Delimiter req) (oi_Name o') = oi_Name o' +:+ String "000" "") as ->.
    { unfold v1_token. destruct (String.eqb_spec (oi_Name o') ""); [by destruct (Hne o' (Hsub _ Hino))|].
      destruct (Hsuf o' eq_refl) as [E|E]; rewrite E; [done|]. by rewrite andb_false_r. }
    exists o'. split_and!; [by apply Hsub|apply prefix_le, prefix_app|]. apply (from_split cov); [done| |].
    + apply Forall_forall. intros c Hc. apply (str_le_lt_trans _ (oi_Name o')); [by apply Hle|]. by apply str_succ_nul.
    + apply str_succ_nul. rewrite Forall_forall in Hbefore. by apply Hbefore.
  - destruct Hlast as (Hno & c & Hc & Hci). pose proof (sorted_last_le _ _ Hcov Hc) as Hle.
    rewrite Forall_forall in Hle, Hpf, Hbefore.
    assert (c ∈ cov) as Hinc by by apply last_Some_elem_of in Hc.
    unfold item_of in Hci. destruct (common_prefix req _) as [cp'|] eqn:Ecp; [|done]. injection Hci as ->.
    destruct (common_prefix_suffix _ _ _ Ecp) as [Hdne Hsuffix].
    destruct (common_prefix_spec _ _ _ (Hpf _ (Hsub _ Hinc)) Ecp) as (Hcp & Hasc & Hiff).
    pose proof Hdel as Hdel'. destruct Hdel' as [Hd|?]; [|done]. specialize (Hasc Hd).
    assert (cp ≠ "") as Hcpne by (destruct Hasc as (q & b & -> & _); by destruct q).
    assert (∀ c', c' ∈ l → item_of req c' = Prefix cp ↔ String.prefix cp (oi_Name c') = true) as Hitem.
    { intros c' Hc'. rewrite <- Hiff by by apply Hpf. unfold item_of. destruct (common_prefix req (rest_of req (oi_Name c'))); split; congruence. }
    rewrite (next_marker_prefix _ _ cp Eits); [|done|].
    2: { intros o' (c' & Hc' & Hi')%elem_of_objects_of%Hin. pose proof (item_of_object _ _ _ Hi') as ->.
         apply str_nle. intros Hle'. assert (item_of req o' = Prefix cp) as Hx; [|congruence].
         apply Hitem; [by apply Hsub|]. eapply prefix_between; [exact Hle'|by apply Hle|done]. }
    assert (v1_token (lr_Delimiter req) cp = prefixSuccessor cp) as ->.
    { unfold v1_token. apply String.eqb_neq in Hcpne, Hdne. by rewrite Hcpne, Hdne, Hsuffix. }
    assert (oi_Name c <ₛ prefixSuccessor cp) as Hlt by (apply prefixSuccessor_spec; [done|by apply prefix_le|done]).
    exists c. split_and!; [by apply Hsub|by apply str_lt_le|]. apply (from_split cov); [done| |].
    + apply Forall_forall. intros c' Hc'. apply (str_le_lt_trans _ (oi_Name c)); [by apply Hle|done].
    + apply str_nlt. intros Hx. apply Hno. apply Hitem; [rewrite Hl; set_solver|].
      apply prefixSuccessor_spec; [done| |done]. transitivity (oi_Name c); [by apply prefix_le|by apply str_lt_le, Hbefore].
  - destruct Hlast as [Hcv _]. destruct cov as [|c cov]; [|by apply Forall_cons in Hcv as [(? & ? & _) _]].
    apply last_None in Eits as ->. cbn [app] in Hl. rewrite Hl in Hw. cbn [walk] in Hw.
    destruct (item_of req o); [|case_decide; [done|]]; by destruct (walk req _ k rest).
Qed.
End resume.

(** The [NextMarker] of a truncated page, given back as the marker, leaves exactly
    the objects to list that the page token of the store leaves, provided the last
    object of the page does not end in the delimiter itself. *)
Lemma marker_same n t req k tok0 its tok :
  map_Forall row_ok t → ascii_request req →
  walk req None (S k) (from tok0 (with_prefix n t req)) = (its, tok) → tok ≠ "" →
  (∀ o, list.last its = Some (Object o) → lr_Delimiter req = "" ∨ strings_HasSuffix (oi_Name o) (lr_Delimiter req) = false) →
  from (v1_token (lr_Delimiter req) (next_marker (page (its, tok)))) (with_prefix n t req) = from tok (with_prefix n t req).
Proof.
  intros Hrows [_ Hdel] Hw Htok Hsuf.
  assert (scannable n t) as Hscan by (intros name r Hr; by eapply row_ok_scans, Hrows).
  destruct (marker_resumes req (from tok0 (with_prefix n t req))) with (k := k) (its := its) (tok := tok)
    as (c & [Hc _]%list_elem_of_filter & Hle & Hfrom); try done.
  - apply from_sorted. by apply with_prefix_sorted.
  - apply Forall_from. by apply with_prefix_prefix.
  - apply Forall_from. by apply with_prefix_names.
  - rewrite from_from in Hfrom by (by transitivity (oi_Name c)). rewrite Hfrom. apply from_from.
    destruct (walk_token req None (S k) (from tok0 (with_prefix n t req))) as [E|(o & [Ho _]%list_elem_of_filter & E)];
      rewrite Hw in E; cbn in E; [done|by rewrite <- E].
Qed.

(** ** Clients of the listings

    [q] is the query of the first request; a client adds the cursor of the page
    before to it. *)
Definition list_request (q : Values) : request := mkRequest "GET" "" "" q ∅ ([], None) 0 false "localhost" [].

Definition v2_page (bucket : string) (q : Values) (token : string) : M Server (list string * list string * option string) :=
  let* resp := listObjects (list_request (<["continuation-token" := [token]]> q)) bucket in
  match resp with
  | Reply _ _ (Some (XListV2 p)) =>
    ret (co_Key <$> l2_Contents p, l2_CommonPrefixes p,
         if l2_IsTruncated p then Some (l2_NextContinuationToken p) else None)
  | _ => throw (Other [Lit "listing failed"])
  end.
Definition v2_list_all (fuel : nat) (bucket : string) (q : Values) : M Server (list string * list string) :=
  collect (v2_page bucket q) fuel "".

Definition v1_page (bucket : string) (q : Values) (marker : string) : M Server (list string * list string * option string) :=
  let* resp := listObjects (list_request (<["marker" := [marker]]> q)) bucket in
  match resp with
  | Reply _ _ (Some (XListV1 p)) =>
    ret (co_Key <$> l1_Contents p, l1_CommonPrefixes p, if l1_IsTruncated p then Some (l1_NextMarker p) else None)
  | _ => throw (Other [Lit "listing failed"])
  end.
Definition v1_list_all (fuel : nat) (bucket : string) (q : Values) : M Server (list string * list string) :=
  collect (v1_page bucket q) fuel (values_Get q "marker").

(** What a query asks for, cursors apart; names are not to be URL-encoded. *)
Record asks (q : Values) (req : ListRequest) : Prop := {
  asks_prefix : values_Get q "prefix" = lr_Prefix req;
  asks_delimiter : values_Get q "delimiter" = lr_Delimiter req;
  asks_plain : values_Get q "encoding-type" ≠ "url";
  asks_max : if String.eqb (values_Get q "max-keys") "" then lr_MaxResults req = 1000%Z
             else strconv_Atoi (values_Get q "max-keys") = (lr_MaxResults req, false);
}.

Lemma values_Get_insert q k k' v : values_Get (<[k := [v]]> q) k' = if decide (k = k') then v else values_Get q k'.
Proof. unfold values_Get. case_decide as E; [subst; by rewrite lookup_insert_eq|by rewrite lookup_insert_ne]. Qed.

Lemma asks_insert q k v req :
  k ∉ ["prefix"; "delimiter"; "encoding-type"; "max-keys"] → asks q req → asks (<[k := [v]]> q) req.
Proof.
  intros Hk []. rewrite !not_elem_of_cons in Hk. destruct Hk as (? & ? & ? & ? & _).
  split; rewrite ?values_Get_insert, !decide_False by done; done.
Qed.

(** The store's request behind a request for a page. *)
Definition page_token_of (q : Values) (delimiter : string) : string :=
  if String.eqb (values_Get q "list-type") "2"
  then v2_token (values_Get q "continuation-token") (values_Get q "start-after")
  else v1_token delimiter (values_Get q "marker").

(** What a response shows of a page of the store. *)
Definition shows (q : Values) (res : ListResult) (resp : response xml) : Prop :=
  let truncated := negb (String.eqb (NextPageToken res) "") in
  if String.eqb (values_Get q "list-type") "2" then
    ∃ p, resp = writeXML 200 (XListV2 p) ∧ co_Key <$> l2_Contents p = oi_Name <$> Objects res ∧
      l2_CommonPrefixes p = Prefixes res ∧ l2_IsTruncated p = truncated ∧ l2_NextContinuationToken p = NextPageToken res
  else
    ∃ p, resp = writeXML 200 (XListV1 p) ∧ co_Key <$> l1_Contents p = oi_Name <$> Objects res ∧
      l1_CommonPrefixes p = Prefixes res ∧ l1_IsTruncated p = truncated ∧
      l1_NextMarker p = (if truncated then next_marker res else "").

Section clients.
#[local] Set Default Proof Using "Type*".
Context (w0 : world) (n : string) (t : gmap string objectRow) (req : ListRequest).
Context (Hok0 : world_ok w0) (Ht : tables w0 n = Some t) (Hreq : ascii_request req).
Abbreviation page_from tok := (walk req None (Z.to_nat (max_results req)) (from tok (with_prefix n t req))).
Abbreviation running := (λ s, between w0 (store s)).
Abbreviation lost := (λ (o : outcome unit) s, page_failed w0 o (store s)).

Lemma listObjects_shows q s :
  asks q req → running s →
  wp (listObjects (list_request q) n) (λ o s',
    match o with
    | Ret resp =>
      (running s' ∧ shows q (page (page_from (page_token_of q (lr_Delimiter req)))) resp) ∨
      (lost (Err EOF) s' ∧ ∃ e, resp = writeStoreError e (bucket_resource n))
    | Crash => lost Crash s'
    | _ => False
    end) s.
Proof.
  intros [Hpre Hdel Henc Hmax] Hs. unfold listObjects. cbn [Query list_request]. cbv zeta.
  rewrite Hpre, Hdel. apply String.eqb_neq in Henc. rewrite Henc.
  assert (∃ m bad, strconv_Atoi (values_Get q "max-keys") = (m, bad) ∧
    negb (String.eqb (values_Get q "max-keys") "") && bad = false ∧
    (if String.eqb (values_Get q "max-keys") "" then 1000%Z else m) = lr_MaxResults req) as (m & bad & -> & -> & ->).
  { destruct (strconv_Atoi (values_Get q "max-keys")) as [m bad]. exists m, bad. split; [done|].
    destruct (String.eqb (values_Get q "max-keys") ""); [done|]. by simplify_eq. }
  set (tok := page_token_of q (lr_Delimiter req)).
  assert ((if String.eqb (values_Get q "list-type") "2"
    then v2_token (if String.eqb (values_Get q "list-type") "2" then values_Get q "continuation-token" else "")
           (if String.eqb (values_Get q "list-type") "2" then values_Get q "start-after" else "")
    else v1_token (lr_Delimiter req) (if String.eqb (values_Get q "list-type") "2" then "" else values_Get q "marker")) = tok) as ->.
  { unfold tok, page_token_of. by destruct (String.eqb (values_Get q "list-type") "2"). }
  change (mkListRequest (lr_Prefix req) (lr_Delimiter req) tok (lr_MaxResults req)) with (at_token req tok).
  eapply wp_bind_try_call; [by apply (page_at_token w0 n t req Hok0 Ht Hreq tok (store s))|..].
  - intros res w' [Hw' ->]. apply wp_ret. left. split; [done|]. unfold shows.
    destruct (String.eqb (values_Get q "list-type") "2"); eexists; (split; [done|]); cbn; rewrite list_fmap_id, <- list_fmap_compose; done.
  - intros e w' Hw'. apply wp_ret. right. split; [done|by exists e].
  - done.
Qed.

Lemma v2_token_of q c d :
  values_Get q "list-type" = "2" →
  page_token_of (<["continuation-token" := [c]]> q) d = v2_token c (values_Get q "start-after").
Proof. intros Hv. unfold page_token_of. rewrite !values_Get_insert. repeat case_decide; try done. by rewrite Hv. Qed.
Lemma v1_token_of q c d :
  values_Get q "list-type" ≠ "2" → page_token_of (<["marker" := [c]]> q) d = v1_token d c.
Proof. intros Hv%String.eqb_neq. unfold page_token_of. rewrite !values_Get_insert. repeat case_decide; try done. by rewrite Hv. Qed.

Lemma v2_page_ends q k c s :
  asks q req → values_Get q "list-type" = "2" → Z.to_nat (max_results req) = S k → running s →
  wp (v2_page n q c) (ends running lost
    (is_page n t req oi_Name (λ c, v2_token c (values_Get q "start-after")) (λ _, True) k c)) s.
Proof.
  intros Hq Hv Hk Hs. set (q' := <["continuation-token" := [c]]> q).
  assert (asks q' req) as Hq' by (apply asks_insert; [set_solver|done]).
  assert (String.eqb (values_Get q' "list-type") "2" = true) as Hv' by (unfold q'; rewrite values_Get_insert; by rewrite Hv).
  unfold v2_page. apply wp_bind. eapply wp_mono; [by apply (listObjects_shows q' s)|].
  intros [resp|e|x| |] s'; cbn [bind_post ends]; try done. fold q'.
  intros [[Hs' Hshow]|[Hl (e & ->)]]; [|by unfold writeStoreError; repeat case_match].
  rewrite (v2_token_of q c _ Hv : page_token_of q' _ = _) in Hshow. unfold shows in Hshow. rewrite Hv' in Hshow. destruct Hshow as (p & -> & Hkeys & Hpre & Htr & Hnext).
  cbn [writeXML]. apply wp_ret. split; [done|]. unfold is_page. rewrite Hkeys, Hpre, Htr, Hnext, Hk.
  destruct (walk req None (S k) _) as [its tok]. cbn [page Objects Prefixes NextPageToken fst snd]. split; [done|].
  destruct (String.eqb_spec tok "") as [|Hne]; [done|]. cbn [negb]. split_and!; [done..|].
  unfold v2_token. apply String.eqb_neq in Hne. by rewrite Hne.
Qed.

Lemma v1_page_ends q k c s :
  asks q req → values_Get q "list-type" ≠ "2" → Z.to_nat (max_results req) = S k → running s →
  (∀ o, o ∈ with_prefix n t req → item_of req o = Object o →
     lr_Delimiter req = "" ∨ strings_HasSuffix (oi_Name o) (lr_Delimiter req) = false) →
  wp (v1_page n q c) (ends running lost
    (is_page n t req oi_Name (v1_token (lr_Delimiter req)) (λ _, True) k c)) s.
Proof.
  intros Hq Hv Hk Hs Hsuf. set (q' := <["marker" := [c]]> q).
  assert (asks q' req) as Hq' by (apply asks_insert; [set_solver|done]).
  assert (String.eqb (values_Get q' "list-type") "2" = false) as Hv' by (unfold q'; rewrite values_Get_insert; by apply String.eqb_neq).
  unfold v1_page. apply wp_bind. eapply wp_mono; [by apply (listObjects_shows q' s)|].
  intros [resp|e|x| |] s'; cbn [bind_post ends]; try done. fold q'.
  intros [[Hs' Hshow]|[Hl (e & ->)]]; [|by unfold writeStoreError; repeat case_match].
  rewrite (v1_token_of q c _ Hv : page_token_of q' _ = _) in Hshow. unfold shows in Hshow. rewrite Hv' in Hshow. destruct Hshow as (p & -> & Hkeys & Hpre & Htr & Hnext).
  cbn [writeXML]. apply wp_ret. split; [done|]. unfold is_page. rewrite Hkeys, Hpre, Htr, Hnext, Hk.
  destruct (walk req None (S k) _) as [its tok] eqn:Ew. cbn [page Objects Prefixes NextPageToken fst snd]. split; [done|].
  destruct (String.eqb_spec tok "") as [|Hne]; [done|]. cbn [negb]. split_and!; [done..|].
  eapply marker_same; [by eapply bucket_rows|done..|]. intros o Ho.
  destruct (walk_stop _ _ _ _ _ _ Ew Hne) as (cov & o1 & rest & Hl & _ & Hin & _).
  destruct (Hin (Object o)) as (c' & Hc' & Hi); [by apply last_Some_elem_of|].
  pose proof (item_of_object _ _ _ Hi) as ->. apply Hsuf; [|done].
  assert (o ∈ from (v1_token (lr_Delimiter req) c) (with_prefix n t req)) as [_ ?]%list_elem_of_filter by (rewrite Hl; set_solver). done.
Qed.
End clients.

(** ** Properties *)

(** What a client of a listing ends with: the names of the whole listing, or an
    error or the death of the server that the environment caused. *)
Definition lists_all (s : Server) (n : string) (t : gmap string objectRow) (req : ListRequest)
    (o : outcome (list string * list string)) (s' : Server) : Prop :=
  same_tables (store s) (store s') ∧
  match o with
  | Ret (ks, ps) => ∃ os, ks = oi_Name <$> os ∧ whole_listing n t req os ps
  | Err _ | Crash => failing (store s)
  | _ => False
  end.

Lemma ends_lists_all s n t req (o : outcome (list string * list string)) s' :
  ends (λ s', between (store s) (store s')) (λ o s', page_failed (store s) o (store s'))
    (λ r, ∃ os, r.1 = oi_Name <$> os ∧ whole_listing n t req os r.2) o s' →
  lists_all s n t req o s'.
Proof.
  destruct o as [[ks ps]|e|x| |]; cbn [ends]; unfold lists_all, page_failed; try done; try tauto.
  intros [[_ [Hs _]] Hos]. done.
Qed.

(** C26: A client of ListObjectsV2 that passes on the continuation tokens, or one that
    starts after a name, gets the names of the whole listing, once and in order,
    when the prefix and the delimiter it asks for are empty or end in a byte below
    0x7f and it asks for no URL encoding. *)
Theorem v2_client_lists_all s n q req t fuel :
  reachable (store s) → tables (store s) n = Some t → ascii_request req → size t < fuel →
  asks q req → values_Get q "list-type" = "2" → lr_PageToken req = v2_token "" (values_Get q "start-after") →
  wp (v2_list_all fuel n q) (lists_all s n t req) s.
Proof.
  intros Hr%reachable_ok Ht Hreq Hfuel Hq Hv Htok. destruct (max_results_pos req) as [k Hk].
  eapply wp_mono; [eapply (wp_collect_all (store s) n t req Hr Ht Hreq _ oi_Name (λ c, v2_token c (values_Get q "start-after")) (λ _, True) _ _ k)|].
  - intros c s' _. by apply v2_page_ends.
  - done.
  - split; [done|apply kept_refl].
  - done.
  - done.
  - intros o s'. apply ends_lists_all.
Qed.

(** A client of ListObjects V1 that passes on [NextMarker] gets the names of the
    whole listing, once and in order, unless an object that is listed under its own
    name ends in the delimiter. *)
Theorem v1_client_lists_all s n q req t fuel :
  reachable (store s) → tables (store s) n = Some t → ascii_request req → size t < fuel →
  asks q req → values_Get q "list-type" ≠ "2" → lr_PageToken req = v1_token (lr_Delimiter req) (values_Get q "marker") →
  (∀ o, o ∈ with_prefix n t req → item_of req o = Object o →
     lr_Delimiter req = "" ∨ strings_HasSuffix (oi_Name o) (lr_Delimiter req) = false) →
  wp (v1_list_all fuel n q) (lists_all s n t req) s.
Proof.
  intros Hr%reachable_ok Ht Hreq Hfuel Hq Hv Htok Hsuf. destruct (max_results_pos req) as [k Hk].
  eapply wp_mono; [eapply (wp_collect_all (store s) n t req Hr Ht Hreq _ oi_Name (v1_token (lr_Delimiter req)) (λ _, True) _ _ k)|].
  - intros c s' _ Hs. by apply v1_page_ends.
  - done.
  - split; [done|apply kept_refl].
  - done.
  - done.
  - intros o s'. apply ends_lists_all.
Qed.

(** A folder with two objects and one beside it, listed a key at a time. *)
Definition with_folder : world :=
  after (OpPutObject "photos" "c" ([sample_text], None) sample_opts)
    (after (OpPutObject "photos" "a/c" ([sample_text], None) sample_opts) w_object).

Lemma reachable_with_folder : reachable with_folder.
Proof. do 2 (apply reachable_after; [|exact I|by_running]). apply reachable_object. Qed.

Definition one_by_one (version : string) : Values :=
  <["delimiter" := ["/"]]> (<["max-keys" := ["1"]]> {["list-type" := [version]]}).
Definition one_by_one_req : ListRequest := mkListRequest "" "/" "" 1.

Lemma asks_one_by_one version : asks (one_by_one version) one_by_one_req.
Proof. split; try by_running. vm_compute. discriminate. Qed.
Lemma ascii_one_by_one : ascii_request one_by_one_req.
Proof. split; [by right|left]. exists "", "/"%char. split; reflexivity. Qed.

Lemma folder_table : ∃ t, tables with_folder "photos" = Some t ∧ size t < 9.
Proof.
  assert ((λ t, Nat.ltb (size t) 9) <$> tables with_folder "photos" = Some true) as Ht by by_running.
  destruct (tables with_folder "photos") as [t|]; [|exfalso; cbn in Ht; discriminate Ht].
  exists t. split; [reflexivity|]. by apply (inj Some), Nat.ltb_lt in Ht.
Qed.

Lemma v2_client_lists_all_witness :
  ∃ t, lists_all (NewServer with_folder) "photos" t one_by_one_req
    (Ret (["c"], ["a/"])) (v2_list_all 9 "photos" (one_by_one "2") (NewServer with_folder)).2.
Proof.
  destruct folder_table as (t & Et & Ht). exists t.
  assert ((v2_list_all 9 "photos" (one_by_one "2") (NewServer with_folder)).1 = Ret (["c"], ["a/"])) as E by by_running.
  rewrite <- E.
  exact (v2_client_lists_all (NewServer with_folder) "photos" (one_by_one "2") one_by_one_req t 9
    reachable_with_folder Et ascii_one_by_one Ht (asks_one_by_one "2") eq_refl eq_refl).
Defined.

Lemma v1_client_lists_all_witness :
  ∃ t, lists_all (NewServer with_folder) "photos" t one_by_one_req
    (Ret (["c"], ["a/"])) (v1_list_all 9 "photos" (one_by_one "1") (NewServer with_folder)).2.
Proof.
  destruct folder_table as (t & Et & Ht). exists t.
  assert ((v1_list_all 9 "photos" (one_by_one "1") (NewServer with_folder)).1 = Ret (["c"], ["a/"])) as E by by_running.
  rewrite <- E.
  refine (v1_client_lists_all (NewServer with_folder) "photos" (one_by_one "1") one_by_one_req t 9
    reachable_with_folder Et ascii_one_by_one Ht (asks_one_by_one "1") _ eq_refl _); [discriminate|].
  intros o _ Hi. right. destruct (strings_HasSuffix (oi_Name o) (lr_Delimiter one_by_one_req)) eqn:Es; [exfalso|reflexivity].
  destruct (suffix_found _ _ Es) as [i Ei]. cbn in Ei. unfold item_of, common_prefix, rest_of in Hi. cbn in Hi.
  rewrite Ei in Hi. discriminate Hi.
Defined.

(** Two objects, one of them the directory marker of the other. *)
Definition with_marker : world :=
  after (OpPutObject "photos" "a/b" ([sample_text], None) sample_opts)
    (after (OpPutObject "photos" "a/" ([sample_text], None) sample_opts) w_bucket).

Lemma reachable_with_marker : reachable with_marker.
Proof. do 2 (apply reachable_after; [|exact I|by_running]). apply reachable_bucket. Qed.

(** A page of the V1 listing, one key per page. *)
Definition v1_request (marker : string) : request :=
  mkRequest "GET" "/photos" "/photos"
    (<["prefix" := ["a/"]]> (<["delimiter" := ["/"]]> (<["max-keys" := ["1"]]> {["marker" := [marker]]})))
    ∅ ([], None) 0 false "localhost" [].

Definition marker_page (marker : string) (s : Server) : option (list string * string * bool) :=
  match (listObjects (v1_request marker) "photos" s).1 with
  | Ret (Reply _ _ (Some (XListV1 r))) => Some (co_Key <$> l1_Contents r, l1_NextMarker r, l1_IsTruncated r)
  | _ => None
  end.

(** The V1 listing of a "directory" that starts with its own marker object, one
    key per page: the first page shows the marker and points to it, and the page
    after that is empty and the last; the other object is never listed. *)
Theorem v1_marker_skips_objects :
  reachable with_marker ∧
  match tables with_marker "photos" with Some t => is_some (t !! "a/b") | None => false end = true ∧
  marker_page "" (NewServer with_marker) = Some (["a/"], "a/", true) ∧
  marker_page "a/" (NewServer with_marker) = Some ([], "", false).
Proof. split; [apply reachable_with_marker|]. split_and!; by_running. Qed.
