(* ===== verification/S3Copy.v ===== *)
(** CopyObject of the S3 front end: the copy has the bytes that the source had,
    or nothing has changed. *)

From S2P Require Import Prelude Errors GoMonad GoStd GoNet Types Names Hash Json JsonProofs Database World Bucket Store BlobWriter StoreInv Triple StoreSafe StoreOps ObjectOps WriterOps Listing ListingSpec Run Refine Samples StoreProps.
From S2P Require Import AwsChunked S3Types S3 S3Multipart S3Props.
From stdpp Require Import options.

(** The type and metadata of the copy: those of the source, unless the request
    replaces them. *)
Definition copy_options (r : request) (src : ObjectInfo) : PutOptions :=
  if strings_EqualFold (header_Get (rHeader r) "x-amz-metadata-directive") "REPLACE"
  then mkPutOptions (header_Get (rHeader r) "Content-Type") (metadataFromHeaders (rHeader r)) noConditions
  else mkPutOptions (oi_ContentType src) (oi_Metadata src) noConditions.

(** The object [key] is now a copy of what [sb]/[sk] was. *)
Definition copied (s : Server) (r : request) (sb sk bucket key : string) (oi : ObjectInfo) (s' : Server) : Prop :=
  ∃ src c, has_object (store s) sb sk src ∧ sha_hex c = oi_SHA256 src ∧
    wrote bucket key c (copy_options r src) oi (store s) (store s').

Definition copy_reply (oi : ObjectInfo) : response xml :=
  writeXML 200 (XCopyObject (mkCopyObject (etagFor oi) (iso8601 (oi_Updated oi)))).

(** How a copy may end. *)
Definition copy_outcome (s : Server) (r : request) (sb sk bucket key : string) (o : outcome (response xml)) (s' : Server) : Prop :=
  let unchanged := same_tables (store s) (store s') in
  match o with
  | Ret resp =>
    calm (store s) (store s') ∧
    ((∃ oi, resp = copy_reply oi ∧ copied s r sb sk bucket key oi s') ∨
     (∃ st, response_status resp = Some st ∧ (400 ≤ st)%Z ∧ unchanged))
  | Crash => failing (store s) ∧ (unchanged ∨ ∃ oi, copied s r sb sk bucket key oi s')
  | _ => False
  end.

Lemma copy_outcome_post s r sb sk bucket key o s1 s2 :
  same_tables (store s1) (store s2) → calm (store s1) (store s2) → copy_outcome s r sb sk bucket key o s1 → copy_outcome s r sb sk bucket key o s2.
Proof.
  intros Hs Hcalm. assert (∀ oi, copied s r sb sk bucket key oi s1 → copied s r sb sk bucket key oi s2) as Hc.
  { intros oi (src & c & ? & ? & ?). exists src, c. split_and!; [done..|by eapply wrote_post]. }
  assert (same_tables (store s) (store s1) → same_tables (store s) (store s2)) as Hu by (intros ?; by eapply same_tables_trans).
  destruct o as [resp|e|x| |]; cbn; try done.
  - intros [Hc1 Hend]. split; [by eapply calm_trans|].
    destruct Hend as [(oi & -> & ?)|(st & ? & ? & ?)]; [left; exists oi; auto|right; exists st; auto].
  - intros [? [?|(oi & ?)]]; (split; [done|]); [left; auto|right; exists oi; auto].
Qed.

(** Closing a file changes no table, whatever comes of it. *)
Lemma file_Close_ends w :
  wp file_Close (λ o w', same_tables w w' ∧ calm w w' ∧ match o with Ret _ => True | Err _ | Crash => failing w | _ => False end) w.
Proof.
  unfold file_Close, syscall. apply wp_external.
  - intros fs Hfs. by split_and!.
  - intros fs m keep Hw. unfold calm. split_and!; [done|by intros ?|done].
  - intros fs m keep Hw. unfold calm. split_and!; [done|by intros ?|done].
Qed.

Lemma file_reader_ends w i c :
  files w !! i = Some c →
  wp (file_reader i) (λ o w', ∃ fs, w' = set_faults fs w ∧ (faults w = [] → fs = []) ∧
    match o with
    | Ret body => body.2 = None → concat body.1 = c
    | Crash => failing w
    | _ => False
    end) w.
Proof.
  intros Hc. unfold wp, file_reader, file_content. rewrite Hc. cbn [default from_option].
  destruct (faults w) as [|[|m|m] fs] eqn:E; cbn [fst snd].
  - exists []. split_and!; [by destruct w; cbn in *; subst|done|]. intros _. cbn. by rewrite app_nil_r.
  - exists fs. split_and!; [done..|]. intros _. cbn. by rewrite app_nil_r.
  - by exists fs.
  - exists fs. split_and!; [done..|]. unfold failing. by rewrite E.
Qed.

(** Copying the content of an open file. *)
Lemma copy_body_ends s w1 r sb sk bucket key src f c :
  world_ok w1 → kept (store s) w1 → has_object (store s) sb sk src → files w1 !! f = Some c → sha_hex c = oi_SHA256 src →
  wp (let* body := call (file_reader f) in
      let* res := try (call (PutObject bucket key body (copy_options r src))) in
      match res with
      | inl err => ret (writeStoreError err (resource bucket key))
      | inr info => ret (copy_reply info)
      end) (copy_outcome s r sb sk bucket key) (set_store w1 s).
Proof.
  intros Hok1 Hk Hsrc Hf Hsha. pose proof (kept_calm _ _ Hk) as Hcalm. destruct Hk as (Hs1 & _).
  apply wp_bind, wp_zoom. eapply wp_mono; [by apply (file_reader_ends w1 f c)|].
  intros o w' (fs & -> & Hfs & Ho).
  assert (calm (store s) (set_faults fs w1)) as Hcf by (intros E; by apply Hfs, Hcalm). destruct o as [body|e|x| |]; cbn [bind_post]; try done.
  - apply (world_ok_faults fs) in Hok1. eapply wp_bind_try_call; [by apply (triple_PutObject_complete (set_faults fs w1) bucket key body (copy_options r src))|..].
    + intros oi w2 (_ & Hc2 & Hch & t & t' & Ht & Ht' & Hend & Hcm). apply wp_ret.
      split; [exact (calm_trans _ _ _ Hcf Hc2)|]. left. exists oi. split; [done|].
      rewrite (Ho Hend) in *. exists src, c. split_and!; [done..|]. eapply wrote_pre; [exact Hs1|].
      eapply (commits_wrote _ _ _ _ _ (set_faults fs w1)); [|done..].
      eapply changed_mono; [|exact Hch]. by intros ?? [_ ?].
    + intros e w2 (_ & Hs2 & Hc2 & _). apply wp_ret. split; [exact (calm_trans _ _ _ Hcf Hc2)|]. right. destruct (writeStoreError_status e (resource bucket key)) as (st & ? & ?).
      exists st. split_and!; [done..|]. by eapply same_tables_trans.
    + intros w2 (_ & Hch & Hfail). split; [by apply (calm_failing _ _ Hcf)|].
      destruct (changed_wrote _ _ _ _ _ _ (changed_mono _ _ (λ t t', ∃ oi, commits bucket key (concat body.1) (copy_options r src) oi t t') _ _ (λ _ _ H, proj2 H) Hch)) as [Hs2|(oi & Hw)].
      { left. by eapply same_tables_trans. }
      destruct body.2 eqn:Hend.
      * left. eapply same_tables_trans; [exact Hs1|]. intros m. destruct (Hch m) as [?|(_ & t & t' & _ & _ & [=] & _)]; done.
      * right. rewrite (Ho eq_refl) in Hw. exists oi, src, c. split_and!; [done..|]. eapply wrote_pre; [exact Hs1|exact Hw].
  - split; [by apply (calm_failing _ _ Hcalm)|]. by left.
Qed.

(** C16: Copying an object stores the bytes that the source had, under its type and
    metadata or those of the request, and answers 200; or it changes no object and
    answers an error. When the server dies in the middle the one or the other has
    happened. *)
Theorem s3_copy_copies s r sb sk bucket key :
  reachable (store s) → parseCopySource (header_Get (rHeader r) "x-amz-copy-source") = inr (sb, sk) →
  wp (copyObject r bucket key) (copy_outcome s r sb sk bucket key) s.
Proof.
  intros Hr%reachable_ok Hsrc. unfold copyObject. rewrite Hsrc.
  eapply wp_bind_try_call; [by apply (triple_OpenObject (store s) sb sk)|..].
  - intros [src f] w1 (Hok1 & Hk & Hobj & c & Hc & Hsha). apply wp_defer.
    eapply wp_mono; [by eapply (copy_body_ends s w1 r sb sk bucket key src f c)|].
    intros o s1 Ho. assert (wp (ignore (call file_Close)) (λ o2 s2, copy_outcome s r sb sk bucket key (outcome_cast o2 (λ _, o)) s2) s1 ∨ o = Crash) as Hcl.
    { destruct o as [resp|e|x| |]; [left|done..|by right]. apply wp_ignore, wp_zoom.
      eapply wp_mono; [apply file_Close_ends|]. intros [a|e|x| |] w2 (Hs2 & Hc2 & Hf2); cbn [outcome_cast]; try done.
      - by apply (copy_outcome_post _ _ _ _ _ _ _ s1).
      - by apply (copy_outcome_post _ _ _ _ _ _ _ s1).
      - destruct Ho as [Hc1 Hend]. split; [by apply (calm_failing _ _ Hc1)|].
        destruct Hend as [(oi & _ & src' & c' & ? & ? & ?)|(st & _ & _ & Hun)]; [right|left; by eapply same_tables_trans].
        exists oi, src', c'. split_and!; [done..|by eapply wrote_post]. }
    destruct o; by destruct Hcl.
  - intros e w' (_ & Hs & Hc & _). apply wp_ret. split; [done|]. right. destruct (writeStoreError_status e (resource sb sk)) as (st & ? & ?). by exists st.
  - intros w' (_ & Hs & Hf). split; [done|by left].
Qed.

Definition copy_request : request :=
  sample_request "PUT" {["X-Amz-Copy-Source" := ["/photos/a%2Fb.txt"]]} ∅ ([], None).

Lemma s3_copy_copies_witness :
  ∃ oi s1, copyObject copy_request "photos" "copy" s_object = (Ret (copy_reply oi), s1) ∧
    copied s_object copy_request "photos" "a/b.txt" "photos" "copy" oi s1.
Proof.
  assert ((λ o, match o with Ret r => response_status r | _ => None end)
    (copyObject copy_request "photos" "copy" s_object).1 = Some 200%Z) as Hst by by_running.
  assert (parseCopySource (header_Get (rHeader copy_request) "x-amz-copy-source") = inr ("photos", "a/b.txt")) as Hsrc by by_running.
  pose proof (s3_copy_copies s_object copy_request "photos" "a/b.txt" "photos" "copy" reachable_object Hsrc) as H.
  unfold wp in H. destruct (copyObject copy_request "photos" "copy" s_object) as [o s1].
  destruct o as [resp|e|x| |]; [|exfalso; cbn in Hst; discriminate Hst..].
  destruct H as [_ [(oi & Hresp & Hc)|(st & Hst' & Hle & _)]].
  - exists oi, s1. cbn [fst] in Hresp. rewrite Hresp. exact (conj eq_refl Hc).
  - exfalso. cbn [fst] in Hst, Hst'. rewrite Hst in Hst'. injection Hst' as <-. lia.
Defined.
