(* ===== verification/Uploads.v ===== *)
(** The requests of multipart uploads as programs that lock the mutexes of
    [pkg/s3/multipart.go]: [s.mu] of the server, around each use of its table of
    uploads, and [up.mu] of an upload; completing an upload takes [s.mu] while it
    holds [up.mu].  The calls of the store, which locks mutexes of its own, are
    steps here. *)

From S2P Require Import Prelude Errors GoMonad GoStd GoNet Types Names Hash Database World Bucket Store BlobWriter StoreInv Triple StoreSafe StoreOps ObjectOps WriterOps Listing Run Refine.
From S2P Require Import AwsChunked S3Types S3 S3Multipart Multipart Frame Pool.
From stdpp Require Import options.

(** ** The handlers, step by step *)
(** [s.mu], and [up.mu] of the upload behind a pointer. *)
Definition server_mu : nat := 0.
Definition upload_mu (p : nat) : nat := S p.

(** A request is answered over HTTP; a call of the store, made by some other
    handler, returns its outcome. *)
Inductive reply :=
  | Http (resp : response xml)
  | Returned (o : outcome unit).

Abbreviation request_prog := (prog Server reply).
Definition respond (resp : response xml) : request_prog := Answer (Http resp).

(** [s.lookupUpload(w, r, bucket, key)]; what it reads of the upload never
    changes. *)
Definition lookup_prog (r : request) (bucket key : string) (k : nat → request_prog) : request_prog :=
  let refuse := respond (no_such_upload "The specified upload does not exist." bucket key) in
  Lock server_mu (Call (gets (λ s, uploads s !! values_Get (Query r) "uploadId")) (λ up, Unlock server_mu (
  match up with
  | None => refuse
  | Some p =>
    Call (load_upload p) (λ up,
    if negb (String.eqb (up_bucket up) bucket) || negb (String.eqb (up_key up) key) then refuse else k p)
  end))).

(** [s.mu.Lock(); delete(s.uploads, uploadID); s.mu.Unlock()]. *)
Definition forget_prog (uploadID : string) (k : request_prog) : request_prog :=
  Lock server_mu (Call (modify (set_uploads (delete uploadID))) (λ _, Unlock server_mu k)).

(** The end of [uploadPart]. *)
Definition attach_prog (p : nat) (partNumber : Z) (part : stagedPart) (bucket key : string) : request_prog :=
  Lock (upload_mu p) (Call (load_upload p) (λ up,
    if up_done up then
      Unlock (upload_mu p) (Call (ignore (call (os_Remove (sp_path part)))) (λ _,
        respond (no_such_upload "upload already completed" bucket key)))
    else
      Call (match up_parts up !! partNumber with
            | Some prev => ignore (call (os_Remove (sp_path prev)))
            | None => ret tt
            end) (λ _,
      Call (modify (set_heap (alter (add_part partNumber part) p))) (λ _,
      Unlock (upload_mu p) (respond (Reply 200 [("Etag", etag (sp_md5 part))] None)))))).

(** The staging of a part: nobody else knows of its file until it is attached. *)
Definition stage (bucket : string) (body : reader) : M world (error + (error + stagedPart)) :=
  let* res := try (TempFile bucket) in
  match res with
  | inl err => ret (inl err)
  | inr (tmp, ino) => let* res := stage_part tmp ino body in ret (inr res)
  end.

Definition uploadPart_prog (r : request) (bucket key : string) : request_prog :=
  lookup_prog r bucket key (λ p,
    let '(partNumber, bad) := strconv_Atoi (values_Get (Query r) "partNumber") in
    if bad || (partNumber <? 1)%Z || (10000 <? partNumber)%Z then
      respond (writeS3Error 400 "InvalidArgument" [Lit "invalid partNumber"] (resource bucket key))
    else
      Call (call (stage bucket (requestBody r))) (λ res,
      match res with
      | inl err => respond (writeStoreError err (resource bucket key))
      | inr (inl err) => respond (writeS3Error 500 "InternalError" (Error err) (resource bucket key))
      | inr (inr part) => attach_prog p partNumber part bucket key
      end)).

(** One part is appended to the writer; [Some e] is the error. *)
Definition append_part (wp : nat) (part : option stagedPart) : M world (option error) :=
  match part with
  | None => panic [Lit "invalid memory address or nil pointer dereference"]
  | Some part =>
    let* f := try (os_Open (sp_path part)) in
    match f with
    | inl e => ret (Some e)
    | inr i =>
      let* body := file_reader i in
      let* ' (_, err) := io_Copy wp body.1 body.2 0 in
      do* ignore file_Close in
      ret err
    end
  end.

Fixpoint append_prog (wp : nat) (parts : completeRequest) (staged : gmap Z stagedPart)
    (k : option error → request_prog) : request_prog :=
  match parts with
  | [] => k None
  | reqPart :: parts =>
    Call (call (append_part wp (staged !! cp_PartNumber reqPart))) (λ err,
    match err with
    | Some e => k (Some e)
    | None => append_prog wp parts staged k
    end)
  end.

(** The end of [completeMultipartUpload]; the deferred [up.mu.Unlock()] runs
    when the handler has written its answer. *)
Definition complete_locked (p : nat) (uploadID : string) (parts : completeRequest) (bucket key : string) : request_prog :=
  let finish resp := Unlock (upload_mu p) (respond resp) in
  Lock (upload_mu p) (Call (load_upload p) (λ up,
  if up_done up then finish (no_such_upload "upload already completed" bucket key)
  else
    match check_parts parts (up_parts up) with
    | Some message => finish (writeS3Error 400 "InvalidPart" message (resource bucket key))
    | None =>
      Call (try (call (NewBlobWriter bucket))) (λ res,
      match res with
      | inl err => finish (writeStoreError err (resource bucket key))
      | inr wp =>
        append_prog wp parts (up_parts up) (λ failed,
        match failed with
        | Some err =>
          Call (call (Abort_ wp)) (λ _, finish (writeS3Error 500 "InternalError" (Error err) (resource bucket key)))
        | None =>
          Call (try (call (Commit wp key (mkPutOptions (up_contentType up) (up_metadata up) noConditions)))) (λ res,
          match res with
          | inl err => finish (writeStoreError err (resource bucket key))
          | inr info =>
            Call (modify (set_heap (alter set_up_done p))) (λ _,
            Call (removePartsLocked p) (λ _,
            forget_prog uploadID (
            finish (writeXML 200 (XComplete (mkComplete (resource bucket key) bucket key (etagFor info)))))))
          end)
        end)
      end)
    end)).

Definition complete_prog `{XmlDecoder} (r : request) (bucket key : string) : request_prog :=
  lookup_prog r bucket key (λ p,
    match Decode_complete (Body r) with
    | inl err => respond (writeS3Error 400 "MalformedXML" (Error err) (resource bucket key))
    | inr parts =>
      if match parts with [] => true | _ => false end then
        respond (writeS3Error 400 "InvalidRequest" [Lit "no parts specified"] (resource bucket key))
      else if negb (parts_sorted parts) then
        respond (writeS3Error 400 "InvalidPartOrder" [Lit "The list of parts was not in ascending order."] (resource bucket key))
      else complete_locked p (values_Get (Query r) "uploadId") parts bucket key
    end).

Definition abort_prog (r : request) (bucket key : string) : request_prog :=
  lookup_prog r bucket key (λ p,
    Lock (upload_mu p) (
    Call (modify (set_heap (alter set_up_done p))) (λ _,
    Call (removePartsLocked p) (λ _,
    Unlock (upload_mu p) (
    forget_prog (values_Get (Query r) "uploadId") (
    respond (writeHeader 204))))))).

Definition initiate_prog (r : request) (bucket key : string) : request_prog :=
  Call (try (call (GetBucket bucket))) (λ res,
  match res with
  | inl err => respond (writeStoreError err (bucket_resource bucket))
  | inr _ =>
    let uploadID := hex_EncodeToString (random r) in
    Lock server_mu (
    Call (register uploadID (mkMultipartUpload bucket key (header_Get (rHeader r) "Content-Type")
                               (metadataFromHeaders (rHeader r)) ∅ false)) (λ _,
    Unlock server_mu (
    respond (writeXML 200 (XInitiate (mkInitiate bucket key uploadID))))))
  end).

(** A call of the store that another handler makes, and that works on no
    writer.  (A panic ends that handler, and [net/http] recovers it.) *)
Definition observe {A} (m : M world A) : M world (outcome A) := λ w,
  match m w with (Crash, w') => (Crash, w') | (o, w') => (Ret o, w') end.
Definition store_prog (o : op) : request_prog := Call (call (observe (exec o))) (λ out, Answer (Returned out)).

(** *** A request that runs alone is its handler *)

Lemma call_bind {A B} (m : M world A) (f : A → M world B) s :
  call (bind m f) s = bind (call m) (λ a, call (f a)) s.
Proof. unfold call, zoom, bind. destruct (m (store s)) as [[] w']; by destruct s. Qed.
Lemma call_try {A} (m : M world A) s : call (try m) s = try (call m) s.
Proof. unfold call, zoom, try. by destruct (m (store s)) as [[] w']. Qed.
Lemma call_ret {A} (a : A) s : call (ret a) s = ret a s.
Proof. by destruct s. Qed.

Lemma stage_run {B} bucket body (f : error + (error + stagedPart) → M Server B) s :
  bind (call (stage bucket body)) f s =
  (let* res := try (call (TempFile bucket)) in
   match res with
   | inl err => f (inl err)
   | inr (tmp, ino) => let* res := call (stage_part tmp ino body) in f (inr res)
   end) s.
Proof.
  unfold bind at 1. unfold stage. rewrite call_bind. unfold bind, try, call, zoom.
  destruct (TempFile bucket (store s)) as [[[tmp ino]|e|x| |] w]; cbn; try done.
  by destruct (stage_part tmp ino body w) as [[] w'].
Qed.

(** A handler, as a request sees it. *)
Definition https (m : handler) : M Server reply := let* resp := m in ret (Http resp).

Lemma https_bind {A} (m : M Server A) (f : A → handler) s : https (bind m f) s = bind m (λ a, https (f a)) s.
Proof. unfold https. by rewrite bind_assoc. Qed.
(** A step of a handler is a step of its program. *)
Lemma https_step {A} (m : M Server A) (f : A → handler) (k : A → M Server reply) s :
  (∀ a s, k a s = https (f a) s) → bind m k s = https (bind m f) s.
Proof. intros Hk. rewrite https_bind. by apply bind_ext. Qed.

Lemma lookup_run r n key k (f : nat → handler) s :
  (∀ p s, run (k p) s = https (f p) s) →
  run (lookup_prog r n key k) s =
  https (let* up := lookupUpload r n key in match up with inl resp => ret resp | inr p => f p end) s.
Proof.
  intros Hk. unfold lookup_prog, lookupUpload. cbn [run]. unfold https, bind, gets, get.
  destruct (uploads s !! values_Get (Query r) "uploadId") as [p|]; [|done]. cbn [run]. unfold bind.
  destruct (load_upload p s) as [[up|?|?| |] s1]; try done.
  destruct (negb (String.eqb (up_bucket up) n) || negb (String.eqb (up_key up) key)); [done|]. cbn [ret]. apply Hk.
Qed.

Lemma attach_prog_run p k part bucket key s : run (attach_prog p k part bucket key) s = https (attach_part p k part bucket key) s.
Proof.
  cbn [attach_prog run]. apply https_step. clear s. intros up s. destruct (up_done up); cbn [run].
  - apply https_step. done.
  - rewrite https_bind. destruct (up_parts up !! k); (apply bind_ext; [done|]; intros _ s1; by apply https_step).
Qed.

Lemma append_parts_cons wp q parts staged w :
  append_parts wp (q :: parts) staged w =
  (let* err := append_part wp (staged !! cp_PartNumber q) in
   match err with Some e => ret (Some e) | None => append_parts wp parts staged end) w.
Proof.
  cbn [append_parts]. unfold append_part. destruct (staged !! cp_PartNumber q) as [part|]; [|done].
  unfold bind, try. destruct (os_Open (sp_path part) w) as [[i|e|x| |] w1]; try done.
  destruct (file_reader i w1) as [[[ps e]|e|x| |] w2]; try done. cbn [fst snd].
  destruct (io_Copy wp ps e 0 w2) as [[[n err]|e'|x| |] w3]; try done.
  by destruct (ignore file_Close w3) as [[] w4].
Qed.

Lemma call_ext {A} (m m' : M world A) s : m (store s) = m' (store s) → call m s = call m' s.
Proof. unfold call, zoom. by intros ->. Qed.

Lemma append_prog_run wp parts staged k f :
  (∀ r s, run (k r) s = https (f r) s) →
  ∀ s, run (append_prog wp parts staged k) s = https (bind (call (append_parts wp parts staged)) f) s.
Proof.
  intros Hk. induction parts as [|q parts IH]; intros s; cbn [append_prog run].
  { rewrite Hk, https_bind. unfold bind. cbn [append_parts]. rewrite call_ret. by destruct s. }
  rewrite https_bind. etrans; [|symmetry; apply bind_ext; [by apply call_ext, append_parts_cons|done]].
  etrans; [|symmetry; apply bind_ext; [apply call_bind|done]]. rewrite bind_assoc.
  apply bind_ext; [done|]. intros [e|] s1; [|rewrite IH; apply https_bind]. rewrite Hk. unfold bind. by rewrite call_ret.
Qed.

(** One handler after the other: without interference a request does what its
    handler does. *)
Lemma uploadPart_run r n key s : run (uploadPart_prog r n key) s = https (uploadPart r n key) s.
Proof.
  apply lookup_run. clear s. intros p s.
  destruct (strconv_Atoi (values_Get (Query r) "partNumber")) as [k bad].
  destruct (bad || (k <? 1)%Z || (10000 <? k)%Z); [done|]. cbn [run]. rewrite stage_run.
  apply https_step. clear s. intros [e|[tmp ino]] s; [done|]. apply https_step. clear s.
  intros [e|part] s; [done|]. apply attach_prog_run.
Qed.

Lemma complete_run `{XmlDecoder} r n key s : run (complete_prog r n key) s = https (completeMultipartUpload r n key) s.
Proof.
  apply lookup_run. clear s. intros p s.
  destruct (Decode_complete (Body r)) as [e|parts]; [done|].
  destruct (match parts with [] => true | _ => false end); [done|].
  destruct (negb (parts_sorted parts)); [done|].
  cbn [complete_locked run]. apply https_step. clear s. intros up s. destruct (up_done up); [done|].
  destruct (check_parts parts (up_parts up)); [done|]. cbn [run].
  apply https_step. clear s. intros [e|wp] s; [done|]. apply append_prog_run. clear s. intros [e|] s.
  - cbn [run]. by apply https_step.
  - cbn [run]. apply https_step. clear s. intros [e|oi] s; [done|]. cbn [forget_prog run].
    do 3 (apply https_step; clear s; intros ? s). done.
Qed.

Lemma abort_run r n key s : run (abort_prog r n key) s = https (abortMultipartUpload r n key) s.
Proof. apply lookup_run. clear s. intros p s. cbn [run forget_prog]. do 3 (apply https_step; clear s; intros ? s). done. Qed.

Lemma initiate_run r n key s : run (initiate_prog r n key) s = https (initiateMultipartUpload r n key) s.
Proof. cbn [initiate_prog run]. apply https_step. clear s. intros [e|b] s; [done|]. cbn [run]. by apply https_step. Qed.

Lemma store_run o s : run (store_prog o) s = bind (call (observe (exec o))) (λ out, ret (Returned out)) s.
Proof. done. Qed.
