(* ===== verification/UploadOps.v ===== *)
(** What the steps of an upload's requests do to the files of its parts, in any
    environment: staging a part, removing part files, appending a part to the
    writer of the object; and that each touches no other file or writer. *)

From S2P Require Import Prelude Errors GoMonad GoStd GoNet Types Names Hash Database World Bucket Store BlobWriter StoreInv Triple StoreSafe StoreOps ObjectOps WriterOps Listing Run Frame Refine.
From S2P Require Import AwsChunked S3Types S3 S3Multipart PartOps S3Copy Uploads.
From stdpp Require Import options.

(** ** Frames *)
Section frames.
Context (X : gset nat) (w0 : world).
Abbreviation frames m := (yields (touches X w0) m (λ _, True)).

Lemma frames_copy_hashing i e ps : mine X w0 i → ∀ z h, frames (copy_hashing i ps e z h).
Proof.
  intros Hi. induction ps as [|[|a q] ps IH]; intros z h; cbn [copy_hashing]; repeat frame_step; try apply IH.
  by apply yields_file_Write.
Qed.
Lemma frames_stage_part p i body : mine X w0 i → frames (stage_part p i body).
Proof. intros Hi. unfold stage_part. repeat frame_step. by apply frames_copy_hashing. Qed.
(** The file of a part that is staged is new. *)
Definition new_part (res : error + (error + stagedPart)) : Prop :=
  match res with inr (inr sp) => ∃ n x, sp_path sp = part_path n x ∧ next w0 ≤ x | _ => True end.
Lemma stage_part_path p i body w : match (stage_part p i body w).1 with Ret (inr sp) => sp_path sp = p | _ => True end.
Proof.
  unfold stage_part, bind. destruct (copy_hashing i body.1 body.2 0 [] w) as [[[[z h] err]|?|?| |] w1]; cbn; try done.
  destruct (try file_Close w1) as [[closed|?|?| |] w2]; cbn; try done.
  by destruct err, closed; cbn; try done; destruct (ignore (os_Remove p) w2) as [[] ?].
Qed.
Lemma frames_stage n body : yields (touches X w0) (stage n body) new_part.
Proof.
  unfold stage. eapply (yields_bind _ _ _ (λ r, match r with inr (p, i) => (∃ b, p = part_path b i) ∧ next w0 ≤ i | _ => True end)).
  - apply yields_try; [|done]. eapply yields_mono; [apply frames_TempFile|]. by intros [p i].
  - intros [e|[p i]] Hi; [by apply yields_ret|]. destruct Hi as [[b Hb] Hi].
    eapply (yields_bind _ _ _ (λ res, match res with inr sp => sp_path sp = p | inl _ => True end)).
    + intros w Hw. pose proof (frames_stage_part p i body ltac:(by right) w Hw) as H. pose proof (stage_part_path p i body w) as Hp.
      unfold wp in *. destruct (stage_part p i body w) as [[[?|sp]|?|?| |] w']; cbn in *; try done. by destruct H.
    + intros [e|sp] Hsp; apply yields_ret; [done|]. exists b, i. by rewrite Hsp.
Qed.
Lemma frames_remove_files ps : frames (remove_files ps).
Proof. induction ps as [|p ps IH]; cbn [remove_files foldr]; repeat frame_step. Qed.
Lemma frames_file_reader i : frames (file_reader i).
Proof.
  apply yields_step. intros w Hw. unfold file_reader.
  destruct (faults w) as [|[] fs]; cbn; (split; [|done]); auto using touches_faults.
Qed.
Lemma frames_append_part p part : mine X w0 p → frames (append_part p part).
Proof.
  intros Hp. unfold append_part. repeat frame_step; [apply frames_file_reader|by apply frames_io_Copy].
Qed.
End frames.

(** ** Part files in any environment *)

(** Nothing has happened to the objects. *)
Definition unharmed (w w' : world) : Prop := world_ok w' ∧ same_tables w w'.

Lemma unharmed_refl w : world_ok w → unharmed w w.
Proof. by split. Qed.
Lemma unharmed_trans w1 w2 w3 : unharmed w1 w2 → unharmed w2 w3 → unharmed w1 w3.
Proof. intros [_ H1] [? H2]. split; [done|by eapply same_tables_trans]. Qed.
Lemma unharmed_kept w w' : world_ok w' → kept w w' → unharmed w w'.
Proof. by intros ? [? _]. Qed.
Lemma unharmed_quiet w w' : world_ok w → quiet w w' → unharmed w w'.
Proof. intros ??. split; [eauto with quiet|by apply quiet_same_tables]. Qed.

Lemma triple_part_remove w n k :
  world_ok w → validBucketName n = true →
  triple w (ignore (os_Remove (part_path n k))) (λ _, unharmed w) (λ _ _, False) (λ _, True).
Proof.
  intros Hok Hn. tsteps. apply triple_os_Remove; [| |done].
  - intros w' nd Hq Hnd _. pose proof (unharmed_quiet _ _ Hok Hq) as [Hok' Hs'].
    assert (tree w' !! part_path n k = Some nd) as Hnd' by (by destruct Hq as (fs & _ & ->)).
    destruct (valid_part _ _ _ _ Hok' Hn Hnd') as [i ->]. split.
    + apply (world_ok_remove _ i); [done|done|done|]. intros q bw Hbw Etmp.
      destruct (writer_bucket _ _ _ Hok' Hbw) as (b & _ & _ & _ & Htmp). rewrite Htmp in Etmp. by destruct (part_not_upload n k (b_name b) (w_ino bw)).
    + intros m. rewrite <- Hs'. unfold tables, bucket_db; cbn. destruct (validBucketName m); [|done]. by rewrite lookup_delete_ne.
  - intros e w' Hq _. by apply unharmed_quiet.
Qed.

(** The paths of part files of valid buckets. *)
Definition part_file (p : path) : Prop := ∃ n k, p = part_path n k ∧ validBucketName n = true.

Lemma triple_remove_files ps : ∀ w,
  world_ok w → Forall part_file ps → triple w (remove_files ps) (λ _, unharmed w) (λ _ _, False) (λ _, True).
Proof.
  induction ps as [|p ps IH]; intros w Hok Hps; cbn [remove_files foldr].
  { apply triple_ret. by apply unharmed_refl. }
  apply Forall_cons in Hps as [(n & k & -> & Hn) Hps]. apply triple_seq.
  eapply triple_mono; [by apply triple_part_remove| |done..]. intros ? w1 H1. cbn beta.
  eapply triple_mono; [apply IH; [apply H1|done]| |done..]. intros ? w2 H2. exact (unharmed_trans _ _ _ H1 H2).
Qed.

Lemma triple_copy_hashing n k i e ps : ∀ w c z h,
  world_ok w → part_at w (part_path n k) i c →
  triple w (copy_hashing i ps e z h)
    (λ '(_, hashed, err) w', unharmed w w' ∧ ∃ d, part_at w' (part_path n k) i d ∧
       (err = None → e = None ∧ hashed = h ++ concat ps ∧ d = c ++ concat ps))
    (λ _ _, False) (λ _, True).
Proof.
  induction ps as [|[|a q] ps IH]; intros w c z h Hok Hp; cbn [copy_hashing concat app].
  { apply triple_ret. split; [by apply unharmed_refl|]. exists c. split; [done|]. by rewrite !app_nil_r. }
  { by apply IH. }
  set (d := a :: q). apply triple_seq.
  assert (∀ w' p, quiet w w' → let w2 := set_files (alter (λ c, c ++ p) i) w' in
    unharmed w w2 ∧ part_at w2 (part_path n k) i (c ++ p)) as Hwrite.
  { intros w' p Hq. pose proof (unharmed_quiet _ _ Hok Hq) as Hu.
    destruct (part_write w' n k i c p) as (Hok2 & (Hs2 & _) & Hp2); [apply Hu|by destruct Hq as (fs & _ & ->)|].
    split; [|done]. eapply unharmed_trans; [exact Hu|by split]. }
  apply triple_file_Write; [| |done].
  - intros w' Hq. destruct (Hwrite w' d Hq) as [Hu Hp2]. cbn beta iota. rewrite Nat.eqb_refl. cbn [negb].
    eapply triple_mono; [apply (IH _ (c ++ d)); [apply Hu|exact Hp2]| |done..].
    intros [[z' hashed] err] w2 (Hu2 & d2 & Hd2 & Herr). split; [by eapply unharmed_trans|]. exists d2.
    split; [done|]. intros Hn. destruct (Herr Hn) as (? & -> & ->). by rewrite <- !app_assoc.
  - intros w' m Hq _. destruct (Hwrite w' (take m d) Hq) as [Hu Hp2]. cbn beta iota. apply triple_ret.
    split; [done|]. eexists. by split.
Qed.

(** A staged part: its file and its hash. *)
Definition staged_as (w : world) (n : string) (body : reader) (sp : stagedPart) (i : nat) : Prop :=
  body.2 = None ∧ sp_path sp = part_path n i ∧ sp_md5 sp = md5_sum (concat body.1) ∧
  part_at w (part_path n i) i (concat body.1).

Lemma triple_stage_part w n i body :
  world_ok w → validBucketName n = true → part_at w (part_path n i) i [] →
  triple w (stage_part (part_path n i) i body)
    (λ res w', unharmed w w' ∧ match res with inr sp => staged_as w' n body sp i | inl _ => True end)
    (λ _ _, False) (λ _, True).
Proof.
  intros Hok Hn Hp. unfold stage_part. apply triple_seq.
  eapply triple_mono; [by apply (triple_copy_hashing n i i body.2 body.1 w [] 0 [])| |done..].
  intros [[size hashed] err] w1 (Hu1 & d & Hd & Herr). cbn beta iota.
  assert (∀ (closed : error + unit) w2, quiet w1 w2 → (err = None → ∀ u, closed = inr u → hashed = concat body.1) →
    triple w2 match match err, closed with None, inl cerr => Some cerr | _, _ => err end with
      | Some e => let* _ := ignore (os_Remove (part_path n i)) in ret (inl e)
      | None => ret (inr (mkStagedPart (part_path n i) size (md5_sum hashed)))
      end (λ res w', unharmed w w' ∧ match res with inr sp => staged_as w' n body sp i | inl _ => True end)
      (λ _ _, False) (λ _, True)) as Hend.
  { intros closed w2 Hq Hhash. pose proof (unharmed_trans _ _ _ Hu1 (unharmed_quiet _ _ (proj1 Hu1) Hq)) as Hu2.
    assert (∀ e, triple w2 (let* _ := ignore (os_Remove (part_path n i)) in ret (inl e : error + stagedPart))
      (λ res w', unharmed w w' ∧ match res with inr sp => staged_as w' n body sp i | inl _ => True end)
      (λ _ _, False) (λ _, True)) as Hbad.
    { intros e. apply triple_seq. eapply triple_mono; [apply triple_part_remove; [apply Hu2|done]| |done..].
      intros ? w3 Hu3. apply triple_ret. split; [by eapply unharmed_trans|done]. }
    destruct err as [e|]; [apply Hbad|]. destruct closed as [e|u]; [apply Hbad|]. apply triple_ret. split; [done|].
    destruct (Herr eq_refl) as (He & -> & ->). split_and!; [done..|]. by destruct Hq as (fs & _ & ->). }
  unfold file_Close, syscall. tsteps. apply triple_ret_call.
  - intros w2 Hq. apply (Hend (inr tt) w2 Hq). intros -> u _. by destruct (Herr eq_refl) as (_ & -> & _).
  - intros w2 Hq _. by apply (Hend (inl (SysErr EIO)) w2 Hq).
  - done.
Qed.

Lemma triple_stage w n body :
  world_ok w →
  triple w (stage n body)
    (λ res w', unharmed w w' ∧
       match res with inr (inr sp) => validBucketName n = true ∧ ∃ i, staged_as w' n body sp i | _ => True end)
    (λ _ _, False) (λ _, True).
Proof.
  intros Hok. destruct (validBucketName n) eqn:Hn.
  2: { unfold triple, wp, stage, TempFile, bucket, bind, try. rewrite Hn. split; [by apply unharmed_refl|done]. }
  unfold stage. tsteps.
  eapply triple_mono; [by apply triple_TempFile|..]; [| |done].
  - intros [p i] w1 (Hok1 & Hk1 & -> & Hp & _). cbn beta iota. apply triple_seq.
    eapply triple_mono; [by apply triple_stage_part| |done..]. intros res w2 [Hu2 Hres]. apply triple_ret.
    split; [eapply unharmed_trans; [by apply unharmed_kept|done]|]. destruct res as [e|sp]; [done|].
    split; [done|]. by exists i.
  - intros e w1 (Hok1 & Hs1 & _). cbn beta iota. apply triple_ret. by split.
Qed.

(** ** Appending a part *)
Definition fails_never (e : error) (w : world) : Prop := False.
#[global] Arguments fails_never : simpl never.

Lemma triple_file_reader w i c Q :
  files w !! i = Some c →
  (∀ body w', quiet w w' → (body.2 = None → concat body.1 = c) → Q body w') →
  triple w (file_reader i) Q fails_never (λ _, True).
Proof.
  intros Hc HQ. eapply wp_mono; [by apply file_reader_ends|]. intros o w' (fs & -> & Hfs & Ho).
  assert (quiet w (set_faults fs w)) as Hq by by exists fs. destruct o; cbn; try done. by apply HQ.
Qed.

Lemma triple_append_part w p bw n x c sp :
  world_ok w → writing w p bw → sp_path sp = part_path n x → files w !! x = Some c →
  tree w !! part_path n x = None ∨ tree w !! part_path n x = Some (NFile x) →
  triple w (append_part p (Some sp))
    (λ err w', unharmed w w' ∧ ∃ bw', writing w' p bw' ∧ same_writer bw bw' ∧ (err = None → w_sha bw' = w_sha bw ++ c))
    fails_never (λ _, True).
Proof.
  intros Hok Hw Hsp Hc Ht. unfold append_part. rewrite Hsp. tsteps. apply triple_os_Open; [| |done].
  2: { intros e w1 Hq _. apply triple_ret. split; [by apply unharmed_quiet|]. exists bw.
       split_and!; [by destruct Hq as (fs & _ & ->)|done|done]. }
  intros w1 i Hq1 Hi. assert (i = x) as -> by (destruct Ht; congruence).
  pose proof (unharmed_quiet _ _ Hok Hq1) as Hu1. tsteps.
  eapply triple_file_reader; [by destruct Hq1 as (fs & _ & ->)|]. intros [ps e] w2 Hq2 Hbody. cbn [fst snd] in *.
  pose proof (unharmed_trans _ _ _ Hu1 (unharmed_quiet _ _ (proj1 Hu1) Hq2)) as Hu2. tsteps.
  assert (writing w2 p bw) as Hw2 by (destruct Hq1 as (? & _ & ->), Hq2 as (? & _ & ->); exact Hw).
  eapply triple_conseq; [| |apply (triple_io_Copy same_tables w2 _ fails_never p ps e w2 bw 0 (proj1 Hu2) (kept_refl _) Hw2)]; [done..|].
  intros w3 bw3 k err Hok3 Hk3 Hh3 Hw3 Hsame Herr. cbn beta iota.
  pose proof (unharmed_trans _ _ _ Hu2 (unharmed_kept _ _ Hok3 Hk3)) as Hu3.
  assert (∀ w4, quiet w3 w4 → unharmed w w4 ∧ ∃ bw', writing w4 p bw' ∧ same_writer bw bw' ∧ (err = None → w_sha bw' = w_sha bw ++ c)) as Hend.
  { intros w4 Hq4. split; [exact (unharmed_trans _ _ _ Hu3 (unharmed_quiet _ _ Hok3 Hq4))|]. exists bw3.
    split_and!; [by destruct Hq4 as (? & _ & ->)|apply Hsame..|]. intros ->. destruct Herr as (He & -> & _). by rewrite Hbody. }
  unfold file_Close, syscall. tsteps. apply triple_ret_call; [|intros w4 Hq4 _|done].
  - intros w4 Hq4. by apply Hend.
  - by apply Hend.
Qed.
