(* ===== verification/UploadSpec.v ===== *)
(** What concurrent requests on multipart uploads promise each other and their
    clients: the abstract state of the uploads, which changes in single steps,
    and the protocol by which the requests share the server. *)

From S2P Require Import Prelude Errors GoMonad Pool GoStd GoNet Types Names Hash Database World Bucket Store BlobWriter StoreInv Triple StoreSafe StoreOps ObjectOps WriterOps Listing Run Frame Refine.
From S2P Require Import AwsChunked S3Types S3 S3Multipart PartOps S3Copy Multipart Uploads UploadOps.
From stdpp Require Import options.
From stdpp Require Import relations.

(** ** Requests *)
Inductive ask :=
  | AskInitiate (r : request) (bucket key : string)
  | AskPart (r : request) (bucket key : string)
  | AskComplete (r : request) (bucket key : string)
  | AskAbort (r : request) (bucket key : string)
  | AskStore (o : op) (Ho : no_writer o).   (* some other handler calls the store *)

Definition serve `{XmlDecoder} (q : ask) : request_prog :=
  match q with
  | AskInitiate r n key => initiate_prog r n key
  | AskPart r n key => uploadPart_prog r n key
  | AskComplete r n key => complete_prog r n key
  | AskAbort r n key => abort_prog r n key
  | AskStore o _ => store_prog o
  end.

(** ** The abstract state *)

(** An upload: the parts it has, [None] when it has been completed or aborted. *)
Record aupload := mkAUpload {
  au_id : string;
  au_bucket : string;
  au_key : string;
  au_options : PutOptions;
  au_parts : option (gmap Z bytes);
}.
Definition with_parts (parts : option (gmap Z bytes)) (u : aupload) : aupload :=
  mkAUpload (au_id u) (au_bucket u) (au_key u) (au_options u) parts.

(** What a request has done. *)
Inductive deed :=
  | Opened (p : nat)
  | Attached (p : nat) (k : Z) (c : bytes)
  | Completed (p : nat) (parts : completeRequest) (c : bytes)
  | Aborted (p : nat)
  | Acted (o : op) (out : outcome unit)
  | Refused (st : Z).

(** The objects, the uploads, and what each request has done so far; a request
    does one thing. *)
Record uspec := mkUSpec {
  us_objects : astate;
  us_uploads : gmap nat aupload;
  us_deeds : gmap nat deed;
}.

Inductive ustep : uspec → uspec → Prop :=
  (* a call of the store: its effect on the objects is the one it has in a store
     that has these objects *)
  | u_act i o w objs us ds :
      ds !! i = None → no_writer o → world_ok w → (∀ n, objs n = tables w n) → (exec o w).1 ≠ Crash →
      ustep (mkUSpec objs us ds) (mkUSpec (tables (exec o w).2) us (<[i := Acted o (exec o w).1]> ds))
  | u_refuse i st o us ds :
      ds !! i = None → (400 ≤ st)%Z → ustep (mkUSpec o us ds) (mkUSpec o us (<[i := Refused st]> ds))
  | u_open i p u o us ds :
      ds !! i = None → us !! p = None → au_parts u = Some ∅ →
      ustep (mkUSpec o us ds) (mkUSpec o (<[p := u]> us) (<[i := Opened p]> ds))
  (* a part joins an upload that is open, in place of one with its number *)
  | u_attach i p u cs k c o us ds :
      ds !! i = None → us !! p = Some u → au_parts u = Some cs → (1 ≤ k ≤ 10000)%Z →
      ustep (mkUSpec o us ds)
        (mkUSpec o (<[p := with_parts (Some (<[k := c]> cs)) u]> us) (<[i := Attached p k c]> ds))
  (* an open upload ends; its object is the parts named, all of which it has *)
  | u_complete i p u cs reqs oi t t' o o' us ds :
      ds !! i = None → us !! p = Some u → au_parts u = Some cs →
      reqs ≠ [] → parts_sorted reqs = true → Forall (names_part cs) reqs →
      o (au_bucket u) = Some t → commits (au_bucket u) (au_key u) (contents_of cs reqs) (au_options u) oi t t' →
      updates (au_bucket u) (Some t') o o' →
      ustep (mkUSpec o us ds)
        (mkUSpec o' (<[p := with_parts None u]> us) (<[i := Completed p reqs (contents_of cs reqs)]> ds))
  | u_abort i p u o us ds :
      ds !! i = None → us !! p = Some u →
      ustep (mkUSpec o us ds) (mkUSpec o (<[p := with_parts None u]> us) (<[i := Aborted p]> ds)).

(** The upload [p] is the one that a request addresses. *)
Definition addresses (a : uspec) (p : nat) (id n key : string) : Prop :=
  ∃ u, us_uploads a !! p = Some u ∧ au_id u = id ∧ au_bucket u = n ∧ au_key u = key.

(** The answer to a request tells what it has done. *)
Definition tells `{XmlDecoder} (a : uspec) (q : ask) (d : deed) (answer : reply) : Prop :=
  match d, q, answer with
  | Opened p, AskInitiate r n key, Http resp =>
      let id := hex_EncodeToString (random r) in
      addresses a p id n key ∧ resp = writeXML 200 (XInitiate (mkInitiate n key id))
  | Attached p k c, AskPart r n key, Http resp =>
      addresses a p (values_Get (Query r) "uploadId") n key ∧
      strconv_Atoi (values_Get (Query r) "partNumber") = (k, false) ∧
      (requestBody r).2 = None ∧ c = concat (requestBody r).1 ∧ resp = part_reply c
  | Completed p parts c, AskComplete r n key, Http resp =>
      addresses a p (values_Get (Query r) "uploadId") n key ∧ Decode_complete (Body r) = inr parts ∧
      resp = writeXML 200 (XComplete (mkComplete (resource n key) n key (etag (md5_sum c))))
  | Aborted p, AskAbort r n key, Http resp =>
      addresses a p (values_Get (Query r) "uploadId") n key ∧ resp = writeHeader 204
  | Acted o out, AskStore o' _, Returned out' => o' = o ∧ out' = out
  | Refused st, (AskInitiate _ _ _ | AskPart _ _ _ | AskComplete _ _ _ | AskAbort _ _ _), Http resp =>
      response_status resp = Some st ∧ (400 ≤ st)%Z
  | _, _, _ => False
  end.

(** ** The ghost state *)

(** Besides the abstract state: the inodes of the files of staged parts, with
    their bucket and content; nobody writes to them any more. *)
Record ghost := mkGhost {
  spec : uspec;
  sealed : gmap nat (string * bytes);
}.

(** The file of a sealed part has its content as long as it is there. *)
Definition seal_ok (w : world) (x : nat) (nc : string * bytes) : Prop :=
  x < next w ∧ validBucketName nc.1 = true ∧ files w !! x = Some nc.2 ∧
  (tree w !! part_path nc.1 x = None ∨ tree w !! part_path nc.1 x = Some (NFile x)).

(** The part of an upload in the server is the one in the abstract state. *)
Definition part_ok (g : ghost) (n : string) (sp : stagedPart) (c : bytes) : Prop :=
  ∃ x, sp_path sp = part_path n x ∧ sealed g !! x = Some (n, c) ∧ sp_md5 sp = md5_sum c.

Definition same_upload (up : multipartUpload) (u : aupload) : Prop :=
  au_bucket u = up_bucket up ∧ au_key u = up_key up ∧
  au_options u = upload_options (up_contentType up) (up_metadata up).

Definition upload_ok (g : ghost) (up : multipartUpload) (u : aupload) : Prop :=
  same_upload up u ∧
  if up_done up then au_parts u = None ∧ up_parts up = ∅
  else ∃ cs, au_parts u = Some cs ∧ map_Forall2 (λ _, part_ok g (up_bucket up)) (up_parts up) cs.

(** ** The protocol *)

Record server_inv (s : Server) (g : ghost) : Prop := {
  si_world : world_ok (store s);
  si_objects : ∀ n, us_objects (spec g) n = tables (store s) n;
  si_sealed : map_Forall (seal_ok (store s)) (sealed g);
  si_heap : ∀ p, is_Some (up_heap s !! p) → p < up_next s;
  si_uploads : ∀ p, is_Some (us_uploads (spec g) !! p) → is_Some (up_heap s !! p);
  si_same : ∀ p up, up_heap s !! p = Some up → ∃ u, us_uploads (spec g) !! p = Some u ∧ same_upload up u;
  si_ids : ∀ id p, uploads s !! id = Some p → ∃ u, us_uploads (spec g) !! p = Some u ∧ au_id u = id;
}.

(** The mutex of an upload guards its parts; the server's guards nothing that
    lasts. *)
Definition mutex_inv (p : nat) (s : Server) (g : ghost) : Prop :=
  ∀ up u, up_heap s !! p = Some up → us_uploads (spec g) !! p = Some u → upload_ok g up u.

(** A request owns a writer and its file, or nothing. *)
Definition owned_ok (X : gset nat) (s : Server) (g : ghost) : Prop :=
  (∀ x, x ∈ X → x < next (store s) ∧ sealed g !! x = None) ∧ owns X (store s).

(** The uploads keep their names; [L]'s is unchanged. *)
Definition uploads_grow (a a' : uspec) : Prop :=
  ∀ p u, us_uploads a !! p = Some u →
    ∃ u', us_uploads a' !! p = Some u' ∧ au_id u' = au_id u ∧ au_bucket u' = au_bucket u ∧ au_key u' = au_key u ∧
      au_options u' = au_options u.

Definition same_at (p : nat) (s : Server) (g : ghost) (s' : Server) (g' : ghost) : Prop :=
  up_heap s' !! p = up_heap s !! p ∧ us_uploads (spec g') !! p = us_uploads (spec g) !! p.

Record step_ok (i : nat) (L : list nat) (X X' : gset nat) (s : Server) (g : ghost) (s' : Server) (g' : ghost) : Prop := {
  so_spec : rtc ustep (spec g) (spec g');
  so_world : touches X (store s) (store s');
  so_grow : uploads_grow (spec g) (spec g');
  so_others : ∀ p, upload_mu p ∉ L → is_Some (up_heap s !! p) → same_at p s g s' g';
  so_deeds : ∀ j, j ≠ i → us_deeds (spec g') !! j = us_deeds (spec g) !! j;
  so_sealed : sealed g ⊆ sealed g';
  so_new_sealed : ∀ x, is_Some (sealed g' !! x) → is_Some (sealed g !! x) ∨ x ∈ X ∨ next (store s) ≤ x;
  so_owned : owned_ok X' s' g' ∧ ∀ x, x ∈ X' → x ∈ X ∨ next (store s) ≤ x;
  so_mutex : ∀ p, upload_mu p ∉ L → mutex_inv p s g → mutex_inv p s' g';
}.

(** What others' steps leave alone. *)
Record unaffected (i : nat) (L : list nat) (X : gset nat) (s : Server) (g : ghost) (s' : Server) (g' : ghost) : Prop := {
  un_next : next (store s) ≤ next (store s');
  un_files : ∀ x, x ∈ X → x < next (store s) → files (store s') !! x = files (store s) !! x;
  un_writers : ∀ x, x ∈ X → x < next (store s) → writers (store s') !! x = writers (store s) !! x;
  un_handles : ∀ h b, handles (store s) !! h = Some b → ∃ b', handles (store s') !! h = Some b' ∧ b_name b' = b_name b;
  un_grow : uploads_grow (spec g) (spec g');
  un_locked : ∀ p, upload_mu p ∈ L → is_Some (up_heap s !! p) → same_at p s g s' g';
  un_deed : us_deeds (spec g') !! i = us_deeds (spec g) !! i;
  un_sealed : sealed g ⊆ sealed g';
}.

Definition upload_protocol `{XmlDecoder} : protocol Server reply ask ghost (gset nat) := {|
  inv := server_inv;
  guarded m s g := match m with 0 => True | S p => mutex_inv p s g end;
  valid := owned_ok;
  nothing_owned := ∅;
  apart := disjoint;
  answered i q resp g := ∃ d, us_deeds (spec g) !! i = Some d ∧ tells (spec g) q d resp;
  Pool.idle i g := us_deeds (spec g) !! i = None;
  guar := step_ok;
  rely := unaffected;
|}.

(** *** Its laws *)
Lemma uploads_grow_refl a : uploads_grow a a.
Proof. intros p u Hu. by exists u. Qed.
Lemma uploads_grow_trans a1 a2 a3 : uploads_grow a1 a2 → uploads_grow a2 a3 → uploads_grow a1 a3.
Proof.
  intros H1 H2 p u Hu. destruct (H1 p u Hu) as (u1 & Hu1 & ? & ? & ? & ?).
  destruct (H2 p u1 Hu1) as (u2 & Hu2 & ? & ? & ? & ?). exists u2. split_and!; [done|congruence..].
Qed.
Lemma addresses_grow a a' p id n key : uploads_grow a a' → addresses a p id n key → addresses a' p id n key.
Proof.
  intros Hg (u & Hu & ? & ? & ?). destruct (Hg p u Hu) as (u' & Hu' & ? & ? & ? & ?). exists u'. split_and!; [done|congruence..].
Qed.
Lemma tells_grow `{XmlDecoder} a a' q d answer : uploads_grow a a' → tells a q d answer → tells a' q d answer.
Proof. intros Hg. destruct d, q, answer; cbn; try done; intros [Ha ?]; (split; [by eapply addresses_grow|done]). Qed.

Lemma unaffected_refl i L X s g : unaffected i L X s g s g.
Proof. split; try done; [eauto|apply uploads_grow_refl]. Qed.

Lemma unaffected_trans i L X s1 g1 s2 g2 s3 g3 :
  unaffected i L X s1 g1 s2 g2 → unaffected i L X s2 g2 s3 g3 → unaffected i L X s1 g1 s3 g3.
Proof.
  intros [] []. split.
  - lia.
  - intros x Hx Hlt. rewrite un_files1 by (done || lia). auto.
  - intros x Hx Hlt. rewrite un_writers1 by (done || lia). auto.
  - intros h b Hb. destruct (un_handles0 _ _ Hb) as (b1 & Hb1 & E1). destruct (un_handles1 _ _ Hb1) as (b2 & Hb2 & E2).
    exists b2. split; [done|congruence].
  - by eapply uploads_grow_trans.
  - intros p Hp Hs. destruct (un_locked0 p Hp Hs) as [E1 E2].
    destruct (un_locked1 p Hp) as [E3 E4]; [by rewrite E1|]. split; congruence.
  - congruence.
  - by etrans.
Qed.

Lemma step_unaffected i L X X' s g s' g' j L' Y :
  step_ok i L X X' s g s' g' → i ≠ j → (∀ m, m ∈ L' → m ∉ L) →
  owned_ok X s g → owned_ok Y s g → X ## Y →
  unaffected j L' Y s g s' g' ∧ owned_ok Y s' g' ∧ X' ## Y.
Proof.
  intros [Hspec Hw Hgrow Hothers Hdeeds Hsealed Hnew [Hown Hx'] Hmutex] Hij HL [HX _] [HY HYo] Hd.
  assert (∀ x, x ∈ Y → (x ∉ X) ∧ (x < next (store s) ∧ sealed g !! x = None)) as Hsep.
  { intros x Hx. split; [set_solver|by apply HY]. }
  split_and!.
  - split; try done.
    + apply Hw.
    + intros x Hx Hlt. apply Hw; [done|by apply Hsep].
    + intros x Hx Hlt. apply Hw; [done|by apply Hsep].
    + apply Hw.
    + intros p Hp. apply Hothers. by apply HL.
    + by apply Hdeeds.
  - pose proof (to_next _ _ _ Hw). split.
    + intros x Hx. destruct (Hsep x Hx) as (Hx1 & Hx2 & Hx3). split; [lia|].
      destruct (sealed g' !! x) eqn:E; [|done]. destruct (Hnew x) as [Hs|[?|?]]; [by eexists| |done|lia].
      rewrite Hx3 in Hs. by destruct Hs.
    + intros p bw Hp HpY. destruct (Hsep p HpY) as (Hp1 & Hp2 & _). rewrite (to_writers _ _ _ Hw) in Hp by done. by eapply HYo.
  - intros x Hx Hy. destruct (Hsep x Hy) as (? & ? & _). destruct (Hx' x Hx); [done|lia].
Qed.

#[export] Instance upload_protocol_laws `{XmlDecoder} : ProtocolLaws upload_protocol.
Proof.
  split; cbn.
  - apply unaffected_refl.
  - intros. by eapply unaffected_trans.
  - intros s g. split; [set_solver|apply owns_empty].
  - set_solver.
  - set_solver.
  - intros i q L X s g s' g' resp Hu (d & Hd & Ht). exists d. rewrite (un_deed _ _ _ _ _ _ _ Hu).
    split; [done|]. eapply tells_grow; [apply Hu|done].
  - intros i s g s' g' Hu Hd. by rewrite (un_deed _ _ _ _ _ _ _ Hu).
  - intros i L X X' s g s' g' Hs _. apply Hs.
  - intros i L X X' s g s' g' [|p] Hs; [done|]. apply Hs.
  - intros i L X X' s g s' g' j L' Y. apply step_unaffected.
Qed.

(** ** Steps *)

Lemma mutex_same p s g s' g' :
  same_at p s g s' g' → sealed g ⊆ sealed g' → mutex_inv p s g → mutex_inv p s' g'.
Proof.
  intros [Eh Eu] Hsub Hm up u Hup Hu. rewrite Eh in Hup. rewrite Eu in Hu. destruct (Hm up u Hup Hu) as [Hsame Hok].
  split; [done|]. destruct (up_done up); [done|]. destruct Hok as (cs & E & Hparts). exists cs. split; [done|].
  eapply map_Forall2_impl; [exact Hparts|]. intros k sp c (x & ? & Hx & ?). exists x. split_and!; [done| |done].
  by eapply lookup_weaken.
Qed.

(** The sealed files survive what touches only a request's own. *)
Lemma sealed_touched X s g w' :
  map_Forall (seal_ok (store s)) (sealed g) → owned_ok X s g → touches X (store s) w' → map_Forall (seal_ok w') (sealed g).
Proof.
  intros Hs [HX _] Hw x nc Hx. destruct (Hs x nc Hx) as (Hlt & Hv & Hf & Ht). pose proof (to_next _ _ _ Hw).
  split_and!; [lia|done| |].
  - rewrite (to_files _ _ _ Hw); [done|done|]. intros HxX. destruct (HX x HxX). congruence.
  - destruct (to_parts _ _ _ Hw nc.1 x Hlt) as [->| ->]; [done|by left].
Qed.

(** One step of the server.  [Hnew] and the like are what remains to be shown
    of it when it changes at most the store and the upload that the request has
    locked. *)
Lemma server_step i L X X' s g s' g' :
  server_inv s g → owned_ok X s g →
  (* the store *)
  world_ok (store s') → touches X (store s) (store s') →
  (∀ n, us_objects (spec g') n = tables (store s') n) →
  (* the uploads *)
  up_next s' = up_next s → (∀ id p, uploads s' !! id = Some p → uploads s !! id = Some p) →
  (∀ p, upload_mu p ∉ L → same_at p s g s' g') →
  (∀ p, upload_mu p ∈ L → ∃ up u up' u', up_heap s !! p = Some up ∧ us_uploads (spec g) !! p = Some u ∧
     up_heap s' !! p = Some up' ∧ us_uploads (spec g') !! p = Some u' ∧
     up_bucket up' = up_bucket up ∧ up_key up' = up_key up ∧ up_contentType up' = up_contentType up ∧
     up_metadata up' = up_metadata up ∧ ∃ parts, u' = with_parts parts u) →
  (* the ghost state *)
  rtc ustep (spec g) (spec g') → (∀ j, j ≠ i → us_deeds (spec g') !! j = us_deeds (spec g) !! j) →
  sealed g ⊆ sealed g' →
  (∀ x, is_Some (sealed g' !! x) → is_Some (sealed g !! x) ∨ x ∈ X ∨ next (store s) ≤ x) →
  map_Forall (seal_ok (store s')) (sealed g') →
  owned_ok X' s' g' → (∀ x, x ∈ X' → x ∈ X ∨ next (store s) ≤ x) →
  step_ok i L X X' s g s' g' ∧ server_inv s' g'.
Proof.
  intros Hinv Hown Hok Hw Hobj Hnext Hids Hothers Hlocked Hspec Hdeeds Hsub Hnew Hseal Hown' HX'.
  assert (∀ p u, us_uploads (spec g) !! p = Some u →
    ∃ parts u', us_uploads (spec g') !! p = Some u' ∧ (u' = u ∨ u' = with_parts parts u)) as Hu.
  { intros p u Hu. destruct (decide (upload_mu p ∈ L)) as [HL|HL].
    - destruct (Hlocked p HL) as (up & u1 & up' & u' & _ & Hu1 & _ & Hu' & _ & _ & _ & _ & parts & ->). simplify_eq.
      exists parts. eauto.
    - destruct (Hothers p HL) as [_ E]. rewrite <- E in Hu. exists None. eauto. }
  split.
  - split; auto.
    + intros p u Hup. destruct (Hu p u Hup) as (parts & u' & Hu' & [->| ->]); by eexists.
    + intros p HL Hm. eapply mutex_same; [by apply Hothers|done|done].
  - split; auto.
    + intros p Hp. rewrite Hnext. apply (si_heap _ _ Hinv). destruct (decide (upload_mu p ∈ L)) as [HL|HL].
      * destruct (Hlocked p HL) as (up & u1 & up' & u' & Hup & _). by eexists.
      * destruct (Hothers p HL) as [E _]. by rewrite <- E.
    + intros p Hp. destruct (decide (upload_mu p ∈ L)) as [HL|HL].
      * destruct (Hlocked p HL) as (up & u1 & up' & u' & _ & _ & Hup' & _). by eexists.
      * destruct (Hothers p HL) as [E1 E2]. rewrite E1. apply (si_uploads _ _ Hinv). by rewrite <- E2.
    + intros p up' Hp. destruct (decide (upload_mu p ∈ L)) as [HL|HL].
      * destruct (Hlocked p HL) as (up & u & up2 & u' & Hup & Hu1 & Hup2 & Hu' & E1 & E2 & E3 & E4 & parts & ->). simplify_eq.
        destruct (si_same _ _ Hinv p up Hup) as (u2 & Hu2 & Hsame). simplify_eq. eexists. split; [done|].
        unfold same_upload in *. cbn. by rewrite E1, E2, E3, E4.
      * destruct (Hothers p HL) as [E1 E2]. rewrite E1 in Hp. rewrite E2. by apply (si_same _ _ Hinv).
    + intros id p Hp. destruct (si_ids _ _ Hinv id p (Hids _ _ Hp)) as (u & Hup & Hid).
      destruct (Hu p u Hup) as (parts & u' & Hu' & [->| ->]); by eexists.
Qed.

(** What is owned stays so. *)
Lemma owned_touched X s g w' : owned_ok X s g → touches X (store s) w' → owned_ok X (set_store w' s) g.
Proof.
  intros [HX Ho] Hw. pose proof (to_next _ _ _ Hw). split; cbn.
  - intros x Hx. destruct (HX x Hx). split; [lia|done].
  - intros p bw Hp HpX. destruct (HX p HpX) as [Hlt _]. destruct (to_inode _ _ _ Hw p bw Hlt Hp) as (bw0 & Hbw0 & ->).
    by eapply Ho.
Qed.
