(* ===== verification/Races.v ===== *)
(** Concurrent requests on multipart uploads: every handler keeps the protocol,
    so that whatever requests are served together, in whatever interleaving,
    the uploads change as the abstract state does and every answer tells what
    has been done. *)

From S2P Require Import Prelude Errors GoMonad Pool GoStd GoNet Types Names Hash Database World Bucket Store BlobWriter StoreInv Triple StoreSafe StoreOps ObjectOps WriterOps Listing Run Frame Refine Samples StoreProps.
From S2P Require Import AwsChunked S3Types S3 S3Multipart PartOps S3Props S3Copy Multipart Uploads UploadOps UploadSpec.
From stdpp Require Import options.
From stdpp Require Import relations.

(** ** Steps of the kinds the handlers make *)
Section races.
Context {decoder : XmlDecoder}.

Definition with_objects (o : astate) (g : ghost) : ghost :=
  mkGhost (mkUSpec o (us_uploads (spec g)) (us_deeds (spec g))) (sealed g).
Definition with_deed (i : nat) (d : deed) (g : ghost) : ghost :=
  mkGhost (mkUSpec (us_objects (spec g)) (us_uploads (spec g)) (<[i := d]> (us_deeds (spec g)))) (sealed g).
Definition with_sealed (x : nat) (nc : string * bytes) (g : ghost) : ghost :=
  mkGhost (spec g) (<[x := nc]> (sealed g)).

(** A request that has locked no upload. *)
Lemma none_locked s p : upload_mu p ∈ [] → is_Some (up_heap s !! p).
Proof using. by intros ?%not_elem_of_nil. Qed.
#[local] Hint Extern 0 (∀ p, upload_mu p ∈ [] → is_Some _) => exact (none_locked _) : core.

(** A request that has locked one. *)
Lemma other_lock p p' : upload_mu p' ∉ [upload_mu p] → p' ≠ p.
Proof using. intros Hp ->. apply Hp. left. Qed.

Lemma my_lock p p' : upload_mu p' ∈ [upload_mu p] → p' = p.
Proof using. intros Hp%list_elem_of_singleton. by injection Hp. Qed.

(** The step is in order and keeps the invariant. *)
Definition good_step (i : nat) (L : list nat) (X X' : gset nat) (s : Server) (g : ghost) (s' : Server) (g' : ghost) : Prop :=
  step_ok i L X X' s g s' g' ∧ server_inv s' g'.

Lemma set_store_store s : set_store (store s) s = s.
Proof. by destruct s. Qed.
Lemma with_parts_same u : with_parts (au_parts u) u = u.
Proof. by destruct u. Qed.

Section steps.
Context (i : nat) (L : list nat) (X : gset nat) (s : Server) (g : ghost).
Hypothesis Hinv : server_inv s g.
Hypothesis Hown : owned_ok X s g.
Hypothesis Hlocked : ∀ p, upload_mu p ∈ L → is_Some (up_heap s !! p).

(** A call on the store. *)
Lemma store_step X' w' g' :
  world_ok w' → touches X (store s) w' → (∀ n, us_objects (spec g') n = tables w' n) →
  us_uploads (spec g') = us_uploads (spec g) → rtc ustep (spec g) (spec g') →
  (∀ j, j ≠ i → us_deeds (spec g') !! j = us_deeds (spec g) !! j) → sealed g ⊆ sealed g' →
  (∀ x, is_Some (sealed g' !! x) → is_Some (sealed g !! x) ∨ x ∈ X ∨ next (store s) ≤ x) →
  map_Forall (seal_ok w') (sealed g') →
  owned_ok X' (set_store w' s) g' → (∀ x, x ∈ X' → x ∈ X ∨ next (store s) ≤ x) →
  good_step i L X X' s g (set_store w' s) g'.
Proof using Hinv Hown Hlocked.
  intros Hok Hw Hobj Hu. intros. apply server_step; auto.
  - intros p _. split; [done|by rewrite Hu].
  - intros p HL. destruct (Hlocked p HL) as [up Hup]. destruct (si_same _ _ Hinv p up Hup) as (u & Hup' & _).
    exists up, u, up, u. rewrite Hu. split_and!; [done..|]. exists (au_parts u). by rewrite with_parts_same.
Qed.

Lemma quiet_step w' : unharmed (store s) w' → touches X (store s) w' → good_step i L X X s g (set_store w' s) g.
Proof using Hinv Hown Hlocked.
  intros [Hok Hs] Hw. apply store_step; auto.
  - intros n. by rewrite (si_objects _ _ Hinv n), Hs.
  - apply rtc_refl.
  - by eapply sealed_touched; [apply Hinv|..].
  - by apply owned_touched.
Qed.

Lemma same_step : good_step i L X X s g s g.
Proof using Hinv Hown Hlocked.
  rewrite <- (set_store_store s) at 2. apply quiet_step; [apply unharmed_refl, Hinv|]. apply touches_refl; [apply Hinv|apply Hown].
Qed.
End steps.

(** A step after which the request is refused. *)
Lemma refuse_step i L X X' s g s' g' st :
  good_step i L X X' s g s' g' → us_deeds (spec g') !! i = None → (400 ≤ st)%Z →
  good_step i L X X' s g s' (with_deed i (Refused st) g').
Proof.
  intros [Hs Hi] Hd Hst. split.
  - destruct Hs. split; try done.
    + eapply rtc_r; [done|]. destruct g' as [[o us ds] se]; cbn in *. by apply u_refuse.
    + intros j Hj. cbn. rewrite lookup_insert_ne by done. auto.
  - destruct Hi. by split.
Qed.

(** ** Calls *)
Section calls.
Context (X : gset nat) (s : Server) (g : ghost).
Hypothesis Hinv : server_inv s g.
Hypothesis Hown : owned_ok X s g.

Lemma triple_touches {A} (m : M world A) Q E (Y : A → Prop) :
  triple (store s) m Q E (λ _, True) → yields (touches X (store s)) m Y →
  triple (store s) m (λ a w', Q a w' ∧ Y a ∧ touches X (store s) w') (λ e w', E e w' ∧ touches X (store s) w') (λ _, True).
Proof using Hinv Hown.
  intros Hm Hy. assert (touches X (store s) (store s)) as H0 by (apply touches_refl; [apply Hinv|apply Hown]).
  pose proof (wp_conj _ _ _ _ Hm (Hy _ H0)) as H. eapply wp_mono; [exact H|]. intros [] w'; cbn; naive_solver.
Qed.

Lemma wp_touches {A} (m : M world A) Q E (Y : A → Prop) (Φ : outcome A → Server → Prop) :
  triple (store s) m Q E (λ _, True) → yields (touches X (store s)) m Y →
  (∀ a w', Q a w' → Y a → touches X (store s) w' → Φ (Ret a) (set_store w' s)) →
  (∀ e w', E e w' → touches X (store s) w' → Φ (Err e) (set_store w' s)) →
  (∀ w', Φ Crash (set_store w' s)) → wp (call m) Φ s.
Proof using Hinv Hown.
  intros Hm Hy HQ HE HC. eapply wp_call; [by apply triple_touches|].
  intros [a|e|x| |] w'; cbn; try done; [intros (? & ? & ?); by apply HQ|intros [? ?]; by apply HE].
Qed.
End calls.

(** ** Answers *)
Definition safely (i : nat) (q : ask) (a : request_prog) (L : list nat) (X : gset nat) (s : Server) (g : ghost) : Prop :=
  Pool.safe upload_protocol i q a L X s g.

Lemma answer_safe i q resp X s g d :
  us_deeds (spec g) !! i = Some d → tells (spec g) q d (Http resp) → safely i q (respond resp) [] X s g.
Proof.
  intros Hd Ht s1 g1 Hr _ _. split; [done|]. exists d. rewrite (un_deed _ _ _ _ _ _ _ Hr). split; [done|].
  eapply tells_grow; [apply Hr|done].
Qed.

(** Requests that are answered over HTTP. *)
Definition is_http (q : ask) : Prop := match q with AskStore _ _ => False | _ => True end.

Lemma refusal_tells a q st resp : is_http q → response_status resp = Some st → (400 ≤ st)%Z → tells a q (Refused st) (Http resp).
Proof. by destruct q. Qed.

Lemma refused_safe i q resp st X s g :
  is_http q → response_status resp = Some st → (400 ≤ st)%Z → safely i q (respond resp) [] X s (with_deed i (Refused st) g).
Proof. intros. apply (answer_safe _ _ _ _ _ _ (Refused st)); [apply lookup_insert_eq|by apply refusal_tells]. Qed.

Lemma refused_again i q resp st X s g :
  us_deeds (spec g) !! i = Some (Refused st) → is_http q → response_status resp = Some st → (400 ≤ st)%Z →
  safely i q (respond resp) [] X s g.
Proof. intros Hd ???. eapply answer_safe; [exact Hd|by apply refusal_tells]. Qed.

(** *** What is known of the upload while it is locked *)
Record holds (p : nat) (up : multipartUpload) (u : aupload) (s : Server) (g : ghost) : Prop := {
  ho_heap : up_heap s !! p = Some up;
  ho_spec : us_uploads (spec g) !! p = Some u;
}.

Lemma holds_unaffected p up u i X s g s' g' :
  unaffected i [upload_mu p] X s g s' g' → holds p up u s g → holds p up u s' g'.
Proof.
  intros Hr [Hh Hs]. destruct (un_locked _ _ _ _ _ _ _ Hr p) as [E1 E2]; [done|by eexists|]. split; congruence.
Qed.
Lemma upload_ok_sealed g g' up u : sealed g ⊆ sealed g' → upload_ok g up u → upload_ok g' up u.
Proof.
  intros Hsub [Hsame Hok]. split; [done|]. destruct (up_done up); [done|]. destruct Hok as (cs & E & Hparts). exists cs.
  split; [done|]. eapply map_Forall2_impl; [exact Hparts|]. intros k sp c (x & ? & Hx & ?). exists x. split_and!; [done| |done].
  by eapply lookup_weaken.
Qed.

(** Nothing of what others leave alone depends on a mutex that is released, and
    the server's mutex guards no upload. *)
Lemma unaffected_less i L L' X s g s' g' : (∀ p, upload_mu p ∈ L' → upload_mu p ∈ L) → unaffected i L X s g s' g' → unaffected i L' X s g s' g'.
Proof using. intros Hsub []. split; auto. Qed.
Lemma in_server_mu p L : upload_mu p ∈ server_mu :: L ↔ upload_mu p ∈ L.
Proof using. rewrite elem_of_cons. unfold upload_mu, server_mu. naive_solver. Qed.

Lemma server_lock_safe i q k L X s g :
  (∀ m, m ∈ L → 0 < m) → safely i q k (server_mu :: L) X s g → safely i q (Lock server_mu k) L X s g.
Proof.
  intros HL Hk s1 g1 Hr _ _. split; [done|]. intros _. eapply (safe_rely upload_protocol); [|exact Hk].
  eapply unaffected_less; [|exact Hr]. intros p. apply in_server_mu.
Qed.
Lemma server_unlock_safe i q k L X s g :
  safely i q k L X s g → safely i q (Unlock server_mu k) (server_mu :: L) X s g.
Proof.
  intros Hk s1 g1 Hr _ _. exists L. split_and!; [done|done|]. eapply (safe_rely upload_protocol); [|exact Hk].
  eapply unaffected_less; [|exact Hr]. intros p. apply in_server_mu.
Qed.

(** The mutex may be released. *)
Lemma unlock_then i q k p up u X s g :
  holds p up u s g → upload_ok g up u → safely i q k [] X s g → safely i q (Unlock (upload_mu p) k) [upload_mu p] X s g.
Proof.
  intros Hh Hok Hk s1 g1 Hr _ _. exists []. split_and!; [done| |].
  - pose proof (holds_unaffected _ _ _ _ _ _ _ _ _ Hr Hh) as [E1 E2]. intros up1 u1 Hup Hu. simplify_eq.
    eapply upload_ok_sealed; [apply Hr|done].
  - apply (safe_rely upload_protocol i q k [] X s g s1 g1); [|exact Hk]. eapply unaffected_less; [|exact Hr]. by intros ? ?%not_elem_of_nil.
Qed.

Lemma unlock_safe i q resp p up u X s g d :
  holds p up u s g → upload_ok g up u → us_deeds (spec g) !! i = Some d → tells (spec g) q d (Http resp) →
  safely i q (Unlock (upload_mu p) (respond resp)) [upload_mu p] X s g.
Proof. intros. eapply unlock_then; [done..|]. by eapply answer_safe. Qed.

Lemma unlock_refused i q resp st p up u X s g :
  holds p up u s g → upload_ok g up u → is_http q → response_status resp = Some st → (400 ≤ st)%Z →
  safely i q (Unlock (upload_mu p) (respond resp)) [upload_mu p] X s (with_deed i (Refused st) g).
Proof. intros [? ?] ? ? Hst ?. eapply (unlock_then _ _ _ p up u); [done|done|]. by apply refused_safe. Qed.

(** ** The handlers *)

(** Every handler but the first looks its upload up. *)
Lemma lookup_safe i q r n key k s g :
  is_http q → us_deeds (spec g) !! i = None →
  (∀ p s g, server_inv s g → us_deeds (spec g) !! i = None → addresses (spec g) p (values_Get (Query r) "uploadId") n key →
     ∃ g', good_step i [] ∅ ∅ s g s g' ∧ safely i q (k p) [] ∅ s g') →
  safely i q (lookup_prog r n key k) [] ∅ s g.
Proof.
  intros Hq Hd Hsafe. set (id := values_Get (Query r) "uploadId").
  assert (∀ s g, server_inv s g → owned_ok ∅ s g → us_deeds (spec g) !! i = None → ∀ L, (∀ p, upload_mu p ∉ L) →
    good_step i L ∅ ∅ s g s g ∧ good_step i L ∅ ∅ s g s (with_deed i (Refused 404) g)) as Hstep.
  { intros s1 g1 Hinv Hown Hd1 L HL. assert (good_step i L ∅ ∅ s1 g1 s1 g1) as Hs.
    { apply same_step; [done..|]. intros p Hp. by destruct (HL p). }
    split; [done|]. by apply refuse_step. }
  unfold lookup_prog. apply server_lock_safe; [by intros ? ?%not_elem_of_nil|].
  intros s1 g1 Hr Hinv Hown. cbn in Hr, Hinv, Hown. unfold wp, gets; cbn [fst snd]. fold id.
  assert (us_deeds (spec g1) !! i = None) as Hd1 by by rewrite (un_deed _ _ _ _ _ _ _ Hr).
  destruct (Hstep s1 g1 Hinv Hown Hd1 [server_mu]) as [[Hs Hi] [Hs' Hi']]; [by intros p [=]%list_elem_of_singleton|].
  destruct (uploads s1 !! id) as [p|] eqn:E.
  2: { eexists _, ∅. split; [exact Hs'|]. split; [exact Hi'|]. apply server_unlock_safe. by apply refused_safe. }
  exists g1, ∅. split; [exact Hs|]. split; [exact Hi|]. apply server_unlock_safe.
  destruct (si_ids _ _ Hinv _ _ E) as (u1 & Hu1 & Hid). clear Hs Hi Hs' Hi' E.
  intros s2 g2 Hr2 Hinv2 Hown2. cbn in Hr2, Hinv2, Hown2.
  assert (us_deeds (spec g2) !! i = None) as Hd2 by by rewrite (un_deed _ _ _ _ _ _ _ Hr2).
  destruct (un_grow _ _ _ _ _ _ _ Hr2 _ _ Hu1) as (u & Hu & Hid2 & _).
  destruct (si_uploads _ _ Hinv2 p) as [up Hup]; [by eexists|].
  destruct (si_same _ _ Hinv2 p up Hup) as (u' & Hu' & Hb & Hk & _). simplify_eq.
  unfold wp, load_upload. rewrite Hup. cbn [fst snd].
  destruct (Hstep s2 g2 Hinv2 Hown2 Hd2 []) as [[Hs Hi] [Hs' Hi']]; [by intros ? ?%not_elem_of_nil|].
  destruct (String.eqb_spec (up_bucket up) n) as [En|], (String.eqb_spec (up_key up) key) as [Ek|]; cbn [negb orb].
  2-4: eexists _, ∅; split; [exact Hs'|]; split; [exact Hi'|]; by apply refused_safe.
  destruct (Hsafe p s2 g2 Hinv2 Hd2) as (g' & [Hs2 Hi2] & Hsf); [|by eauto].
  exists u. split_and!; [done|congruence..].
Qed.

(** A request that goes on, or is refused, after a step that changes nothing. *)
Lemma goes_on i q a s g :
  server_inv s g → safely i q a [] ∅ s g → ∃ g', good_step i [] ∅ ∅ s g s g' ∧ safely i q a [] ∅ s g'.
Proof.
  intros Hinv Ha. exists g. split; [|done]. apply same_step; [done| |done]. split; [set_solver|apply owns_empty].
Qed.
Lemma turned_away i q resp st s g :
  server_inv s g → us_deeds (spec g) !! i = None → is_http q → response_status resp = Some st → (400 ≤ st)%Z →
  ∃ g', good_step i [] ∅ ∅ s g s g' ∧ safely i q (respond resp) [] ∅ s g'.
Proof.
  intros Hinv Hd Hq Hst Hle. exists (with_deed i (Refused st) g). split; [|by apply refused_safe].
  apply refuse_step; [|done|done]. apply same_step; [done| |done]. split; [set_solver|apply owns_empty].
Qed.

(** Locking an upload that has been looked up. *)
Lemma lock_safe i q p id n key k s g :
  addresses (spec g) p id n key →
  (∀ up u s1 g1, unaffected i [] ∅ s g s1 g1 → holds p up u s1 g1 → upload_ok g1 up u →
     au_id u = id → up_bucket up = n → up_key up = key → safely i q k [upload_mu p] ∅ s1 g1) →
  safely i q (Lock (upload_mu p) k) [] ∅ s g.
Proof.
  intros Ha Hk s1 g1 Hr Hinv Hown. split; [by intros ? ?%not_elem_of_nil|]. intros Hm. cbn in Hr, Hinv, Hm.
  apply (addresses_grow _ (spec g1)) in Ha as (u & Hu & Hid & Hb & Hkey); [|apply Hr].
  destruct (si_uploads _ _ Hinv p) as [up Hup]; [by eexists|]. pose proof (Hm up u Hup Hu) as Hok.
  destruct (proj1 Hok) as (Hb' & Hk' & _). apply (Hk up u); [done|by split|done|congruence..].
Qed.

(** Loading the upload that is locked. *)
Lemma load_safe i q p k up u X s g :
  holds p up u s g → 
  (∀ s1 g1, unaffected i [upload_mu p] X s g s1 g1 → server_inv s1 g1 → owned_ok X s1 g1 → holds p up u s1 g1 →
     ∃ g', good_step i [upload_mu p] X X s1 g1 s1 g' ∧ safely i q (k up) [upload_mu p] X s1 g') →
  safely i q (Call (load_upload p) k) [upload_mu p] X s g.
Proof.
  intros Hh Hk s1 g1 Hr Hinv Hown. cbn in Hr, Hinv, Hown. pose proof (holds_unaffected _ _ _ _ _ _ _ _ _ Hr Hh) as Hh1.
  unfold wp, load_upload. rewrite (ho_heap _ _ _ _ _ Hh1). cbn [fst snd].
  destruct (Hk s1 g1 Hr Hinv Hown Hh1) as (g' & [Hs Hi] & Hsf). eauto.
Qed.

(** A step that changes the locked upload, and perhaps files. *)
Lemma heap_step i X s g p up u f parts w' g' :
  server_inv s g → owned_ok X s g → holds p up u s g →
  up_bucket (f up) = up_bucket up → up_key (f up) = up_key up → up_contentType (f up) = up_contentType up →
  up_metadata (f up) = up_metadata up →
  unharmed (store s) w' → touches X (store s) w' →
  us_objects (spec g') = us_objects (spec g) → us_uploads (spec g') = <[p := with_parts parts u]> (us_uploads (spec g)) →
  rtc ustep (spec g) (spec g') → (∀ j, j ≠ i → us_deeds (spec g') !! j = us_deeds (spec g) !! j) → sealed g' = sealed g →
  let s' := set_heap (alter f p) (set_store w' s) in
  good_step i [upload_mu p] X X s g s' g' ∧ holds p (f up) (with_parts parts u) s' g'.
Proof.
  intros Hinv Hown [Hh Hu] E1 E2 E3 E4 [Hok Hs] Hw Eo Eu Hspec Hd Es s'. split.
  - apply server_step; auto; cbn.
    + intros n. by rewrite Eo, (si_objects _ _ Hinv n), Hs.
    + intros p' Hp'%other_lock. split; [cbn; rewrite lookup_alter_ne by congruence; done|]. rewrite Eu, lookup_insert_ne by congruence. done.
    + intros p' ->%my_lock. exists up, u, (f up), (with_parts parts u). rewrite Eu, lookup_insert_eq, lookup_alter_eq, Hh.
      split_and!; [done..|by exists parts].
    + by rewrite Es.
    + rewrite Es. auto.
    + rewrite Es. eapply sealed_touched; [apply Hinv|done|done].
    + destruct (owned_touched _ _ _ _ Hown Hw) as [HX Ho]. split; [|done]. by rewrite Es.
  - split; cbn; [by rewrite lookup_alter_eq, Hh|by rewrite Eu, lookup_insert_eq].
Qed.

(** *** uploadPart *)


Lemma part_ok_sealed g g' n sp c : sealed g ⊆ sealed g' → part_ok g n sp c → part_ok g' n sp c.
Proof. intros Hsub (x & ? & ? & ?). exists x. split_and!; [done|by eapply lookup_weaken|done]. Qed.

Lemma part_ok_file s g n sp c : server_inv s g → part_ok g n sp c → part_file (sp_path sp).
Proof. intros Hinv (x & -> & Hx & _). destruct (si_sealed _ _ Hinv _ _ Hx) as (_ & Hv & _). by exists n, x. Qed.

Lemma call_ignore {A} (m : M world A) s : ignore (call m) s = call (ignore m) s.
Proof. unfold ignore, call, zoom, try, bind. by destruct (m (store s)) as [[] w']. Qed.

(** Removing a part file. *)
Lemma remove_safe i q L p k X s g :
  (∀ s1 g1, unaffected i L X s g s1 g1 → server_inv s1 g1 → part_file p ∧ ∀ p, upload_mu p ∈ L → is_Some (up_heap s1 !! p)) →
  (∀ s1 g1 w', unaffected i L X s g s1 g1 → server_inv s1 g1 → good_step i L X X s1 g1 (set_store w' s1) g1 →
     safely i q k L X (set_store w' s1) g1) →
  safely i q (Call (ignore (call (os_Remove p))) (λ _, k)) L X s g.
Proof.
  intros Hp Hk s1 g1 Hr Hinv Hown. cbn in Hr, Hinv, Hown. destruct (Hp _ _ Hr Hinv) as [(n & x & -> & Hn) HL].
  unfold wp. rewrite call_ignore. apply (wp_touches X s1 g1 Hinv Hown (ignore (os_Remove (part_path n x))) _ _ (λ _, True)
    (λ o s', match o with Ret v => ∃ g' r', step_ok i L X r' s1 g1 s' g' ∧ server_inv s' g' ∧ Pool.safe upload_protocol i q k L r' s' g'
             | Crash => True | _ => False end)
    (triple_part_remove _ _ _ (si_world _ _ Hinv) Hn)); [|intros [] w' Hu _ Hw|done|done].
  - eapply (yields_ignore _ _ (λ _, True)); [apply yields_os_Remove|done].
  - pose proof (quiet_step i L X s1 g1 Hinv Hown HL w' Hu Hw) as Hstep.
    exists g1, X. split_and!; [apply Hstep..|]. by apply Hk.
Qed.

(** The part joins the abstract upload. *)
Definition attach (i p : nat) (u : aupload) (cs : gmap Z bytes) (k : Z) (c : bytes) (g : ghost) : ghost :=
  mkGhost (mkUSpec (us_objects (spec g)) (<[p := with_parts (Some (<[k := c]> cs)) u]> (us_uploads (spec g)))
            (<[i := Attached p k c]> (us_deeds (spec g)))) (sealed g).

(** The end of [attach_prog]: the part is added and the mutex released. *)
Lemma attach_end_safe i r n key p k part up u cs X s g :
  let c := concat (requestBody r).1 in
  strconv_Atoi (values_Get (Query r) "partNumber") = (k, false) → (1 ≤ k ≤ 10000)%Z → (requestBody r).2 = None →
  us_deeds (spec g) !! i = None → part_ok g n part c → up_bucket up = n → up_key up = key →
  au_id u = values_Get (Query r) "uploadId" →
  holds p up u s g → upload_ok g up u → up_done up = false → au_parts u = Some cs →
  safely i (AskPart r n key) (Call (modify (set_heap (alter (add_part k part) p))) (λ _,
    Unlock (upload_mu p) (respond (Reply 200 [("Etag", etag (sp_md5 part))] None)))) [upload_mu p] X s g.
Proof.
  intros c Hnum Hk Hend Hd Hpart Hb Hkey Hid Hh Hok Hdone Ecs s1 g1 Hr Hinv Hown. cbn in Hr, Hinv, Hown.
  pose proof (holds_unaffected _ _ _ _ _ _ _ _ _ Hr Hh) as Hh1.
  pose proof (upload_ok_sealed _ g1 _ _ (un_sealed _ _ _ _ _ _ _ Hr) Hok) as [Hsame Hok1]. rewrite Hdone in Hok1.
  destruct Hok1 as (cs' & Ecs' & Hparts). rewrite Ecs in Ecs'. apply (inj Some) in Ecs' as <-.
  pose proof (part_ok_sealed _ _ _ _ _ (un_sealed _ _ _ _ _ _ _ Hr) Hpart) as Hpart1.
  assert (us_deeds (spec g1) !! i = None) as Hd1 by by rewrite (un_deed _ _ _ _ _ _ _ Hr).
  set (g2 := attach i p u cs k c g1).
  destruct (heap_step i X s1 g1 p up u (add_part k part) (Some (<[k := c]> cs)) (store s1) g2) as [[Hs Hi] Hh2]; try done.
  { apply unharmed_refl, Hinv. }
  { apply touches_refl; [apply Hinv|apply Hown]. }
  { apply rtc_once. destruct g1 as [[o us ds] se]. apply u_attach; try done. apply Hh1. }
  { intros j Hj. cbn. by rewrite lookup_insert_ne by done. }
  unfold wp, modify; cbn [fst snd]. rewrite set_store_store in Hs, Hi, Hh2.
  exists g2, X. split; [exact Hs|]. split; [exact Hi|].
  eapply (unlock_safe _ _ _ p _ _ _ _ _ (Attached p k c)); [exact Hh2| |cbn; apply lookup_insert_eq|].
  - split; [done|]. cbn. rewrite Hdone. eexists. split; [done|].
    intros j. destruct (decide (j = k)) as [->|Hne]; [rewrite !lookup_insert_eq|rewrite !lookup_insert_ne by done].
    + constructor. by rewrite Hb.
    + exact (Hparts j).
  - cbn. split_and!; [|done..|].
    + eexists. split; [apply lookup_insert_eq|]. destruct Hsame as (? & ? & _). split_and!; [done|cbn; congruence..].
    + destruct Hpart as (x & _ & _ & ->). done.
Qed.

Lemma attach_safe i r n key p k part s g :
  let c := concat (requestBody r).1 in
  strconv_Atoi (values_Get (Query r) "partNumber") = (k, false) → (1 ≤ k ≤ 10000)%Z → (requestBody r).2 = None →
  us_deeds (spec g) !! i = None → addresses (spec g) p (values_Get (Query r) "uploadId") n key → part_ok g n part c →
  safely i (AskPart r n key) (attach_prog p k part n key) [] ∅ s g.
Proof.
  intros c Hnum Hk Hend Hd Ha Hpart. eapply lock_safe; [exact Ha|]. intros up u s1 g1 Hr1 Hh1 Hok1 Hid Hb Hkey.
  eapply load_safe; [exact Hh1|]. intros s2 g2 Hr2 Hinv2 Hown2 Hh2.
  assert (us_deeds (spec g2) !! i = None) as Hd2 by by rewrite (un_deed _ _ _ _ _ _ _ Hr2), (un_deed _ _ _ _ _ _ _ Hr1).
  assert (part_ok g2 n part c) as Hpart2 by (eapply part_ok_sealed; [|exact Hpart]; etrans; [apply Hr1|apply Hr2]).
  pose proof (upload_ok_sealed _ g2 _ _ (un_sealed _ _ _ _ _ _ _ Hr2) Hok1) as Hok2.
  assert (∀ p', upload_mu p' ∈ [upload_mu p] → is_Some (up_heap s2 !! p')) as HL by (intros p' ->%my_lock; exists up; apply Hh2).
  pose proof (same_step i [upload_mu p] ∅ s2 g2 Hinv2 Hown2 HL) as Hstep.
  destruct (up_done up) eqn:Hdone.
  - exists (with_deed i (Refused 404) g2). split; [by apply refuse_step|].
    eapply unlock_then; [by destruct Hh2|exact Hok2|]. apply remove_safe.
    2: { intros s3 g3 w' Hr3 _ _. apply (refused_again _ _ _ 404); [|done..].
         rewrite (un_deed _ _ _ _ _ _ _ Hr3). apply lookup_insert_eq. }
    intros s3 g3 Hr3 Hinv3. split; [|done]. eapply part_ok_file; [done|]. eapply part_ok_sealed; [apply Hr3|exact Hpart2].
  - pose proof Hok2 as [Hsame Hok2']. rewrite Hdone in Hok2'. destruct Hok2' as (cs & Ecs & Hparts).
    assert (∀ s3 g3 w', unaffected i [upload_mu p] ∅ s2 g2 s3 g3 →
      safely i (AskPart r n key) (Call (modify (set_heap (alter (add_part k part) p))) (λ _,
        Unlock (upload_mu p) (respond (Reply 200 [("Etag", etag (sp_md5 part))] None)))) [upload_mu p] ∅ (set_store w' s3) g3) as Hend3.
    { intros s3 g3 w' Hr3. eapply (attach_end_safe i r n key p k part up u cs); try done.
      - by rewrite (un_deed _ _ _ _ _ _ _ Hr3).
      - eapply part_ok_sealed; [apply Hr3|exact Hpart2].
      - by destruct (holds_unaffected _ _ _ _ _ _ _ _ _ Hr3 Hh2).
      - eapply upload_ok_sealed; [apply Hr3|exact Hok2]. }
    exists g2. split; [done|].
    destruct (up_parts up !! k) as [prev|] eqn:Eprev.
    + apply remove_safe.
      * intros s3 g3 Hr3 Hinv3. split.
        -- pose proof (Hparts k) as Hprev. rewrite Eprev in Hprev. inversion Hprev as [sp' d Hp'|]; subst.
           eapply part_ok_file; [done|]. eapply part_ok_sealed; [apply Hr3|exact Hp'].
        -- intros p' ->%my_lock. exists up. by apply (holds_unaffected _ _ _ _ _ _ _ _ _ Hr3 Hh2).
      * intros s3 g3 w' Hr3 _ _. by apply Hend3.
    + intros s3 g3 Hr3 Hinv3 Hown3. exists g3, ∅. cbn in Hr3, Hinv3, Hown3.
      assert (∀ p', upload_mu p' ∈ [upload_mu p] → is_Some (up_heap s3 !! p')) as HL3.
      { intros p' ->%my_lock. exists up. by apply (holds_unaffected _ _ _ _ _ _ _ _ _ Hr3 Hh2). }
      pose proof (same_step i [upload_mu p] ∅ s3 g3 Hinv3 Hown3 HL3) as [Hs3 Hi3]. split; [exact Hs3|]. split; [exact Hi3|].
      rewrite <- (set_store_store s3). by apply Hend3.
Qed.

(** The whole of [uploadPart]. *)
Lemma stage_step i r n s g w' sp x :
  server_inv s g → owned_ok ∅ s g → unharmed (store s) w' → touches ∅ (store s) w' → validBucketName n = true →
  staged_as w' n (requestBody r) sp x → next (store s) ≤ x →
  let g' := with_sealed x (n, concat (requestBody r).1) g in
  good_step i [] ∅ ∅ s g (set_store w' s) g' ∧ part_ok g' n sp (concat (requestBody r).1).
Proof.
  intros Hinv Hown [Hok Hs] Hw Hn (Hend & Hpath & Hmd5 & Hat) Hx g'. split.
  - assert (sealed g !! x = None) as Hnone.
    { destruct (sealed g !! x) as [nc|] eqn:E; [|done]. destruct (si_sealed _ _ Hinv _ _ E) as (? & _). lia. }
    apply store_step; try done.
    + intros m. cbn. by rewrite (si_objects _ _ Hinv m), Hs.
    + by apply insert_subseteq.
    + intros y Hy. destruct (decide (y = x)) as [->|]; [by do 2 right|]. cbn in Hy. rewrite lookup_insert_ne in Hy by done. by left.
    + intros y nc Hy. cbn in Hy. apply lookup_insert_Some in Hy as [[<- <-]|[_ Hy]].
      * destruct Hat as [Ht Hf]. destruct (ok_file _ (wok_disk _ Hok) _ _ Ht) as [Hlt _]. split_and!; [done..|by right].
      * by eapply (sealed_touched ∅ s g); [apply Hinv|..].
  - exists x. split_and!; [done|apply lookup_insert_eq|done].
Qed.

Lemma uploadPart_safe i r n key s g :
  us_deeds (spec g) !! i = None → safely i (AskPart r n key) (uploadPart_prog r n key) [] ∅ s g.
Proof.
  intros Hd. apply lookup_safe; [done|done|]. clear s g Hd. intros p s g Hinv Hd Ha.
  destruct (strconv_Atoi (values_Get (Query r) "partNumber")) as [k bad] eqn:Hnum.
  destruct (bad || (k <? 1)%Z || (10000 <? k)%Z) eqn:Hbad; [by apply (turned_away _ _ _ 400)|].
  apply orb_false_iff in Hbad as [[-> Hk1]%orb_false_iff Hk2]. apply Z.ltb_ge in Hk1, Hk2.
  apply goes_on; [done|]. intros s1 g1 Hr1 Hinv1 Hown1. cbn in Hr1, Hinv1, Hown1.
  assert (us_deeds (spec g1) !! i = None) as Hd1 by by rewrite (un_deed _ _ _ _ _ _ _ Hr1).
  assert (∀ w' resp st, unharmed (store s1) w' → touches ∅ (store s1) w' → response_status resp = Some st → (400 ≤ st)%Z →
    ∃ g' X', step_ok i [] ∅ X' s1 g1 (set_store w' s1) g' ∧ server_inv (set_store w' s1) g' ∧
      Pool.safe upload_protocol i (AskPart r n key) (respond resp) [] X' (set_store w' s1) g') as Hrefuse.
  { intros w' resp st Hu Hw Hst Hle. exists (with_deed i (Refused st) g1), ∅.
    pose proof (quiet_step i [] ∅ s1 g1 Hinv1 Hown1 ltac:(done) w' Hu Hw) as Hstep.
    apply (refuse_step _ _ _ _ _ _ _ _ st) in Hstep as [? ?]; [|done..]. split_and!; [done..|]. by apply refused_safe. }
  eapply (wp_touches ∅ s1 g1 Hinv1 Hown1); [apply triple_stage, Hinv1|apply frames_stage| |done|done].
  intros res w' [Hu Hres] Hnew Hw. destruct res as [e|[e|sp]].
  - destruct (writeStoreError_status e (resource n key)) as (st & Hst & Hle). apply (Hrefuse _ _ st); [done..|lia].
  - by apply (Hrefuse _ _ 500%Z).
  - destruct Hres as (Hn & x & Hsp).
    destruct (stage_step i r n s1 g1 w' sp x) as [[Hs Hi] Hpart]; try done.
    { destruct Hnew as (m & y & E & Hy), Hsp as (_ & E' & _). rewrite E' in E. by apply part_path_inj in E as [_ ->]. }
    eexists _, ∅. split; [exact Hs|]. split; [exact Hi|]. apply attach_safe; try done.
    + apply Hsp.
    + eapply addresses_grow; [apply Hr1|exact Ha].
Qed.

(** *** initiateMultipartUpload *)
Definition new_upload (r : request) (n key : string) : multipartUpload :=
  mkMultipartUpload n key (header_Get (rHeader r) "Content-Type") (metadataFromHeaders (rHeader r)) ∅ false.
Definition opened_upload (r : request) (n key : string) : aupload :=
  mkAUpload (hex_EncodeToString (random r)) n key
    (upload_options (header_Get (rHeader r) "Content-Type") (metadataFromHeaders (rHeader r))) (Some ∅).
Definition open_upload (i p : nat) (u : aupload) (g : ghost) : ghost :=
  mkGhost (mkUSpec (us_objects (spec g)) (<[p := u]> (us_uploads (spec g))) (<[i := Opened p]> (us_deeds (spec g)))) (sealed g).

Lemma register_step i L r n key s g s' :
  server_inv s g → owned_ok ∅ s g → us_deeds (spec g) !! i = None →
  register (hex_EncodeToString (random r)) (new_upload r n key) s = (Ret tt, s') →
  good_step i L ∅ ∅ s g s' (open_upload i (up_next s) (opened_upload r n key) g).
Proof.
  intros Hinv Hown Hd [= <-]. set (p := up_next s).
  assert (up_heap s !! p = None) as Hp.
  { destruct (up_heap s !! p) eqn:E; [|done]. pose proof (si_heap _ _ Hinv p ltac:(by eexists)). lia. }
  assert (us_uploads (spec g) !! p = None) as Hup.
  { destruct (us_uploads (spec g) !! p) eqn:E; [|done]. destruct (si_uploads _ _ Hinv p) as [? ?]; [by eexists|congruence]. }
  assert (∀ p' u, us_uploads (spec g) !! p' = Some u → <[p := opened_upload r n key]> (us_uploads (spec g)) !! p' = Some u) as Hold.
  { intros p' u Hu. rewrite lookup_insert_ne; [done|]. intros <-. congruence. }
  split.
  - split; cbn.
    + apply rtc_once. destruct g as [[o us ds] se]. by apply u_open.
    + apply touches_refl; [apply Hinv|apply Hown].
    + intros p' u Hu. exists u. cbn. by rewrite (Hold p' u Hu).
    + intros p' _ [up Hp']. assert (p' ≠ p) as Hne by congruence. split; cbn; by rewrite lookup_insert_ne.
    + intros j Hj. by rewrite lookup_insert_ne.
    + done.
    + auto.
    + split; [|set_solver]. split; [set_solver|apply owns_empty].
    + intros p' _ Hm. destruct (decide (p' = p)) as [->|Hne].
      * intros up u Hh Hu. cbn in Hh, Hu. rewrite lookup_insert_eq in Hh; rewrite lookup_insert_eq in Hu. simplify_eq. split; [done|]. exists ∅.
        split; [done|apply map_Forall2_empty].
      * apply (mutex_same p' s g); [|done|exact Hm]. split; cbn; by rewrite lookup_insert_ne.
  - split; cbn; try apply Hinv.
    + intros p' Hp'. destruct (decide (p' = p)) as [->|Hne]; [lia|]. rewrite lookup_insert_ne in Hp' by done.
      pose proof (si_heap _ _ Hinv p' Hp'). lia.
    + intros p' Hp'. destruct (decide (p' = p)) as [->|Hne]; [rewrite lookup_insert_eq; by eexists|].
      rewrite lookup_insert_ne in Hp' by done. rewrite lookup_insert_ne by done. by apply (si_uploads _ _ Hinv).
    + intros p' up Hp'. apply lookup_insert_Some in Hp' as [[<- <-]|[Hne Hp']].
      * rewrite lookup_insert_eq. by eexists.
      * rewrite lookup_insert_ne by done. by apply (si_same _ _ Hinv).
    + intros id p' Hid. apply lookup_insert_Some in Hid as [[<- <-]|[_ Hid]].
      * rewrite lookup_insert_eq. by eexists.
      * destruct (si_ids _ _ Hinv id p' Hid) as (u & Hu & ?). exists u. by rewrite (Hold _ _ Hu).
Qed.

Lemma initiate_safe i r n key s g :
  us_deeds (spec g) !! i = None → safely i (AskInitiate r n key) (initiate_prog r n key) [] ∅ s g.
Proof.
  intros Hd s1 g1 Hr1 Hinv1 Hown1. cbn in Hr1, Hinv1, Hown1.
  assert (us_deeds (spec g1) !! i = None) as Hd1 by by rewrite (un_deed _ _ _ _ _ _ _ Hr1).
  apply wp_try. eapply (wp_touches ∅ s1 g1 Hinv1 Hown1).
  - eapply triple_mono; [apply triple_GetBucket, Hinv1|..]; [|intros e w' He; exact He|done].
    intros bi w' (Hok & Hk & _). exact (unharmed_kept _ _ Hok Hk).
  - apply frames_GetBucket.
  - intros bi w' Hu _ Hw. pose proof (quiet_step i [] ∅ s1 g1 Hinv1 Hown1 ltac:(done) w' Hu Hw) as [Hs Hi].
    exists g1, ∅. split; [exact Hs|]. split; [exact Hi|].
    apply server_lock_safe; [by intros ? ?%not_elem_of_nil|]. intros s2 g2 Hr2 Hinv2 Hown2. cbn in Hr2, Hinv2, Hown2.
    assert (us_deeds (spec g2) !! i = None) as Hd2 by by rewrite (un_deed _ _ _ _ _ _ _ Hr2).
    unfold wp. destruct (register_step i [server_mu] r n key s2 g2 _ Hinv2 Hown2 Hd2 eq_refl) as [Hs2 Hi2].
    eexists _, ∅. split; [exact Hs2|]. split; [exact Hi2|]. apply server_unlock_safe.
    eapply (answer_safe _ _ _ _ _ _ (Opened (up_next s2))); [apply lookup_insert_eq|]. split; [|done].
    exists (opened_upload r n key). split; [apply lookup_insert_eq|done].
  - intros e w' (Hok & Hs & _) Hw. destruct (writeStoreError_status e (bucket_resource n)) as (st & Hst & Hle).
    pose proof (quiet_step i [] ∅ s1 g1 Hinv1 Hown1 ltac:(done) w' (conj Hok Hs) Hw) as Hstep.
    apply (refuse_step _ _ _ _ _ _ _ _ st) in Hstep as [? ?]; [|done|lia]. eexists _, ∅. split_and!; [done..|].
    apply refused_safe; [done|exact Hst|lia].
  - done.
Qed.

(** *** Ending an upload *)

(** The upload's id is forgotten. *)
Lemma forget_step i L X s g id :
  server_inv s g → owned_ok X s g → (∀ p, upload_mu p ∈ L → is_Some (up_heap s !! p)) →
  good_step i L X X s g (set_uploads (delete id) s) g.
Proof.
  intros Hinv Hown HL. apply server_step; auto; cbn; try apply Hinv.
  - apply touches_refl; [apply Hinv|apply Hown].
  - intros id' p' Hp. by apply lookup_delete_Some in Hp as [_ ?].
  - done.
  - intros p Hp. destruct (HL p Hp) as [up Hup]. destruct (si_same _ _ Hinv p up Hup) as (u & Hu & _).
    exists up, u, up, u. split_and!; [done..|]. exists (au_parts u). by rewrite with_parts_same.
  - apply rtc_refl.
Qed.

Lemma forget_safe i q id k L X s g :
  (∀ m, m ∈ L → 0 < m) → (∀ p, upload_mu p ∈ L → is_Some (up_heap s !! p)) →
  (∀ s1 s2 g1, unaffected i L X s g s1 g1 → up_heap s2 = up_heap s1 → safely i q k L X s2 g1) →
  safely i q (forget_prog id k) L X s g.
Proof.
  intros HL0 HL Hk. apply server_lock_safe; [done|]. intros s1 g1 Hr Hinv Hown. cbn in Hr, Hinv, Hown.
  unfold wp, modify; cbn [fst snd].
  destruct (forget_step i (server_mu :: L) X s1 g1 id Hinv Hown) as [Hs Hi].
  { intros p Hp. destruct (un_locked _ _ _ _ _ _ _ Hr p Hp) as [-> _]; by apply HL, in_server_mu. }
  exists g1, X. split; [exact Hs|]. split; [exact Hi|]. apply server_unlock_safe, (Hk s1); [|done].
  eapply unaffected_less; [|exact Hr]. intros p. apply in_server_mu.
Qed.

(** The files of the upload's parts are known. *)
Definition files_known (g : ghost) (up : multipartUpload) : Prop :=
  ∀ k sp, up_parts up !! k = Some sp → ∃ c, part_ok g (up_bucket up) sp c.

Lemma files_known_sealed g g' up : sealed g ⊆ sealed g' → files_known g up → files_known g' up.
Proof. intros Hsub Hf k sp Hk. destruct (Hf k sp Hk) as [c Hc]. exists c. by eapply part_ok_sealed. Qed.
Lemma upload_ok_files g up u : upload_ok g up u → files_known g up.
Proof.
  intros [_ Hok] k sp Hk. destruct (up_done up); [destruct Hok as [_ E]; by rewrite E, lookup_empty in Hk|].
  destruct Hok as (cs & _ & Hparts). specialize (Hparts k). rewrite Hk in Hparts. inversion Hparts as [? c Hc|]; subst. by exists c.
Qed.

Definition without_parts (up : multipartUpload) : multipartUpload :=
  mkMultipartUpload (up_bucket up) (up_key up) (up_contentType up) (up_metadata up) ∅ (up_done up).

(** [removePartsLocked] on an upload that has ended. *)
Lemma clear_safe i q p k up u X s g :
  holds p up u s g → files_known g up → au_parts u = None →
  (∀ s1 g1 s2, unaffected i [upload_mu p] X s g s1 g1 → holds p (without_parts up) u s2 g1 → safely i q k [upload_mu p] X s2 g1) →
  safely i q (Call (removePartsLocked p) (λ _, k)) [upload_mu p] X s g.
Proof.
  intros Hh Hf Hnone Hk s1 g1 Hr Hinv Hown. cbn in Hr, Hinv, Hown. pose proof (holds_unaffected _ _ _ _ _ _ _ _ _ Hr Hh) as Hh1.
  pose proof (files_known_sealed _ _ _ (un_sealed _ _ _ _ _ _ _ Hr) Hf) as Hf1.
  unfold removePartsLocked. apply wp_bind. unfold load_upload, wp at 1. rewrite (ho_heap _ _ _ _ _ Hh1). cbn [fst snd bind_post].
  apply wp_bind. eapply (wp_touches X s1 g1 Hinv Hown).
  - apply triple_remove_files; [apply Hinv|]. apply Forall_fmap, Forall_forall. intros [j sp] Hin%elem_of_map_to_list. cbn.
    destruct (Hf1 j sp Hin) as [c Hc]. by eapply part_ok_file.
  - apply frames_remove_files.
  - intros [] w' Hu _ Hw. cbn [bind_post]. apply wp_modify. exists g1, X.
    destruct (heap_step i X s1 g1 p up u without_parts None w' g1) as [[Hs Hi] Hh2]; try done.
    { rewrite <- Hnone, with_parts_same, insert_id; [done|apply Hh1]. }
    split; [exact Hs|]. split; [exact Hi|]. apply (Hk s1 g1); [done|].
    by rewrite <- Hnone, with_parts_same in Hh2.
  - done.
  - done.
Qed.

(** *** abortMultipartUpload *)
Definition end_upload (i p : nat) (u : aupload) (d : deed) (o : astate) (g : ghost) : ghost :=
  mkGhost (mkUSpec o (<[p := with_parts None u]> (us_uploads (spec g))) (<[i := d]> (us_deeds (spec g)))) (sealed g).

Lemma abort_safe i r n key s g :
  us_deeds (spec g) !! i = None → safely i (AskAbort r n key) (abort_prog r n key) [] ∅ s g.
Proof.
  intros Hd. apply lookup_safe; [done|done|]. clear s g Hd. intros p s g Hinv Hd Ha. apply goes_on; [done|].
  eapply lock_safe; [exact Ha|]. intros up u s1 g1 Hr1 Hh1 Hok1 Hid Hb Hkey s2 g2 Hr2 Hinv2 Hown2.
  cbn in Hr2, Hinv2, Hown2. pose proof (holds_unaffected _ _ _ _ _ _ _ _ _ Hr2 Hh1) as Hh2.
  pose proof (upload_ok_sealed _ g2 _ _ (un_sealed _ _ _ _ _ _ _ Hr2) Hok1) as Hok2.
  assert (us_deeds (spec g2) !! i = None) as Hd2 by by rewrite (un_deed _ _ _ _ _ _ _ Hr2), (un_deed _ _ _ _ _ _ _ Hr1).
  set (g3 := end_upload i p u (Aborted p) (us_objects (spec g2)) g2).
  destruct (heap_step i ∅ s2 g2 p up u set_up_done None (store s2) g3) as [[Hs3 Hi3] Hh3]; try done.
  { apply unharmed_refl, Hinv2. }
  { apply touches_refl; [apply Hinv2|apply Hown2]. }
  { apply rtc_once. destruct g2 as [[o us ds] se]. apply u_abort; [done|apply Hh2]. }
  { intros j Hj. cbn. by rewrite lookup_insert_ne by done. }
  rewrite set_store_store in Hs3, Hi3, Hh3. exists g3, ∅. split; [exact Hs3|]. split; [exact Hi3|].
  assert (tells (spec g3) (AskAbort r n key) (Aborted p) (Http (writeHeader 204))) as Ht3.
  { split; [|done]. eexists. split; [apply lookup_insert_eq|]. destruct (proj1 Hok2) as (? & ? & _).
    split_and!; [done|cbn; congruence..]. }
  assert (us_deeds (spec g3) !! i = Some (Aborted p)) as Hd3 by apply lookup_insert_eq.
  eapply clear_safe; [exact Hh3|exact (upload_ok_files _ _ _ Hok2)|done|]. intros s4 g4 s5 Hr4 Hh5.
  eapply unlock_then; [exact Hh5| |].
  { split; [apply Hok2|done]. }
  apply forget_safe; [by intros ? ?%not_elem_of_nil|done|]. intros s6 s7 g6 Hr6 _.
  apply (answer_safe _ _ _ _ _ _ (Aborted p)).
  - by rewrite (un_deed _ _ _ _ _ _ _ Hr6), (un_deed _ _ _ _ _ _ _ Hr4).
  - eapply tells_grow; [|exact Ht3]. eapply uploads_grow_trans; [apply Hr4|apply Hr6].
Qed.

(** *** completeMultipartUpload *)

(** The request has locked [p], which is open and has the parts [cs], and has
    written [c] to a writer of its own. *)
Record writes (i p : nat) (up : multipartUpload) (u : aupload) (X : gset nat) (wp : nat) (c : bytes) (s : Server) (g : ghost) : Prop := {
  wr_deed : us_deeds (spec g) !! i = None;
  wr_holds : holds p up u s g;
  wr_upload : upload_ok g up u;
  wr_owned : wp ∈ X ∧ wp < next (store s);
  wr_writer : ∃ bw b, writing (store s) wp bw ∧ w_sha bw = c ∧ handles (store s) !! w_b bw = Some b ∧ b_name b = up_bucket up;
}.

Lemma writes_unaffected i p up u X wp c s g s' g' :
  unaffected i [upload_mu p] X s g s' g' → server_inv s' g' → writes i p up u X wp c s g → writes i p up u X wp c s' g'.
Proof.
  intros Hr Hinv [Hd Hh Hok [HX Hlt] (bw & b & [Hbw Hnd] & Hsha & Hb & Hn)].
  assert (writers (store s') !! wp = Some bw) as Hbw' by by rewrite (un_writers _ _ _ _ _ _ _ Hr).
  split.
  - by rewrite (un_deed _ _ _ _ _ _ _ Hr).
  - by eapply holds_unaffected.
  - eapply upload_ok_sealed; [apply Hr|done].
  - split; [done|]. pose proof (un_next _ _ _ _ _ _ _ Hr). lia.
  - destruct (un_handles _ _ _ _ _ _ _ Hr _ _ Hb) as (b' & Hb' & E). exists bw, b'. split_and!; [done..|congruence].
Qed.

(** After a step of its own that leaves the objects. *)
Lemma writes_step i p up u X wp c c' s g w' bw bw' :
  writes i p up u X wp c s g → touches X (store s) w' → writing (store s) wp bw → 
  writing w' wp bw' → same_writer bw bw' → w_sha bw' = c' → writes i p up u X wp c' (set_store w' s) g.
Proof.
  intros [Hd Hh Hok [HX Hlt] (bw0 & b & Hw0 & Hsha & Hb & Hn)] Hw Hbw Hbw' (Eb & _ & _) Hc.
  destruct Hw0 as [Hw0 _], Hbw as [Hbw _]. simplify_eq. split; try done.
  - by destruct Hh.
  - split; [done|]. cbn. pose proof (to_next _ _ _ Hw). lia.
  - destruct (to_handles _ _ _ Hw _ _ Hb) as (b' & Hb' & E). exists bw', b'. cbn. rewrite Eb. split_and!; [done..|congruence].
Qed.

Lemma writes_locked i p up u X wp c s g : writes i p up u X wp c s g → ∀ p', upload_mu p' ∈ [upload_mu p] → is_Some (up_heap s !! p').
Proof. intros Hw p' ->%my_lock. exists up. apply Hw. Qed.

(** The parts are appended one after the other. *)
Lemma append_safe i q p up u cs X wp reqs k :
  up_done up = false → au_parts u = Some cs → Forall (names_part cs) reqs → ∀ c s g,
  writes i p up u X wp c s g →
  (∀ e c s g, writes i p up u X wp c s g → safely i q (k (Some e)) [upload_mu p] X s g) →
  (∀ s g, writes i p up u X wp (c ++ contents_of cs reqs) s g → safely i q (k None) [upload_mu p] X s g) →
  safely i q (append_prog wp reqs (up_parts up) k) [upload_mu p] X s g.
Proof.
  intros Hnd Hcs. induction 1 as [|r reqs (d & Hd & _) _ IH]; intros c s g Hw Herr Hend; cbn [append_prog].
  { apply Hend. unfold contents_of. cbn. by rewrite app_nil_r. }
  intros s1 g1 Hr Hinv Hown. cbn in Hr, Hinv, Hown. apply (writes_unaffected _ _ _ _ _ _ _ _ _ _ _ Hr Hinv) in Hw.
  pose proof Hw as [_ _ [_ Hok] _ (bw & b & Hbw & Hsha & _)]. rewrite Hnd in Hok. destruct Hok as (cs' & E & Hparts). simplify_eq.
  specialize (Hparts (cp_PartNumber r)). rewrite Hd in Hparts. inversion Hparts as [sp d' Hp E1|]; subst. clear Hparts.
  destruct Hp as (x & Epath & Hx & _). destruct (si_sealed _ _ Hinv _ _ Hx) as (_ & _ & Hf & Ht). cbn [fst snd] in *.
  eapply (wp_touches X s1 g1 Hinv Hown).
  - by eapply (triple_append_part _ wp bw (up_bucket up) x d); [apply Hinv|..].
  - apply frames_append_part. left. apply Hw.
  - intros err w' (Hu & bw' & Hbw' & Hsame & Hdone) _ Hto.
    destruct (quiet_step i [upload_mu p] X s1 g1 Hinv Hown (writes_locked _ _ _ _ _ _ _ _ _ Hw) w' Hu Hto) as [Hs Hi].
    exists g1, X. split; [exact Hs|]. split; [exact Hi|]. destruct err as [e|].
    + eapply Herr. by eapply writes_step.
    + eapply IH; [by eapply writes_step|done|]. intros s2 g2 Hw2. apply Hend. rewrite (Hdone eq_refl) in Hw2.
      unfold contents_of in *. cbn. by rewrite Hd, app_assoc.
  - done.
  - done.
Qed.

(** The commit is the moment at which the upload is completed. *)
Lemma commit_step i p up u cs X wp reqs s g w' oi bw b :
  let n := up_bucket up in
  server_inv s g → owned_ok X s g → writes i p up u X wp (contents_of cs reqs) s g →
  writing (store s) wp bw → handles (store s) !! w_b bw = Some b → b_name b = n →
  au_parts u = Some cs → reqs ≠ [] → parts_sorted reqs = true → Forall (names_part cs) reqs →
  world_ok w' → touches X (store s) w' →
  wrote n (up_key up) (w_sha bw) (upload_options (up_contentType up) (up_metadata up)) oi (store s) w' →
  let g' := end_upload i p u (Completed p reqs (contents_of cs reqs)) (tables w') g in
  good_step i [upload_mu p] X X s g (set_store w' s) g'.
Proof.
  intros n Hinv Hown [Hd Hh [Hsame _] _ (bw0 & b0 & [Hbw0 _] & Hsha & _)] [Hbw _] Hb Hn Hcs Hne Hsort Hnames Hok Hw Hwrote g'. simplify_eq.
  destruct Hsame as (Eb & Ek & Eo). apply server_step; auto.
  - intros p' Hp'%other_lock. split; [done|]. cbn. rewrite lookup_insert_ne by congruence. done.
  - intros p' ->%my_lock. exists up, u, up, (with_parts None u). split_and!; try done; [apply Hh..|cbn; apply lookup_insert_eq|by exists None].
  - apply rtc_once. destruct Hwrote as (t & t' & Ht & Hc & Hu & Hu').
    pose proof (si_objects _ _ Hinv) as Hobj. destruct g as [[o us ds] se]. cbn in *.
    eapply (u_complete i p u cs reqs oi t t'); rewrite ?Eb, ?Ek, ?Eo; try done.
    + apply Hh.
    + by rewrite Hobj.
    + congruence.
    + split; [done|]. intros m Hm. rewrite Hobj. by apply Hu'.
  - intros j Hj. cbn. by rewrite lookup_insert_ne by done.
  - eapply sealed_touched; [apply Hinv|done|done].
  - by apply owned_touched.
Qed.

(** The writer that the request makes is its own, with all that is new. *)
Definition made (s : Server) (w' : world) : gset nat := set_seq (next (store s)) (next w' - next (store s)).

Lemma new_writer_step i p up u s g w' wp bw b :
  server_inv s g → owned_ok ∅ s g → us_deeds (spec g) !! i = None → holds p up u s g → upload_ok g up u →
  world_ok w' → kept (store s) w' → touches ∅ (store s) w' → next (store s) ≤ wp →
  writing w' wp bw → w_sha bw = [] → handles w' !! w_b bw = Some b → b_name b = up_bucket up →
  good_step i [upload_mu p] ∅ (made s w') s g (set_store w' s) g ∧ writes i p up u (made s w') wp [] (set_store w' s) g.
Proof.
  intros Hinv Hown Hd Hh Hok Hokw [Hs _] Hw Hwp [Hbw Hnd] Hsha Hb Hn.
  assert (∀ x, x ∈ made s w' ↔ next (store s) ≤ x < next w') as Hmade.
  { intros x. unfold made. rewrite elem_of_set_seq. pose proof (to_next _ _ _ Hw). lia. }
  split.
  - apply store_step; try done.
    + intros p' ->%my_lock. exists up. apply Hh.
    + intros m. by rewrite (si_objects _ _ Hinv m), Hs.
    + auto.
    + by eapply sealed_touched; [apply Hinv|..].
    + split; cbn.
      * intros x [Hx1 Hx2]%Hmade. split; [done|]. destruct (sealed g !! x) as [nc|] eqn:E; [|done].
        destruct (si_sealed _ _ Hinv _ _ E) as (? & _). lia.
      * intros q bq Hq [Hq1 Hq2]%Hmade. apply Hmade. destruct (ok_writers _ (wok_proc _ Hokw) _ _ Hq) as (_ & ? & _).
        destruct (to_mine _ _ _ Hw q bq Hq) as [?|?]; [by right|set_solver|lia].
    + intros x [? _]%Hmade. by right.
  - split; [done|by destruct Hh|done| |].
    + destruct (ok_writers _ (wok_proc _ Hokw) _ _ Hbw) as (? & _). split; [by apply Hmade|done].
    + exists bw, b. done.
Qed.

(** An error while the parts are appended. *)
Lemma abandon_safe i q p up u X wp c e n key s g :
  is_http q → writes i p up u X wp c s g →
  safely i q (Call (call (Abort_ wp)) (λ _, Unlock (upload_mu p) (respond (writeS3Error 500 "InternalError" (Error e) (resource n key)))))
    [upload_mu p] X s g.
Proof.
  intros Hq Hwr s1 g1 Hr Hinv Hown. cbn in Hr, Hinv, Hown. apply (writes_unaffected _ _ _ _ _ _ _ _ _ _ _ Hr Hinv) in Hwr.
  pose proof Hwr as [Hd Hh Hok HX (bw & b & Hbw & _)]. eapply (wp_touches X s1 g1 Hinv Hown).
  - eapply triple_conseq; [| |by apply (triple_Abort _ wp bw), Hbw; apply Hinv]; [intros e' w' He; exact He|done].
  - apply frames_Abort. left. apply HX.
  - intros [] w' (Hokw & Hk & _) _ Hw.
    pose proof (quiet_step i [upload_mu p] X s1 g1 Hinv Hown (writes_locked _ _ _ _ _ _ _ _ _ Hwr) w' (unharmed_kept _ _ Hokw Hk) Hw) as Hstep.
    apply (refuse_step _ _ _ _ _ _ _ _ 500%Z) in Hstep as [? ?]; [|done..]. eexists _, X. split_and!; [done..|].
    eapply unlock_refused; [by destruct Hh|done|done|done|done].
  - done.
  - done.
Qed.

(** After the commit: the upload ends. *)
Lemma end_safe i q p up u X parts c resp id s g :
  us_deeds (spec g) !! i = Some (Completed p parts c) → tells (spec g) q (Completed p parts c) (Http resp) → holds p up u s g → same_upload up u →
  files_known g up → au_parts u = None →
  safely i q (Call (modify (set_heap (alter set_up_done p))) (λ _, Call (removePartsLocked p) (λ _,
    forget_prog id (Unlock (upload_mu p) (respond resp))))) [upload_mu p] X s g.
Proof.
  intros Hd Ht Hh Hsame Hf Hnone s1 g1 Hr1 Hinv1 Hown1. cbn in Hr1, Hinv1, Hown1.
  pose proof (holds_unaffected _ _ _ _ _ _ _ _ _ Hr1 Hh) as Hh1.
  destruct (heap_step i X s1 g1 p up u set_up_done None (store s1) g1) as [[Hs2 Hi2] Hh2]; try done.
  { apply unharmed_refl, Hinv1. }
  { apply touches_refl; [apply Hinv1|apply Hown1]. }
  { rewrite <- Hnone, with_parts_same, insert_id; [done|apply Hh1]. }
  rewrite set_store_store in Hs2, Hi2, Hh2. rewrite <- Hnone, with_parts_same in Hh2.
  exists g1, X. split; [exact Hs2|]. split; [exact Hi2|].
  eapply clear_safe; [exact Hh2|eapply files_known_sealed; [apply Hr1|exact Hf]|done|].
  intros s3 g3 s4 Hr3 Hh4. apply forget_safe.
  { intros m ->%list_elem_of_singleton. unfold upload_mu. lia. }
  { intros p' ->%my_lock. eexists. apply Hh4. }
  intros s5 s6 g5 Hr5 Eheap. pose proof (holds_unaffected _ _ _ _ _ _ _ _ _ Hr5 Hh4) as Hh5.
  eapply (unlock_safe _ _ _ p _ u _ _ _ (Completed p parts c)).
  - destruct Hh5 as [Hh5 ?]. split; [by rewrite Eheap|done].
  - split; [exact Hsame|done].
  - by rewrite (un_deed _ _ _ _ _ _ _ Hr5), (un_deed _ _ _ _ _ _ _ Hr3), (un_deed _ _ _ _ _ _ _ Hr1).
  - eapply tells_grow; [|exact Ht]. eapply uploads_grow_trans; [apply Hr1|]. eapply uploads_grow_trans; [apply Hr3|apply Hr5].
Qed.

Lemma commit_safe i r n key p up u cs X wp reqs s g :
  let id := values_Get (Query r) "uploadId" in
  writes i p up u X wp (contents_of cs reqs) s g → up_bucket up = n → up_key up = key → au_id u = id →
  up_done up = false → au_parts u = Some cs → Decode_complete (Body r) = inr reqs → reqs ≠ [] → parts_sorted reqs = true → Forall (names_part cs) reqs →
  safely i (AskComplete r n key)
    (Call (try (call (Commit wp key (mkPutOptions (up_contentType up) (up_metadata up) noConditions)))) (λ res,
     match res with
     | inl err => Unlock (upload_mu p) (respond (writeStoreError err (resource n key)))
     | inr info =>
       Call (modify (set_heap (alter set_up_done p))) (λ _, Call (removePartsLocked p) (λ _,
       forget_prog id (
       Unlock (upload_mu p) (respond (writeXML 200 (XComplete (mkComplete (resource n key) n key (etagFor info))))))))
     end)) [upload_mu p] X s g.
Proof.
  intros id Hwr Hb Hkey Hid Hnd Hcs Hdec Hne Hsort Hnames s1 g1 Hr Hinv Hown. cbn in Hr, Hinv, Hown.
  apply (writes_unaffected _ _ _ _ _ _ _ _ _ _ _ Hr Hinv) in Hwr.
  pose proof Hwr as [Hd Hh Hok HX (bw & b & Hbw & Hsha & Hhb & Hbn)].
  apply wp_try. eapply (wp_touches X s1 g1 Hinv Hown).
  - eapply triple_conseq; [| |by apply (triple_Commit _ wp bw b key _ (si_world _ _ Hinv) Hbw Hhb)]; [intros e w' He; exact He|done].
  - apply frames_Commit. left. apply HX.
  - intros oi w' (Hokw & _ & Hch & (t & t' & Ht & Ht' & Hc) & _) _ Hw.
    assert (wrote (up_bucket up) (up_key up) (w_sha bw) (upload_options (up_contentType up) (up_metadata up)) oi (store s1) w') as Hwrote.
    { rewrite Hkey, <- Hbn. by eapply commits_wrote. }
    destruct (commit_step i p up u cs X wp reqs s1 g1 w' oi bw b) as [Hs2 Hi2]; try done.
    eexists _, X. split; [exact Hs2|]. split; [exact Hi2|].
    eapply (end_safe i _ p up _ X reqs (contents_of cs reqs)).
    + apply lookup_insert_eq.
    + split_and!; [|exact Hdec|].
      * eexists. split; [apply lookup_insert_eq|]. destruct (proj1 Hok) as (? & ? & _). split_and!; [done|cbn; congruence..].
      * destruct Hc as (ex & t0 & _ & _ & _ & -> & _). unfold etagFor. cbn. by rewrite <- Hsha.
    + split; [apply Hh|apply lookup_insert_eq].
    + apply Hok.
    + exact (upload_ok_files _ _ _ Hok).
    + done.
  - intros e w' ((Hokw & Hs & _) & _) Hw. destruct (writeStoreError_status e (resource n key)) as (st & Hst & Hle).
    pose proof (quiet_step i [upload_mu p] X s1 g1 Hinv Hown (writes_locked _ _ _ _ _ _ _ _ _ Hwr) w' (conj Hokw Hs) Hw) as Hstep.
    apply (refuse_step _ _ _ _ _ _ _ _ st) in Hstep as [? ?]; [|done|lia]. eexists _, X. split_and!; [done..|].
    eapply unlock_refused; [by destruct Hh|done|done|exact Hst|lia].
  - done.
Qed.

Lemma complete_locked_safe i r n key p reqs s g :
  let id := values_Get (Query r) "uploadId" in
  us_deeds (spec g) !! i = None → addresses (spec g) p id n key → Decode_complete (Body r) = inr reqs → reqs ≠ [] → parts_sorted reqs = true →
  safely i (AskComplete r n key) (complete_locked p id reqs n key) [] ∅ s g.
Proof.
  intros id Hd Ha Hdec Hne Hsort. unfold complete_locked. eapply lock_safe; [exact Ha|].
  intros up u s1 g1 Hr1 Hh1 Hok1 Hid Hb Hkey. eapply load_safe; [exact Hh1|]. intros s2 g2 Hr2 Hinv2 Hown2 Hh2.
  assert (us_deeds (spec g2) !! i = None) as Hd2 by by rewrite (un_deed _ _ _ _ _ _ _ Hr2), (un_deed _ _ _ _ _ _ _ Hr1).
  pose proof (upload_ok_sealed _ g2 _ _ (un_sealed _ _ _ _ _ _ _ Hr2) Hok1) as Hok2.
  assert (∀ p', upload_mu p' ∈ [upload_mu p] → is_Some (up_heap s2 !! p')) as HL by (intros p' ->%my_lock; exists up; apply Hh2).
  pose proof (same_step i [upload_mu p] ∅ s2 g2 Hinv2 Hown2 HL) as Hstep.
  assert (∀ resp st, response_status resp = Some st → (400 ≤ st)%Z →
    ∃ g', good_step i [upload_mu p] ∅ ∅ s2 g2 s2 g' ∧ safely i (AskComplete r n key) (Unlock (upload_mu p) (respond resp)) [upload_mu p] ∅ s2 g') as Hrefuse.
  { intros resp st Hst Hle. exists (with_deed i (Refused st) g2). split; [by apply refuse_step|]. by eapply unlock_refused. }
  destruct (up_done up) eqn:Hdone; [by apply (Hrefuse _ 404%Z)|].
  destruct (check_parts reqs (up_parts up)) as [message|] eqn:Hcheck; [by apply (Hrefuse _ 400%Z)|].
  clear Hrefuse. pose proof Hok2 as [Hsame Hok2']. rewrite Hdone in Hok2'. destruct Hok2' as (cs & Hcs & Hparts).
  assert (Forall (names_part cs) reqs) as Hnames.
  { apply (check_parts_spec (up_parts up) cs); [|done]. eapply map_Forall2_impl; [exact Hparts|]. by intros k sp c (x & _ & _ & ?). }
  exists g2. split; [done|]. intros s3 g3 Hr3 Hinv3 Hown3. cbn in Hr3, Hinv3, Hown3.
  pose proof (holds_unaffected _ _ _ _ _ _ _ _ _ Hr3 Hh2) as Hh3.
  pose proof (upload_ok_sealed _ g3 _ _ (un_sealed _ _ _ _ _ _ _ Hr3) Hok2) as Hok3.
  assert (us_deeds (spec g3) !! i = None) as Hd3 by by rewrite (un_deed _ _ _ _ _ _ _ Hr3).
  assert (∀ p', upload_mu p' ∈ [upload_mu p] → is_Some (up_heap s3 !! p')) as HL3 by (intros p' ->%my_lock; exists up; apply Hh3).
  apply wp_try. eapply (wp_touches ∅ s3 g3 Hinv3 Hown3).
  - eapply triple_conseq; [| |apply triple_NewBlobWriter, Hinv3]; [intros e w' He; exact He|done].
  - apply frames_NewBlobWriter.
  - intros wp w' (Hok & Hk & bw & Hbw & Hsha & b & Hb' & Hname & _) Hnew Hw.
    destruct (new_writer_step i p up u s3 g3 w' wp bw b) as [[Hs4 Hi4] Hw4]; try done; [congruence|].
    exists g3, (made s3 w'). split; [exact Hs4|]. split; [exact Hi4|].
    eapply (append_safe i _ p up u cs); [done..|exact Hw4| |].
    + intros e c s5 g5 Hw5. by eapply abandon_safe.
    + intros s5 g5 Hw5. by eapply commit_safe.
  - intros e w' (Hok & Hs & _) Hw. destruct (writeStoreError_status e (resource n key)) as (st & Hst & Hle).
    pose proof (quiet_step i [upload_mu p] ∅ s3 g3 Hinv3 Hown3 HL3 w' (conj Hok Hs) Hw) as Hstep3.
    apply (refuse_step _ _ _ _ _ _ _ _ st) in Hstep3 as [? ?]; [|done|lia]. eexists _, ∅. split_and!; [done..|].
    eapply unlock_refused; [by destruct Hh3|done|done|exact Hst|lia].
  - done.
Qed.

(** *** A call of the store *)
Definition acted (i : nat) (o : op) (out : outcome unit) (objs : astate) (g : ghost) : ghost :=
  mkGhost (mkUSpec objs (us_uploads (spec g)) (<[i := Acted o out]> (us_deeds (spec g)))) (sealed g).

Lemma store_call_safe i o Ho s g :
  us_deeds (spec g) !! i = None → safely i (AskStore o Ho) (store_prog o) [] ∅ s g.
Proof.
  intros Hd s1 g1 Hr Hinv Hown. cbn in Hr, Hinv, Hown.
  assert (us_deeds (spec g1) !! i = None) as Hd1 by by rewrite (un_deed _ _ _ _ _ _ _ Hr).
  pose proof (si_world _ _ Hinv) as Hok. assert (enabled (store s1) o) as He by by destruct o.
  pose proof (exec_safe _ o Hok He) as Hs. unfold wp in Hs.
  assert (touches ∅ (store s1) (exec o (store s1)).2) as Hw.
  { apply (exec_touches ∅ (store s1) o Ho (store s1)). apply touches_refl; [done|apply Hown]. }
  unfold wp, call, zoom, observe. pose proof (u_act i o (store s1) (us_objects (spec g1)) (us_uploads (spec g1)) _ Hd1 Ho Hok (si_objects _ _ Hinv)) as Hstep.
  destruct (exec o (store s1)) as [out w'] eqn:E. cbn [fst snd] in *.
  assert (out = Crash ∨ out ≠ Crash) as [->|Hn] by (destruct out; first [by left|by right]); [done|]. specialize (Hstep Hn).
  assert (good_step i [] ∅ ∅ s1 g1 (set_store w' s1) (acted i o out (tables w') g1)) as [Hst Hi].
  { apply store_step; try done.
    - by destruct out.
    - apply rtc_once. destruct g1 as [[objs us ds] se]. exact Hstep.
    - intros j Hj. cbn. by rewrite lookup_insert_ne by done.
    - auto.
    - by eapply sealed_touched; [apply Hinv|..]. }
  assert (∃ g' r', step_ok i [] ∅ r' s1 g1 (set_store w' s1) g' ∧ server_inv (set_store w' s1) g' ∧
    Pool.safe upload_protocol i (AskStore o Ho) (Answer (Returned out)) [] r' (set_store w' s1) g') as Hdone.
  { eexists _, ∅. split; [exact Hst|]. split; [exact Hi|]. intros s2 g2 Hr2 _ _. split; [done|].
    exists (Acted o out). cbn in Hr2. rewrite (un_deed _ _ _ _ _ _ _ Hr2). split; [apply lookup_insert_eq|done]. }
  by destruct out.
Qed.

Lemma complete_safe i r n key s g :
  us_deeds (spec g) !! i = None → safely i (AskComplete r n key) (complete_prog r n key) [] ∅ s g.
Proof.
  intros Hd. apply lookup_safe; [done|done|]. clear s g Hd. intros p s g Hinv Hd Ha.
  destruct (Decode_complete (Body r)) as [e|reqs] eqn:Hdec; [by apply (turned_away _ _ _ 400)|].
  destruct reqs as [|q reqs']; [by apply (turned_away _ _ _ 400)|]. cbn beta iota. set (reqs := q :: reqs') in *.
  destruct (parts_sorted reqs) eqn:Hsort; cbn [negb]; [|by apply (turned_away _ _ _ 400)].
  apply goes_on; [done|]. by apply complete_locked_safe.
Qed.
End races.
