(* ===== verification/RaceProps.v ===== *)
(** The properties of concurrent requests on multipart uploads. *)

From S2P Require Import Prelude Errors GoMonad Pool GoStd GoNet Types Names Hash Database World Bucket Store BlobWriter StoreInv Triple StoreSafe StoreOps ObjectOps WriterOps Listing ListingSpec Run Frame Refine Samples StoreProps.
From S2P Require Import AwsChunked S3Types S3 S3Multipart PartOps S3Props S3Copy Multipart Uploads UploadOps UploadSpec Races.
From stdpp Require Import options.
From stdpp Require Import relations.

(** ** The other activities of the process *)

(** Meanwhile the clock goes on, or back, and the environment turns hostile or
    calms down. *)
Inductive others : Server → Server → Prop :=
  | others_clock t s : others s (set_store (set_now t (store s)) s)
  | others_faults fs s : others s (set_store (set_faults fs (store s)) s).

Lemma others_guar i s g s' :
  others s s' → server_inv s g → us_deeds (spec g) !! i = None →
  ∃ g', step_ok i [] ∅ ∅ s g s' g' ∧ server_inv s' g' ∧ us_deeds (spec g') !! i = None.
Proof.
  intros Ho Hinv Hd. exists g. assert (owned_ok ∅ s g) as Hown by (split; [set_solver|apply owns_empty]).
  assert (touches ∅ (store s) (store s)) as H0 by (apply touches_refl; [apply Hinv|apply owns_empty]).
  assert (∀ w', world_ok w' → same_tables (store s) w' → touches ∅ (store s) w' →
    step_ok i [] ∅ ∅ s g (set_store w' s) g ∧ server_inv (set_store w' s) g ∧ us_deeds (spec g) !! i = None) as H.
  { intros w' Hok Hs Hw. destruct (quiet_step i [] ∅ s g Hinv Hown (none_locked s) w' (conj Hok Hs) Hw). by split_and!. }
  destruct Ho; apply H; [apply world_ok_now, Hinv|done|by apply touches_now|apply world_ok_faults, Hinv|done|by apply touches_faults].
Qed.

Lemma serve_safe `{XmlDecoder} q i s g : us_deeds (spec g) !! i = None → safely i q (serve q) [] ∅ s g.
Proof.
  intros Hd. destruct q; [by apply initiate_safe|by apply uploadPart_safe|by apply complete_safe|by apply abort_safe|by apply store_call_safe].
Qed.

(** ** Runs of a server *)
Section server.
Context {decoder : XmlDecoder}.

Abbreviation requests := (pool Server reply ask).
Abbreviation server_steps := (pstep serve others).
Definition server_pool (w : world) : requests := mkPool (NewServer w) ∅ [].

(** The abstract server at the start. *)
Definition uploads_start (w : world) : uspec := mkUSpec (tables w) ∅ ∅.
Definition no_ghost (w : world) : ghost := mkGhost (uploads_start w) ∅.

Lemma server_starts w : world_ok w → pool_inv upload_protocol (server_pool w) (no_ghost w).
Proof.
  intros Hok. apply pool_inv_empty; cbn; [apply _| |intros [|p]; [done|intros up u Hp; cbn in Hp; by rewrite lookup_empty in Hp]|done].
  split; cbn; try done.
  - intros p [up Hp]. by rewrite lookup_empty in Hp.
  - intros p [u Hp]. by rewrite lookup_empty in Hp.
Qed.

Lemma server_sound c c' g :
  pool_inv upload_protocol c g → rtc server_steps c c' →
  ∃ g', rtc ustep (spec g) (spec g') ∧ pool_inv upload_protocol c' g'.
Proof.
  intros Hc Hr.
  destruct (pool_sound upload_protocol serve others (λ q i s g _ Hd, serve_safe q i s g Hd) others_guar
    _ _ _ Hc Hr) as (g' & Hg & Hinv).
  exists g'. split; [|done]. clear Hinv Hr Hc. induction Hg as [|g1 g2 g3 (i & L & X & X' & s & s' & Hs) _ IH]; [apply rtc_refl|].
  etrans; [apply Hs|exact IH].
Qed.

(** An upload of the server that no request has locked has the parts of the
    abstract one, each with its hash and in a file with its content (which is
    gone if the environment has removed it half-way). *)
Definition staged_as_part (s : Server) (n : string) (sp : stagedPart) (c : bytes) : Prop :=
  sp_md5 sp = md5_sum c ∧
  ∃ x, sp_path sp = part_path n x ∧ files (store s) !! x = Some c ∧
    (tree (store s) !! part_path n x = None ∨ tree (store s) !! part_path n x = Some (NFile x)).
Definition tracks (s : Server) (up : multipartUpload) (u : aupload) : Prop :=
  if up_done up then au_parts u = None
  else ∃ cs, au_parts u = Some cs ∧ map_Forall2 (λ _, staged_as_part s (up_bucket up)) (up_parts up) cs.

(** A pool of requests agrees with the abstract server [a]: the objects, the
    table of uploads, the uploads, the answers; and no request has done anything
    before it arrived. *)
Record uploads_agree (c : requests) (a : uspec) : Prop := {
  ua_objects n : us_objects a n = tables (store (shared c)) n;
  ua_ids id p : uploads (shared c) !! id = Some p → ∃ u, us_uploads a !! p = Some u ∧ au_id u = id;
  ua_heap p : is_Some (us_uploads a !! p) ↔ is_Some (up_heap (shared c) !! p);
  ua_uploads p up u : up_heap (shared c) !! p = Some up → us_uploads a !! p = Some u →
    same_upload up u ∧ (upload_mu p ∉ held c → tracks (shared c) up u);
  ua_answers i q x : reqs c !! i = Some (q, x) →
    x ≠ Broken ∧ ∀ answer, x = Answer answer → ∃ d, us_deeds a !! i = Some d ∧ tells a q d answer;
  ua_arrived i : reqs c !! i = None → us_deeds a !! i = None;
}.

Lemma mutex_tracks s g p up u :
  server_inv s g → mutex_inv p s g → up_heap s !! p = Some up → us_uploads (spec g) !! p = Some u → tracks s up u.
Proof.
  intros Hinv Hm Hup Hu. destruct (Hm up u Hup Hu) as [_ Hok]. unfold tracks. destruct (up_done up); [by destruct Hok|].
  destruct Hok as (cs & Ecs & Hparts). exists cs. split; [done|]. eapply map_Forall2_impl; [exact Hparts|].
  intros k sp c (x & Hp & Hx & Hmd). split; [done|]. exists x.
  destruct (si_sealed _ _ Hinv x _ Hx) as (_ & _ & ? & ?). done.
Qed.

Lemma pool_uploads_agree c g : pool_inv upload_protocol c g → uploads_agree c (spec g).
Proof.
  intros Hinv. pose proof Hinv as (L & X & Hc). pose proof (ps_inv _ _ _ _ _ Hc) as Hs. split.
  - apply (si_objects _ _ Hs).
  - apply (si_ids _ _ Hs).
  - intros p. split; [apply (si_uploads _ _ Hs)|]. intros [up Hup]. destruct (si_same _ _ Hs p up Hup) as (u & ? & _). by exists u.
  - intros p up u Hup Hu. destruct (si_same _ _ Hs p up Hup) as (u' & Hu' & Hsame). rewrite Hu in Hu'. apply (inj Some) in Hu' as <-.
    split; [done|]. intros Hfree. eapply mutex_tracks; [exact Hs| |exact Hup|exact Hu].
    exact (ps_guarded _ _ _ _ _ Hc (upload_mu p) Hfree).
  - intros i q x Hx. by apply (pool_answers upload_protocol c g i q x).
  - intros i Hi. pose proof (ps_reqs _ _ _ _ _ Hc i) as Hr. rewrite Hi in Hr. apply Hr.
Qed.

(** *** An upload is completed once *)
Record once (a : uspec) : Prop := {
  on_ended : ∀ i p ps c, us_deeds a !! i = Some (Completed p ps c) → ∃ u, us_uploads a !! p = Some u ∧ au_parts u = None;
  on_unique : ∀ i j p ps ps' c c', us_deeds a !! i = Some (Completed p ps c) → us_deeds a !! j = Some (Completed p ps' c') → i = j;
}.

Lemma once_deed i d o o' us us' ds :
  once (mkUSpec o us ds) → ds !! i = None →
  (∀ p u, us !! p = Some u → au_parts u = None → ∃ u', us' !! p = Some u' ∧ au_parts u' = None) →
  (∀ p ps c, d = Completed p ps c → (∃ u, us !! p = Some u ∧ au_parts u ≠ None) ∧ ∃ u, us' !! p = Some u ∧ au_parts u = None) →
  once (mkUSpec o' us' (<[i := d]> ds)).
Proof.
  intros [He Hu] Hi Hkeep Hd; cbn in *.
  assert (∀ j p ps c, ds !! j = Some (Completed p ps c) → ∃ u, us' !! p = Some u ∧ au_parts u = None) as Hold.
  { intros j p ps c Hj. destruct (He _ _ _ _ Hj) as (u & ? & ?). by eapply Hkeep. }
  assert (∀ j p ps ps' c c', d = Completed p ps c → ds !! j ≠ Some (Completed p ps' c')) as Hnew.
  { intros j p ps ps' c c' E Hj. destruct (Hd _ _ _ E) as [(u & Hp & Hne) _]. destruct (He _ _ _ _ Hj) as (u' & ? & ?). congruence. }
  split; cbn.
  - intros j p ps c [[<- E]|[_ Hj]]%lookup_insert_Some; [by destruct (Hd p ps c E)|by eapply Hold].
  - intros j j' p ps ps' c c' [[<- E]|[_ Hj]]%lookup_insert_Some [[<- E']|[_ Hj']]%lookup_insert_Some;
      [done|by destruct (Hnew j' p ps ps' c c' E)|by destruct (Hnew j p ps' ps c' c E')|by eapply Hu].
Qed.

Lemma ustep_once a a' : ustep a a' → once a → once a'.
Proof.
  intros Hs Ho. destruct Hs as [i o w objs us ds Hd _ _ _ _|i st o us ds|i p u o us ds Hd Hp|i p u cs k c o us ds Hd Hp Hcs|
    i p u cs reqs oi t t' o o' us ds Hd Hp Hcs|i p u o us ds Hd Hp].
  - eapply once_deed; [exact Ho|done|eauto|done].
  - eapply once_deed; [exact Ho|done|eauto|done].
  - eapply once_deed; [exact Ho|done| |done]. intros p' u' Hp' ?. exists u'. rewrite lookup_insert_ne; [done|congruence].
  - eapply once_deed; [exact Ho|done| |done]. intros p' u' Hp' ?. exists u'. rewrite lookup_insert_ne; [done|congruence].
  - eapply once_deed; [exact Ho|done| |].
    + intros p' u' Hp' ?. exists u'. rewrite lookup_insert_ne; [done|congruence].
    + intros p' ps c [= <- _ _]. split; [exists u; by rewrite Hcs|]. rewrite lookup_insert_eq. by eexists.
  - eapply once_deed; [exact Ho|done| |done]. intros p' u' Hp' ?. destruct (decide (p' = p)) as [->|].
    + rewrite lookup_insert_eq. by eexists.
    + rewrite lookup_insert_ne by done. by eexists.
Qed.

Lemma spec_once o a : rtc ustep (mkUSpec o ∅ ∅) a → once a.
Proof.
  intros Hr. assert (once (mkUSpec o ∅ ∅)) as H0 by (split; cbn; [intros i p ps c Hi|intros i j p ps ps' c c' Hi]; by rewrite lookup_empty in Hi).
  induction Hr; [done|]. eauto using ustep_once.
Qed.

(** ** Properties *)

(** The handlers of [pkg/s3], and the calls of the store. *)
Definition handle (q : ask) : M Server reply :=
  match q with
  | AskInitiate r n key => https (initiateMultipartUpload r n key)
  | AskPart r n key => https (uploadPart r n key)
  | AskComplete r n key => https (completeMultipartUpload r n key)
  | AskAbort r n key => https (abortMultipartUpload r n key)
  | AskStore o _ => let* out := call (observe (exec o)) in ret (Returned out)
  end.

(** The requests of the concurrent server are the handlers of the sequential
    one: run alone, a request answers and leaves the server as its handler
    does. *)
Lemma serve_alone q s : run (serve q) s = handle q s.
Proof. destruct q; [apply initiate_run|apply uploadPart_run|apply complete_run|apply abort_run|apply store_run]. Qed.

(** C4: Whatever requests to initiate, fill, complete and abort multipart uploads a
    server takes, with calls of the store by its other handlers, and however their
    steps interleave, also with the clock and with failures of the environment, no
    handler panics and the server refines the abstract one at every moment, from
    [c] on to [c'] by a run of abstract steps: the objects and the table of
    uploads are the abstract ones, and so are the uploads' parts while no request
    has locked them.  A request does nothing before it arrives, and has done one
    thing when it answers, the one its answer tells of: 200 or 204 an initiation,
    a part, a completion or an abortion of the upload it addresses, an error
    nothing.  A part only joins an open upload; completing one, with the parts
    that the request's body names and in their order, stores at one instant the
    concatenation of what the upload then has under these numbers, and happens
    once per upload; a call of the store acts on the objects as it does on a store
    that has these objects. *)
Theorem concurrent_uploads_refine w c c' :
  reachable w → rtc server_steps (server_pool w) c → rtc server_steps c c' →
  ∃ a a', rtc ustep (uploads_start w) a ∧ rtc ustep a a' ∧ uploads_agree c a ∧ uploads_agree c' a' ∧
    (∀ i j p ps ps' content content', us_deeds a' !! i = Some (Completed p ps content) →
       us_deeds a' !! j = Some (Completed p ps' content') → i = j).
Proof.
  intros Hw%reachable_ok Hc Hc'. destruct (server_sound _ _ _ (server_starts w Hw) Hc) as (g & Hg & Hinv).
  destruct (server_sound _ _ _ Hinv Hc') as (g' & Hg' & Hinv'). exists (spec g), (spec g').
  split_and!; [exact Hg|exact Hg'|by apply pool_uploads_agree|by apply pool_uploads_agree|].
  apply on_unique. eapply spec_once. etrans; [exact Hg|exact Hg'].
Qed.

(** C21: Requests on multipart uploads never wait in vain: however a pool of them is
    served from any point of any run, after finitely many steps all have answered,
    unless the process dies in one; the locks of the server and of the uploads,
    which a completion holds both, cannot end in a circle. *)
Theorem upload_requests_served w c :
  reachable w → rtc server_steps (server_pool w) c → comes_to_end c.
Proof.
  intros Hw%reachable_ok Hr. destruct (server_sound _ _ _ (server_starts w Hw) Hr) as (g & _ & Hinv).
  exact (pool_comes_to_end upload_protocol serve others (λ q i s g _ Hd, serve_safe q i s g Hd) others_guar _ _ Hinv).
Qed.
End server.

(** ** A race *)

(** Two clients complete the same upload, while another aborts it and a handler
    deletes an object. *)
Definition one_part : completeRequest := [mkCompletedPart 1 ""].
#[local] Instance one_part_decoder : XmlDecoder := {|
  Decode_deleteRequest _ := inl EOF;
  Decode_complete _ := inr one_part;
|}.
Definition race : list ask :=
  [AskInitiate initiate_request "photos" "big"; AskPart (part_request "1" sample_text) "photos" "big";
   AskComplete complete_request "photos" "big"; AskComplete complete_request "photos" "big";
   AskAbort complete_request "photos" "big"; AskStore (OpDeleteObject "photos" "a/b.txt" noConditions) I].

(** When the part has joined the upload, the others take turns; all three have
    found the upload when the first gets its mutex. *)
Definition upload_turns : list nat :=
  repeat 0 10 ++ repeat 1 20 ++ concat (repeat [2; 3; 4; 5] 40).
Definition after_uploads : pool Server reply ask :=
  take_turns upload_turns (arrivals serve (NewServer w_object) race).

Definition codes (c : pool Server reply ask) : list (option Z) :=
  (λ qx, match qx.2 with
         | Answer (Http resp) => response_status resp
         | Answer (Returned (Ret _)) => Some 0%Z
         | _ => None
         end) <$> reqs c.

Example race_ex : codes after_uploads = [Some 200; Some 200; Some 200; Some 404; Some 204; Some 0]%Z.
Proof. by_running. Qed.

Lemma race_runs : rtc (pstep serve others) (server_pool w_object) after_uploads.
Proof. etrans; [exact (arrivals_pstep serve others (NewServer w_object) race)|apply take_turns_pstep]. Qed.

Lemma concurrent_uploads_refine_witness :
  codes after_uploads = [Some 200; Some 200; Some 200; Some 404; Some 204; Some 0]%Z ∧
  ∃ a, rtc ustep (uploads_start w_object) a ∧ uploads_agree after_uploads a.
Proof.
  split; [exact race_ex|].
  destruct (concurrent_uploads_refine w_object _ after_uploads reachable_object race_runs (rtc_refl _ _))
    as (a & _ & Ha & _ & Hag & _).
  exists a. exact (conj Ha Hag).
Defined.

Lemma upload_requests_served_witness :
  codes after_uploads = [Some 200; Some 200; Some 200; Some 404; Some 204; Some 0]%Z ∧ comes_to_end after_uploads.
Proof. exact (conj race_ex (upload_requests_served w_object after_uploads reachable_object race_runs)). Defined.
