(* ===== verification/GcsTypes.v ===== *)
(** [pkg/gcs/resource.go]: the resources of the GCS JSON API and its error
    responses; and the preconditions of reads. *)

From S2P Require Import Prelude Errors GoStd GoNet Types BlobWriter Hash.
From stdpp Require Import options.

Definition rfc3339 (t : Time) : string := format_micros t.

(** [binary.BigEndian.PutUint32] and [Uint32]. *)
Definition put_uint32 (v : Z) : bytes :=
  [byte_of (v / 16777216); byte_of (v / 65536); byte_of (v / 256); byte_of v].
Definition uint32 (l : bytes) : Z :=
  match l with
  | [a; b; c; d] => (byte_val a * 16777216 + byte_val b * 65536 + byte_val c * 256 + byte_val d)%Z
  | _ => 0%Z
  end.

Definition encodeCRC32C (v : Z) : string := base64_EncodeToString (put_uint32 v).

Definition uint64 (z : Z) : Z := (z mod 2 ^ 64)%Z.

Record bucketResource := mkBucketResource {
  br_Kind : string;
  br_ID : string;
  br_Name : string;
  br_Location : string;
  br_StorageClass : string;
  br_Metageneration : Z;
  br_TimeCreated : string;
  br_Updated : string;
  br_Etag : string;
}.

Record objectResource := mkObjectResource {
  or_Kind : string;
  or_ID : string;
  or_Name : string;
  or_Bucket : string;
  or_Generation : Z;
  or_Metageneration : Z;
  or_ContentType : string;
  or_StorageClass : string;
  or_Size : Z;
  or_MD5Hash : string;
  or_CRC32C : string;
  or_Etag : string;
  or_TimeCreated : string;
  or_Updated : string;
  or_Metadata : gmap string string;
}.

Record objectsResource := mkObjectsResource {
  os_Kind : string;
  os_Items : list objectResource;
  os_Prefixes : list string;
  os_NextPageToken : string;
}.

(** The error envelope of [writeError]: code, message and the one item. *)
Record errorEnvelope := mkErrorEnvelope {
  ee_code : Z;
  ee_message : list frag;
  ee_domain : string;
  ee_reason : string;
}.

(** A value passed to [writeJSON]; [bucketsResource] is its items. *)
Inductive json_value :=
  | JBucket (r : bucketResource)
  | JBuckets (kind : string) (items : list bucketResource)
  | JObject (r : objectResource)
  | JObjects (r : objectsResource)
  | JError (e : errorEnvelope).

Definition etag_of (generation metageneration : Z) : string :=
  "g" +:+ pretty generation +:+ "m" +:+ pretty metageneration.

Definition toBucketResource (info : BucketInfo) : bucketResource :=
  mkBucketResource "storage#bucket" (bi_Name info) (bi_Name info) "US" "STANDARD" (bi_Metageneration info)
    (rfc3339 (bi_Created info)) (rfc3339 (bi_Created info)) ("m" +:+ pretty (bi_Metageneration info)).

Definition toObjectResource (info : ObjectInfo) : objectResource :=
  mkObjectResource "storage#object"
    (oi_Bucket info +:+ "/" +:+ oi_Name info +:+ "/" +:+ pretty (oi_Generation info))
    (oi_Name info) (oi_Bucket info) (oi_Generation info) (oi_Metageneration info) (oi_ContentType info)
    "STANDARD" (uint64 (oi_Size info)) (base64_EncodeToString (oi_MD5 info)) (encodeCRC32C (oi_CRC32C info))
    (etag_of (oi_Generation info) (oi_Metageneration info))
    (rfc3339 (oi_Created info)) (rfc3339 (oi_Updated info)) (oi_Metadata info).

Definition writeJSON (status : Z) (v : json_value) : response json_value :=
  Reply status [("Content-Type", "application/json; charset=UTF-8")] (Some v).

Definition writeError (code : Z) (reason : string) (message : list frag) : response json_value :=
  writeJSON code (JError (mkErrorEnvelope code message "global" reason)).

Definition writeStatus (status : Z) : response json_value := Reply status [] None.

Definition writeGcsError (err : error) : response json_value :=
  if errors_Is err ErrBucketNotFound then writeError 404 "notFound" [Lit "The specified bucket does not exist."]
  else if errors_Is err ErrObjectNotFound then writeError 404 "notFound" [Lit "No such object"]
  else if errors_Is err ErrBucketExists then writeError 409 "conflict" [Lit "The requested bucket name is not available."]
  else if errors_Is err ErrBucketNotEmpty then writeError 409 "conflict" [Lit "The bucket you tried to delete is not empty."]
  else if errors_Is err ErrPreconditionFailed then
    writeError 412 "conditionNotMet" [Lit "At least one of the pre-conditions you specified did not hold."]
  else if errors_Is err ErrInvalidName then writeError 400 "invalid" (Error err)
  else writeError 500 "internalError" (Error err).

(** ** server.go: [parseConditions] *)

(** One query parameter; the error of [strconv.ParseInt] is left as text. *)
Definition parse_condition (q : Values) (key : string) : error + option Z :=
  let v := values_Get q key in
  if String.eqb v "" then inr None
  else
    let '(n, bad) := strconv_ParseInt v 10 in
    if bad then inl (Other [Lit "strconv.ParseInt: parsing "; Quote v]) else inr (Some n).

Definition parseConditions (q : Values) : error + Conditions :=
  match parse_condition q "ifGenerationMatch" with
  | inl e => inl e
  | inr a =>
    match parse_condition q "ifGenerationNotMatch" with
    | inl e => inl e
    | inr b =>
      match parse_condition q "ifMetagenerationMatch" with
      | inl e => inl e
      | inr c =>
        match parse_condition q "ifMetagenerationNotMatch" with
        | inl e => inl e
        | inr d => inr (mkConditions a b c d)
        end
      end
    end
  end.

(** ** objects.go: conditions of reads *)
Definition checkGenerationParam (q : Values) (liveGeneration : Z) : option error :=
  let v := values_Get q "generation" in
  if String.eqb v "" then None
  else
    let '(gen, bad) := strconv_ParseInt v 10 in
    if bad then Some (Wrap [] ErrInvalidName [Lit ": invalid generation"])
    else if negb (gen =? liveGeneration)%Z then Some ErrObjectNotFound
    else None.

Definition checkReadConditions (conds : Conditions) (info : ObjectInfo) : option error :=
  if cond_fails (GenerationMatch conds) (λ v, negb (oi_Generation info =? v)%Z) then Some ErrPreconditionFailed
  else if cond_fails (GenerationNotMatch conds) (λ v, (oi_Generation info =? v)%Z) then Some ErrPreconditionFailed
  else if cond_fails (MetagenerationMatch conds) (λ v, negb (oi_Metageneration info =? v)%Z) then Some ErrPreconditionFailed
  else if cond_fails (MetagenerationNotMatch conds) (λ v, (oi_Metageneration info =? v)%Z) then Some ErrPreconditionFailed
  else None.
