(* ===== verification/Gcs.v ===== *)
(** [pkg/gcs]: the handlers of the GCS front end, resumable uploads and routing,
    over the store; the state of the server is the store's world and the upload
    sessions. *)

From S2P Require Import Prelude Errors GoMonad GoStd GoNet Types Names Hash Database World Bucket Store BlobWriter Listing Paths GcsTypes.
From stdpp Require Import options.

(** ** State *)
Record objectMetadata := mkObjectMetadata {
  om_Name : string;
  om_ContentType : string;
  om_Metadata : gmap string string;
  om_MD5Hash : string;
  om_CRC32C : string;
}.
Definition no_metadata : objectMetadata := mkObjectMetadata "" "" ∅ "" "".

Record uploadSession := mkUploadSession {
  us_bucket : string;
  us_meta : objectMetadata;
  us_conds : Conditions;
  us_bw : nat;
  us_offset : Z;
  us_done : bool;
}.

(** [type Server struct]: the world stands for the store; [us_heap] holds the
    sessions that [sessions] and running requests point to. *)
Record Server := mkServer {
  store : world;
  sessions : gmap string nat;
  us_heap : gmap nat uploadSession;
  us_next : nat;
}.

Definition set_store (w : world) (s : Server) : Server := mkServer w (sessions s) (us_heap s) (us_next s).
Definition set_sessions (f : gmap string nat → gmap string nat) (s : Server) : Server :=
  mkServer (store s) (f (sessions s)) (us_heap s) (us_next s).
Definition set_heap (f : gmap nat uploadSession → gmap nat uploadSession) (s : Server) : Server :=
  mkServer (store s) (sessions s) (f (us_heap s)) (us_next s).

Definition NewServer (w : world) : Server := mkServer w ∅ ∅ 0.

Definition call {A} (m : M world A) : M Server A := zoom store set_store m.
Abbreviation handler := (M Server (response json_value)).

(** [&uploadSession{...}], registered under its id. *)
Definition register (uploadID : string) (us : uploadSession) : M Server unit :=
  modify (λ s, mkServer (store s) (<[uploadID := us_next s]> (sessions s)) (<[us_next s := us]> (us_heap s)) (S (us_next s))).

Definition load_session (p : nat) : M Server uploadSession := λ s,
  match us_heap s !! p with
  | Some us => (Ret us, s)
  | None => (Panic [Lit "invalid memory address or nil pointer dereference"], s)
  end.

Definition set_offset (offset : Z) (us : uploadSession) : uploadSession :=
  mkUploadSession (us_bucket us) (us_meta us) (us_conds us) (us_bw us) offset (us_done us).
Definition set_us_done (us : uploadSession) : uploadSession :=
  mkUploadSession (us_bucket us) (us_meta us) (us_conds us) (us_bw us) (us_offset us) true.

(** What the JSON, MIME and multipart decoders make of a request is left open:
    the handlers are modelled, and their properties proved, for any decoders.
    [Multipart_parts] gives the Content-Type and content of the parts that
    successive calls of [NextPart] reach. *)
Class Decoders := {
  Decode_bucketName : reader → error + string;
  Decode_metadata : reader → error + objectMetadata;
  ParseMediaType_boundary : string → option string;
  Multipart_parts : string → reader → list (string * reader);
}.

(** ** buckets.go *)

Definition createBucket `{Decoders} (r : request) : handler :=
  match Decode_bucketName (Body r) with
  | inl err => ret (writeError 400 "invalid" (Lit "invalid bucket resource: " :: Error err))
  | inr name =>
    let* res := try (call (CreateBucket name)) in
    match res with
    | inl err => ret (writeGcsError err)
    | inr info => ret (writeJSON 200 (JBucket (toBucketResource info)))
    end
  end.

Definition getBucket (name : string) : handler :=
  let* res := try (call (GetBucket name)) in
  match res with
  | inl err => ret (writeGcsError err)
  | inr info => ret (writeJSON 200 (JBucket (toBucketResource info)))
  end.

Definition listBuckets : handler :=
  let* res := try (call ListBuckets) in
  match res with
  | inl err => ret (writeGcsError err)
  | inr infos => ret (writeJSON 200 (JBuckets "storage#buckets" (toBucketResource <$> infos)))
  end.

Definition deleteBucket (name : string) : handler :=
  let* res := try (call (DeleteBucket name)) in
  match res with
  | inl err => ret (writeGcsError err)
  | inr _ => ret (writeStatus 204)
  end.

(** ** objects.go and download.go *)

(** The checks that [getObject] and [serveMedia] make of a fetched object; the
    response is that of the first to fail. *)
Definition read_checks (q : Values) (info : ObjectInfo) : option (response json_value) :=
  match checkGenerationParam q (oi_Generation info) with
  | Some err => Some (writeGcsError err)
  | None =>
    match parseConditions q with
    | inl err => Some (writeError 400 "invalid" (Error err))
    | inr conds =>
      match checkReadConditions conds info with
      | Some err => Some (writeGcsError err)
      | None => None
      end
    end
  end.

Definition getObject (r : request) (bucket object : string) : handler :=
  let* res := try (call (GetObject bucket object)) in
  match res with
  | inl err => ret (writeGcsError err)
  | inr info =>
    match read_checks (Query r) info with
    | Some resp => ret resp
    | None => ret (writeJSON 200 (JObject (toObjectResource info)))
    end
  end.

Definition deleteObject (r : request) (bucket object : string) : handler :=
  match parseConditions (Query r) with
  | inl err => ret (writeError 400 "invalid" (Error err))
  | inr conds =>
    let* res := try (call (DeleteObject bucket object conds)) in
    match res with
    | inl err => ret (writeGcsError err)
    | inr _ => ret (writeStatus 204)
    end
  end.

Definition listObjects (r : request) (bucket : string) : handler :=
  let q := Query r in
  let v := values_Get q "maxResults" in
  let '(n, bad) := strconv_Atoi v in
  if negb (String.eqb v "") && bad then ret (writeError 400 "invalid" [Lit "invalid maxResults"])
  else
    let req := mkListRequest (values_Get q "prefix") (values_Get q "delimiter") (values_Get q "pageToken")
                 (if String.eqb v "" then 0%Z else n) in
    let* res := try (call (ListObjects bucket req)) in
    match res with
    | inl err => ret (writeGcsError err)
    | inr result =>
      ret (writeJSON 200 (JObjects (mkObjectsResource "storage#objects"
             (toObjectResource <$> Objects result) (Prefixes result) (NextPageToken result))))
    end.

Definition media_headers (info : ObjectInfo) : list (string * string) :=
  let contentType := if String.eqb (oi_ContentType info) "" then "application/octet-stream" else oi_ContentType info in
  [("Content-Type", contentType);
   ("X-Goog-Generation", pretty (oi_Generation info));
   ("X-Goog-Metageneration", pretty (oi_Metageneration info));
   ("X-Goog-Stored-Content-Length", pretty (oi_Size info));
   ("X-Goog-Stored-Content-Encoding", "identity");
   ("X-Goog-Storage-Class", "STANDARD");
   ("X-Goog-Hash", "crc32c=" +:+ encodeCRC32C (oi_CRC32C info) +:+ ",md5=" +:+ base64_EncodeToString (oi_MD5 info));
   ("Etag", etag_of (oi_Generation info) (oi_Metageneration info))].

Definition serveMedia (r : request) (bucket object : string) : handler :=
  let* res := try (call (OpenObject bucket object)) in
  match res with
  | inl err => ret (writeGcsError err)
  | inr (info, f) =>
    defer (call file_Close) (
      match read_checks (Query r) info with
      | Some resp => ret resp
      | None =>
        let* content := gets (λ s, file_content f (store s)) in
        ret (ServeContent (media_headers info) (oi_Updated info) content)
      end)
  end.

(** ** upload.go *)

(** Do the checksums the client sent, if any, match the content? *)
Definition md5_matches (want : string) (md5 : bytes) : bool :=
  if String.eqb want "" then true
  else match base64_DecodeString want with
       | Some w => bool_decide (w = md5)
       | None => false
       end.
Definition crc32c_matches (want : string) (crc32c : Z) : bool :=
  if String.eqb want "" then true
  else match base64_DecodeString want with
       | Some w => (length w =? 4) && (uint32 w =? crc32c)%Z
       | None => false
       end.

Definition commitUpload (bw : nat) (bucket : string) (meta : objectMetadata) (conds : Conditions) : handler :=
  if String.eqb (om_Name meta) "" then
    do* call (Abort_ bw) in
    ret (writeError 400 "required" [Lit "object name is required"])
  else
    let* w := call (load_writer bw) in
    let '(_, md5Sum, crc32c) := Checksums w in
    if negb (md5_matches (om_MD5Hash meta) md5Sum) then
      do* call (Abort_ bw) in
      ret (writeError 400 "invalid" [Lit "md5Hash does not match uploaded content"])
    else if negb (crc32c_matches (om_CRC32C meta) crc32c) then
      do* call (Abort_ bw) in
      ret (writeError 400 "invalid" [Lit "crc32c does not match uploaded content"])
    else
      let* res := try (call (Commit bw (om_Name meta) (mkPutOptions (om_ContentType meta) (om_Metadata meta) conds))) in
      match res with
      | inl err => ret (writeGcsError err)
      | inr info => ret (writeJSON 200 (JObject (toObjectResource info)))
      end.

Definition putObject (media : reader) (bucket : string) (meta : objectMetadata) (conds : Conditions) : handler :=
  let* res := try (call (NewBlobWriter bucket)) in
  match res with
  | inl err => ret (writeGcsError err)
  | inr bw =>
    let* ' (_, err) := call (io_Copy bw media.1 media.2 0) in
    match err with
    | Some e =>
      do* call (Abort_ bw) in
      ret (writeError 400 "invalid" (Lit "reading upload body: " :: Error e))
    | None => commitUpload bw bucket meta conds
    end
  end.

Definition with_name (name : string) (meta : objectMetadata) : objectMetadata :=
  mkObjectMetadata name (om_ContentType meta) (om_Metadata meta) (om_MD5Hash meta) (om_CRC32C meta).
Definition with_contentType (ct : string) (meta : objectMetadata) : objectMetadata :=
  mkObjectMetadata (om_Name meta) ct (om_Metadata meta) (om_MD5Hash meta) (om_CRC32C meta).

Definition handleMultipartUpload `{Decoders} (r : request) (bucket : string) (conds : Conditions) : handler :=
  match ParseMediaType_boundary (header_Get (rHeader r) "Content-Type") with
  | None | Some "" => ret (writeError 400 "invalid" [Lit "expected multipart/related body"])
  | Some boundary =>
    match Multipart_parts boundary (Body r) with
    | [] => ret (writeError 400 "invalid" [Lit "missing metadata part"])
    | (_, metaPart) :: parts =>
      match Decode_metadata metaPart with
      | inl err => ret (writeError 400 "invalid" (Lit "invalid metadata part: " :: Error err))
      | inr meta =>
        let meta := if String.eqb (om_Name meta) "" then with_name (values_Get (Query r) "name") meta else meta in
        match parts with
        | [] => ret (writeError 400 "invalid" [Lit "missing media part"])
        | (ct, mediaPart) :: _ =>
          let meta := if String.eqb (om_ContentType meta) "" then with_contentType ct meta else meta in
          putObject mediaPart bucket meta conds
        end
      end
    end
  end.

(** The metadata a resumable upload starts with. *)
Definition started_metadata `{Decoders} (r : request) : error + objectMetadata :=
  let decoded :=
    if (ContentLength r =? 0)%Z then inr no_metadata
    else match Decode_metadata (Body r) with
         | inl err => if bool_decide (err = EOF) then inr no_metadata else inl err
         | inr meta => inr meta
         end in
  match decoded with
  | inl err => inl err
  | inr meta => inr (if String.eqb (om_Name meta) "" then with_name (values_Get (Query r) "name") meta else meta)
  end.

Definition startResumableUpload `{Decoders} (r : request) (bucket : string) (conds : Conditions) : handler :=
  match started_metadata r with
  | inl err => ret (writeError 400 "invalid" (Lit "invalid metadata: " :: Error err))
  | inr meta =>
    let* res := try (call (NewBlobWriter bucket)) in
    match res with
    | inl err => ret (writeGcsError err)
    | inr bw =>
      let uploadID := hex_EncodeToString (random r) in
      do* register uploadID (mkUploadSession bucket meta conds bw 0 false) in
      let scheme := if TLS r then "https" else "http" in
      ret (Reply 200
             [("Location", scheme +:+ "://" +:+ Host r +:+ EscapedPath r +:+
                           "?uploadType=resumable&upload_id=" +:+ uploadID);
              ("X-Guploader-Uploadid", uploadID)] None)
    end
  end.

(** The longest run of decimal digits at the start. *)
Fixpoint span_digits (s : string) : string * string :=
  match s with
  | String a s' =>
    let v := byte_val a in
    if (48 <=? v)%Z && (v <=? 57)%Z then let '(d, rest) := span_digits s' in (String a d, rest) else ("", s)
  | "" => ("", "")
  end.
(** [(\d+)] followed by [sep]. *)
Definition digits_then (sep : ascii) (s : string) : option (string * string) :=
  match span_digits s with
  | (String a d, String b rest) => if Ascii.eqb b sep then Some (String a d, rest) else None
  | _ => None
  end.
(** [(\d+|[*])$] *)
Definition total_end (s : string) : option string :=
  if String.eqb s "*" then Some "*"
  else match span_digits s with
       | (String a d, "") => Some (String a d)
       | _ => None
       end.

(** [^bytes [*]/(\d+|[*])$] *)
Definition match_probe (s : string) : option string :=
  if strings_HasPrefix s "bytes */" then total_end (strings_TrimPrefix s "bytes */") else None.
(** [^bytes (\d+)-(\d+)/(\d+|[*])$] *)
Definition match_chunk (s : string) : option (string * string * string) :=
  if strings_HasPrefix s "bytes " then
    match digits_then "-" (strings_TrimPrefix s "bytes ") with
    | None => None
    | Some (start, rest) =>
      match digits_then "/" rest with
      | None => None
      | Some (end_, rest) =>
        match total_end rest with
        | None => None
        | Some total => Some (start, end_, total)
        end
      end
    end
  else None.

(** A size of the header: [-1] when it is an asterisk. *)
Definition parse_total (s : string) : Z :=
  if String.eqb s "*" then (-1)%Z else (strconv_ParseInt s 10).1.

Definition writeResumeIncomplete (r : request) (offset : Z) : response json_value :=
  let range := if (0 <? offset)%Z then [("Range", "bytes=0-" +:+ pretty (offset - 1)%Z)] else [] in
  if String.eqb (header_Get (rHeader r) "X-GUploader-No-308") "yes"
  then Reply 200 (range ++ [("X-Http-Status-Code-Override", "308")]) None
  else Reply 308 range None.

(** The end of [handleResumableChunk]: commit when the total is reached. *)
Definition finish_chunk (r : request) (uploadID : string) (p : nat) (total : Z) : handler :=
  let* sess := load_session p in
  if (0 <=? total)%Z && (us_offset sess =? total)%Z then
    do* modify (set_heap (alter set_us_done p)) in
    do* modify (set_sessions (delete uploadID)) in
    commitUpload (us_bw sess) (us_bucket sess) (us_meta sess) (us_conds sess)
  else ret (writeResumeIncomplete r (us_offset sess)).

Definition copy_chunk (p : nat) (r : request) : M Server (Z * option error) :=
  let* sess := load_session p in
  call (io_Copy (us_bw sess) (Body r).1 (Body r).2 0).

Definition advance (p : nat) (n : Z) : M Server unit :=
  modify (set_heap (alter (λ us, set_offset (int64 (us_offset us + n)) us) p)).

(** A request to a live session, from the reading of its range on. *)
Definition session_chunk (r : request) (uploadID : string) (p : nat) (sess : uploadSession) : handler :=
  let contentRange := header_Get (rHeader r) "Content-Range" in
  match match_probe contentRange with
  | Some total => finish_chunk r uploadID p (parse_total total)
  | None =>
    match match_chunk contentRange with
    | Some (start, end_, total) =>
      let start := (strconv_ParseInt start 10).1 in
      let end_ := (strconv_ParseInt end_ 10).1 in
      if negb (start =? us_offset sess)%Z then ret (writeResumeIncomplete r (us_offset sess))
      else
        let* ' (n, err) := copy_chunk p r in
        match err with
        | Some e => ret (writeError 500 "internalError" (Lit "writing chunk: " :: Error e))
        | None =>
          if negb (n =? int64 (end_ - start + 1))%Z then
            ret (writeError 400 "invalid"
                   [Lit "chunk body length "; Dec n; Lit " does not match Content-Range "; Lit contentRange])
          else
            do* advance p n in
            finish_chunk r uploadID p (parse_total total)
        end
    | None =>
      if String.eqb contentRange "" then
        let* ' (n, err) := copy_chunk p r in
        match err with
        | Some e => ret (writeError 500 "internalError" (Lit "writing chunk: " :: Error e))
        | None =>
          do* advance p n in
          let* sess := load_session p in
          finish_chunk r uploadID p (us_offset sess)
        end
      else ret (writeError 400 "invalid" [Lit "invalid Content-Range: "; Lit contentRange])
    end
  end.

Definition handleResumableChunk (r : request) (uploadID : string) : handler :=
  if negb (String.eqb (Method r) "PUT") && negb (String.eqb (Method r) "POST") then
    ret (writeError 405 "invalid" [Lit "method not allowed"])
  else
    let* s := get in
    match sessions s !! uploadID with
    | None => ret (writeError 404 "notFound" [Lit "no such upload session"])
    | Some p =>
      let* sess := load_session p in
      if us_done sess then ret (writeError 410 "invalid" [Lit "upload session already finalized"])
      else session_chunk r uploadID p sess
    end.

Definition handleUpload `{Decoders} (r : request) (bucket : string) : handler :=
  let q := Query r in
  let uploadID := values_Get q "upload_id" in
  if negb (String.eqb uploadID "") then handleResumableChunk r uploadID
  else if negb (String.eqb (Method r) "POST") then ret (writeError 405 "invalid" [Lit "method not allowed"])
  else
    match parseConditions q with
    | inl err => ret (writeError 400 "invalid" (Error err))
    | inr conds =>
      let uploadType := values_Get q "uploadType" in
      if String.eqb uploadType "media" then
        putObject (Body r) bucket
          (mkObjectMetadata (values_Get q "name") (header_Get (rHeader r) "Content-Type") ∅ "" "") conds
      else if String.eqb uploadType "multipart" then handleMultipartUpload r bucket conds
      else if String.eqb uploadType "resumable" then startResumableUpload r bucket conds
      else ret (writeError 400 "invalid" [Lit "unsupported uploadType"])
    end.

(** ** server.go *)

Definition handleStorageV1 `{Decoders} (r : request) (segs : list string) : handler :=
  let method_is m := String.eqb (Method r) m in
  match segs with
  | [] =>
    if method_is "GET" then listBuckets
    else if method_is "POST" then createBucket r
    else ret (writeError 405 "invalid" [Lit "method not allowed"])
  | [name] =>
    if method_is "GET" then getBucket name
    else if method_is "DELETE" then deleteBucket name
    else ret (writeError 501 "notImplemented" [Lit "not implemented"])
  | bucket :: o :: object_segs =>
    if negb (String.eqb o "o") then ret (writeError 404 "notFound" [Lit "not found"])
    else
      match object_segs with
      | [] =>
        if method_is "GET" then listObjects r bucket
        else ret (writeError 405 "invalid" [Lit "method not allowed"])
      | _ =>
        let object := strings_Join object_segs "/" in
        if method_is "GET" then
          if String.eqb (values_Get (Query r) "alt") "media" then serveMedia r bucket object
          else getObject r bucket object
        else if method_is "DELETE" then deleteObject r bucket object
        else ret (writeError 501 "notImplemented"
                    [Lit "this server does not implement "; Lit (Method r);
                     Lit " on objects (metadata update, compose, rewrite)"])
      end
  end.

(** The dispatch on the segments of the path. *)
Inductive route :=
  | RStorage (segs : list string)
  | RUpload (bucket : string)
  | RMedia (bucket object : string)     (* /download/... *)
  | RDirect (bucket object : string)    (* /{bucket}/{object...} *)
  | RNone.

Definition route_of (segs : list string) : route :=
  match segs with
  | "storage" :: "v1" :: "b" :: rest => RStorage rest
  | ["upload"; "storage"; "v1"; "b"; bucket; "o"] => RUpload bucket
  | "download" :: "storage" :: "v1" :: "b" :: bucket :: "o" :: ((_ :: _) as object) => RMedia bucket (strings_Join object "/")
  | bucket :: ((_ :: _) as object) => RDirect bucket (strings_Join object "/")
  | _ => RNone
  end.

Definition ServeHTTP `{Decoders} (r : request) : handler :=
  match splitPath (EscapedPath r) with
  | None => ret (writeError 400 "invalid" [Lit "invalid path encoding"])
  | Some segs =>
    match route_of segs with
    | RStorage segs => handleStorageV1 r segs
    | RUpload bucket => handleUpload r bucket
    | RMedia bucket object => serveMedia r bucket object
    | RDirect bucket object =>
      if negb (String.eqb (Method r) "GET") && negb (String.eqb (Method r) "HEAD")
      then ret (writeError 405 "invalid" [Lit "method not allowed"])
      else serveMedia r bucket object
    | RNone => ret (writeError 404 "notFound" [Lit "not found"])
    end
  end.
