(* ===== verification/GcsProps.v ===== *)
(** The properties of the GCS front end: preconditions of reads, checksums of
    uploads, and what an upload in one request stores. *)

From S2P Require Import Prelude Errors GoMonad GoStd GoNet Types Names Hash Json JsonProofs Database World Bucket Store BlobWriter Outcomes StoreInv Triple StoreSafe StoreOps ObjectOps WriterOps Listing ListingSpec Run Refine Samples StoreProps.
From S2P Require Import GcsTypes Gcs.
From stdpp Require Import options.

(** ** Preconditions *)

(** What a query parameter says of the condition it sets. *)
Definition param_means (v : string) (c : option Z) : Prop :=
  (v = "" ∧ c = None) ∨ (v ≠ "" ∧ ∃ n, strconv_ParseInt v 10 = (n, false) ∧ c = Some n).

Lemma parse_condition_spec q key c :
  parse_condition q key = inr c ↔ param_means (values_Get q key) c.
Proof.
  unfold parse_condition, param_means. destruct (String.eqb_spec (values_Get q key) "") as [E|E].
  - split; [intros [= <-]; by left|]. by intros [[_ ->]|[? _]].
  - destruct (strconv_ParseInt (values_Get q key) 10) as [n []].
    + split; [done|]. by intros [[? _]|(_ & ? & [=] & _)].
    + split; [intros [= <-]; right; eauto|]. intros [[? _]|(_ & m & [= <-] & ->)]; done.
Qed.

(** [parseConditions] accepts a query exactly when each of the four parameters is
    absent, empty or a decimal [int64]; a parameter that is given is a condition
    with that value, and no other condition is set. *)
Theorem parseConditions_spec q c :
  parseConditions q = inr c ↔
  param_means (values_Get q "ifGenerationMatch") (GenerationMatch c) ∧
  param_means (values_Get q "ifGenerationNotMatch") (GenerationNotMatch c) ∧
  param_means (values_Get q "ifMetagenerationMatch") (MetagenerationMatch c) ∧
  param_means (values_Get q "ifMetagenerationNotMatch") (MetagenerationNotMatch c).
Proof.
  rewrite <- !parse_condition_spec. unfold parseConditions. destruct c as [a b d e]; cbn.
  destruct (parse_condition q "ifGenerationMatch"), (parse_condition q "ifGenerationNotMatch"),
    (parse_condition q "ifMetagenerationMatch"), (parse_condition q "ifMetagenerationNotMatch"); naive_solver.
Qed.

(** ** Checksums *)
Lemma b64_val_digit d : (0 ≤ d < 64)%Z → b64_val (b64_digit d) = Some d ∧ Ascii.eqb (b64_digit d) "=" = false ∧
  Ascii.eqb (b64_digit d) "010" || Ascii.eqb (b64_digit d) "013" = false.
Proof.
  intros Hd.
  assert (Forall (λ k, b64_val (b64_digit (Z.of_nat k)) = Some (Z.of_nat k) ∧ Ascii.eqb (b64_digit (Z.of_nat k)) "=" = false ∧
    Ascii.eqb (b64_digit (Z.of_nat k)) "010" || Ascii.eqb (b64_digit (Z.of_nat k)) "013" = false) (seq 0 64)) as H by (repeat constructor).
  rewrite Forall_forall in H. specialize (H (Z.to_nat d)). rewrite Z2Nat.id in H by lia. apply H. apply elem_of_seq. lia.
Qed.

(** Induction over a list three at a time. *)
Lemma list_ind3 {A} (P : list A → Prop) :
  P [] → (∀ a, P [a]) → (∀ a b, P [a; b]) → (∀ a b c l, P l → P (a :: b :: c :: l)) → ∀ l, P l.
Proof.
  intros H0 H1 H2 H3. fix IH 1. intros [|a [|b [|c l]]]; [exact H0|apply H1|apply H2|apply H3, IH].
Qed.

Ltac b64_bounds := first [apply Z.mod_pos_bound; lia | split; [apply Z.div_pos; lia | apply Z.div_lt_upper_bound; lia] | lia].

Lemma byte_of_mod z : byte_of (z mod 256) = byte_of z.
Proof. unfold byte_of. by rewrite Z.mod_mod by lia. Qed.

Lemma b64_roundtrip l : b64_decode (b64_encode l) = Some l.
Proof.
  induction l as [|a|a b|a b c l IH] using list_ind3; [done|..];
    cbn [b64_encode b64_decode]; pose proof (byte_val_range a).
  - set (n := (byte_val a * 16)%Z).
    rewrite (proj1 (b64_val_digit (n / 64) ltac:(b64_bounds))), (proj1 (b64_val_digit (n mod 64) ltac:(b64_bounds))). cbn.
    do 2 f_equal. rewrite <- (byte_of_val a). f_equal. unfold n.
    rewrite (Z.mul_comm (_ / 64)), <- Z.div_mod by lia. by rewrite Z.div_mul.
  - pose proof (byte_val_range b). set (n := (byte_val a * 1024 + byte_val b * 4)%Z).
    rewrite (proj1 (b64_val_digit (n / 4096) ltac:(b64_bounds))), (proj1 (b64_val_digit (n / 64 mod 64) ltac:(b64_bounds))).
    rewrite (proj1 (proj2 (b64_val_digit (n mod 64) ltac:(b64_bounds)))), (proj1 (b64_val_digit (n mod 64) ltac:(b64_bounds))).
    cbn. assert (n / 4096 * 64 + n / 64 mod 64 = n / 64)%Z as E.
    { replace 4096%Z with (64 * 64)%Z by lia. rewrite <- Z.div_div by lia. pose proof (Z.div_mod (n / 64) 64). lia. }
    rewrite E. assert (n / 4096 * 4096 + n / 64 mod 64 * 64 + n mod 64 = n)%Z as ->.
    { pose proof (Z.div_mod n 64). lia. }
    replace (n / 64 / 16)%Z with (byte_val a) by (unfold n; rewrite Z.div_div by lia; apply Z.div_unique with (byte_val b * 4)%Z; lia).
    rewrite byte_of_val. do 2 f_equal. replace (n / 4)%Z with (byte_val a * 256 + byte_val b)%Z.
    + f_equal. rewrite <- byte_of_mod. rewrite Z.add_comm, Z.mod_add by lia. rewrite byte_of_mod. apply byte_of_val.
    + unfold n. apply Z.div_unique with 0%Z; lia.
  - pose proof (byte_val_range b). pose proof (byte_val_range c).
    set (n := (byte_val a * 65536 + byte_val b * 256 + byte_val c)%Z).
    rewrite (proj1 (b64_val_digit (n / 262144) ltac:(b64_bounds))), (proj1 (b64_val_digit (n / 4096 mod 64) ltac:(b64_bounds))).
    rewrite (proj1 (proj2 (b64_val_digit (n / 64 mod 64) ltac:(b64_bounds)))), (proj1 (b64_val_digit (n / 64 mod 64) ltac:(b64_bounds))).
    rewrite (proj1 (proj2 (b64_val_digit (n mod 64) ltac:(b64_bounds)))), (proj1 (b64_val_digit (n mod 64) ltac:(b64_bounds))).
    rewrite IH. cbn.
    assert (n / 262144 * 262144 + n / 4096 mod 64 * 4096 + n / 64 mod 64 * 64 + n mod 64 = n)%Z as ->.
    { pose proof (Z.div_mod n 64). pose proof (Z.div_mod (n / 64) 64). pose proof (Z.div_mod (n / 64 / 64) 64).
      rewrite !Z.div_div in * by lia. change (64 * 64)%Z with 4096%Z in *. change (4096 * 64)%Z with 262144%Z in *. lia. }
    assert (byte_of (n / 65536) = a) as ->.
    { replace (n / 65536)%Z with (byte_val a) by (apply Z.div_unique with (byte_val b * 256 + byte_val c)%Z; lia). apply byte_of_val. }
    assert (byte_of (n / 256) = b) as ->.
    { replace (n / 256)%Z with (byte_val b + byte_val a * 256)%Z by (apply Z.div_unique with (byte_val c)%Z; lia).
      rewrite <- byte_of_mod, Z.mod_add by lia. rewrite byte_of_mod. apply byte_of_val. }
    assert (byte_of n = c) as ->; [|done].
    unfold n. replace (byte_val a * 65536 + byte_val b * 256 + byte_val c)%Z
      with (byte_val c + (byte_val a * 256 + byte_val b) * 256)%Z by lia.
    rewrite <- byte_of_mod, Z.mod_add by lia. rewrite byte_of_mod. apply byte_of_val.
Qed.

Lemma b64_encode_plain l :
  List.filter (λ a, negb (Ascii.eqb a "010" || Ascii.eqb a "013")) (b64_encode l) = b64_encode l.
Proof.
  assert (Forall (λ a, Ascii.eqb a "010" || Ascii.eqb a "013" = false) (b64_encode l)) as H.
  { induction l as [|a|a b|a b c l IH] using list_ind3; [constructor|..]; cbn [b64_encode]; pose proof (byte_val_range a);
      try pose proof (byte_val_range b); try pose proof (byte_val_range c);
      repeat (constructor; [first [reflexivity|apply b64_val_digit; b64_bounds]|]); done. }
  induction H as [|a m Ha _ IH]; [done|]. cbn. by rewrite Ha, IH.
Qed.

Lemma base64_roundtrip l : base64_DecodeString (base64_EncodeToString l) = Some l.
Proof.
  unfold base64_DecodeString, base64_EncodeToString. rewrite bytes_of_string_of_bytes, b64_encode_plain. apply b64_roundtrip.
Qed.

Lemma uint32_put v : (0 ≤ v < 2 ^ 32)%Z → uint32 (put_uint32 v) = v.
Proof.
  intros Hv. unfold uint32, put_uint32.
  assert (∀ z, byte_val (byte_of z) = z mod 256)%Z as E.
  { intros z. rewrite <- byte_of_mod. apply byte_val_of, Z.mod_pos_bound. lia. }
  rewrite !E. pose proof (Z.div_mod v 256). pose proof (Z.div_mod (v / 256) 256). pose proof (Z.div_mod (v / 256 / 256) 256).
  rewrite !Z.div_div in * by lia. change (256 * 256)%Z with 65536%Z in *. change (65536 * 256)%Z with 16777216%Z in *.
  rewrite (Z.mod_small (v / 16777216)); [lia|]. split; [apply Z.div_pos; lia|apply Z.div_lt_upper_bound; lia].
Qed.

(** A client that uploads content with the checksums the server reported for the
    same content passes the checks of [commitUpload]; a claim that is not the
    checksum of the content does not. *)
Theorem reported_checksums_accepted info c :
  oi_MD5 info = md5_sum c → oi_CRC32C info = crc32c_sum c →
  md5_matches (or_MD5Hash (toObjectResource info)) (md5_sum c) = true ∧
  crc32c_matches (or_CRC32C (toObjectResource info)) (crc32c_sum c) = true ∧
  (∀ want m, md5_matches (base64_EncodeToString want) m = true → want = [] ∨ want = m) ∧
  (∀ want v, (0 ≤ want < 2 ^ 32)%Z → crc32c_matches (encodeCRC32C want) v = true → want = v).
Proof.
  intros Hmd5 Hcrc. unfold md5_matches, crc32c_matches. cbn [toObjectResource or_MD5Hash or_CRC32C].
  unfold encodeCRC32C. setoid_rewrite base64_roundtrip. split_and!.
  - destruct (String.eqb _ _); [done|]. rewrite Hmd5. by apply bool_decide_eq_true.
  - destruct (String.eqb _ _); [done|]. rewrite uint32_put by (rewrite Hcrc; apply crc32c_sum_range).
    rewrite Hcrc, Z.eqb_refl. done.
  - intros want m. destruct (String.eqb_spec (base64_EncodeToString want) "") as [E|_]; [|by intros ?%bool_decide_eq_true; right].
    intros _. left. pose proof (base64_roundtrip want) as H. rewrite E in H. by apply (inj Some) in H.
  - intros want v Hw. destruct (String.eqb_spec (base64_EncodeToString (put_uint32 want)) "") as [E|_].
    + pose proof (base64_roundtrip (put_uint32 want)) as H. rewrite E in H. by apply (inj Some) in H.
    + intros [_ Hv%Z.eqb_eq]%andb_true_iff. by rewrite uint32_put in Hv.
Qed.

Lemma reported_checksums_accepted_witness :
  let info := committed_info "photos" "a" None sample_text sample_opts 0 in
  md5_matches (or_MD5Hash (toObjectResource info)) (md5_sum sample_text) = true.
Proof. intros info. apply (reported_checksums_accepted info sample_text); reflexivity. Defined.

(** A read is let through exactly when the [generation] parameter is absent or
    names the live generation, and the preconditions can be parsed and hold of
    the live version. *)
Theorem read_allowed q info :
  read_checks q info = None ↔
  (values_Get q "generation" = "" ∨ strconv_ParseInt (values_Get q "generation") 10 = (oi_Generation info, false)) ∧
  ∃ conds, parseConditions q = inr conds ∧ conditions_hold conds (Some info).
Proof.
  unfold read_checks, checkGenerationParam.
  assert (∀ conds, checkReadConditions conds info = check conds (Some info)) as Hcheck by done.
  destruct (String.eqb_spec (values_Get q "generation") "") as [E|E].
  - destruct (parseConditions q) as [e|conds].
    + split; [done|]. by intros (_ & ? & [=] & _).
    + rewrite Hcheck. setoid_rewrite <- check_spec. split.
      * destruct (check conds (Some info)) eqn:Ec; [done|]. intros _. split; [by left|]. by exists conds.
      * intros (_ & c & [= <-] & ->). done.
  - destruct (strconv_ParseInt (values_Get q "generation") 10) as [g bad]. destruct bad; [split; [done|]; by intros [[?|[=]] _]|].
    destruct (Z.eqb_spec g (oi_Generation info)) as [->|Hne]; cbn [negb].
    + destruct (parseConditions q) as [e|conds].
      * split; [done|]. by intros (_ & ? & [=] & _).
      * rewrite Hcheck. setoid_rewrite <- check_spec. split.
        -- destruct (check conds (Some info)) eqn:Ec; [done|]. intros _. split; [by right|]. by exists conds.
        -- intros (_ & c & [= <-] & ->). done.
    + split; [done|]. intros [[?|[= ?]] _]; done.
Qed.

(** ** Committing an upload *)

(** The checksums a client claims for the content [c]. *)
Definition claims_hold (meta : objectMetadata) (c : bytes) : Prop :=
  om_Name meta ≠ "" ∧ md5_matches (om_MD5Hash meta) (md5_sum c) = true ∧
  crc32c_matches (om_CRC32C meta) (crc32c_sum c) = true.

Definition upload_opts (meta : objectMetadata) (conds : Conditions) : PutOptions :=
  mkPutOptions (om_ContentType meta) (om_Metadata meta) conds.

(** The upload is stored, under its verified checksums. *)
Definition upload_stored (s : Server) (n : string) (c : bytes) (meta : objectMetadata) (conds : Conditions)
    (oi : ObjectInfo) (s' : Server) : Prop :=
  claims_hold meta c ∧ wrote n (om_Name meta) c (upload_opts meta conds) oi (store s) (store s').

(** Why an upload is not stored, and how the answer says so: the claims of the
    client, in the order in which they are checked, or the store's refusal; an
    environment that fails may be the reason for an error of the store. *)
Definition upload_refusal (s : Server) (b : Bucket) (c : bytes) (meta : objectMetadata) (conds : Conditions)
    (resp : response json_value) : Prop :=
  (om_Name meta = "" ∧ resp = writeError 400 "required" [Lit "object name is required"]) ∨
  (om_Name meta ≠ "" ∧ md5_matches (om_MD5Hash meta) (md5_sum c) = false ∧
   resp = writeError 400 "invalid" [Lit "md5Hash does not match uploaded content"]) ∨
  (om_Name meta ≠ "" ∧ md5_matches (om_MD5Hash meta) (md5_sum c) = true ∧
   crc32c_matches (om_CRC32C meta) (crc32c_sum c) = false ∧
   resp = writeError 400 "invalid" [Lit "crc32c does not match uploaded content"]) ∨
  (claims_hold meta c ∧ ∃ e, resp = writeGcsError e ∧
   (failing (store s) ∨ b_open b = false ∨ refused (store s) (b_name b) (om_Name meta) (upload_opts meta conds) e)).

(** The server is ready for the next request. *)
Definition settled (s s' : Server) : Prop := world_ok (store s') ∧ calm (store s) (store s').

(** How committing an upload may end, and what it has then done to the store. *)
Definition upload_outcome (s : Server) (b : Bucket) (c : bytes) (meta : objectMetadata) (conds : Conditions)
    (o : outcome (response json_value)) (s' : Server) : Prop :=
  let unchanged := same_tables (store s) (store s') in
  match o with
  | Ret resp =>
    (∃ oi, resp = writeJSON 200 (JObject (toObjectResource oi)) ∧ upload_stored s (b_name b) c meta conds oi s' ∧ settled s s') ∨
    (unchanged ∧ upload_refusal s b c meta conds resp)
  | Crash => failing (store s) ∧ (unchanged ∨ ∃ oi, upload_stored s (b_name b) c meta conds oi s')
  | _ => False
  end.

Lemma upload_refused s b c meta conds bw w resp :
  world_ok (store s) → writing (store s) bw w → upload_refusal s b c meta conds resp →
  wp (bind (call (Abort_ bw)) (λ _, ret resp)) (upload_outcome s b c meta conds) s.
Proof.
  intros Hok Hw Hno. eapply wp_bind_call; [by apply (triple_Abort (store s) bw w)|..].
  - intros [] w' (_ & (Hs & _) & _). apply wp_ret. by right.
  - done.
  - intros w' (_ & Hs & Hf). split; [done|by left].
Qed.

Lemma writeGcsError_status e : ∃ st, response_status (writeGcsError e) = Some st ∧ (400 ≤ st)%Z.
Proof. unfold writeGcsError. repeat case_match; eexists; (split; [reflexivity|lia]). Qed.
Lemma upload_refusal_status s b c meta conds resp :
  upload_refusal s b c meta conds resp → ∃ st, response_status resp = Some st ∧ (400 ≤ st)%Z.
Proof.
  intros [[_ ->]|[(_ & _ & ->)|[(_ & _ & _ & ->)|(_ & e & -> & _)]]]; [by exists 400%Z..|apply writeGcsError_status].
Qed.

Lemma set_store_id s : set_store (store s) s = s.
Proof. by destruct s. Qed.

Lemma commitUpload_ends s bw w b bucket meta conds :
  world_ok (store s) → writing (store s) bw w → handles (store s) !! w_b w = Some b →
  wp (commitUpload bw bucket meta conds) (upload_outcome s b (w_sha w) meta conds) s.
Proof.
  intros Hok Hw Hb. unfold commitUpload.
  destruct (String.eqb_spec (om_Name meta) "") as [|Hname]; [by eapply upload_refused; [..|left]|].
  apply wp_bind, wp_zoom. unfold load_writer, wp at 1. destruct Hw as [Hw Hnd]. rewrite Hw. cbn [fst snd bind_post].
  rewrite set_store_id.
  destruct (ok_writers _ (wok_proc _ Hok) _ _ Hw) as (_ & _ & Hmd5 & Hcrc & _). unfold Checksums. rewrite Hmd5, Hcrc.
  destruct (md5_matches (om_MD5Hash meta) (md5_sum (w_sha w))) eqn:E1; cbn [negb];
    [|eapply upload_refused; [done..|by right; left]].
  destruct (crc32c_matches (om_CRC32C meta) (crc32c_sum (w_sha w))) eqn:E2; cbn [negb];
    [|eapply upload_refused; [done..|by right; right; left]].
  assert (claims_hold meta (w_sha w)) as Hclaims by done.
  eapply wp_bind_try_call; [by apply (triple_Commit (store s) bw w b)|..].
  - intros oi w' (Hok' & Hcalm & Hch & (t & t' & Ht & Ht' & Hc) & _). apply wp_ret. left. exists oi. split_and!; [done| |done].
    split; [done|]. by eapply commits_wrote.
  - intros e w' ((_ & Hs & _ & He) & _). apply wp_ret. right. split; [done|]. do 3 right. split; [done|]. exists e.
    split; [done|]. destruct He as [?|[(? & ->)|(_ & [He|?])]]; [by left|by right; right; left| |by right; left].
    right; right. by apply tx_error_refused.
  - intros w' (_ & Hch & Hf). split; [done|]. destruct (changed_wrote _ _ _ _ _ _ Hch) as [?|(oi & Hx)]; [by left|right].
    by exists oi.
Qed.

(** Committing an upload answers 200 exactly with the bytes of its writer stored,
    and only if the checksums the client sent are those of these bytes; any other
    answer leaves every object as it was, and the environment, the client's claims
    or the store's refusal is the reason; a crash leaves the one or the other. *)
Theorem gcs_commit_verified s bw w b bucket meta conds :
  reachable (store s) → writing (store s) bw w → handles (store s) !! w_b w = Some b →
  wp (commitUpload bw bucket meta conds) (upload_outcome s b (w_sha w) meta conds) s.
Proof. intros Hr%reachable_ok. by apply commitUpload_ends. Qed.

(** An upload that claims the MD5 of other content. *)
Lemma gcs_commit_verified_witness :
  ∃ bw b, w_sha bw = bytes_of_string "bye" ∧ b_name b = "photos" ∧
  wp (commitUpload sample_pointer "photos" (mkObjectMetadata "a/b.txt" "" ∅ (base64_EncodeToString (md5_sum sample_text)) "") noConditions)
    (upload_outcome (NewServer w_written) b (w_sha bw)
       (mkObjectMetadata "a/b.txt" "" ∅ (base64_EncodeToString (md5_sum sample_text)) "") noConditions) (NewServer w_written).
Proof.
  destruct sample_writer as (bw & b & Hw & Hsha & Hb & Hn & _). exists bw, b. split; [exact Hsha|]. split; [exact Hn|].
  apply (gcs_commit_verified (NewServer w_written)); [apply reachable_written|exact Hw|exact Hb].
Defined.

(** An outcome may be seen from before steps that changed no object. *)
Lemma upload_outcome_pre s s1 b c meta conds o s' :
  same_tables (store s) (store s1) → calm (store s) (store s1) →
  upload_outcome s1 b c meta conds o s' → upload_outcome s b c meta conds o s'.
Proof.
  intros Hs Hc. unfold upload_outcome, upload_stored, upload_refusal.
  assert (same_tables (store s1) (store s') → same_tables (store s) (store s')) as Hun by by apply same_tables_trans.
  assert (failing (store s1) → failing (store s)) as Hf by by apply calm_failing.
  destruct o as [resp|e|x| |]; try done.
  - intros [(oi & -> & [Hcl Hw] & Hok' & Hc')|(Hsame & Hwhy)]; [left; exists oi|].
    { split; [done|]. split; [split; [done|by eapply wrote_pre]|]. split; [done|by eapply calm_trans]. }
    right. split; [by apply Hun|]. destruct Hwhy as [?|[?|[?|(Hcl & e & -> & Hwhy)]]]; [by left|by right; left|by right; right; left|].
    do 3 right. split; [done|]. exists e. split; [done|].
    destruct Hwhy as [?|[?|[He|(He & t & ex & Ht & Hr)]]]; [by left; apply Hf|by right; left|by right; right; left|].
    right; right; right. split; [done|]. exists t, ex. rewrite <- (Hs (b_name b)). done.
  - intros [Hfail [Hsame|(oi & Hcl & Hw)]]; (split; [by apply Hf|]); [by left; apply Hun|right].
    exists oi. split; [done|]. by eapply wrote_pre.
Qed.

(** ** A whole upload *)

(** The upload did not come to its commit: there was nowhere to write it, or its
    body could not be read, or not be written down. *)
Definition media_refusal (s : Server) (bucket : string) (media : reader) (o : outcome (response json_value)) : Prop :=
  match o with
  | Ret resp =>
    (∃ e, resp = writeGcsError e ∧ (failing (store s) ∨ no_bucket (store s) bucket e ∨ no_tmp_dir (store s) bucket)) ∨
    (∃ e, resp = writeError 400 "invalid" (Lit "reading upload body: " :: Error e) ∧ (failing (store s) ∨ media.2 = Some e))
  | Crash => failing (store s)
  | _ => False
  end.

Lemma media_refusal_status s bucket media resp :
  media_refusal s bucket media (Ret resp) → ∃ st, response_status resp = Some st ∧ (400 ≤ st)%Z.
Proof. intros [(e & -> & _)|(e & -> & _)]; [apply writeGcsError_status|by exists 400%Z]. Qed.

(** How a media upload may end: as the commit of the bytes its body delivers, or
    before, with no object changed and an answer that says why. *)
Definition media_outcome (s : Server) (bucket : string) (media : reader) (meta : objectMetadata) (conds : Conditions)
    (o : outcome (response json_value)) (s' : Server) : Prop :=
  (media.2 = None ∧ ∃ b, b_name b = bucket ∧ b_open b = true ∧ upload_outcome s b (concat media.1) meta conds o s') ∨
  (same_tables (store s) (store s') ∧ media_refusal s bucket media o).

Lemma triple_errorless {A} (m : M world A) Q E C w :
  (∀ e w', m w ≠ (Err e, w')) → triple w m Q E C → triple w m Q (λ _ _, False) C.
Proof.
  unfold triple, wp. intros Hne. destruct (m w) as [[a|e|x| |] w'] eqn:Em; cbn; auto. by destruct (Hne e w').
Qed.

Lemma putObject_ends s media bucket meta conds :
  world_ok (store s) → wp (putObject media bucket meta conds) (media_outcome s bucket media meta conds) s.
Proof.
  intros Hok. unfold putObject. eapply wp_bind_try_call; [by apply triple_NewBlobWriter|..].
  2: { intros e w' (_ & Hs & _ & Hwhy). apply wp_ret. right. split; [done|]. left. by exists e. }
  2: { intros w' (_ & Hs & Hf). by right. }
  intros p w1 (Hok1 & Hk1 & bw & Hw1 & Hsha & b & Hhb & Hbn & Hbo).
  pose proof (kept_calm _ _ Hk1) as Hc1. cbn beta iota. apply wp_bind. eapply wp_call; [
    eapply triple_errorless; [intros e w'; apply io_Copy_no_error|];
    apply (triple_io_Copy same_tables w1
      (λ x w', ∃ bw', world_ok w' ∧ kept w1 w' ∧ writing w' p bw' ∧ handles w' !! w_b bw' = Some b ∧
        match x.2 with
        | None => media.2 = None ∧ w_sha bw' = concat media.1
        | Some e => failing w1 ∨ media.2 = Some e end)
      (E_rel same_tables w1 (λ _, False)) p media.1 media.2 w1 bw); [done|apply kept_refl|done|]|].
  { intros w' bw' k err Hok' Hk' Hh' Hw' (Hb' & _ & _) Herr. exists bw'. rewrite Hh', Hb'. split_and!; [done..|]. cbn [snd].
    destruct err; [done|]. destruct Herr as (? & E & _). by rewrite Hsha in E. }
  intros [[k [e|]]|e|x| |] w2; cbn [post bind_post snd]; try done.
  - intros (bw2 & Hok2 & Hk2 & Hw2 & Hb2 & Hwhy). pose proof (kept_trans _ _ _ Hk1 Hk2) as Hk.
    eapply wp_bind_call; [by apply (triple_Abort w2 p bw2)|..].
    + intros [] w3 (_ & (Hs3 & _) & _). apply wp_ret. right. split; [eapply same_tables_trans; [apply Hk|exact Hs3]|].
      right. exists e. split; [done|]. destruct Hwhy as [?|E]; [left; by eapply calm_failing|by right].
    + done.
    + intros w3 (_ & Hs3 & Hf3). right. split; [eapply same_tables_trans; [apply Hk|exact Hs3]|].
      cbn. eapply calm_failing; [by apply kept_calm|exact Hf3].
  - intros (bw2 & Hok2 & Hk2 & Hw2 & Hb2 & Hend & Hsha2). pose proof (kept_trans _ _ _ Hk1 Hk2) as Hk.
    eapply wp_mono; [by apply (commitUpload_ends _ p bw2 b)|]. intros o s' Ho. left. split; [done|].
    exists b. split_and!; [done..|]. rewrite Hsha2 in Ho. exact (upload_outcome_pre s (set_store w2 (set_store w1 s)) b _ _ _ _ _ (proj1 Hk) (kept_calm _ _ Hk) Ho).
  - intros (_ & Hs & Hf). right. split; [eapply same_tables_trans; [apply Hk1|exact Hs]|].
    cbn. by eapply calm_failing.
Qed.

(** C13: A media upload never panics, and stores exactly the bytes of the body under
    verified checksums and answers 200 with the description of the new version, or
    it changes no object and its answer says why: 400 for a missing name, for
    checksums of other content and for an error of the body, which includes a
    connection that breaks, and for every error of the store the answer that the
    front end gives to it, which is the store's own reason unless the environment
    fails.  Only then may it die half-way, and it leaves the one or the other. *)
Theorem gcs_upload_stores_all s media bucket meta conds :
  reachable (store s) → wp (putObject media bucket meta conds) (media_outcome s bucket media meta conds) s.
Proof. intros Hok%reachable_ok. by apply putObject_ends. Qed.

(** A body that breaks off. *)
Lemma gcs_upload_stores_all_witness :
  wp (putObject ([sample_text], Some ErrUnexpectedEOF) "photos" (mkObjectMetadata "a/b.txt" "" ∅ "" "") noConditions)
    (media_outcome (NewServer w_object) "photos" ([sample_text], Some ErrUnexpectedEOF) (mkObjectMetadata "a/b.txt" "" ∅ "" "") noConditions)
    (NewServer w_object).
Proof. apply (gcs_upload_stores_all (NewServer w_object)). apply reachable_object. Defined.
