(* ===== verification/GcsListing.v ===== *)
(** Listing objects through the GCS front end: a client that follows
    [nextPageToken]. *)

From S2P Require Import Prelude Errors GoMonad GoStd GoNet Types Names Hash Database World Bucket Store BlobWriter StoreInv Triple StoreSafe StoreOps ObjectOps WriterOps Listing ListingSpec Run Refine Samples Paging ListProps.
From S2P Require Import GcsTypes Gcs GcsProps.
From stdpp Require Import options.

Definition list_request (q : Values) : request := mkRequest "GET" "" "" q ∅ ([], None) 0 false "localhost" [].

(** A page for a client with the query [q], and the client that collects them. *)
Definition resource_page (bucket : string) (q : Values) (token : string) : M Server (list objectResource * list string * option string) :=
  let* resp := listObjects (list_request (<["pageToken" := [token]]> q)) bucket in
  match resp with
  | Reply _ _ (Some (JObjects p)) =>
    ret (os_Items p, os_Prefixes p, if String.eqb (os_NextPageToken p) "" then None else Some (os_NextPageToken p))
  | _ => throw (Other [Lit "listing failed"])
  end.
Definition list_resources (fuel : nat) (bucket : string) (q : Values) : M Server (list objectResource * list string) :=
  collect (resource_page bucket q) fuel (values_Get q "pageToken").

(** What a query asks for, the page token apart. *)
Record asks (q : Values) (req : ListRequest) : Prop := {
  asks_prefix : values_Get q "prefix" = lr_Prefix req;
  asks_delimiter : values_Get q "delimiter" = lr_Delimiter req;
  asks_max : if String.eqb (values_Get q "maxResults") "" then lr_MaxResults req = 0%Z
             else strconv_Atoi (values_Get q "maxResults") = (lr_MaxResults req, false);
}.

Lemma values_insert_ne q k k' v : k ≠ k' → values_Get (<[k := [v]]> q) k' = values_Get q k'.
Proof. intros E. unfold values_Get. by rewrite lookup_insert_ne. Qed.
Lemma values_insert_eq q k v : values_Get (<[k := [v]]> q) k = v.
Proof. unfold values_Get. by rewrite lookup_insert_eq. Qed.

Lemma resource_page_ends w0 n t req q k c s :
  world_ok w0 → tables w0 n = Some t → ascii_request req → Z.to_nat (max_results req) = S k →
  asks q req → between w0 (store s) →
  wp (resource_page n q c) (ends (λ s, between w0 (store s)) (λ o s, page_failed w0 o (store s))
    (is_page n t req toObjectResource id (λ _, True) k c)) s.
Proof.
  intros Hok0 Ht Hreq Hk [Hpre Hdel Hmax] Hs. unfold resource_page, listObjects. cbn [Query list_request]. cbv zeta.
  rewrite !values_insert_ne, values_insert_eq, Hpre, Hdel by done. apply wp_bind.
  assert (∃ m bad, strconv_Atoi (values_Get q "maxResults") = (m, bad) ∧
    negb (String.eqb (values_Get q "maxResults") "") && bad = false ∧
    (if String.eqb (values_Get q "maxResults") "" then 0%Z else m) = lr_MaxResults req) as (m & bad & -> & -> & ->).
  { destruct (strconv_Atoi (values_Get q "maxResults")) as [m bad]. exists m, bad. split; [done|].
    destruct (String.eqb (values_Get q "maxResults") ""); [done|]. by simplify_eq. }
  change (mkListRequest (lr_Prefix req) (lr_Delimiter req) c (lr_MaxResults req)) with (at_token req c).
  eapply wp_bind_try_call; [by apply (page_at_token w0 n t req Hok0 Ht Hreq c (store s))|..].
  - intros res w' [Hw' ->]. apply wp_ret. cbn [bind_post writeJSON]. apply wp_ret. split; [done|].
    rewrite Hk. unfold is_page. cbn [id]. destruct (walk req None (S k) (from c (with_prefix n t req))) as [its tok].
    cbn [page Objects Prefixes NextPageToken os_Items os_Prefixes os_NextPageToken fst snd]. split; [done|].
    by destruct (String.eqb_spec tok "").
  - intros e w' Hw'. apply wp_ret. cbn [bind_post]. by unfold writeGcsError; repeat case_match.
  - done.
Qed.

(** C27: A client that passes on [nextPageToken], with a prefix and a delimiter that are
    empty or end in a byte below 0x7f, gets the resource of every object of the
    listing once and in order, and every common prefix; it gets no answer only
    when the environment fails a request, and no request changes an object. *)
Theorem gcs_client_lists_all s n q req t fuel :
  reachable (store s) → tables (store s) n = Some t → ascii_request req → size t < fuel →
  asks q req → lr_PageToken req = values_Get q "pageToken" →
  wp (list_resources fuel n q) (λ o s',
    same_tables (store s) (store s') ∧
    match o with
    | Ret (rs, ps) => ∃ os, rs = toObjectResource <$> os ∧ whole_listing n t req os ps
    | Err _ | Crash => failing (store s)
    | _ => False
    end) s.
Proof.
  intros Hr%reachable_ok Ht Hreq Hfuel Hq Htok. destruct (max_results_pos req) as [k Hk].
  eapply wp_mono; [eapply (wp_collect_all (store s) n t req Hr Ht Hreq _ toObjectResource id (λ _, True) _ _ k)|].
  - intros c s' _. by apply resource_page_ends.
  - done.
  - split; [done|apply kept_refl].
  - done.
  - done.
  - intros [[rs ps]|e|x| |] s'; cbn [ends]; unfold page_failed; try done; try tauto.
    intros [[_ [Hs _]] Hos]. done.
Qed.

Definition one_by_one : Values := <["delimiter" := ["/"]]> {["maxResults" := ["1"]]}.
Definition one_by_one_req : ListRequest := mkListRequest "" "/" "" 1.

Lemma gcs_client_lists_all_witness :
  ∃ rs ps s', list_resources 9 "photos" one_by_one (NewServer w_object) = (Ret (rs, ps), s') ∧ ps = ["a/"] ∧
    same_tables (store (NewServer w_object)) (store s').
Proof.
  destruct (list_resources 9 "photos" one_by_one (NewServer w_object)) as [o s'] eqn:E.
  assert (match (list_resources 9 "photos" one_by_one (NewServer w_object)).1 with Ret (_, ps) => ps | _ => [] end = ["a/"]) as Hps by by_running.
  rewrite E in Hps. cbn [fst] in Hps.
  assert ((λ t, Nat.ltb (size t) 9) <$> tables w_object "photos" = Some true) as Ht by by_running.
  destruct (tables w_object "photos") as [t|] eqn:Et; [|exfalso; cbn in Ht; discriminate Ht].
  apply (inj Some), Nat.ltb_lt in Ht.
  assert (ascii_request one_by_one_req) as Hreq.
  { split; [by right|left]. exists "", "/"%char. split; reflexivity. }
  assert (asks one_by_one one_by_one_req) as Hq by (split; by_running).
  pose proof (gcs_client_lists_all (NewServer w_object) "photos" one_by_one one_by_one_req t 9
    reachable_object Et Hreq Ht Hq eq_refl) as [Hs _].
  destruct o as [[rs ps]|e|x| |]; [|exfalso; discriminate Hps..].
  exists rs, ps, s'. split; [reflexivity|]. split; [exact Hps|].
  rewrite E in Hs. exact Hs.
Defined.
