(* ===== verification/CrossProtocol.v ===== *)
(** The two front ends over one store: an object written through S3 is read
    through the GCS API. *)

From S2P Require Import Prelude Errors GoMonad GoStd GoNet Types Names Hash Json JsonProofs Database World Bucket Store BlobWriter StoreInv Triple StoreSafe StoreOps ObjectOps WriterOps Listing ListingSpec Run Refine Samples StoreProps.
From S2P Require S3 S3Types S3Props Gcs GcsTypes GcsProps.
From S2P Require Import AwsChunked.
From stdpp Require Import options.

(** The checksums that the GCS front end sends with an object's content. *)
Definition goog_hash (c : bytes) : string :=
  "crc32c=" +:+ GcsTypes.encodeCRC32C (crc32c_sum c) +:+ ",md5=" +:+ base64_EncodeToString (md5_sum c).

(** A request without conditions on the version it reads. *)
Definition unconditional (q : Values) : Prop :=
  values_Get q "generation" = "" ∧ values_Get q "ifGenerationMatch" = "" ∧ values_Get q "ifGenerationNotMatch" = "" ∧
  values_Get q "ifMetagenerationMatch" = "" ∧ values_Get q "ifMetagenerationNotMatch" = "".

Lemma unconditional_allowed q info : unconditional q → Gcs.read_checks q info = None.
Proof.
  intros (Hg & H1 & H2 & H3 & H4). unfold Gcs.read_checks, GcsTypes.checkGenerationParam. rewrite Hg. cbn.
  unfold GcsTypes.parseConditions, GcsTypes.parse_condition. by rewrite H1, H2, H3, H4.
Qed.

(** Reading an object that can be opened. *)
Lemma serveMedia_serves g r bucket name info f w2 c :
  OpenObject bucket name (Gcs.store g) = (Ret (info, f), w2) → files w2 !! f = Some c → faults w2 = [] →
  unconditional (Query r) →
  Gcs.serveMedia r bucket name g = (Ret (ServeContent (Gcs.media_headers info) (oi_Updated info) c), Gcs.set_store w2 g).
Proof.
  intros Hopen Hc Hf Hq. unfold Gcs.serveMedia.
  assert (try (Gcs.call (OpenObject bucket name)) g = (Ret (inr (info, f)), Gcs.set_store w2 g)) as Ho.
  { apply S3Props.try_ret. unfold Gcs.call, zoom. by rewrite Hopen. }
  erewrite S3Props.bind_ret by exact Ho. cbn beta iota. rewrite unconditional_allowed by done.
  unfold defer, bind, gets, ret, file_content. cbn [Gcs.store Gcs.set_store]. rewrite Hc. cbn [default from_option].
  unfold ignore, bind, try, Gcs.call, zoom. cbn [Gcs.store Gcs.set_store]. by rewrite (S3Props.calm_Close w2 Hf).
Qed.

Lemma media_hash info c :
  oi_MD5 info = md5_sum c → oi_CRC32C info = crc32c_sum c → ("X-Goog-Hash", goog_hash c) ∈ Gcs.media_headers info.
Proof. intros Hm Hc. unfold goog_hash. rewrite <- Hm, <- Hc. do 6 right. by left. Qed.

(** C14: What an S3 PUT answered with 200 stored, the media of the GCS front end over the
    same store serve: the same bytes (unless SHA-256 collides), with their CRC32C
    and MD5, and the content type of the PUT. *)
Theorem s3_put_then_gcs_media s bucket key r r' ps resp s1 g :
  reachable (S3.store s) → faults (S3.store s) = [] →
  requestBody r = (ps, None) → utf8_map (S3Props.put_metadata r) →
  S3.putObject r bucket key s = (Ret resp, s1) → response_status resp = Some 200%Z →
  Gcs.store g = S3.store s1 → unconditional (Query r') →
  ∃ hs t c g', Gcs.serveMedia r' bucket key g = (Ret (ServeContent hs t c), g') ∧
    (c = concat ps ∨ c ≠ concat ps ∧ sha256_sum c = sha256_sum (concat ps)) ∧
    ("X-Goog-Hash", goog_hash (concat ps)) ∈ hs ∧
    (let ct := header_Get (rHeader r) "Content-Type" in
     ("Content-Type", if String.eqb ct "" then "application/octet-stream" else ct) ∈ hs).
Proof.
  intros Hr%reachable_ok Hf Hbody Hmd Hput Hst Hg Hq.
  destruct (S3Props.putObject_ran s bucket key r ps resp s1 Hbody Hput Hst) as (oi & w1 & E & -> & ->).
  destruct (open_after_put (S3.store s) bucket key ps (S3Props.put_options r) oi w1) as (Hct & _ & Hmd5 & Hcrc & f & w2 & c & Hopen & Hc & Hf2 & Heq); [done..|].
  exists (Gcs.media_headers (as_stored oi)), (oi_Updated (as_stored oi)), c, (Gcs.set_store w2 g). split_and!.
  - change (S3.store (S3.set_store w1 s)) with w1 in Hg. rewrite <- Hg in Hopen. by apply serveMedia_serves with f.
  - exact Heq.
  - by apply media_hash.
  - change (header_Get (rHeader r) "Content-Type") with (po_ContentType (S3Props.put_options r)). rewrite <- Hct.
    change (oi_ContentType oi) with (oi_ContentType (as_stored oi)). by left.
Qed.

Lemma s3_put_then_gcs_media_witness :
  ∃ s1 hs t c g', Gcs.serveMedia S3Props.put_request "photos" "c" (Gcs.NewServer (S3.store s1)) = (Ret (ServeContent hs t c), g') ∧
    ("X-Goog-Hash", goog_hash (concat [sample_text; sample_text])) ∈ hs.
Proof.
  assert ((λ o, match o with Ret r => response_status r | _ => None end)
    (S3.putObject S3Props.put_request "photos" "c" S3Props.s_object).1 = Some 200%Z) as Hst by by_running.
  destruct (S3.putObject S3Props.put_request "photos" "c" S3Props.s_object) as [o s1] eqn:E.
  destruct o as [resp|e|x| |]; [|exfalso; cbn in Hst; discriminate Hst..].
  assert (faults (S3.store S3Props.s_object) = []) as Hf by by_running.
  assert (requestBody S3Props.put_request = ([sample_text; sample_text], None)) as Hb by by_running.
  assert (utf8_map (S3Props.put_metadata S3Props.put_request)) as Hmd.
  { replace (S3Props.put_metadata S3Props.put_request) with (∅ : gmap string string) by by_running. apply map_Forall_empty. }
  assert (unconditional (Query S3Props.put_request)) as Hq by (split_and!; by_running).
  destruct (s3_put_then_gcs_media S3Props.s_object "photos" "c" S3Props.put_request S3Props.put_request _ resp s1
    (Gcs.NewServer (S3.store s1)) reachable_object Hf Hb Hmd E Hst eq_refl Hq) as (hs & t & c & g' & H1 & _ & H2 & _).
  exists s1, hs, t, c, g'. exact (conj H1 H2).
Defined.

(** C15: What a media upload over GCS answered with 200 stored, both front ends over the
    same store serve: the same bytes (unless SHA-256 collides), GCS with their CRC32C and
    MD5, S3 with their MD5 as ETag. *)
Theorem gcs_upload_then_read s bucket ps meta conds resp s1 r r' x :
  reachable (Gcs.store s) → faults (Gcs.store s) = [] → utf8_map (Gcs.om_Metadata meta) →
  Gcs.putObject (ps, None) bucket meta conds s = (Ret resp, s1) → response_status resp = Some 200%Z →
  unconditional (Query r) → S3.store x = Gcs.store s1 →
  ∃ hs hs' t c g' x',
    Gcs.serveMedia r bucket (Gcs.om_Name meta) s1 = (Ret (ServeContent hs t c), g') ∧
    S3.getObject r' bucket (Gcs.om_Name meta) x = (Ret (ServeContent hs' t c), x') ∧
    (c = concat ps ∨ c ≠ concat ps ∧ sha256_sum c = sha256_sum (concat ps)) ∧
    ("X-Goog-Hash", goog_hash (concat ps)) ∈ hs ∧ ("Etag", S3.etag (md5_sum (concat ps))) ∈ hs'.
Proof.
  intros Hr%reachable_ok Hf Hmd Hput Hst Hq Hx.
  pose proof (GcsProps.putObject_ends s (ps, None) bucket meta conds Hr) as Hend. unfold wp in Hend. rewrite Hput in Hend.
  destruct Hend as [(_ & b & <- & _ & [(oi & -> & [_ Hw] & Hok1 & Hc1)|(_ & Hno)])|(_ & Hno)].
  - destruct (open_after_wrote (Gcs.store s) (b_name b) (Gcs.om_Name meta) (concat ps) (GcsProps.upload_opts meta conds) oi (Gcs.store s1))
      as (_ & _ & Hmd5 & Hcrc & f & w2 & c & Hopen & Hc & Hf2 & Heq); [done|by apply Hc1|done|done|].
    exists (Gcs.media_headers (as_stored oi)), (S3.content_headers (as_stored oi)), (oi_Updated (as_stored oi)), c, (Gcs.set_store w2 s1), (S3.set_store w2 x).
    split_and!; [by apply serveMedia_serves with f| |done|by apply media_hash|].
    + rewrite <- Hx in Hopen. by apply S3Props.getObject_serves with f.
    + rewrite <- Hmd5. apply (S3Props.content_headers_spec (as_stored oi)).
  - apply GcsProps.upload_refusal_status in Hno as (st & Hst' & Hle). rewrite Hst in Hst'. by simplify_eq.
  - apply GcsProps.media_refusal_status in Hno as (st & Hst' & Hle). rewrite Hst in Hst'. by simplify_eq.
Qed.

Lemma gcs_upload_then_read_witness :
  let meta := Gcs.mkObjectMetadata "c" "text/css" ∅ "" "" in
  ∃ s1 hs hs' t c g' x',
    Gcs.serveMedia S3Props.put_request "photos" "c" s1 = (Ret (ServeContent hs t c), g') ∧
    S3.getObject S3Props.put_request "photos" "c" (S3.NewServer (Gcs.store s1)) = (Ret (ServeContent hs' t c), x') ∧
    ("X-Goog-Hash", goog_hash (concat [sample_text; sample_text])) ∈ hs.
Proof.
  intros meta.
  assert ((λ o, match o with Ret r => response_status r | _ => None end)
    (Gcs.putObject ([sample_text; sample_text], None) "photos" meta noConditions (Gcs.NewServer w_object)).1 = Some 200%Z) as Hst by by_running.
  destruct (Gcs.putObject ([sample_text; sample_text], None) "photos" meta noConditions (Gcs.NewServer w_object)) as [o s1] eqn:E.
  destruct o as [resp|e|x| |]; [|exfalso; cbn in Hst; discriminate Hst..].
  assert (faults (Gcs.store (Gcs.NewServer w_object)) = []) as Hf by by_running.
  assert (utf8_map (Gcs.om_Metadata meta)) as Hmd by apply map_Forall_empty.
  assert (unconditional (Query S3Props.put_request)) as Hq by (split_and!; by_running).
  destruct (gcs_upload_then_read (Gcs.NewServer w_object) "photos" [sample_text; sample_text] meta noConditions resp s1
    S3Props.put_request S3Props.put_request (S3.NewServer (Gcs.store s1)) reachable_object Hf Hmd E Hst Hq eq_refl)
    as (hs & hs' & t & c & g' & x' & H1 & H2 & _ & H3 & _).
  exists s1, hs, hs', t, c, g', x'. exact (conj H1 (conj H2 H3)).
Defined.
