(* ===== verification/ContentRange.v ===== *)
(** The [Content-Range] headers of resumable uploads: the two regular
    expressions of [pkg/gcs/upload.go] against the strings they describe, and
    the numbers in them. *)

From S2P Require Import Prelude Errors GoMonad GoStd GoNet Types Hash Gcs.
From stdpp Require Import options.

(** ** Decimal numbers *)
Definition is_decimal (a : ascii) : bool := (48 <=? byte_val a)%Z && (byte_val a <=? 57)%Z.
Fixpoint all_decimal (s : string) : bool :=
  match s with "" => true | String a s => is_decimal a && all_decimal s end.
(** [\d+] *)
Definition decimal (s : string) : Prop := s ≠ "" ∧ all_decimal s = true.
(** The rest of a string after its digits. *)
Definition no_digit (s : string) : Prop := match s with "" => True | String a _ => is_decimal a = false end.

#[export] Instance decimal_dec s : Decision (decimal s).
Proof. unfold decimal. apply _. Defined.

Lemma all_decimal_app s t : all_decimal (s +:+ t) = all_decimal s && all_decimal t.
Proof. induction s as [|a s IH]; [done|]. change (String a s +:+ t) with (String a (s +:+ t)). cbn. by rewrite IH, andb_assoc. Qed.

Lemma decimal_digit a d : digit_val a = Some d → (d < 10)%Z → is_decimal a = true.
Proof. unfold digit_val, is_decimal. repeat case_match; intros; simplify_eq; lia. Qed.

Lemma pretty_N_char_val x : (x < 10)%N → digit_val (pretty_N_char x) = Some (Z.of_N x).
Proof.
  intros Hx. assert (x = 0 ∨ x = 1 ∨ x = 2 ∨ x = 3 ∨ x = 4 ∨ x = 5 ∨ x = 6 ∨ x = 7 ∨ x = 8 ∨ x = 9)%N as Hc by lia.
  by repeat destruct Hc as [->|Hc]; [..|subst].
Qed.

(** Reading the digits of a printed number gives it back. *)
Lemma digits_val_pretty x s : digits_val 10 0 (pretty_N_go x s) = digits_val 10 (Z.of_N x) s.
Proof.
  revert s. induction (N.lt_wf_0 x) as [x _ IH]; intros s.
  destruct (decide (x = 0)%N) as [->|Hx]; [done|]. rewrite pretty_N_go_step by lia.
  rewrite IH by (apply N.div_lt; lia). cbn [digits_val].
  assert (x `mod` 10 < 10)%N as Hm by (apply N.mod_lt; lia). rewrite pretty_N_char_val by done.
  rewrite (proj2 (Z.ltb_lt _ _)) by lia. f_equal.
  rewrite N2Z.inj_div, N2Z.inj_mod. pose proof (Z.div_mod (Z.of_N x) 10). lia.
Qed.

Lemma all_decimal_pretty x s : all_decimal (pretty_N_go x s) = all_decimal s.
Proof.
  revert s. induction (N.lt_wf_0 x) as [x _ IH]; intros s.
  destruct (decide (x = 0)%N) as [->|Hx]; [done|]. rewrite pretty_N_go_step by lia.
  rewrite IH by (apply N.div_lt; lia). cbn [all_decimal].
  assert (x `mod` 10 < 10)%N as Hm by (apply N.mod_lt; lia).
  rewrite (decimal_digit _ (Z.of_N (x `mod` 10))); [done|by apply pretty_N_char_val|lia].
Qed.

Lemma pretty_N_go_nonempty x s : s ≠ "" → pretty_N_go x s ≠ "".
Proof.
  revert s. induction (N.lt_wf_0 x) as [x _ IH]; intros s Hs.
  destruct (decide (x = 0)%N) as [->|Hx]; [done|]. rewrite pretty_N_go_step by lia.
  apply IH; [apply N.div_lt; lia|done].
Qed.

Lemma decimal_pretty (n : N) : decimal (pretty n).
Proof.
  unfold pretty, pretty_N. case_decide; [by split|]. split; [|by rewrite all_decimal_pretty].
  rewrite pretty_N_go_step by lia. by apply pretty_N_go_nonempty.
Qed.

Lemma digits_val_decimal s : all_decimal s = true → ∀ acc, is_Some (digits_val 10 acc s).
Proof.
  induction s as [|a s IH]; intros H acc; cbn; [by eexists|]. cbn in H. apply andb_true_iff in H as [Ha H].
  unfold is_decimal in Ha. unfold digit_val. rewrite Ha. apply andb_true_iff in Ha as [? ?].
  rewrite (proj2 (Z.ltb_lt _ _)) by lia. by apply IH.
Qed.

(** A decimal string has no sign. *)
Lemma ParseInt_decimal s :
  decimal s →
  strconv_ParseInt s 10 =
  match digits_val 10 0 s with
  | Some n => if (n <? 2 ^ 63)%Z then (n, false) else ((2 ^ 63 - 1)%Z, true)
  | None => (0%Z, true)
  end.
Proof.
  intros [Hne Hd]. destruct s as [|a s]; [done|]. unfold strconv_ParseInt. cbn in Hd. apply andb_true_iff in Hd as [Ha _].
  destruct (Ascii.eqb_spec a "+") as [->|_]; [done|]. destruct (Ascii.eqb_spec a "-") as [->|_]; [done|].
  by destruct (digits_val 10 0 (String a s)).
Qed.

Lemma ParseInt_pretty (n : N) : (Z.of_N n < 2 ^ 63)%Z → strconv_ParseInt (pretty n) 10 = (Z.of_N n, false).
Proof.
  intros Hn. rewrite ParseInt_decimal by apply decimal_pretty.
  assert (digits_val 10 0 (pretty n) = Some (Z.of_N n)) as ->; [|by rewrite (proj2 (Z.ltb_lt _ _))].
  unfold pretty, pretty_N. case_decide as E; [by subst|]. by rewrite digits_val_pretty.
Qed.

(** ** The regular expressions *)

Lemma span_digits_spec s d rest :
  span_digits s = (d, rest) ↔ s = d +:+ rest ∧ all_decimal d = true ∧ no_digit rest.
Proof.
  revert d rest. induction s as [|a s IH]; intros d rest; cbn [span_digits].
  - split; [by intros [= <- <-]|]. intros (E & _ & _). by destruct d, rest.
  - fold (is_decimal a). destruct (is_decimal a) eqn:Ea.
    + destruct (span_digits s) as [d' rest'] eqn:E. destruct (proj1 (IH d' rest') eq_refl) as (-> & Hd & Hr). split.
      * intros [= <- <-]. split_and!; [done| |done]. cbn. by rewrite Ea.
      * intros (E' & Hd2 & Hr2). destruct d as [|b d].
        { change ("" +:+ rest) with rest in E'. rewrite <- E' in Hr2. cbn in Hr2. congruence. }
        change (String b d +:+ rest) with (String b (d +:+ rest)) in E'. injection E' as <- E'.
        cbn in Hd2. apply andb_true_iff in Hd2 as [_ Hd2].
        assert ((d', rest') = (d, rest)) as [= -> ->]; [|done]. apply (IH d rest). done.
    + split; [intros [= <- <-]; done|]. intros (E & Hd & _). destruct d as [|b d]; [by rewrite E|].
      change (String b d +:+ rest) with (String b (d +:+ rest)) in E. injection E as <- _.
      cbn in Hd. by rewrite Ea in Hd.
Qed.

Lemma digits_then_spec sep s d rest :
  is_decimal sep = false → digits_then sep s = Some (d, rest) ↔ decimal d ∧ s = d +:+ String sep rest.
Proof.
  intros Hsep. unfold digits_then. destruct (span_digits s) as [d' r'] eqn:E.
  destruct (proj1 (span_digits_spec _ _ _) E) as (-> & Hd & Hr). split.
  - destruct d' as [|a d'], r' as [|b r']; try done. destruct (Ascii.eqb_spec b sep) as [->|]; [|done].
    intros [= <- <-]. done.
  - intros ([Hne Hd2] & Es). rewrite Es in E.
    assert (span_digits (d +:+ String sep rest) = (d, String sep rest)) as E2 by by apply span_digits_spec.
    rewrite E in E2. injection E2 as -> ->. destruct d; [done|]. by rewrite Ascii.eqb_refl.
Qed.

Lemma str_app_nil s : s +:+ "" = s.
Proof. induction s as [|a s IH]; [done|]. change (String a s +:+ "") with (String a (s +:+ "")). by rewrite IH. Qed.

Lemma total_end_spec s t : total_end s = Some t ↔ s = t ∧ (t = "*" ∨ decimal t).
Proof.
  unfold total_end. destruct (String.eqb_spec s "*") as [->|Hs].
  - split; [intros [= <-]; split; [done|by left]|]. by intros [<- _].
  - destruct (span_digits s) as [d r] eqn:E. destruct (proj1 (span_digits_spec _ _ _) E) as (-> & Hd & Hr). split.
    + destruct d as [|a d], r; try done. intros [= <-]. rewrite str_app_nil. split; [done|by right].
    + intros [Es [->|[Hne Hd2]]]; [done|]. rewrite Es in E.
      assert (span_digits (t +:+ "") = (t, "")) as E2 by by apply span_digits_spec.
      rewrite str_app_nil, E in E2. injection E2 as -> ->. by destruct t.
Qed.

Lemma has_prefix_app p s : strings_HasPrefix (p +:+ s) p = true.
Proof.
  unfold strings_HasPrefix. induction p as [|a p IH]; [by destruct s|].
  change (String a p +:+ s) with (String a (p +:+ s)). cbn. by destruct (ascii_dec a a).
Qed.
Lemma trim_prefix_app p s : strings_TrimPrefix (p +:+ s) p = s.
Proof.
  unfold strings_TrimPrefix. rewrite has_prefix_app. induction p as [|a p IH]; [done|exact IH].
Qed.
Lemma has_prefix_inv p s : strings_HasPrefix s p = true → s = p +:+ strings_TrimPrefix s p.
Proof.
  intros H. unfold strings_TrimPrefix. rewrite H. unfold strings_HasPrefix in H. revert s H.
  induction p as [|a p IH]; intros s H; [done|]. destruct s as [|b s]; [done|]. cbn in H.
  destruct (ascii_dec a b) as [<-|]; [|done]. change (String a p +:+ str_drop (String.length (String a p)) (String a s))
    with (String a (p +:+ str_drop (String.length p) s)). f_equal. by apply IH.
Qed.

(** C40: The parser of chunk headers accepts exactly the strings of the regular
    expression [^bytes (\d+)-(\d+)/(\d+|[*])$], with its three groups. *)
Theorem match_chunk_regex s start end_ total :
  match_chunk s = Some (start, end_, total) ↔
  s = "bytes " +:+ start +:+ "-" +:+ end_ +:+ "/" +:+ total ∧
  decimal start ∧ decimal end_ ∧ (total = "*" ∨ decimal total).
Proof.
  unfold match_chunk. split.
  - destruct (strings_HasPrefix s "bytes ") eqn:Hp; [|done]. apply has_prefix_inv in Hp.
    destruct (digits_then "-" _) as [[a r]|] eqn:E1; [|done]. apply digits_then_spec in E1 as [Ha E1]; [|done].
    destruct (digits_then "/" r) as [[b r']|] eqn:E2; [|done]. apply digits_then_spec in E2 as [Hb E2]; [|done].
    destruct (total_end r') as [t|] eqn:E3; [|done]. apply total_end_spec in E3 as [-> Ht].
    intros [= <- <- <-]. rewrite Hp, E1, E2. done.
  - intros (-> & Ha & Hb & Ht). rewrite has_prefix_app, trim_prefix_app.
    rewrite (proj2 (digits_then_spec "-" _ start (end_ +:+ "/" +:+ total) eq_refl)) by done.
    rewrite (proj2 (digits_then_spec "/" _ end_ total eq_refl)) by done.
    by rewrite (proj2 (total_end_spec total total)).
Qed.

Lemma match_probe_regex s total :
  match_probe s = Some total ↔ s = "bytes */" +:+ total ∧ (total = "*" ∨ decimal total).
Proof.
  unfold match_probe. split.
  - destruct (strings_HasPrefix s "bytes */") eqn:Hp; [|done]. apply has_prefix_inv in Hp.
    intros [E Ht]%total_end_spec. rewrite E in Hp. done.
  - intros [-> Ht]. rewrite has_prefix_app, trim_prefix_app. by apply total_end_spec.
Qed.

(** The two expressions exclude each other. *)
Lemma chunk_not_probe start end_ total :
  decimal start → match_probe ("bytes " +:+ start +:+ "-" +:+ end_ +:+ "/" +:+ total) = None.
Proof.
  intros [Hne Hd]. unfold match_probe. destruct (strings_HasPrefix _ _) eqn:E; [|done].
  exfalso. destruct start as [|a start]; [done|]. unfold strings_HasPrefix in E.
  change (("bytes " +:+ String a start +:+ "-" +:+ end_ +:+ "/" +:+ total))
    with ("bytes " +:+ String a (start +:+ "-" +:+ end_ +:+ "/" +:+ total)) in E.
  assert (is_decimal a = true) as Ha by (cbn in Hd; by apply andb_true_iff in Hd as [? _]).
  change (String.prefix (String "*" "/") (String a (start +:+ "-" +:+ end_ +:+ "/" +:+ total)) = true) in E.
  cbn [String.prefix] in E. destruct (ascii_dec "*" a) as [<-|]; [by cbn in Ha|done].
Qed.

(** ** The headers a client writes *)
Definition total_string (total : option N) : string := match total with Some t => pretty t | None => "*" end.
Definition chunk_header (start end_ : N) (total : option N) : string :=
  "bytes " +:+ pretty start +:+ "-" +:+ pretty end_ +:+ "/" +:+ total_string total.
Definition probe_header (total : option N) : string := "bytes */" +:+ total_string total.
Definition total_value (total : option N) : Z := match total with Some t => Z.of_N t | None => (-1)%Z end.
Definition small_total (total : option N) : Prop := match total with Some t => (Z.of_N t < 2 ^ 63)%Z | None => True end.

Lemma total_string_ok total : total_string total = "*" ∨ decimal (total_string total).
Proof. destruct total; [right; apply decimal_pretty|by left]. Qed.

Lemma parse_total_string total : small_total total → parse_total (total_string total) = total_value total.
Proof.
  destruct total as [t|]; [|done]. intros Ht. cbn. unfold parse_total.
  destruct (String.eqb_spec (pretty t) "*") as [E|_]; [|by rewrite ParseInt_pretty].
  destruct (decimal_pretty t) as [_ Hd]. by rewrite E in Hd.
Qed.

Lemma match_chunk_header start end_ total :
  match_chunk (chunk_header start end_ total) = Some (pretty start, pretty end_, total_string total).
Proof. apply match_chunk_regex. split; [done|]. eauto using decimal_pretty, total_string_ok. Qed.
Lemma match_probe_chunk start end_ total : match_probe (chunk_header start end_ total) = None.
Proof. apply chunk_not_probe, decimal_pretty. Qed.
Lemma match_probe_header total : match_probe (probe_header total) = Some (total_string total).
Proof. apply match_probe_regex. split; [done|apply total_string_ok]. Qed.
