(* ===== verification/Resumable.v ===== *)
(** Resumable uploads: what one request does to a session, and what any sequence
    of requests that brings the content makes of it. *)

From S2P Require Import Prelude Errors GoMonad GoStd GoNet Types Names Hash Json JsonProofs Database World Bucket Store BlobWriter Outcomes StoreInv Triple StoreSafe StoreOps ObjectOps WriterOps Listing ListingSpec Run Refine Samples StoreProps.
From S2P Require Import GcsTypes Gcs GcsProps ContentRange.
From stdpp Require Import options.

(** ** Sessions *)

(** The session [p] has taken in the bytes [c], whose number is its offset; its
    writer holds [x]. *)
Record session_holds (s : Server) (p : nat) (b : Bucket) (meta : objectMetadata) (conds : Conditions) (c x : bytes) : Prop := {
  sa_ok : world_ok (store s);
  sa_session : ∃ us bw, us_heap s !! p = Some us ∧ us_done us = false ∧ us_meta us = meta ∧ us_conds us = conds ∧
    us_offset us = Z.of_nat (length c) ∧ writing (store s) (us_bw us) bw ∧ w_sha bw = x ∧
    handles (store s) !! w_b bw = Some b;
}.

(** Unless a chunk failed, they are the same. *)
Definition session_at (s : Server) (p : nat) (b : Bucket) (meta : objectMetadata) (conds : Conditions) (c : bytes) : Prop :=
  session_holds s p b meta conds c c.

Definition in_progress (s : Server) (id : string) (b : Bucket) (meta : objectMetadata) (conds : Conditions) (c : bytes) : Prop :=
  ∃ p, sessions s !! id = Some p ∧ session_at s p b meta conds c.

(** The sessions are only touched by the handlers of this file. *)
Lemma preserves_call {A} (m : M world A) id : preserves (λ s, sessions s !! id = None) (call m).
Proof. intros s Hs. unfold wp, call, zoom. by destruct (m (store s)). Qed.
#[export] Hint Resolve preserves_call : gopres.

Lemma commitUpload_sessions bw bucket meta conds id :
  preserves (λ s, sessions s !! id = None) (commitUpload bw bucket meta conds).
Proof.
  unfold commitUpload. repeat case_match; apply preserves_bind; intros; eauto with gopres.
  repeat case_match; eauto with gopres. apply preserves_bind; [eauto with gopres|].
  intros []; eauto with gopres.
Qed.

(** ** One request *)

Lemma wp_bind_load_session {B} p us (f : uploadSession → M Server B) Φ s :
  us_heap s !! p = Some us → wp (f us) Φ s → wp (bind (load_session p) f) Φ s.
Proof. intros Hus H. apply wp_bind. unfold wp at 1, load_session. by rewrite Hus. Qed.

(** The bytes of a request that are written to the session. *)
Definition carries (r : request) (d : bytes) : Prop := (Body r).2 = None ∧ concat (Body r).1 = d.

(** A copied body: its bytes are in the writer unless the environment failed. *)
Lemma copy_chunk_ends s p us bw b r d (Φ : outcome (Z * option error) → Server → Prop) :
  world_ok (store s) → us_heap s !! p = Some us → writing (store s) (us_bw us) bw →
  handles (store s) !! w_b bw = Some b → carries r d →
  (∀ w' bw', world_ok w' → kept (store s) w' → writing w' (us_bw us) bw' → w_sha bw' = w_sha bw ++ d →
     handles w' !! w_b bw' = Some b →
     Φ (Ret (int64 (Z.of_nat (length d)), None)) (set_store w' s)) →
  (∀ o s', failing (store s) → same_tables (store s) (store s') →
     (∃ k e, o = Ret (k, Some e)) ∨ (∃ e, o = Err e) ∨ o = Crash → Φ o s') →
  wp (copy_chunk p r) Φ s.
Proof.
  intros Hok Hus Hw Hb [Hend Hd] Hdone Hfail. unfold copy_chunk. eapply wp_bind_load_session; [exact Hus|].
  eapply wp_call.
  - apply (triple_io_Copy same_tables (store s)
      (λ x w', match x.2 with
        | None => x.1 = int64 (Z.of_nat (length d)) ∧ ∃ bw', world_ok w' ∧ kept (store s) w' ∧ writing w' (us_bw us) bw' ∧
            w_sha bw' = w_sha bw ++ d ∧ handles w' !! w_b bw' = Some b
        | Some _ => failing (store s) ∧ same_tables (store s) w' end)
      (E_rel same_tables (store s) (λ _, False)) (us_bw us) (Body r).1 (Body r).2 (store s) bw); [done|apply kept_refl|done|].
    intros w' bw' k err Hok' Hk' Hh' Hw' (Hb' & _ & _) Herr. cbn [fst snd]. destruct err as [e|].
    + destruct Herr as [?|?]; [|congruence]. split; [done|by destruct Hk'].
    + destruct Herr as (_ & Hsha & Hn). rewrite Hd in *. split; [rewrite Hn by done; f_equal; lia|].
      exists bw'. rewrite Hh', Hb'. done.
  - intros [[k [e|]]|e|x| |] w'; cbn [post fst snd]; try done.
    + intros [? ?]. apply Hfail; [done|done|]. left. by exists k, e.
    + intros (-> & bw' & ? & ? & ? & ? & ?). by eapply Hdone.
    + intros (_ & Hs & _ & [Hf|[]]). apply Hfail; [done|done|]. right; left. by exists e.
    + intros (_ & Hs & Hf). apply Hfail; [done|done|]. by right; right.
Qed.

(** The end of a request: the upload is committed when the total is reached. *)
Lemma finish_chunk_ends s r id p b meta conds c x total :
  session_holds s p b meta conds c x →
  wp (finish_chunk r id p total) (λ o s',
    if decide (total = Z.of_nat (length c))
    then upload_outcome s b x meta conds o s' ∧ sessions s' !! id = None
    else o = Ret (writeResumeIncomplete r (Z.of_nat (length c))) ∧ s' = s) s.
Proof.
  intros [Hok (us & bw & Hus & Hd & Hm & Hc & Hoff & Hw & Hsha & Hb)]. unfold finish_chunk.
  eapply wp_bind_load_session; [exact Hus|]. rewrite Hoff.
  destruct (decide (total = Z.of_nat (length c))) as [->|Hne].
  - rewrite Z.eqb_refl, (proj2 (Z.leb_le _ _)) by lia. cbn [andb].
    apply wp_bind, wp_modify, wp_bind, wp_modify. rewrite Hm, Hc, <- Hsha.
    set (s1 := set_sessions _ _). apply wp_conj.
    + exact (commitUpload_ends s1 (us_bw us) bw b (us_bucket us) meta conds Hok Hw Hb).
    + apply commitUpload_sessions. cbn. apply lookup_delete_eq.
  - destruct (Z.eqb_spec (Z.of_nat (length c)) total); [congruence|]. rewrite andb_false_r. by apply wp_ret.
Qed.

Definition upload_method (r : request) : Prop := Method r = "PUT" ∨ Method r = "POST".
Definition content_range (r : request) : string := header_Get (rHeader r) "Content-Range".

(** A request to a session in progress gets to the session. *)
Lemma chunk_entry s r id p b meta conds c x Φ :
  upload_method r → sessions s !! id = Some p → session_holds s p b meta conds c x →
  (∀ us, us_offset us = Z.of_nat (length c) → us_heap s !! p = Some us → wp (session_chunk r id p us) Φ s) →
  wp (handleResumableChunk r id) Φ s.
Proof.
  intros Hmethod Hp [Hok (us & bw & Hus & Hd & Hm & Hc & Hoff & Hw & Hsha & Hb)] H. unfold handleResumableChunk.
  assert (negb (String.eqb (Method r) "PUT") && negb (String.eqb (Method r) "POST") = false) as ->
    by by destruct Hmethod as [->| ->].
  apply wp_bind. unfold wp at 1, get. cbn [fst snd bind_post]. rewrite Hp.
  eapply wp_bind_load_session; [exact Hus|]. rewrite Hd. by apply H.
Qed.

(** What a request makes of a session that has taken in [c]: nothing new, or the
    bytes it brings at the right place. *)
Inductive continues (c : bytes) (r : request) : bytes → Prop :=
  | c_probe total :                       (* the client asks how far the upload is *)
      content_range r = probe_header total → small_total total →
      total_value total ≠ Z.of_nat (length c) → continues c r c
  | c_elsewhere start end_ total :        (* a chunk that belongs elsewhere, such as a repeated one *)
      content_range r = chunk_header start end_ total → (Z.of_N start < 2 ^ 63)%Z →
      Z.of_N start ≠ Z.of_nat (length c) → continues c r c
  | c_chunk d end_ total :                (* the next chunk, and not the last *)
      content_range r = chunk_header (N.of_nat (length c)) end_ total → carries r d → small_total total →
      (Z.of_N end_ + 1 = Z.of_nat (length (c ++ d)))%Z →
      total_value total ≠ Z.of_nat (length (c ++ d)) → continues c r (c ++ d).

(** A request that completes the upload. *)
Inductive finishes (c : bytes) (r : request) : bytes → Prop :=
  | f_probe total :
      content_range r = probe_header total → small_total total →
      total_value total = Z.of_nat (length c) → finishes c r c
  | f_chunk d end_ total :
      content_range r = chunk_header (N.of_nat (length c)) end_ total → carries r d → small_total total →
      (Z.of_N end_ + 1 = Z.of_nat (length (c ++ d)))%Z →
      total_value total = Z.of_nat (length (c ++ d)) → finishes c r (c ++ d)
  | f_whole d :                           (* everything that is left, without a range *)
      content_range r = "" → carries r d → finishes c r (c ++ d).

Definition fits (c : bytes) : Prop := (Z.of_nat (length c) < 2 ^ 63)%Z.

Lemma fits_prefix c d : fits (c ++ d) → fits c.
Proof. unfold fits. rewrite length_app. lia. Qed.

(** The next bytes are written and the offset advances. *)
Lemma advance_ends s p b meta conds c x d w' us bw' (f : handler) Φ :
  session_holds s p b meta conds c x → us_heap s !! p = Some us → us_offset us = Z.of_nat (length c) →
  fits (c ++ d) → world_ok w' → writing w' (us_bw us) bw' → w_sha bw' = x ++ d → handles w' !! w_b bw' = Some b →
  (∀ s', store s' = w' → sessions s' = sessions s →
     (∃ us', us_heap s' !! p = Some us' ∧ us_offset us' = Z.of_nat (length (c ++ d))) →
     session_holds s' p b meta conds (c ++ d) (x ++ d) → wp f Φ s') →
  wp (bind (advance p (int64 (Z.of_nat (length d)))) (λ _, f)) Φ (set_store w' s).
Proof.
  intros [_ (us0 & bw & Hus0 & Hd & Hm & Hc & _)] Hus Hoff Hfits Hok Hw Hsha Hb Hf.
  rewrite Hus in Hus0. apply (inj Some) in Hus0 as <-.
  assert (int64 (us_offset us + int64 (Z.of_nat (length d))) = Z.of_nat (length (c ++ d))) as Hsum.
  { unfold fits in Hfits. rewrite length_app in *. rewrite Hoff, (int64_small (Z.of_nat (length d))) by lia.
    rewrite int64_small by lia. lia. }
  unfold advance. apply wp_bind, wp_modify. set (s' := set_heap _ _).
  assert (us_heap s' !! p = Some (set_offset (Z.of_nat (length (c ++ d))) us)) as Hus'.
  { cbn. rewrite lookup_alter_eq, Hus. cbn. by rewrite Hsum. }
  apply (Hf s'); [done..|by eexists|]. split; [done|]. exists (set_offset (Z.of_nat (length (c ++ d))) us), bw'. done.
Qed.

(** The next chunk is copied, and what follows runs with it in the writer. *)
Lemma copied_chunk s p us b meta conds c x r d (g : Z → handler) (Φ : outcome (response json_value) → Server → Prop) :
  session_holds s p b meta conds c x → us_heap s !! p = Some us → carries r d →
  (∀ w' bw', world_ok w' → kept (store s) w' → writing w' (us_bw us) bw' → w_sha bw' = x ++ d →
     handles w' !! w_b bw' = Some b → wp (g (int64 (Z.of_nat (length d)))) Φ (set_store w' s)) →
  (∀ o s', failing (store s) → same_tables (store s) (store s') → Φ o s') →
  wp (let* ' (n, err) := copy_chunk p r in
      match err with
      | Some e => ret (writeError 500 "internalError" (Lit "writing chunk: " :: Error e))
      | None => g n
      end) Φ s.
Proof.
  intros [Hok (us0 & bw & Hus0 & _ & _ & _ & _ & Hw & Hsha & Hb)] Hus Hr Hg Hfail.
  rewrite Hus in Hus0. apply (inj Some) in Hus0 as <-.
  apply wp_bind. eapply copy_chunk_ends; [exact Hok|exact Hus|exact Hw|exact Hb|exact Hr|..].
  - intros w' bw' Hok' Hk Hw' Hsha' Hb'. cbn [bind_post]. apply (Hg w' bw'); congruence.
  - intros o s' ? ? [(k & e & ->)|[(e & ->)| ->]]; cbn [bind_post]; [apply wp_ret|..]; by apply Hfail.
Qed.

(** The range of a chunk header is as long as the chunk. *)
Lemma length_matches (c d : bytes) (end_ : N) :
  (Z.of_N end_ + 1 = Z.of_nat (length (c ++ d)))%Z →
  int64 (Z.of_nat (length d)) = int64 (Z.of_N end_ - Z.of_nat (length c) + 1).
Proof. intros H. rewrite length_app in H. f_equal. lia. Qed.

(** A chunk at the session's offset is taken in. *)
Lemma next_chunk s r id p us b meta conds c x d end_ total (Φ : outcome (response json_value) → Server → Prop) :
  session_holds s p b meta conds c x → us_heap s !! p = Some us → us_offset us = Z.of_nat (length c) →
  content_range r = chunk_header (N.of_nat (length c)) end_ total → carries r d → small_total total →
  (Z.of_N end_ + 1 = Z.of_nat (length (c ++ d)))%Z → fits (c ++ d) →
  (∀ s', kept (store s) (store s') → sessions s' = sessions s → session_holds s' p b meta conds (c ++ d) (x ++ d) →
     wp (finish_chunk r id p (total_value total)) Φ s') →
  (∀ o s', failing (store s) → same_tables (store s) (store s') → Φ o s') →
  wp (session_chunk r id p us) Φ s.
Proof.
  intros Hs Hus Hoff Hrange Hr Htotal Hend Hfits Hf Hfail. unfold session_chunk. fold (content_range r).
  rewrite Hrange, match_probe_chunk, match_chunk_header. pose proof (fits_prefix _ _ Hfits) as Hc.
  rewrite !ParseInt_pretty by (unfold fits in *; lia). cbn [fst]. rewrite nat_N_Z, Hoff, Z.eqb_refl, parse_total_string by done.
  cbn [negb]. eapply copied_chunk; [exact Hs|exact Hus|exact Hr| |exact Hfail].
  intros w' bw' Hok' Hk Hw' Hsha' Hb'. rewrite <- (length_matches c d) by done. rewrite Z.eqb_refl. cbn [negb].
  eapply advance_ends; [exact Hs|exact Hus|exact Hoff|exact Hfits|exact Hok'|exact Hw'|exact Hsha'|exact Hb'|].
  intros s' Hstore Hsess _ Hs'. apply Hf; [by rewrite Hstore|done|done].
Qed.

(** What a request does to a session: the reply reports the bytes taken in so
    far, which stay in the session; nothing is lost unless the environment failed. *)
Lemma chunk_continues s r id b meta conds c c' :
  in_progress s id b meta conds c → upload_method r → continues c r c' → fits c' →
  wp (handleResumableChunk r id) (λ o s',
    (o = Ret (writeResumeIncomplete r (Z.of_nat (length c'))) ∧ kept (store s) (store s') ∧
     in_progress s' id b meta conds c') ∨
    (failing (store s) ∧ same_tables (store s) (store s'))) s.
Proof.
  intros (p & Hp & Hs) Hmethod Hcont Hfits. eapply chunk_entry; [exact Hmethod|exact Hp|exact Hs|]. intros us Hoff Hus.
  destruct Hcont as [total Hr Ht Hne|start end_ total Hr Hsmall Hne|d end_ total Hr Hbody Ht Hend Hne].
  - unfold session_chunk. fold (content_range r). rewrite Hr, match_probe_header, parse_total_string by done.
    eapply wp_mono; [by apply (finish_chunk_ends s r id p b meta conds c c)|]. intros o s'.
    cbv beta; rewrite decide_False by done. intros [-> ->]. left. split_and!; [done|apply kept_refl|by exists p].
  - unfold session_chunk. fold (content_range r). rewrite Hr, match_probe_chunk, match_chunk_header.
    rewrite (ParseInt_pretty start) by done. cbn [fst]. rewrite Hoff, (proj2 (Z.eqb_neq _ _)) by done. cbn [negb].
    apply wp_ret. left. split_and!; [done|apply kept_refl|by exists p].
  - eapply next_chunk; [exact Hs|exact Hus|exact Hoff|exact Hr|exact Hbody|exact Ht|exact Hend|exact Hfits| |by right].
    intros s' Hk Hsess Hs'. eapply wp_mono; [by apply (finish_chunk_ends s' r id p b meta conds (c ++ d) (c ++ d))|].
    intros o s2. cbv beta; rewrite decide_False by done. intros [-> ->]. left.
    split_and!; [done..|]. exists p. by rewrite Hsess.
Qed.

Lemma chunk_finishes s r id b meta conds c c' :
  in_progress s id b meta conds c → upload_method r → finishes c r c' → fits c' →
  wp (handleResumableChunk r id) (λ o s',
    (upload_outcome s b c' meta conds o s' ∧ sessions s' !! id = None) ∨
    (failing (store s) ∧ same_tables (store s) (store s'))) s.
Proof.
  intros (p & Hp & Hs) Hmethod Hfin Hfits. eapply chunk_entry; [exact Hmethod|exact Hp|exact Hs|]. intros us Hoff Hus.
  destruct Hfin as [total Hr Ht Heq|d end_ total Hr Hbody Ht Hend Heq|d Hr Hbody].
  - unfold session_chunk. fold (content_range r). rewrite Hr, match_probe_header, parse_total_string by done.
    eapply wp_mono; [by apply (finish_chunk_ends s r id p b meta conds c c)|]. intros o s'.
    cbv beta; rewrite decide_True by done. by left.
  - eapply next_chunk; [exact Hs|exact Hus|exact Hoff|exact Hr|exact Hbody|exact Ht|exact Hend|exact Hfits| |by right].
    intros s' (Hk & Hcalm & _) Hsess Hs'. eapply wp_mono; [by apply (finish_chunk_ends s' r id p b meta conds (c ++ d) (c ++ d))|].
    intros o s2. cbv beta; rewrite decide_True by done. intros [Ho Hn]. left. split; [|done]. by eapply upload_outcome_pre.
  - unfold session_chunk. fold (content_range r). rewrite Hr. cbn [match_probe match_chunk].
    change (String.eqb "" "") with true. cbv iota.
    eapply copied_chunk; [exact Hs|exact Hus|exact Hbody| |by right].
    intros w' bw' Hok' (Hk & Hcalm & _) Hw' Hsha' Hb'.
    eapply advance_ends; [exact Hs|exact Hus|exact Hoff|exact Hfits|exact Hok'|exact Hw'|exact Hsha'|exact Hb'|].
    intros s' Hstore Hsess (us' & Hus' & Hoff') Hs'. eapply wp_bind_load_session; [exact Hus'|]. rewrite Hoff'.
    eapply wp_mono; [by apply (finish_chunk_ends s' r id p b meta conds (c ++ d) (c ++ d))|].
    intros o s2. cbv beta; rewrite decide_True by done. intros [Ho Hn]. left. split; [|done].
    eapply upload_outcome_pre; [| |exact Ho]; by rewrite Hstore.
Qed.

(** ** Sequences of requests *)

(** A client's requests to a session that has taken in [c], up to one that
    completes it with the content [full]; with the replies to all but that one,
    each of which reports how many bytes have been taken in. *)
Inductive transcript (c : bytes) : list request → list (response json_value) → bytes → request → Prop :=
  | t_last r full : upload_method r → finishes c r full → transcript c [] [] full r
  | t_next r c' rs resps full last :
      upload_method r → continues c r c' → transcript c' rs resps full last →
      transcript c (r :: rs) (writeResumeIncomplete r (Z.of_nat (length c')) :: resps) full last.

Fixpoint send (id : string) (rs : list request) : M Server (list (response json_value)) :=
  match rs with
  | [] => ret []
  | r :: rs =>
    let* resp := handleResumableChunk r id in
    let* resps := send id rs in
    ret (resp :: resps)
  end.

Lemma finishes_prefix c r full : finishes c r full → ∃ d, full = c ++ d.
Proof. intros [total _ _ _|d end_ total _ _ _ _ _|d _ _]; [exists []; by rewrite app_nil_r|by exists d..]. Qed.
Lemma continues_prefix c r c' : continues c r c' → ∃ d, c' = c ++ d.
Proof. intros [total _ _ _|start end_ total _ _ _|d end_ total _ _ _ _ _]; [exists []; by rewrite app_nil_r..|by exists d]. Qed.

Lemma transcript_fits c rs resps full last : transcript c rs resps full last → fits full → fits c.
Proof.
  induction 1 as [c r full _ [d ->]%finishes_prefix|c r c' rs resps full last _ [d ->]%continues_prefix _ IH].
  - apply fits_prefix.
  - intros H%IH. by eapply fits_prefix.
Qed.

Lemma calm_not_failing s : faults (store s) = [] → ¬ failing (store s).
Proof. intros Hf Hn. by apply Hn. Qed.

Lemma send_transcript id b meta conds c rs resps full last :
  transcript c rs resps full last → ∀ s,
  in_progress s id b meta conds c → faults (store s) = [] → fits full →
  ∃ s1 c1, send id rs s = (Ret resps, s1) ∧ kept (store s) (store s1) ∧
    in_progress s1 id b meta conds c1 ∧ upload_method last ∧ finishes c1 last full.
Proof.
  induction 1 as [c r full Hm Hfin|c r c' rs resps full last Hm Hcont Ht IH]; intros s Hs Hf Hfits.
  - exists s, c. split_and!; [done|apply kept_refl|done..].
  - pose proof (chunk_continues s r id b meta conds c c' Hs Hm Hcont (transcript_fits _ _ _ _ _ Ht Hfits)) as H.
    unfold wp in H. destruct (handleResumableChunk r id s) as [o s2] eqn:E. cbn [fst snd] in H.
    destruct H as [(-> & Hk & Hs2)|[Hfail _]]; [|by destruct (calm_not_failing s Hf)].
    destruct (IH s2 Hs2 (kept_calm _ _ Hk Hf) Hfits) as (s1 & c1 & E1 & Hk1 & Hs1 & Hm1 & Hfin).
    exists s1, c1. split_and!; [|by eapply kept_trans|done..].
    cbn [send]. unfold bind. by rewrite E, E1.
Qed.

(** Starting a session. *)
Lemma start_session `{Decoders} s r bucket conds meta resp s0 :
  world_ok (store s) → faults (store s) = [] → started_metadata r = inr meta →
  startResumableUpload r bucket conds s = (Ret resp, s0) → response_status resp = Some 200%Z →
  ∃ b, b_name b = bucket ∧ b_open b = true ∧ kept (store s) (store s0) ∧
    in_progress s0 (hex_EncodeToString (random r)) b meta conds [].
Proof.
  intros Hok Hf Hmeta Hrun Hst.
  assert (wp (startResumableUpload r bucket conds) (λ o s0, ∀ resp, o = Ret resp → response_status resp = Some 200%Z →
    ∃ b, b_name b = bucket ∧ b_open b = true ∧ kept (store s) (store s0) ∧
      in_progress s0 (hex_EncodeToString (random r)) b meta conds []) s) as Hwp; [|].
  { unfold startResumableUpload. rewrite Hmeta.
    eapply wp_bind_try_call; [by apply triple_NewBlobWriter|..].
    - intros p w' (Hok' & Hk & bw & Hw & Hsha & b & Hb & Hn & Ho). unfold register.
      apply wp_bind, wp_modify, wp_ret. intros _ _ _. exists b. split_and!; [done..|].
      exists (us_next s). split; [apply lookup_insert_eq|]. split; [done|].
      exists (mkUploadSession bucket meta conds p 0 false), bw. split_and!; [apply lookup_insert_eq|done..].
    - intros e w' _. apply wp_ret. intros resp' [= <-] Hst'. destruct (writeGcsError_status e) as (st & E & ?).
      rewrite Hst' in E. injection E as <-. lia.
    - intros w' _ resp' [=]. }
  unfold wp in Hwp. rewrite Hrun in Hwp. by eapply Hwp.
Qed.

(** C11: A resumable upload stores the bytes its chunks bring, in order: after the
    request that started it, any sequence of chunks, status requests and repeated
    or misplaced chunks is answered with the number of bytes taken in so far and
    changes no object, and the request that brings the last byte commits the
    concatenation of the chunks as [commitUpload] does, and ends the session. *)
Theorem resumable_upload `{Decoders} s r0 bucket conds meta resp0 s0 rs resps c last :
  reachable (store s) → faults (store s) = [] → started_metadata r0 = inr meta →
  startResumableUpload r0 bucket conds s = (Ret resp0, s0) → response_status resp0 = Some 200%Z →
  transcript [] rs resps c last → fits c →
  let id := hex_EncodeToString (random r0) in
  ∃ b s1 s2 resp, b_name b = bucket ∧ b_open b = true ∧
    send id rs s0 = (Ret resps, s1) ∧ same_tables (store s) (store s1) ∧
    handleResumableChunk last id s1 = (Ret resp, s2) ∧
    upload_outcome s b c meta conds (Ret resp) s2 ∧ sessions s2 !! id = None.
Proof.
  intros Hr%reachable_ok Hf Hmeta Hstart Hst Ht Hfits id.
  destruct (start_session s r0 bucket conds meta resp0 s0) as (b & Hn & Ho & Hk0 & Hs0); [done..|].
  destruct (send_transcript id b meta conds _ _ _ _ _ Ht s0 Hs0 (kept_calm _ _ Hk0 Hf) Hfits)
    as (s1 & c1 & Hsend & Hk1 & Hs1 & Hm & Hfin).
  pose proof (kept_trans _ _ _ Hk0 Hk1) as Hk. pose proof (kept_calm _ _ Hk Hf) as Hf1.
  pose proof (chunk_finishes s1 last id b meta conds c1 c Hs1 Hm Hfin Hfits) as Hwp. unfold wp in Hwp.
  destruct (handleResumableChunk last id s1) as [o s2] eqn:E. cbn [fst snd] in Hwp.
  destruct Hwp as [[Hout Hend]|[Hfail _]]; [|by destruct (calm_not_failing s1 Hf1)].
  destruct Hk as (Hsame & Hcalm & _). apply (upload_outcome_pre s) in Hout; [|done..].
  destruct o as [resp|e|x| |]; [|done|done|done|by destruct Hout as [?%(calm_not_failing s)]].
  exists b, s1, s2, resp. done.
Qed.

(** A session on the sample store, with the requests of a client that repeats a
    chunk and asks for the state of the upload in between. *)
#[local] Instance no_decoders : Decoders := {|
  Decode_bucketName _ := inl EOF;
  Decode_metadata _ := inl EOF;
  ParseMediaType_boundary _ := None;
  Multipart_parts _ _ := [];
|}.

Definition s_object : Server := NewServer w_object.
Definition start_request : request :=
  mkRequest "POST" "" "" {["name" := ["notes.txt"]]} ∅ ([], None) 0 false "localhost" (replicate 16 "a"%char).
Definition part_request (range : string) (body : list bytes) : request :=
  mkRequest "PUT" "" "" ∅ {["Content-Range" := [range]]} (body, None) 0 false "localhost" [].

Definition first_part : bytes := bytes_of_string "hel".
Definition second_part : bytes := bytes_of_string "lo".
Definition sample_parts : list request :=
  [part_request (chunk_header 0 2 None) [first_part];
   part_request (chunk_header 0 2 None) [first_part];
   part_request (probe_header None) []].
Definition last_part : request := part_request (chunk_header 3 4 (Some 5%N)) [second_part].

Lemma sample_transcript :
  ∃ resps, transcript [] sample_parts resps (bytes_of_string "hello") last_part.
Proof.
  eexists. eapply t_next; [by left|apply (c_chunk [] _ first_part 2 None); by vm_compute|].
  eapply t_next; [by left|by apply (c_elsewhere _ _ 0 2 None)|].
  eapply t_next; [by left|by apply (c_probe _ _ None)|].
  apply t_last; [by left|]. change (bytes_of_string "hello") with (first_part ++ second_part).
  by apply (f_chunk first_part _ second_part 4 (Some 5%N)).
Qed.

Lemma resumable_upload_witness :
  ∃ b s1 s2 resp, b_name b = "photos" ∧
    handleResumableChunk last_part (hex_EncodeToString (random start_request)) s1 = (Ret resp, s2) ∧
    upload_outcome s_object b (bytes_of_string "hello") (with_name "notes.txt" no_metadata) noConditions (Ret resp) s2.
Proof.
  destruct sample_transcript as [resps Ht].
  assert ((λ o, match o with Ret r => response_status r | _ => None end)
    (startResumableUpload start_request "photos" noConditions s_object).1 = Some 200%Z) as Hst by by_running.
  destruct (startResumableUpload start_request "photos" noConditions s_object) as [o s0] eqn:E.
  destruct o as [resp0|e|x| |]; [|exfalso; cbn in Hst; discriminate Hst..].
  assert (reachable (store s_object)) as Hr by exact reachable_object.
  assert (faults (store s_object) = []) as Hf by by_running.
  destruct (resumable_upload s_object start_request "photos" noConditions (with_name "notes.txt" no_metadata)
    resp0 s0 sample_parts resps (bytes_of_string "hello") last_part Hr Hf eq_refl E Hst Ht eq_refl)
    as (b & s1 & s2 & resp & Hn & _ & _ & _ & Hlast & Hout & _).
  exists b, s1, s2, resp. exact (conj Hn (conj Hlast Hout)).
Defined.

(** ** A chunk cut short *)

(** The next chunk, of which only the bytes [d] come: the connection breaks, or the
    body ends and is not as long as the range says. *)
Definition cut_short (c : bytes) (r : request) (d : bytes) : Prop :=
  concat (Body r).1 = d ∧
  ∃ end_ total, content_range r = chunk_header (N.of_nat (length c)) end_ total ∧
    (Z.of_N end_ + 1 < 2 ^ 63)%Z ∧ (is_Some (Body r).2 ∨ (Z.of_N end_ + 1)%Z ≠ Z.of_nat (length (c ++ d))).
(** The next chunk, which is the last. *)
Definition last_chunk (c : bytes) (r : request) (d : bytes) : Prop :=
  carries r d ∧ ∃ end_ total, content_range r = chunk_header (N.of_nat (length c)) end_ total ∧ small_total total ∧
    (Z.of_N end_ + 1 = Z.of_nat (length (c ++ d)))%Z ∧ total_value total = Z.of_nat (length (c ++ d)).

(** The writer takes what comes, however the body ends. *)
Lemma io_Copy_end p ps e : ∀ n w k w',
  io_Copy p ps None n w = (Ret (k, None), w') → io_Copy p ps e n w = (Ret (k, e), w').
Proof.
  induction ps as [|[|a q] ps IH]; intros n w k w'; cbn [io_Copy]; [by intros [= <- <-]|apply IH|].
  unfold bind. destruct (Write p (a :: q) w) as [[[m [e'|]]|e'|x| |] w1]; try done.
  destruct (negb _); [done|apply IH].
Qed.

(** Nothing fails: what comes of the chunk is in the writer. *)
Lemma copy_calm s p us bw b r :
  world_ok (store s) → faults (store s) = [] → us_heap s !! p = Some us → writing (store s) (us_bw us) bw →
  handles (store s) !! w_b bw = Some b →
  ∃ w' bw', copy_chunk p r s = (Ret (int64 (Z.of_nat (length (concat (Body r).1))), (Body r).2), set_store w' s) ∧
    world_ok w' ∧ kept (store s) w' ∧ writing w' (us_bw us) bw' ∧ w_sha bw' = w_sha bw ++ concat (Body r).1 ∧
    handles w' !! w_b bw' = Some b.
Proof.
  intros Hok Hf Hus Hw Hb.
  assert (triple (store s) (io_Copy (us_bw us) (Body r).1 None 0)
    (λ x w', x = (int64 (Z.of_nat (length (concat (Body r).1))), None) ∧ ∃ bw', world_ok w' ∧ kept (store s) w' ∧
       writing w' (us_bw us) bw' ∧ w_sha bw' = w_sha bw ++ concat (Body r).1 ∧ handles w' !! w_b bw' = Some b)
    (λ _ _, False) (C_rel same_tables (store s))) as Hcopy.
  { eapply triple_errorless; [intros; apply io_Copy_no_error|]. apply (triple_io_Copy same_tables (store s) _ (λ _ _, False) _ _ _ _ bw); [done|apply kept_refl|done|].
    intros w' bw' k [e|] Hok' Hk' Hh' Hw' (Hb' & _ & _) Herr; [destruct Herr as [[]|]; done|].
    destruct Herr as (_ & Hsha & Hn). split; [by rewrite Hn by done|]. exists bw'. by rewrite Hh', Hb'. }
  unfold triple, wp in Hcopy. destruct (io_Copy _ _ _ _ _) as [[[k e]|e|x| |] w'] eqn:E; cbn in Hcopy; try done.
  - destruct Hcopy as ([= -> ->] & bw' & Hok' & Hk' & Hw' & Hsha & Hb'). exists w', bw'. split; [|done].
    apply io_Copy_end with (e := (Body r).2) in E. unfold copy_chunk, bind, load_session. rewrite Hus. unfold call, zoom. by rewrite E.
  - destruct Hcopy as (_ & _ & Hfail). done.
Qed.

Lemma chunk_cut s r id p b meta conds c d :
  sessions s !! id = Some p → session_at s p b meta conds c → faults (store s) = [] → fits (c ++ d) →
  upload_method r → cut_short c r d →
  wp (handleResumableChunk r id) (λ o s',
    (∃ code reason msg, o = Ret (writeError code reason msg) ∧ (code = 400 ∨ code = 500)%Z) ∧
    kept (store s) (store s') ∧ sessions s' !! id = Some p ∧ session_holds s' p b meta conds c (c ++ d)) s.
Proof.
  intros Hp Hs Hf Hfits Hmethod (Hd & end_ & total & Hrange & Hmax & Hcut).
  eapply chunk_entry; [exact Hmethod|exact Hp|exact Hs|]. intros us Hoff Hus.
  destruct Hs as [Hok (us0 & bw & Hus0 & Hdone & Hm & Hc & _ & Hw & Hsha & Hb)]. rewrite Hus in Hus0. apply (inj Some) in Hus0 as <-.
  destruct (copy_calm s p us bw b r Hok Hf Hus Hw Hb) as (w' & bw' & Ecopy & Hok' & Hk & Hw' & Hsha' & Hb').
  rewrite Hd in *. assert (session_holds (set_store w' s) p b meta conds c (c ++ d)) as Hholds.
  { split; [done|]. exists us, bw'. by rewrite Hsha', Hsha. }
  pose proof (fits_prefix _ _ Hfits) as Hfc.
  unfold session_chunk. fold (content_range r). rewrite Hrange, match_probe_chunk, match_chunk_header.
  rewrite !ParseInt_pretty by (unfold fits in *; lia). cbn [fst]. rewrite nat_N_Z, Hoff, Z.eqb_refl. cbn [negb].
  apply wp_bind. unfold wp at 1. rewrite Ecopy. cbn [fst snd bind_post].
  destruct (Body r).2 as [e|] eqn:Ebody.
  - apply wp_ret. split; [do 3 eexists; split; [done|by right]|done].
  - assert (int64 (Z.of_nat (length d)) ≠ int64 (Z.of_N end_ - Z.of_nat (length c) + 1)) as Hne.
    { destruct Hcut as [[? ?]|Hne]; [done|]. unfold fits in *. rewrite length_app in *. rewrite !int64_small by lia. lia. }
    rewrite (proj2 (Z.eqb_neq _ _)) by done. cbn [negb]. apply wp_ret.
    split; [do 3 eexists; split; [done|by left]|done].
Qed.

Lemma chunk_resent s r id p b meta conds c x d :
  sessions s !! id = Some p → session_holds s p b meta conds c x → faults (store s) = [] → fits (c ++ d) →
  upload_method r → last_chunk c r d →
  wp (handleResumableChunk r id) (upload_outcome s b (x ++ d) meta conds) s.
Proof.
  intros Hp Hs Hf Hfits Hmethod (Hbody & end_ & total & Hr & Ht & Hend & Heq).
  eapply chunk_entry; [exact Hmethod|exact Hp|exact Hs|]. intros us Hoff Hus.
  eapply next_chunk; [exact Hs|exact Hus|exact Hoff|exact Hr|exact Hbody|exact Ht|exact Hend|exact Hfits| |by intros o s' ?].
  intros s' (Hk & Hcalm & _) Hsess Hs'. eapply wp_mono; [by apply (finish_chunk_ends s' r id p b meta conds (c ++ d) (x ++ d))|].
  intros o s2. cbv beta; rewrite decide_True by done. intros [Ho Hn]. by eapply upload_outcome_pre.
Qed.

(** C39: A chunk of which only a part comes, because the connection breaks or because
    the body is shorter, or longer, than its range says, is answered with an error
    and does not advance the session's offset, but what came stays in the writer:
    when the client sends the last chunk again, as the offset tells it to, the
    upload that is committed, and answered with 200 unless the client announced
    its checksums or the store refuses it, has the bytes of the first try before
    those of the second. *)
Theorem failed_chunk_duplicated s id b meta conds c r d r' d' :
  in_progress s id b meta conds c → faults (store s) = [] → fits (c ++ d) → fits (c ++ d') →
  upload_method r → cut_short c r d → upload_method r' → last_chunk c r' d' →
  wp (handleResumableChunk r id) (λ o s1,
    (∃ code reason msg, o = Ret (writeError code reason msg) ∧ (code = 400 ∨ code = 500)%Z) ∧
    wp (handleResumableChunk r' id) (upload_outcome s b (c ++ d ++ d') meta conds) s1) s.
Proof.
  intros (p & Hp & Hs) Hf Hfits Hfits' Hm Hr Hm' Hr'. eapply wp_mono; [by apply (chunk_cut s r id p b meta conds c d)|]. cbn beta.
  intros o s1 (Ho & (Hk & Hcalm & _) & Hp1 & Hs1). split; [done|].
  eapply wp_mono; [eapply chunk_resent; [exact Hp1|exact Hs1|by apply Hcalm|done..]|].
  intros o' s2 Ho'. rewrite app_assoc. by eapply upload_outcome_pre.
Qed.

(** The size and digest of an object. *)
Definition stored_as (w : world) (n name : string) : option (Z * string) :=
  match tables w n with
  | Some t => (λ row, (r_size row, r_sha256 row)) <$> t !! name
  | None => None
  end.

Definition whole_header : string := chunk_header 0 4 (Some 5%N).
(** The body is shorter than the range says. *)
Definition short_request : request := part_request whole_header [first_part].
(** The connection breaks in the middle of the body. *)
Definition broken_request : request :=
  mkRequest "PUT" "" "" ∅ {["Content-Range" := [whole_header]]} ([first_part], Some ErrUnexpectedEOF) 5 false "localhost" [].
Definition retry_request : request := part_request whole_header [bytes_of_string "hello"].

Definition reply_status (o : outcome (response json_value)) : option Z :=
  match o with Ret r => response_status r | _ => None end.

(** A chunk that fails and is sent again: the two replies, and the object then. *)
Definition chunk_sent_again (r : request) : option Z * option Z * option (Z * string) :=
  let id := hex_EncodeToString (random start_request) in
  let started := startResumableUpload start_request "photos" noConditions s_object in
  let first_try := handleResumableChunk r id started.2 in
  let second_try := handleResumableChunk retry_request id first_try.2 in
  (reply_status first_try.1, reply_status second_try.1, stored_as (store second_try.2) "photos" "notes.txt").

Example chunk_sent_again_ex :
  chunk_sent_again short_request = (Some 400%Z, Some 200%Z, Some (8%Z, sha_hex (bytes_of_string "helhello"))) ∧
  chunk_sent_again broken_request = (Some 500%Z, Some 200%Z, Some (8%Z, sha_hex (bytes_of_string "helhello"))).
Proof. split; by_running. Qed.

(** The session that the failing requests find. *)
Definition s_started : Server := (startResumableUpload start_request "photos" noConditions s_object).2.
Definition sample_id : string := hex_EncodeToString (random start_request).

Lemma sample_session : ∃ b, b_name b = "photos" ∧ in_progress s_started sample_id b (with_name "notes.txt" no_metadata) noConditions [].
Proof.
  assert ((λ o, match o with Ret r => response_status r | _ => None end)
    (startResumableUpload start_request "photos" noConditions s_object).1 = Some 200%Z) as Hst by by_running.
  unfold s_started. destruct (startResumableUpload start_request "photos" noConditions s_object) as [o s0] eqn:E.
  destruct o as [resp0|e|x| |]; [|exfalso; cbn in Hst; discriminate Hst..].
  destruct (start_session s_object start_request "photos" noConditions (with_name "notes.txt" no_metadata) resp0 s0)
    as (b & Hb & _ & _ & Hs); [exact (reachable_ok _ reachable_object)|by_running|reflexivity|exact E|exact Hst|].
  exists b. exact (conj Hb Hs).
Qed.

Lemma failed_chunk_duplicated_witness :
  chunk_sent_again broken_request = (Some 500%Z, Some 200%Z, Some (8%Z, sha_hex (bytes_of_string "helhello"))) ∧
  ∃ b, b_name b = "photos" ∧
  wp (handleResumableChunk broken_request sample_id) (λ o s1,
    (∃ code reason msg, o = Ret (writeError code reason msg) ∧ (code = 400 ∨ code = 500)%Z) ∧
    wp (handleResumableChunk retry_request sample_id)
      (upload_outcome s_started b ([] ++ first_part ++ bytes_of_string "hello") (with_name "notes.txt" no_metadata) noConditions) s1)
    s_started.
Proof.
  split; [exact (proj2 chunk_sent_again_ex)|]. destruct sample_session as (b & Hb & Hs). exists b. split; [exact Hb|].
  apply (failed_chunk_duplicated s_started sample_id b _ _ [] _ first_part); [exact Hs|by_running|reflexivity|reflexivity|by left| |by left|].
  - split; [reflexivity|]. exists 4%N, (Some 5%N). split; [reflexivity|]. split; [reflexivity|]. left. by exists ErrUnexpectedEOF.
  - split; [done|]. exists 4%N, (Some 5%N). split_and!; reflexivity.
Defined.
